(* ===== verification/_CoqProject ===== *)
-Q . S2P
Prelude.v
RustStd.v
External.v
Models.v
Aggregator.v
AggregatorProps.v
SettledWindows.v
BinaryDecoder.v
Stores.v
Mint.v
MintProps.v
Settlement.v
SettlementSafety.v
DeviceKeys.v
DeviceKeysProps.v
MeterRegistry.v
Dlms.v
Handlers.v
HandlersProps.v
Auth.v
GrpcService.v
GrpcProps.v
Router.v
WireRef.v
GridStatus.v
ZoneIngester.v
SweepTick.v
ZoneIngesterProps.v
Delivery.v
DeliveryProps.v
Fleet.v
FleetProps.v
Billed.v
Dispatch.v
DispatchProps.v
OpenLeadr.v
Ven.v
VenProps.v
Storage.v
StorageProps.v
OwnerReadModel.v
OwnerReadModelProps.v
Sinks.v
SinksProps.v
Batcher.v
Messaging.v
StreamKey.v
Startup.v
Metrics.v
MetricsProps.v
Gateway.v
GatewayProps.v
Boot.v
BootProps.v
Loops.v
Lifecycle.v
KeyRegistries.v
Clients.v
