(* ===== verification/Prelude.v ===== *)
(** * GridTokenX Aggregator Bridge: verification library

    The bridge takes smart-meter telemetry over REST and gRPC, authenticates and
    decodes it, publishes it to zone-partitioned Redis streams, bins it into
    15-minute billing windows, and mints the net surplus of every closed window
    through Chain Bridge.  Beside that path it dispatches flexibility when the grid
    frequency leaves its band, takes part in OpenADR programs, keeps a read model of
    meter ownership, and buffers telemetry while it is offline.  This library translates the service from the Rust sources
    (paths below are relative to [src/crates/] unless they start with [src/]) into
    executable definitions and proves what the parts promise one another.

    ** The path of a reading, and the files that model it

    - Authentication: [Auth] (aggregator-api/src/auth.rs: the API-key middleware).
    - Ingestion: [Handlers] (aggregator-api/src/handlers.rs: the REST handlers,
      their gates, the encrypted envelope), [GrpcService]
      (aggregator-api/src/grpc/service.rs: single, batch and bulk RPCs); [Gateway]
      completes both with the dissemination of what they accept: responses, the bounded
      concurrency of the batch handler, the broker publications of the single one.
    - Keys and signatures: [DeviceKeys] (aggregator-persistence/src/infra/crypto.rs),
      once for both registries; [KeyRegistries] has the two structures of the source.
      [GrpcService] uses it through the class [SignatureVerifier], whose instance
      [registry_verifier] is proved lawful in [GrpcProps].
    - Decoding: [BinaryDecoder] (aggregator-stacks/src/binary_decoder.rs, secure
      frames), [Dlms] (aggregator-stacks/src/stacks/dlms.rs, OBIS payloads),
      [Models] (aggregator-core: readings, numeric conversion).
    - Dissemination: [Router] (aggregator-logic/src/router.rs and the cipher of
      aggregator-persistence/src/infra/stream_cipher.rs).
    - Zone ingestion: [ZoneIngester] (aggregator-api/src/ingester), [GridStatus]
      (aggregator-logic/src/grid_status.rs); [Delivery] composes the router, the
      stream with its consumer group, the worker, the redelivery loop and the bin
      writer of one zone; [Fleet] puts several such bridges on one Redis; [Billed]
      joins one of them to the settlement sweep and the workers of the other zones.
    - Billing: [Aggregator] (aggregator-logic/src/aggregator.rs).
    - Durable state: [Stores] (aggregator-logic: redis_hash.rs, bin_store.rs,
      mint_outbox.rs), [MeterRegistry]
      (aggregator-persistence/src/infra/meter_registry.rs).
    - History: [Sinks] (aggregator-persistence/src/infra: pg_readings.rs, influxdb.rs;
      the batching writer is one generic definition with two instances).
    - Settlement: [Mint] (aggregator-persistence/src/infra/mint.rs,
      aggregator-logic/src/mint_settlement.rs), [Settlement] (billing_sink.rs,
      zone_balance.rs, and the sweep and drain loops of src/src/main.rs), [SweepTick]
      (one whole tick of the settlement loop with its zone log).

    ** Beside the path of a reading

    - Dispatch: [Dispatch] (aggregator-logic/src/dispatch: the engine, the adapter
      interface as the class [DispatchAdapter], the retrying gRPC client).
    - Standards: [OpenLeadr] (standards/ieee2030_5.rs and openleadr.rs, two instances
      of that class) and [Ven] (standards/openleadr_ven.rs, the OpenADR listener with
      its dedup store).
    - Store and forward: [Storage] (aggregator-persistence/src/storage: the SQLite
      buffer and the replay loop).
    - Ownership feed: [OwnerReadModel] (infra/owner_read_model.rs: both tables, every
      statement, the backfill, the repair and the event decoder).
    - Batch worker: [Batcher] (aggregator-api/src/ingester/batcher.rs).
    - Clients: [Clients] (infra: platform/client.rs, db.rs; the flush of the batch worker
      around the forward it bypasses).
    - Message producers: [Messaging] (infra: kafka.rs, rabbitmq.rs).
    - The stream key: [StreamKey] (infra: stream_cipher.rs, vault.rs).
    - Wiring: [Startup] (src/src/main.rs: expansion of settings, the gates of the
      optional parts, periodic tasks, publisher and listener loops, routes, TLS),
      [Boot] (all of [main] up to the running service, over a record of what the
      outside world answers; the constructors of the clients; the migration job) and
      [Lifecycle] (the tasks of the ingester and the process, from start to exit).
    - Polling tasks: [Loops] (the loops around the OpenADR poll and around the
      consumer of the ownership feed).
    - Metrics: [Metrics] (aggregator-logic/src/metrics, aggregator-api/src/state.rs:
      every series with its labels, and what the sweep, a mint batch and the API-key
      layer record).

    [Prelude] (this file) holds the [outcome] type and its [let?] notation, the
    integer widths, IEEE doubles ([F64], on [SpecFloat]), the closure [steps] of a
    step relation, list lemmas, tactics and the [bridge] hint database.  [RustStd]
    writes out the standard library the sources use (integer text, trimming,
    splitting, big-endian bytes, lossy UTF-8, SipHash).  [External] has one class
    per linked crate, and one class of laws for the documented behaviour some
    theorem needs; [WireRef] and the [*_ref] instances are concrete
    implementations on which statements are evaluated.

    ** How code becomes definitions

    A Rust function is a Rocq function; [Result] and panics are [outcome] ([Err] and
    [Panic]); [Option] is [option]; a struct is a [Record]; a HashMap is a [gmap],
    or a list with theorems for every permutation where iteration order shows.
    Mutable state is passed explicitly.  Integers are [Z] with their width written
    out ([wrap], [in_i64], [sat_i64]), floats are binary64.  Time is an argument:
    every clock read of the code is one.  A Redis command has an [io] outcome: done,
    failed with effect (a lost reply), failed without effect.  A network peer (IAM,
    Chain Bridge, Postgres, Vault) is the data it answers with.  Tasks that run
    concurrently (settlement sweep, spawned mints, drain, ingest) are interleaved
    command by command in the step relation of [SettlementSafety], crashes
    included; the zone worker's deliveries and reclaims in [ZoneIngesterProps], and
    with the router, Redis and restarts in [Delivery], for several bridges in [Fleet]; the
    pushes and the replay loop of the buffer in [Storage]; polls and restarts of the
    OpenADR listener in [VenProps]; the publishing tasks of the Kafka producer in
    [Messaging]; the boots of a fleet of bridges in [StreamKey]; the disseminations of
    a REST batch in [Gateway]; the updates of the request counters in [Metrics]; the
    workers, the redelivery loop and the shutdown in [Lifecycle].

    Recursion that is not structural carries fuel: the TLV loop and the bulk split
    use the length of their input, and every round consumes at least one byte
    ([tlv_loop_fuel], [split_fuel]); integer text uses the binary logarithm
    ([log2_fuel]); [slice::chunks] uses the list length.  The gRPC retry needs fuel 3
    ([grpc_retry_terminates]); the expansion of a setting needs one turn per dollar
    sign and one more when no value contains one ([expand_terminates]), and is shown
    to diverge on a self-reference ([self_reference_hangs]).

    ** What the theorems show

    - Billing ([SettledWindows], on the lemmas of [AggregatorProps]): readings fall
      into the quarter hour that contains them; over any trace of readings and
      drains every accepted reading is in exactly one bin, with exact sums
      ([energy_conserved]); a window settles at most once while its memory lasts;
      late readings are excluded; windows complete in event time.
    - Durability ([Stores], [SettlementSafety], [ZoneIngesterProps]): the Redis bin
      store is a faithful map under any faults ([crash_recovery]); the write-through
      channel mirrors the open bins ([writethrough_recovers]); under every
      interleaving, fault and crash a stored surplus is in the store, the outbox,
      the parked hash or on chain, or was released for a stated reason
      ([surplus_never_lost]); the sweep and the drain of main.rs are runs of that
      relation ([sweep_refines], [drain_refines]).
    - A tick ([SweepTick]): every bin drained in any run of the ingester is settled, one
      result each ([tick_settles_all]); the balances are the totals of the zones that
      occur, in order ([balances_by_zone]).
    - Minting ([MintProps]): a confirmation is a signed bridge success, the in-flight
      set admits one attempt per key and is restored, a batch accounts for each of
      its entries, idempotency keys round-trip.
    - Security ([HandlersProps], [GrpcProps], [DeviceKeysProps], [Auth]): secure mode
      admits only encrypted, fresh, signed frames; every path fails closed; a bulk
      payload splits exactly as packed; plaintext is for development only; batch
      verdicts are single verdicts; cached verdicts have bounded age; replay
      counters strictly increase; admission by API key is always justified.
    - Decoding and transport ([BinaryDecoder], [Dlms], [ZoneIngesterProps]): frames
      round-trip and panic on exactly one class of inputs; the decoded energy does
      not depend on map order; a successful dissemination puts the reading at the
      head of its zone's stream, and a zone ingester decodes it to itself, sealed
      or not; zone indices are in range.
    - Delivery ([DeliveryProps]): a reading published to an existing consumer group
      is handled, pending, still ahead of the group, or was trimmed behind a full
      stream ([delivered_at_least_once]); what waits can always be handled
      ([delivery_progress]); only published readings are handled; every stream has
      one worker.
    - Several bridges ([FleetProps]): the same guarantee holds for a fleet, whichever
      member reads, fails, restarts or claims ([fleet_at_least_once]); while nothing has
      to be claimed no entry is handled twice ([handled_at_most_once]); a fleet of one is
      [Delivery] ([lone_bridge]).
    - End to end ([Billed]): while a bridge stays up and nothing is claimed, a published
      entry that is acknowledged is in the ledger exactly once, with the energy of its
      reading, and the drained and open bins hold exactly the ledger
      ([entry_billed_once]).
    - Clients ([Clients]): a failed forward would keep the batch
      ([forward_failure_keeps]), the ingester starts without the platform
      ([platform_optional]), a recorded point never displaces another.
    - Ownership ([MeterRegistry]): a registration resolves, a resolution sticks, an
      unknown answer is recent.
    - Dispatch ([DispatchProps]): the targets of every configured engine are known,
      distinct and non-empty; one failing target affects no other
      ([fan_out_isolated]); two dispatches of one action to one target are a cooldown
      apart in every run ([cooldown_spacing]); a command has an excursion and
      capacity behind it; the gRPC client makes at most three calls.
    - OpenADR ([VenProps], [OpenLeadr]): over polls and restarts an interval of an
      event version executes at most once, a due interval is executed, the dedup
      marks survive a restart, a simulated adapter never attests, setpoints
      round-trip, a stale program handle is re-resolved.
    - Store and forward ([StorageProps]): a pushed reading is in the table unsent or
      at the gateway, is replayed in order, and the backlog drains.
    - Ownership feed ([OwnerReadModelProps]): the merged rows do not depend on how the
      two event streams interleave, an unlinked wallet does not come back, the
      backfill is idempotent.
    - History ([SinksProps]): the writer task keeps acceptance order and loses nothing
      it accepted ([writer_fifo], [writer_drains]); the table holds the attributed
      readings and the counter the others; a confirmation marks exactly the readings
      of the bin's window ([mint_marks_window]) and is final.
    - Batch worker ([Batcher]): groups are exact, only batched entries are
      acknowledged, a shutdown acknowledges all of them.
    - Producers and key ([Messaging], [StreamKey]): a Kafka client is replaced by one
      task at a time and only after ten failures; a fleet of bridges converges on the
      stored stream key.
    - Gateway ([GatewayProps]): an accepted reading is published, decodes to itself and
      is verified where signatures are enforced ([accepted_is_published]); a batch is
      answered in order and its acknowledgements are exactly the published rows
      ([batch_acknowledged], [batch_terminates]).
    - Start and stop ([BootProps], [Lifecycle]): the bridge starts exactly when its
      mandatory parts do ([boots_exactly]), and what its router publishes its own
      ingester reads ([booted_pipeline]); mutual TLS trusts the whole client CA file or
      does not start; a shutdown always makes progress ([shutdown_progress]); one
      stream's redelivery does not touch another's.
    - Registries ([KeyRegistries]): the AES-key lookup of the source is the generic one
      ([aes_lookup_refines]); the entries of distinct devices and versions are distinct
      ([device_entries_disjoint]).
    - Polling ([Loops]): failed polls leave no trace ([outage_leaves_no_trace]); the
      read model is the received messages applied in order
      ([feed_applies_received]); a fenced consumer is rebuilt.
    - Metrics ([MetricsProps]): the settlement counters are exact
      ([settlement_counters_exact]); the request counters agree under every
      interleaving.
    - Wiring ([Startup]): expansion terminates, a blank API key is never static,
      execution reports need actuation or an explicit request, ingest routes are
      behind the API-key layer.
    - Behaviour the authors may not intend is stated as theorems too:
      [retried_reading_billed_twice], [fleet_splits_window],
      [redelivery_counts_twice], [poison_blocks_redelivery],
      [acked_before_durable], [before_group_skipped],
      [foreign_frame_credited], [negative_count_panics], [short_frame_panics],
      [reenqueue_replaces], [park_after_remove_strays],
      [backfilled_window_resettles], [wallet_never_refreshed],
      [stale_miss_releases_surplus], [legacy_path_ungated],
      [signature_binds_kwh_only], [static_key_cached], [volume_order_dependent],
      [large_counter_refused], [capacity_ignores_clock],
      [low_frequency_reduces_power], [zero_setpoint_flips],
      [hidden_event_executes_twice], [absurd_duration_panics_after_dispatch],
      [unreachable_gateway_spins], [unsynced_unbounded],
      [registration_snapshot_wins], [redelivered_registration_relinks],
      [one_bad_row_drops_batch], [spelling_shares_confirmation],
      [failed_unwrap_rotates], [self_reference_hangs],
      [zero_interval_stops_settlement], [client_ca_alone_is_plaintext],
      [iam_error_counts_twice], [batch_confirms_unsigned], [batch_skips_brokers],
      [legacy_skips_brokers], [bulk_counts_unpublished], [frame_voltage_dropped],
      [no_boot_without_redis], [no_sink_no_settlement], [bins_only_grow],
      [zero_zones_panic], [zero_cap_keeps_nothing], [process_leaves_early],
      [gave_up_is_final], [pruned_version_still_served], [migrate_reaches_shared].

    ** What is not modelled

    What a client library does below its interface (the NATS, Kafka, AMQP, Redis,
    Postgres and HTTP clients, the TLS stack, the rendering of metrics), logging and
    the handling of signals; the lengths of the timers of the zone workers; the envelope signer, the circuit breaker and the
    protobuf types, which live outside the repository.  [Instant] arithmetic is
    unbounded, and an allocation that exhausts memory is not an outcome.  Rounding of
    numeric database columns is the database's.  In [Billed] the runs have no restart and
    no claim: with either an entry can be handled again, which [redelivery_counts_twice]
    and [acked_before_durable] state. *)

From Stdlib Require Import ZArith Lia.
From Stdlib Require Import SpecFloat.
From stdpp Require Import base gmap strings list numbers.

(** ** Notations, outcomes and shared automation *)

Declare Scope bridge_scope.
Delimit Scope bridge_scope with bridge.

(** The result of a Rust call: a value, an error value ([anyhow::Error] and the
    like), or an unwound panic. *)
Inductive outcome (E A : Type) : Type :=
| Ok (a : A)
| Err (e : E)
| Panic.

Arguments Ok {E A} a.
Arguments Err {E A} e.
Arguments Panic {E A}.

(** The [?] operator: errors and panics leave the enclosing function. *)
Definition obind {E A B : Type} (c : outcome E A) (k : A -> outcome E B) : outcome E B :=
  match c with
  | Ok a => k a
  | Err e => Err e
  | Panic => Panic
  end.

Notation "'let?' x := c 'in' k" := (obind c (fun x => k))
  (at level 10, x pattern, c at level 100, k at level 200) : bridge_scope.

(** [bail!]/early return on a failed guard, and [unwrap] on an option. *)
Definition ensure {E : Type} (b : bool) (e : E) : outcome E unit :=
  if b then Ok () else Err e.

Definition ok_or {E A : Type} (o : option A) (e : E) : outcome E A :=
  match o with Some a => Ok a | None => Err e end.

Definition unwrap {E A : Type} (o : option A) : outcome E A :=
  match o with Some a => Ok a | None => Panic end.

Definition is_ok {E A : Type} (o : outcome E A) : bool :=
  match o with Ok _ => true | _ => false end.

Definition is_panic {E A : Type} (o : outcome E A) : bool :=
  match o with Panic => true | _ => false end.

(** [Result::ok] and [unwrap_or]. *)
Definition ok_of {E A : Type} (o : outcome E A) : option A :=
  match o with Ok a => Some a | _ => None end.

Create HintDb bridge.

(** Case analysis on the scrutinee of a [match]/[if] of the goal or a hypothesis. *)
Ltac split_match :=
  match goal with
  | |- context [match ?x with _ => _ end] => destruct x eqn:?
  | H : context [match ?x with _ => _ end] |- _ => destruct x eqn:?
  end.

(** Turn boolean tests in hypotheses into arithmetic facts. *)
Ltac breflect :=
  repeat match goal with
  | H : (_ && _)%bool = true |- _ => apply andb_true_iff in H as [? ?]
  | H : (_ && _)%bool = false |- _ => apply andb_false_iff in H as [?|?]
  | H : (_ || _)%bool = true |- _ => apply orb_true_iff in H as [?|?]
  | H : (_ || _)%bool = false |- _ => apply orb_false_iff in H as [? ?]
  | H : negb _ = true |- _ => apply negb_true_iff in H
  | H : negb _ = false |- _ => apply negb_false_iff in H
  | H : (_ <=? _)%Z = true |- _ => apply Z.leb_le in H
  | H : (_ <=? _)%Z = false |- _ => apply Z.leb_gt in H
  | H : (_ <? _)%Z = true |- _ => apply Z.ltb_lt in H
  | H : (_ <? _)%Z = false |- _ => apply Z.ltb_ge in H
  | H : (_ =? _)%Z = true |- _ => apply Z.eqb_eq in H
  | H : (_ =? _)%Z = false |- _ => apply Z.eqb_neq in H
  | H : (_ <=? _)%nat = true |- _ => apply Nat.leb_le in H
  | H : (_ <=? _)%nat = false |- _ => apply Nat.leb_gt in H
  | H : (_ <? _)%nat = true |- _ => apply Nat.ltb_lt in H
  | H : (_ <? _)%nat = false |- _ => apply Nat.ltb_ge in H
  | H : (_ =? _)%nat = true |- _ => apply Nat.eqb_eq in H
  | H : (_ =? _)%nat = false |- _ => apply Nat.eqb_neq in H
  | H : String.eqb _ _ = true |- _ => apply String.eqb_eq in H
  | H : String.eqb _ _ = false |- _ => apply String.eqb_neq in H
  end.

(** ** Machine integers: [Z] with the wrap-around written out *)

Section Integers.
Open Scope Z_scope.

(** [as u8], [as u64]: truncation to the low bits. *)
Definition wrap (w z : Z) : Z := z mod 2 ^ w.

(** [as i64]: two's complement reinterpretation. *)
Definition wrap_i64 (z : Z) : Z :=
  let r := wrap 64 z in if r <? 2 ^ 63 then r else r - 2 ^ 64.

Definition i64_min : Z := - 2 ^ 63.
Definition i64_max : Z := 2 ^ 63 - 1.

Definition in_i64 (z : Z) : bool := (i64_min <=? z) && (z <=? i64_max).

(** [i64::saturating_sub] / [saturating_mul] clamp to the range. *)
Definition sat_i64 (z : Z) : Z := Z.max i64_min (Z.min i64_max z).

(** [u64::saturating_sub]. *)
Definition sat_sub_u64 (a b : Z) : Z := Z.max 0 (a - b).

Definition in_width (w z : Z) : bool := (0 <=? z) && (z <? 2 ^ w).

Lemma wrap_bounds w z : 0 <= w -> 0 <= wrap w z < 2 ^ w.
Proof. intros. unfold wrap. apply Z.mod_pos_bound. lia. Qed.

Lemma wrap_small w z : 0 <= z < 2 ^ w -> wrap w z = z.
Proof. intros. unfold wrap. by apply Z.mod_small. Qed.

Lemma wrap_add_l w a b : 0 <= w -> wrap w (wrap w a + b) = wrap w (a + b).
Proof. intros. unfold wrap. apply Z.add_mod_idemp_l. lia. Qed.

Lemma wrap_i64_id z : in_i64 z = true -> wrap_i64 z = z.
Proof.
  unfold in_i64, i64_min, i64_max, wrap_i64, wrap. intros; breflect.
  change (2 ^ 63) with 9223372036854775808 in *.
  change (2 ^ 64) with 18446744073709551616 in *.
  destruct (z <? 0) eqn:E; breflect.
  - replace (z mod _) with (z + 18446744073709551616)
      by (apply Z.mod_unique with (-1); lia).
    case_match; breflect; lia.
  - rewrite Z.mod_small by lia. case_match; breflect; lia.
Qed.

Lemma sat_i64_id z : in_i64 z = true -> sat_i64 z = z.
Proof. unfold in_i64, sat_i64. intros; breflect. lia. Qed.

Lemma sat_i64_bounds z : in_i64 (sat_i64 z) = true.
Proof.
  unfold in_i64, sat_i64, i64_min, i64_max.
  change (2 ^ 63) with 9223372036854775808.
  apply andb_true_iff; split; apply Z.leb_le; lia.
Qed.
End Integers.

(** ** [f64]: IEEE-754 binary64 as the Standard Library's executable
    specification, [prec = 53] and [emax = 1024]. *)

Abbreviation f64 := spec_float.

Module F64.
Definition zero : f64 := S754_zero false.
Definition add : f64 -> f64 -> f64 := SFadd 53 1024.
Definition sub : f64 -> f64 -> f64 := SFsub 53 1024.
Definition mul : f64 -> f64 -> f64 := SFmul 53 1024.
Definition div : f64 -> f64 -> f64 := SFdiv 53 1024.
Definition opp : f64 -> f64 := SFopp.
Definition abs : f64 -> f64 := SFabs.
Definition ltb : f64 -> f64 -> bool := SFltb.
Definition leb : f64 -> f64 -> bool := SFleb.

(** [n as f64] for an integer: round to nearest even. *)
Definition of_Z (z : Z) : f64 := binary_normalize 53 1024 z 0 false.

(** [m * 10^-k] rounded once, for the decimal literals of the source. *)
Definition of_decimal (m : Z) (k : nat) : f64 := div (of_Z m) (of_Z (10 ^ Z.of_nat k)).

Definition is_nan (x : f64) : bool :=
  match x with S754_nan => true | _ => false end.

Definition is_infinite (x : f64) : bool :=
  match x with S754_infinity _ => true | _ => false end.

Definition is_finite (x : f64) : bool := negb (is_nan x) && negb (is_infinite x).

(** [f64::max]: a NaN operand is ignored. *)
Definition max (a b : f64) : f64 :=
  if is_nan a then b else if is_nan b then a else if ltb a b then b else a.

Fixpoint sum (l : list f64) (acc : f64) : f64 :=
  match l with
  | [] => acc
  | x :: l => sum l (add acc x)
  end.
End F64.

(** ** Reflexive transitive closure of a step relation *)

Section Steps.
Context {S : Type} (step : S -> S -> Prop).

Inductive steps : S -> S -> Prop :=
| steps_refl s : steps s s
| steps_next s1 s2 s3 : steps s1 s2 -> step s2 s3 -> steps s1 s3.

Lemma steps_invariant (I : S -> Prop) s s' :
  (forall a b, I a -> step a b -> I b) -> I s -> steps s s' -> I s'.
Proof. intros Hstep Hs. induction 1; eauto. Qed.
End Steps.

#[export] Hint Constructors steps : bridge.

(** ** Lists: the lookups and folds the components share *)

Section Lists.
Context {A : Type}.

(** A slice [&l[a..b]]: [None] is the out-of-range panic. *)
Definition slice (l : list A) (a b : nat) : option (list A) :=
  if (a <=? b)%nat && (b <=? length l)%nat then Some (take (b - a) (drop a l)) else None.

Lemma slice_length (l r : list A) a b : slice l a b = Some r -> length r = b - a.
Proof.
  unfold slice. case_match; [|done]. intros [= <-]. breflect.
  rewrite length_take, length_drop. lia.
Qed.

Lemma slice_is_Some (l : list A) a b : a <= b <= length l -> is_Some (slice l a b).
Proof.
  intros. unfold slice. rewrite !(proj2 (Nat.leb_le _ _)) by lia. by eexists.
Qed.

Lemma slice_app_mid (p q r : list A) :
  slice (p ++ q ++ r) (length p) (length p + length q) = Some q.
Proof.
  unfold slice. rewrite !length_app.
  rewrite !(proj2 (Nat.leb_le _ _)) by lia. simpl. f_equal.
  rewrite drop_app_length. rewrite take_app_le by lia.
  apply take_ge. lia.
Qed.

Lemma slice_mid (l p q r : list A) a b :
  l = p ++ q ++ r -> length p = a -> (a + length q)%nat = b -> slice l a b = Some q.
Proof. intros -> <- <-. apply slice_app_mid. Qed.

Lemma fold_left_filter_app {B} (f : B -> A -> B) (P : A -> bool) l x b :
  fold_left f (List.filter P (l ++ [x])) b =
  if P x then f (fold_left f (List.filter P l) b) x else fold_left f (List.filter P l) b.
Proof.
  rewrite List.filter_app. simpl. case_match; simpl.
  - by rewrite fold_left_app.
  - by rewrite app_nil_r.
Qed.
End Lists.

(** A boolean [filter] respects permutation, so iteration orders of hash maps can
    be rewritten under it. *)
#[export] Instance list_filter_perm {A} (P : A -> bool) :
  Proper (Permutation ==> Permutation) (List.filter P).
Proof.
  intros l1 l2 H.
  induction H as [|x l1 l2 _ IH|x y l|l1 l2 l3 _ IH1 _ IH2]; simpl; [done|..].
  - case_match; [by constructor|done].
  - repeat case_match; try done. by constructor.
  - by rewrite IH1.
Qed.

(** ** Association from [f] over an option *)

Lemma option_bind_Some {A B} (f : A -> option B) (o : option A) b :
  o ≫= f = Some b -> exists a, o = Some a /\ f a = Some b.
Proof. destruct o; [eauto|done]. Qed.

(** ** Results of closed computations, tested by a boolean *)

Definition is_someb {A} (o : option A) : bool := match o with Some _ => true | None => false end.

Lemma is_someb_false {A} (o : option A) : is_someb o = false -> o = None.
Proof. by destruct o. Qed.

Lemma default_is_some {A} (d : A) (o : option A) : is_someb o = true -> o = Some (default d o).
Proof. by destruct o. Qed.

Lemma ok_pair_is_ok {E A B} (d : B) (p : A * outcome E B) :
  is_ok p.2 = true -> p = (p.1, Ok (default d (ok_of p.2))).
Proof. by destruct p as [a []]. Qed.

Lemma head_default_elem {A} (d : A) (l : list A) :
  is_someb (head l) = true -> default d (head l) ∈ l.
Proof. destruct l; [done|]. intros _. apply list_elem_of_here. Qed.

Lemma ok_is_ok {E A} (d : A) (o : outcome E A) : is_ok o = true -> o = Ok (default d (ok_of o)).
Proof. by destruct o. Qed.
