(* ===== verification/RustStd.v ===== *)
(** * The parts of Rust's standard library the bridge uses

    Strings are byte strings ([String.string]), so these definitions are exact on
    ASCII text; the bridge's identifiers, keys and protocol names are ASCII.
    [Display] and [FromStr] of integers, [trim], [split], [strip_prefix],
    [rsplit_once], the big-endian conversions and [DefaultHasher] (SipHash-1-3
    with zero keys) are written out. *)

From Stdlib Require Import ZArith Lia Ascii String.
From stdpp Require Import base gmap strings list numbers.
From S2P Require Import Prelude.

Open Scope Z_scope.

(** ** Characters and strings *)

Definition code (c : Ascii.ascii) : Z := Z.of_N (Ascii.N_of_ascii c).

Definition is_ascii_digit (c : Ascii.ascii) : bool :=
  (48 <=? code c) && (code c <=? 57).

(** ASCII members of Unicode [White_Space]: TAB, LF, VT, FF, CR and space. *)
Definition is_whitespace (c : Ascii.ascii) : bool :=
  ((9 <=? code c) && (code c <=? 13)) || (code c =? 32).

Definition to_ascii_lower (c : Ascii.ascii) : Ascii.ascii :=
  if (65 <=? code c) && (code c <=? 90)
  then Ascii.ascii_of_N (Z.to_N (code c + 32)) else c.

Fixpoint to_lowercase (s : string) : string :=
  match s with
  | EmptyString => EmptyString
  | String c s => String (to_ascii_lower c) (to_lowercase s)
  end.

Fixpoint trim_start_matches (p : Ascii.ascii -> bool) (s : string) : string :=
  match s with
  | EmptyString => EmptyString
  | String c s' => if p c then trim_start_matches p s' else s
  end.

Fixpoint trim_end_matches (p : Ascii.ascii -> bool) (s : string) : string :=
  match s with
  | EmptyString => EmptyString
  | String c s' =>
      match trim_end_matches p s' with
      | EmptyString => if p c then EmptyString else String c EmptyString
      | r => String c r
      end
  end.

Definition trim_matches (p : Ascii.ascii -> bool) (s : string) : string :=
  trim_end_matches p (trim_start_matches p s).

Definition trim (s : string) : string := trim_matches is_whitespace s.

Definition is_empty (s : string) : bool :=
  match s with EmptyString => true | _ => false end.

(** [str::split(c)]: always at least one piece. *)
Fixpoint split_char (c : Ascii.ascii) (s : string) : list string :=
  match s with
  | EmptyString => [EmptyString]
  | String d s =>
      if Ascii.eqb c d then EmptyString :: split_char c s
      else match split_char c s with
           | [] => [String d EmptyString]
           | p :: ps => String d p :: ps
           end
  end.

(** [chars().skip_while(p)]. *)
Definition skip_while (p : Ascii.ascii -> bool) (s : string) : string :=
  trim_start_matches p s.

Fixpoint strip_prefix (p s : string) : option string :=
  match p, s with
  | EmptyString, _ => Some s
  | String a p, String b s => if Ascii.eqb a b then strip_prefix p s else None
  | String _ _, EmptyString => None
  end.

(** [str::rsplit_once(c)]: split at the last occurrence. *)
Fixpoint rsplit_once (c : Ascii.ascii) (s : string) : option (string * string) :=
  match s with
  | EmptyString => None
  | String d s =>
      match rsplit_once c s with
      | Some (a, b) => Some (String d a, b)
      | None => if Ascii.eqb c d then Some (EmptyString, s) else None
      end
  end.

(** [str::split_once(c)]: split at the first occurrence. *)
Fixpoint split_once (c : Ascii.ascii) (s : string) : option (string * string) :=
  match s with
  | EmptyString => None
  | String d s =>
      if Ascii.eqb c d then Some (EmptyString, s)
      else match split_once c s with
           | Some (a, b) => Some (String d a, b)
           | None => None
           end
  end.

(** [str::split_once] on a string pattern. *)
Fixpoint split_once_str (pat s : string) : option (string * string) :=
  match strip_prefix pat s with
  | Some rest => Some (EmptyString, rest)
  | None =>
      match s with
      | EmptyString => None
      | String d s =>
          match split_once_str pat s with
          | Some (a, b) => Some (String d a, b)
          | None => None
          end
      end
  end.

(** The first piece of [str::split] on a set of characters. *)
Fixpoint take_until (p : Ascii.ascii -> bool) (s : string) : string :=
  match s with
  | EmptyString => EmptyString
  | String d s => if p d then EmptyString else String d (take_until p s)
  end.

Fixpoint contains_char (c : Ascii.ascii) (s : string) : bool :=
  match s with
  | EmptyString => false
  | String d s => Ascii.eqb c d || contains_char c s
  end.

(** ** Integers as decimal text *)

Definition digit (d : Z) : Ascii.ascii := Ascii.ascii_of_N (Z.to_N (48 + d)).

Definition digit_val (c : Ascii.ascii) : Z := code c - 48.

Fixpoint show_digits (fuel : nat) (z : Z) (acc : string) : string :=
  match fuel with
  | O => acc
  | S f =>
      let acc := String (digit (z mod 10)) acc in
      if z / 10 =? 0 then acc else show_digits f (z / 10) acc
  end.

(** [u64::to_string]: [log2 z + 1] digits always suffice. *)
Definition show_nonneg (z : Z) : string := show_digits (S (Z.to_nat (Z.log2 z))) z EmptyString.

(** [i64::to_string]. *)
Definition show_Z (z : Z) : string :=
  if z <? 0 then String "-"%char (show_nonneg (- z)) else show_nonneg z.

(** The digit loop of [from_str_radix(10)]: every character must be a digit. *)
Fixpoint parse_digits (s : string) (acc : Z) : option Z :=
  match s with
  | EmptyString => Some acc
  | String c s => if is_ascii_digit c then parse_digits s (acc * 10 + digit_val c) else None
  end.

(** [<uN>::from_str]: an optional [+], at least one digit, and the width's range. *)
Definition parse_unsigned (w : Z) (s : string) : option Z :=
  let body := match s with String "+"%char s => s | _ => s end in
  if is_empty body then None
  else match parse_digits body 0 with
       | Some z => if in_width w z then Some z else None
       | None => None
       end.

(** [i64::from_str]: an optional sign, at least one digit, and the i64 range. *)
Definition parse_i64 (s : string) : option Z :=
  let '(neg, body) :=
    match s with
    | String "-"%char s => (true, s)
    | String "+"%char s => (false, s)
    | _ => (false, s)
    end in
  if is_empty body then None
  else match parse_digits body 0 with
       | Some z => let z := if neg then - z else z in if in_i64 z then Some z else None
       | None => None
       end.

(** ** Bytes *)

(** A [u8] is a [Z] in [0, 256). *)
Definition bytes_ok (l : list Z) : bool := forallb (in_width 8) l.

(** [uN::from_be_bytes]. *)
Definition from_be_bytes (l : list Z) : Z := fold_left (fun acc b => acc * 256 + b) l 0.

(** [uN::to_be_bytes] on [n] bytes. *)
Fixpoint to_be_bytes (n : nat) (z : Z) : list Z :=
  match n with
  | O => []
  | S n => to_be_bytes n (z / 256) ++ [z mod 256]
  end.

Fixpoint bytes_of_string (s : string) : list Z :=
  match s with
  | EmptyString => []
  | String c s => code c :: bytes_of_string s
  end.

(** [String::from_utf8_lossy], as the bytes of the resulting string: a maximal
    invalid prefix becomes U+FFFD (bytes EF BF BD). *)
Definition utf8_lead (b : Z) : option (nat * Z * Z) :=
  if (194 <=? b) && (b <=? 223) then Some (1%nat, 128, 191)
  else if b =? 224 then Some (2%nat, 160, 191)
  else if b =? 237 then Some (2%nat, 128, 159)
  else if (225 <=? b) && (b <=? 239) then Some (2%nat, 128, 191)
  else if b =? 240 then Some (3%nat, 144, 191)
  else if (241 <=? b) && (b <=? 243) then Some (3%nat, 128, 191)
  else if b =? 244 then Some (3%nat, 128, 143)
  else None.

(** Continuation bytes taken after a lead byte, and whether all [n] were there. *)
Fixpoint utf8_cont (n : nat) (lo hi : Z) (l : list Z) : list Z * bool :=
  match n, l with
  | O, _ => ([], true)
  | S n, b :: l =>
      if (lo <=? b) && (b <=? hi)
      then let '(t, ok) := utf8_cont n 128 191 l in (b :: t, ok)
      else ([], false)
  | S _, [] => ([], false)
  end.

Fixpoint utf8_lossy (fuel : nat) (l : list Z) : list Z :=
  match fuel, l with
  | S f, b :: l =>
      if b <? 128 then b :: utf8_lossy f l
      else match utf8_lead b with
           | None => [239; 191; 189] ++ utf8_lossy f l
           | Some (n, lo, hi) =>
               let '(t, ok) := utf8_cont n lo hi l in
               (if ok then b :: t else [239; 191; 189]) ++ utf8_lossy f (drop (length t) l)
           end
  | _, _ => []
  end.

Definition string_of_bytes (l : list Z) : string :=
  fold_right (fun b s => String (Ascii.ascii_of_N (Z.to_N b)) s) EmptyString l.

Definition from_utf8_lossy (l : list Z) : string := string_of_bytes (utf8_lossy (length l) l).

(** ** [DefaultHasher]: SipHash-1-3 with the zero key *)

Module SipHash.
Definition w64 (z : Z) : Z := wrap 64 z.

Definition rotl (z k : Z) : Z :=
  Z.lor (w64 (Z.shiftl z k)) (Z.shiftr z (64 - k)).

Record st := St { v0 : Z; v1 : Z; v2 : Z; v3 : Z }.

Definition round (s : st) : st :=
  let v0 := w64 (s.(v0) + s.(v1)) in
  let v1 := Z.lxor (rotl s.(v1) 13) v0 in
  let v0 := rotl v0 32 in
  let v2 := w64 (s.(v2) + s.(v3)) in
  let v3 := Z.lxor (rotl s.(v3) 16) v2 in
  let v0 := w64 (v0 + v3) in
  let v3 := Z.lxor (rotl v3 21) v0 in
  let v2 := w64 (v2 + v1) in
  let v1 := Z.lxor (rotl v1 17) v2 in
  let v2 := rotl v2 32 in
  St v0 v1 v2 v3.

Definition init : st :=
  St 0x736f6d6570736575 0x646f72616e646f6d 0x6c7967656e657261 0x7465646279746573.

Definition absorb (s : st) (m : Z) : st :=
  let s := round (St s.(v0) s.(v1) s.(v2) (Z.lxor s.(v3) m)) in
  St (Z.lxor s.(v0) m) s.(v1) s.(v2) s.(v3).

Fixpoint le_word (l : list Z) : Z :=
  match l with
  | [] => 0
  | b :: l => b + 256 * le_word l
  end.

(** Whole little-endian words first, then the length-tagged tail. *)
Fixpoint blocks (fuel : nat) (s : st) (l : list Z) (len : Z) : st :=
  match fuel with
  | O => s
  | S f =>
      if (8 <=? length l)%nat
      then blocks f (absorb s (le_word (take 8 l))) (drop 8 l) len
      else absorb s (Z.lor (le_word l) (Z.shiftl (wrap 8 len) 56))
  end.

Definition finish (s : st) : Z :=
  let s := St s.(v0) s.(v1) (Z.lxor s.(v2) 0xff) s.(v3) in
  let s := round (round (round s)) in
  Z.lxor (Z.lxor s.(v0) s.(v1)) (Z.lxor s.(v2) s.(v3)).

Definition hash_bytes (l : list Z) : Z :=
  finish (blocks (S (length l)) init l (Z.of_nat (length l))).
End SipHash.

(** [str::hash] feeds the bytes and a [0xff] terminator. *)
Definition hash_str (s : string) : Z := SipHash.hash_bytes (bytes_of_string s ++ [255]).


(** ** Facts *)

#[local] Arguments Ascii.eqb : simpl never.

Lemma code_digit d : 0 <= d < 10 -> code (digit d) = 48 + d.
Proof.
  intros. unfold code, digit. rewrite Ascii.N_ascii_embedding by lia. lia.
Qed.

Lemma is_ascii_digit_digit d : 0 <= d < 10 -> is_ascii_digit (digit d) = true.
Proof.
  intros. unfold is_ascii_digit. rewrite code_digit by done.
  apply andb_true_iff; split; apply Z.leb_le; lia.
Qed.

Lemma digit_val_digit d : 0 <= d < 10 -> digit_val (digit d) = d.
Proof. intros. unfold digit_val. rewrite code_digit by done. lia. Qed.

(** Printing with enough fuel, then parsing from an accumulator [a]. *)
Lemma parse_show_digits fuel z acc a :
  0 <= z < 10 ^ Z.of_nat fuel -> (0 < fuel)%nat ->
  exists k, 0 <= k /\
    parse_digits (show_digits fuel z acc) a = parse_digits acc (a * 10 ^ k + z).
Proof.
  revert z acc. induction fuel as [|f IH]; intros z acc Hz Hf; [lia|].
  cbn [show_digits].
  assert (Hm : 0 <= z mod 10 < 10) by (apply Z.mod_pos_bound; lia).
  assert (Hz10 : z = 10 * (z / 10) + z mod 10) by (apply Z.div_mod; lia).
  rewrite Nat2Z.inj_succ, Z.pow_succ_r in Hz by lia.
  case_match; breflect.
  - exists 1. split; [lia|]. cbn [parse_digits].
    rewrite is_ascii_digit_digit, digit_val_digit by done. f_equal. lia.
  - destruct (decide (f = 0%nat)) as [->|Hf0].
    { change (Z.of_nat 0) with 0 in Hz. rewrite Z.pow_0_r in Hz. lia. }
    destruct (IH (z / 10) (String (digit (z mod 10)) acc)) as (k & Hk & Heq);
      [split; [apply Z.div_pos; lia|apply Z.div_lt_upper_bound; lia]|lia|].
    exists (k + 1). split; [lia|].
    rewrite Heq. cbn [parse_digits].
    rewrite is_ascii_digit_digit, digit_val_digit by done.
    rewrite Z.pow_add_r by lia. f_equal. lia.
Qed.

Lemma log2_fuel z : 0 <= z -> z < 10 ^ Z.of_nat (S (Z.to_nat (Z.log2 z))).
Proof.
  intros Hz. rewrite Nat2Z.inj_succ, Z2Nat.id by apply Z.log2_nonneg.
  pose proof (Z.log2_nonneg z).
  destruct (decide (z = 0)) as [->|]; [simpl; lia|].
  assert (z < 2 ^ Z.succ (Z.log2 z)) by (apply Z.log2_spec; lia).
  assert (2 ^ Z.succ (Z.log2 z) <= 10 ^ Z.succ (Z.log2 z)) by (apply Z.pow_le_mono_l; lia).
  lia.
Qed.

Lemma parse_show_nonneg z : 0 <= z -> parse_digits (show_nonneg z) 0 = Some z.
Proof.
  intros Hz. unfold show_nonneg.
  destruct (parse_show_digits (S (Z.to_nat (Z.log2 z))) z EmptyString 0) as (k & _ & ->);
    [split; [done|by apply log2_fuel]|lia|done].
Qed.

Lemma show_digits_nonempty fuel z acc :
  (0 < fuel)%nat -> exists c s, is_ascii_digit c = true /\ show_digits fuel z acc = String c s.
Proof.
  revert z acc. induction fuel as [|f IH]; intros z acc Hf; [lia|]. cbn [show_digits].
  assert (0 <= z mod 10 < 10) by (apply Z.mod_pos_bound; lia).
  case_match.
  - eauto using is_ascii_digit_digit.
  - destruct f as [|f']; [|apply IH; lia].
    cbn [show_digits]. eauto using is_ascii_digit_digit.
Qed.

Lemma show_nonneg_head z :
  exists c s, is_ascii_digit c = true /\ show_nonneg z = String c s.
Proof. apply show_digits_nonempty. lia. Qed.

Lemma digit_not_sign c : is_ascii_digit c = true -> c <> "-"%char /\ c <> "+"%char.
Proof. intros Hd. split; intros ->; vm_compute in Hd; done. Qed.

(** [i64]: printing then parsing is the identity. *)
Lemma parse_show_i64 z : in_i64 z = true -> parse_i64 (show_Z z) = Some z.
Proof.
  intros Hi. unfold show_Z, parse_i64. destruct (z <? 0) eqn:Hn; breflect.
  - destruct (show_nonneg_head (- z)) as (c & s & Hd & Hs).
    pose proof (parse_show_nonneg (- z) ltac:(lia)) as Hp.
    rewrite Hs in *. cbn [is_empty]. rewrite Hp.
    replace (- - z) with z by lia. by rewrite Hi.
  - destruct (show_nonneg_head z) as (c & s & Hd & Hs).
    pose proof (parse_show_nonneg z ltac:(lia)) as Hp.
    rewrite Hs in *. apply digit_not_sign in Hd as [? ?].
    assert (Hb : (match String c s with
                  | String "-"%char s' => (true, s')
                  | String "+"%char s' => (false, s')
                  | _ => (false, String c s)
                  end) = (false, String c s)).
    { destruct c as [[] [] [] [] [] [] [] []]; try done; by exfalso. }
    rewrite Hb. cbn [is_empty]. rewrite Hp. by rewrite Hi.
Qed.

Lemma digit_not_whitespace c : is_ascii_digit c = true -> is_whitespace c = false.
Proof.
  unfold is_ascii_digit, is_whitespace. intros H. breflect.
  rewrite (proj2 (Z.leb_gt _ 13)), (proj2 (Z.eqb_neq _ _)) by lia. by rewrite andb_false_r.
Qed.

(** A numeral has nothing to trim. *)
Lemma parse_digits_trim s acc z : parse_digits s acc = Some z -> trim s = s.
Proof.
  unfold trim, trim_matches. intros H.
  assert (Hs : trim_start_matches is_whitespace s = s).
  { destruct s as [|c s]; [done|]. cbn in *. destruct (is_ascii_digit c) eqn:E; [|done].
    by rewrite digit_not_whitespace. }
  rewrite Hs. clear Hs. revert acc H. induction s as [|c s IH]; intros acc H; [done|]. cbn in *.
  destruct (is_ascii_digit c) eqn:E; [|done]. rewrite (IH _ H).
  destruct s; [|done]. by rewrite digit_not_whitespace.
Qed.

Lemma parse_unsigned_bounds w s n : parse_unsigned w s = Some n -> is_empty s = false /\ 0 <= n < 2 ^ w.
Proof.
  intros H. split; [by destruct s|]. unfold parse_unsigned in H. destruct (is_empty _); [done|].
  destruct (parse_digits _ 0) as [z|]; [|done]. destruct (in_width w z) eqn:E; [|done]. injection H as <-.
  unfold in_width in E. breflect. lia.
Qed.

Lemma strip_prefix_app p s : strip_prefix p (p +:+ s) = Some s.
Proof.
  induction p as [|a p IH]; [done|].
  change (strip_prefix (String a p) (String a (p +:+ s)) = Some s).
  cbn [strip_prefix]. by rewrite Ascii.eqb_refl.
Qed.

Lemma strip_prefix_Some p s r : strip_prefix p s = Some r -> s = p +:+ r.
Proof.
  revert s. induction p as [|c p IH]; intros s; cbn [strip_prefix]; [by intros [= ->]|].
  destruct s as [|d s]; [done|]. destruct (Ascii.eqb_spec c d) as [->|]; [|done].
  intros ->%IH. done.
Qed.

Lemma split_once_str_join pat s a b : split_once_str pat s = Some (a, b) -> s = a +:+ pat +:+ b.
Proof.
  revert a. induction s as [|c s IH]; intros a; cbn [split_once_str].
  - destruct (strip_prefix pat EmptyString) as [rest|] eqn:E; [|done]. intros [= <- <-]. exact (strip_prefix_Some _ _ _ E).
  - destruct (strip_prefix pat (String c s)) as [rest|] eqn:E.
    { intros [= <- <-]. exact (strip_prefix_Some _ _ _ E). }
    destruct (split_once_str pat s) as [[a' b']|] eqn:E'; [|done]. intros [= <- <-].
    rewrite (IH a' eq_refl) at 1. done.
Qed.

Lemma split_once_join c s a b : split_once c s = Some (a, b) -> s = a +:+ String c b.
Proof.
  revert a. induction s as [|d s IH]; intros a; [done|]. cbn [split_once]. destruct (Ascii.eqb c d) eqn:E.
  - apply Ascii.eqb_eq in E as ->. by intros [= <- <-].
  - destruct (split_once c s) as [[a' b']|] eqn:E'; [|done]. intros [= <- <-]. rewrite (IH a' eq_refl) at 1. done.
Qed.

Lemma rsplit_once_none c s : contains_char c s = false -> rsplit_once c s = None.
Proof.
  induction s as [|d s IH]; [done|]. cbn [contains_char rsplit_once]. intros H. breflect.
  rewrite IH by done. by rewrite H.
Qed.

(** Splitting [a ++ c ++ b] at the last [c] when [b] has none. *)
Lemma rsplit_once_app c a b :
  contains_char c b = false -> rsplit_once c (a +:+ String c b) = Some (a, b).
Proof.
  intros Hb. induction a as [|d a IH].
  - change (rsplit_once c (String c b) = Some (EmptyString, b)).
    cbn [rsplit_once]. rewrite rsplit_once_none by done. by rewrite Ascii.eqb_refl.
  - change (rsplit_once c (String d (a +:+ String c b)) = Some (String d a, b)).
    cbn [rsplit_once]. by rewrite IH.
Qed.

Lemma show_digits_no_char c fuel z acc :
  is_ascii_digit c = false -> contains_char c acc = false ->
  contains_char c (show_digits fuel z acc) = false.
Proof.
  intros Hc. revert z acc. induction fuel as [|f IH]; intros z acc Ha; [done|].
  cbn [show_digits].
  assert (contains_char c (String (digit (z mod 10)) acc) = false).
  { cbn [contains_char]. rewrite Ha, orb_false_r. destruct (Ascii.eqb_spec c (digit (z mod 10))) as [->|]; [|done].
    rewrite is_ascii_digit_digit in Hc; [done|]. apply Z.mod_pos_bound; lia. }
  case_match; auto.
Qed.

Lemma show_Z_no_char c z :
  is_ascii_digit c = false -> c <> "-"%char -> contains_char c (show_Z z) = false.
Proof.
  intros Hd Hm. unfold show_Z, show_nonneg.
  destruct (z <? 0); cbn [contains_char].
  - rewrite show_digits_no_char by done.
    by destruct (Ascii.eqb_spec c "-"%char).
  - by apply show_digits_no_char.
Qed.

Lemma show_Z_inj a b :
  in_i64 a = true -> in_i64 b = true -> show_Z a = show_Z b -> a = b.
Proof.
  intros Ha Hb Heq. apply parse_show_i64 in Ha, Hb. congruence.
Qed.

(** ** Bytes *)

Lemma fold_be_app l r acc :
  fold_left (fun acc b => acc * 256 + b) (l ++ r) acc =
  fold_left (fun acc b => acc * 256 + b) r (fold_left (fun acc b => acc * 256 + b) l acc).
Proof. apply fold_left_app. Qed.

Lemma length_to_be_bytes n z : length (to_be_bytes n z) = n.
Proof.
  revert z. induction n as [|n IH]; intros z; [done|].
  cbn. rewrite length_app, IH. simpl. lia.
Qed.

Lemma from_to_be_bytes n z :
  0 <= z < 256 ^ Z.of_nat n -> from_be_bytes (to_be_bytes n z) = z.
Proof.
  unfold from_be_bytes. revert z. induction n as [|n IH]; intros z Hz; cbn [to_be_bytes].
  - change (Z.of_nat 0) with 0 in Hz. rewrite Z.pow_0_r in Hz. simpl. lia.
  - rewrite Nat2Z.inj_succ, Z.pow_succ_r in Hz by lia.
    rewrite fold_be_app, IH.
    + simpl. pose proof (Z.div_mod z 256 ltac:(lia)). lia.
    + split; [apply Z.div_pos; lia|apply Z.div_lt_upper_bound; lia].
Qed.

Lemma bytes_ok_app l r : bytes_ok (l ++ r) = bytes_ok l && bytes_ok r.
Proof. apply forallb_app. Qed.

Lemma to_be_bytes_ok n z : bytes_ok (to_be_bytes n z) = true.
Proof.
  revert z. induction n as [|n IH]; intros z; [done|].
  cbn [to_be_bytes]. rewrite bytes_ok_app, IH. cbn. unfold in_width.
  pose proof (Z.mod_pos_bound z 256 ltac:(lia)).
  rewrite (proj2 (Z.leb_le _ _)), (proj2 (Z.ltb_lt _ _)) by (simpl; lia). done.
Qed.

(** The value of [n] bytes fits their width. *)
Lemma from_be_bytes_bounds l :
  bytes_ok l = true -> 0 <= from_be_bytes l < 256 ^ Z.of_nat (length l).
Proof.
  unfold from_be_bytes. induction l as [|b l IH] using rev_ind; intros H; [simpl; lia|].
  rewrite bytes_ok_app in H. cbn in H. unfold in_width in H. breflect.
  rewrite fold_be_app, length_app. simpl.
  specialize (IH ltac:(done)).
  replace (Z.of_nat (length l + 1)) with (Z.succ (Z.of_nat (length l))) by lia.
  rewrite Z.pow_succ_r by lia. change (2 ^ 8) with 256 in *. lia.
Qed.

#[export] Hint Resolve length_to_be_bytes to_be_bytes_ok : bridge.

(** ** String concatenation *)

Lemma string_app_inj_l (p a b : string) : p +:+ a = p +:+ b -> a = b.
Proof. induction p; cbn; intros H; [done|]. inversion H. auto. Qed.

Lemma string_app_cons_inj c (a b x y : string) :
  contains_char c x = false -> contains_char c y = false ->
  a +:+ String c x = b +:+ String c y -> a = b /\ x = y.
Proof.
  intros Hx Hy Heq. pose proof (rsplit_once_app c a x Hx) as H1.
  rewrite Heq, rsplit_once_app in H1 by done. by simplify_eq.
Qed.
