(* ===== verification/External.v ===== *)
(** * Interfaces to the code outside the repository

    The crates the bridge links against (chrono, rust_decimal, serde_json, uuid,
    aes-gcm, crc32fast, ed25519-dalek, bs58, hex, base64) are parameters of the
    model: one class of operations per crate, and one class of laws for the
    documented behaviour some theorem relies on.  The [*_ref] instances at the end
    are small concrete implementations that satisfy the laws, so that statements
    can be evaluated on inputs. *)

From Stdlib Require Import ZArith Lia Ascii String SpecFloat.
From stdpp Require Import base gmap strings list numbers countable.
From S2P Require Import Prelude RustStd.

Open Scope Z_scope.

(** A [Uuid] is its 128-bit value. *)
Abbreviation Uuid := N.
Definition uuid_nil : Uuid := 0%N.

(** ** chrono *)

(** A [DateTime<Utc>] is its distance from the Unix epoch in nanoseconds, a
    [chrono::Duration] a number of nanoseconds. *)
Definition NS_PER_SEC : Z := 1000000000.
Definition NS_PER_MIN : Z := 60 * NS_PER_SEC.
Definition NS_PER_HOUR : Z := 60 * NS_PER_MIN.

Definition dur_minutes (m : Z) : Z := m * NS_PER_MIN.
Definition dur_hours (h : Z) : Z := h * NS_PER_HOUR.

(** [timestamp_millis] rounds towards negative infinity. *)
Definition timestamp_millis (t : Z) : Z := t / 1000000.

Class Chrono := {
  dt_minute : Z -> Z;
  dt_with_minute : Z -> Z -> option Z;
  dt_with_second : Z -> Z -> option Z;
  dt_with_nanosecond : Z -> Z -> option Z;
  (** [DateTime + Duration]; [None] is the documented out-of-range panic *)
  dt_checked_add : Z -> Z -> option Z;
  (** [Utc.timestamp_opt(secs, 0).single()] *)
  dt_timestamp_opt : Z -> option Z;
  (** [timestamp_nanos_opt] *)
  dt_nanos_opt : Z -> option Z;
  (** [DateTime::parse_from_rfc3339], converted to UTC *)
  dt_parse_rfc3339 : string -> option Z;
  dt_min : Z;
  dt_max : Z
}.

Definition dt_valid `{Chrono} (t : Z) : Prop := dt_min <= t <= dt_max.

Class ChronoLaws `{Chrono} : Prop := {
  dt_min_aligned : dt_min mod NS_PER_HOUR = 0;
  dt_minute_spec t : dt_valid t -> dt_minute t = (t / NS_PER_MIN) mod 60;
  dt_with_minute_spec t m : dt_valid t -> 0 <= m < 60 ->
    dt_valid (t + (m - dt_minute t) * NS_PER_MIN) ->
    dt_with_minute t m = Some (t + (m - dt_minute t) * NS_PER_MIN);
  dt_with_second_spec t s : dt_valid t -> 0 <= s < 60 ->
    dt_valid (t + (s - (t / NS_PER_SEC) mod 60) * NS_PER_SEC) ->
    dt_with_second t s = Some (t + (s - (t / NS_PER_SEC) mod 60) * NS_PER_SEC);
  dt_with_nanosecond_spec t n : dt_valid t -> 0 <= n < NS_PER_SEC ->
    dt_valid (t - t mod NS_PER_SEC + n) ->
    dt_with_nanosecond t n = Some (t - t mod NS_PER_SEC + n);
  dt_checked_add_spec t d : dt_valid t ->
    dt_checked_add t d = if (dt_min <=? t + d) && (t + d <=? dt_max) then Some (t + d) else None
}.

(** ** rust_decimal *)

Class RustDecimal := {
  Dec : Type;
  dec_zero : Dec;
  (** [+], [-]: [None] is the documented overflow panic *)
  dec_add : Dec -> Dec -> option Dec;
  dec_sub : Dec -> Dec -> option Dec;
  dec_neg : Dec -> Dec;
  dec_ltb : Dec -> Dec -> bool;
  dec_to_f64 : Dec -> option f64;
  dec_from_f64_retain : f64 -> option Dec
}.

(** Decimals are totally ordered and subtraction keeps the sign of the
    comparison. *)
Class DecimalLaws `{RustDecimal} : Prop := {
  dec_lt_irrefl a : dec_ltb a a = false;
  dec_lt_trans a b c : dec_ltb a b = true -> dec_ltb b c = true -> dec_ltb a c = true;
  dec_lt_total a b c : dec_ltb a b = true -> dec_ltb a c = true \/ dec_ltb c b = true;
  dec_sub_sign a b d : dec_sub a b = Some d -> dec_ltb dec_zero d = dec_ltb b a;
  dec_sub_dom a b : is_Some (dec_sub a b) -> is_Some (dec_sub b a)
}.

(** ** serde_json *)

Class SerdeJson := {
  Value : Type;
  jget : string -> Value -> option Value;
  as_f64 : Value -> option f64;
  as_i64 : Value -> option Z;
  as_u64 : Value -> option Z;
  as_str : Value -> option string;
  as_array : Value -> option (list Value);
  as_object : Value -> option (list (string * Value));
  value_of_f64 : f64 -> Value;
  value_of_str : string -> Value;
  value_of_object : list (string * Value) -> Value;
  json_parse : string -> option Value;
  json_print : Value -> string
}.

(** A derived serializer of a record type; [codec_dom] excludes the values JSON
    cannot carry (non-finite floats). *)
Class Codec (T : Type) := {
  encode : T -> string;
  decode : string -> option T;
  codec_dom : T -> Prop
}.

Class CodecLaws (T : Type) `{Codec T} : Prop := {
  decode_encode x : codec_dom x -> decode (encode x) = Some x
}.

(** Text of an [f64] ([Display]/[FromStr]). *)
Class F64Text := {
  f64_show : f64 -> string;
  f64_parse : string -> option f64
}.

(** ** uuid *)

Class UuidText := {
  uuid_parse : string -> option Uuid;
  uuid_show : Uuid -> string;
  (** [Uuid::new_v5(NAMESPACE_OID, bytes)] *)
  uuid_v5_oid : string -> Uuid
}.

(** The hyphenated rendering identifies the value. *)
Class UuidLaws `{UuidText} : Prop := {
  uuid_show_inj a b : uuid_show a = uuid_show b -> a = b
}.

(** ** Cryptography and encodings *)

Class Crypto := {
  (** crc32fast over the bytes *)
  crc32 : list Z -> Z;
  (** Aes256Gcm: key, nonce, associated data, ciphertext *)
  gcm_decrypt : list Z -> list Z -> list Z -> list Z -> option (list Z);
  gcm_encrypt : list Z -> list Z -> list Z -> list Z -> list Z;
  (** Ed25519 *)
  VerifyingKey : Type;
  vk_from_bytes : list Z -> option VerifyingKey;
  ed25519_verify : VerifyingKey -> list Z -> list Z -> bool;
  bs58_decode : string -> option (list Z);
  hex_decode : string -> option (list Z);
  base64_decode : string -> option (list Z)
}.

(** ** Reference instances *)

Definition chrono_valid_b (t : Z) : bool :=
  (- 8334601228800 * NS_PER_SEC <=? t) && (t <=? 8210266876799 * NS_PER_SEC).

Definition chrono_check (t : Z) : option Z := if chrono_valid_b t then Some t else None.

Definition chrono_ref : Chrono := {|
  dt_minute t := (t / NS_PER_MIN) mod 60;
  dt_with_minute t m :=
    if (0 <=? m) && (m <? 60) then chrono_check (t + (m - (t / NS_PER_MIN) mod 60) * NS_PER_MIN) else None;
  dt_with_second t s :=
    if (0 <=? s) && (s <? 60) then chrono_check (t + (s - (t / NS_PER_SEC) mod 60) * NS_PER_SEC) else None;
  dt_with_nanosecond t n :=
    if (0 <=? n) && (n <? NS_PER_SEC) then chrono_check (t - t mod NS_PER_SEC + n) else None;
  dt_checked_add t d := chrono_check (t + d);
  dt_timestamp_opt s := chrono_check (s * NS_PER_SEC);
  dt_nanos_opt t := if in_i64 t then Some t else None;
  dt_parse_rfc3339 s := parse_i64 s ≫= fun n => chrono_check (n * NS_PER_SEC);
  dt_min := - 8334601228800 * NS_PER_SEC;
  dt_max := 8210266876799 * NS_PER_SEC
|}.

Lemma chrono_check_valid t : @dt_valid chrono_ref t -> chrono_check t = Some t.
Proof.
  intros [? ?]. unfold chrono_check, chrono_valid_b. cbn in *.
  by rewrite !(proj2 (Z.leb_le _ _)) by done.
Qed.

Lemma chrono_ref_laws : @ChronoLaws chrono_ref.
Proof.
  constructor; cbn -[Z.mul Z.div Z.modulo NS_PER_MIN NS_PER_SEC NS_PER_HOUR]; intros;
    rewrite ?(proj2 (Z.leb_le _ _)), ?(proj2 (Z.ltb_lt _ _)) by lia; cbn [andb];
    auto using chrono_check_valid.
Qed.

(** Whole-unit decimals within 96 bits. *)
Definition dec_check (z : Z) : option Z := if Z.abs z <? 2 ^ 96 then Some z else None.

Definition decimal_ref : RustDecimal := {|
  Dec := Z;
  dec_zero := 0;
  dec_add a b := dec_check (a + b);
  dec_sub a b := dec_check (a - b);
  dec_neg := Z.opp;
  dec_ltb := Z.ltb;
  dec_to_f64 z := Some (F64.of_Z z);
  dec_from_f64_retain x :=
    match x with
    | S754_zero _ => Some 0
    | S754_finite s m e =>
        let v := if 0 <=? e then Z.shiftl (Z.pos m) e else Z.shiftr (Z.pos m) (- e) in
        dec_check (if s then - v else v)
    | _ => None
    end
|}.

Lemma decimal_ref_laws : @DecimalLaws decimal_ref.
Proof.
  constructor; cbn; unfold dec_check; intros.
  - apply Z.ltb_irrefl.
  - breflect. apply Z.ltb_lt. lia.
  - breflect. rewrite !Z.ltb_lt. lia.
  - case_match; [|done]. simplify_eq.
    destruct (b <? a) eqn:E; breflect; [apply Z.ltb_lt|apply Z.ltb_ge]; lia.
  - destruct H as [x Hx]. case_match; [|done]. breflect.
    rewrite (proj2 (Z.ltb_lt _ _)) by lia. by eexists.
Qed.

(** JSON values as a tree. *)
#[local] Set Warnings "-register-all".

Inductive jval : Type :=
| JNull
| JBool (b : bool)
| JInt (z : Z)
| JFloat (x : f64)
| JStr (s : string)
| JArr (l : list jval)
| JObj (l : list (string * jval)).

Definition jval_get (k : string) (v : jval) : option jval :=
  match v with
  | JObj l => snd <$> List.find (fun kv => String.eqb k kv.1) l
  | _ => None
  end.

Definition json_ref : SerdeJson := {|
  Value := jval;
  jget := jval_get;
  as_f64 v := match v with JInt z => Some (F64.of_Z z) | JFloat x => Some x | _ => None end;
  as_i64 v := match v with JInt z => if in_i64 z then Some z else None | _ => None end;
  as_u64 v := match v with JInt z => if in_width 64 z then Some z else None | _ => None end;
  as_str v := match v with JStr s => Some s | _ => None end;
  as_array v := match v with JArr l => Some l | _ => None end;
  as_object v := match v with JObj l => Some l | _ => None end;
  value_of_f64 := JFloat;
  value_of_str := JStr;
  value_of_object := JObj;
  json_parse _ := None;
  json_print _ := EmptyString
|}.

Definition uuid_ref : UuidText := {|
  uuid_parse s := Z.to_N <$> parse_unsigned 128 s;
  uuid_show u := show_nonneg (Z.of_N u);
  uuid_v5_oid s := Z.to_N (hash_str s)
|}.

Lemma uuid_ref_laws : @UuidLaws uuid_ref.
Proof.
  constructor. cbn [uuid_show uuid_ref]. intros a b H.
  pose proof (parse_show_nonneg (Z.of_N a) (N2Z.is_nonneg a)) as Ha.
  rewrite H, parse_show_nonneg in Ha by apply N2Z.is_nonneg. injection Ha. lia.
Qed.

(** Toy primitives: the tag is one byte, the cipher the identity. *)
Definition crypto_ref : Crypto := {|
  crc32 l := wrap 32 (fold_left (fun a b => a * 31 + b) l 7);
  gcm_decrypt k n a c :=
    match c with
    | t :: m => if t =? wrap 8 (from_be_bytes (k ++ n ++ a)) then Some m else None
    | [] => None
    end;
  gcm_encrypt k n a m := wrap 8 (from_be_bytes (k ++ n ++ a)) :: m;
  VerifyingKey := list Z;
  vk_from_bytes l := Some l;
  ed25519_verify k m s := bool_decide (s = take 64 (k ++ m ++ replicate 64 0));
  bs58_decode s := Some (bytes_of_string s);
  hex_decode s := Some (bytes_of_string s);
  base64_decode s := Some (bytes_of_string s)
|}.

(** A serializer for any countable type: the decimal numeral of its code. *)
Definition codec_ref (T : Type) `{Countable T} : Codec T := {|
  encode x := show_nonneg (Zpos (countable.encode x));
  decode s := parse_digits s 0 ≫= fun z => countable.decode (Z.to_pos z);
  codec_dom _ := True
|}.

Lemma codec_ref_laws (T : Type) `{Countable T} : @CodecLaws T (codec_ref T).
Proof.
  constructor. intros x _. cbn [encode decode codec_ref]. rewrite parse_show_nonneg by lia.
  simpl. apply countable.decode_encode.
Qed.

#[export] Instance spec_float_eq_dec : EqDecision spec_float.
Proof. solve_decision. Defined.

Definition spec_float_code (x : spec_float) : bool * bool + option (bool * positive * Z) :=
  match x with
  | S754_zero s => inl (false, s)
  | S754_infinity s => inl (true, s)
  | S754_nan => inr None
  | S754_finite s m e => inr (Some (s, m, e))
  end.

Definition spec_float_uncode (c : bool * bool + option (bool * positive * Z)) : spec_float :=
  match c with
  | inl (false, s) => S754_zero s
  | inl (true, s) => S754_infinity s
  | inr None => S754_nan
  | inr (Some (s, m, e)) => S754_finite s m e
  end.

#[export] Instance spec_float_countable : Countable spec_float.
Proof. apply (inj_countable' spec_float_code spec_float_uncode). by intros []. Defined.
