(* ===== verification/Models.v ===== *)
(** * Domain models and numeric conversions (aggregator-core)

    Device readings and their metrics (models.rs), and the checked conversions from
    [f64] to decimal amounts (numeric.rs). *)

From Stdlib Require Import ZArith Lia Ascii String SpecFloat.
From stdpp Require Import base gmap strings list numbers.
From S2P Require Import Prelude RustStd External.

Open Scope Z_scope.
Open Scope bridge_scope.

(** ** models.rs *)

Inductive DeviceType : Type :=
| SmartMeter
| EvCharger
| Battery.

#[export] Instance DeviceType_eq_dec : EqDecision DeviceType.
Proof. solve_decision. Defined.

Definition target_stream (d : DeviceType) : string :=
  match d with
  | SmartMeter => "gridtokenx:events:v1"
  | EvCharger => "gridtokenx:ev:v1"
  | Battery => "gridtokenx:battery:v1"
  end.

Inductive EvStatus : Type :=
| Available
| EvCharging
| SuspendedEv
| SuspendedEvse
| Finishing
| Faulted.

Inductive BatteryMode : Type :=
| Idle
| Charging
| Discharging.

Inductive DeviceMetrics : Type :=
| Energy (generated_kwh consumed_kwh net_kwh : f64)
| EvSession (energy_delivered_kwh : f64) (session_id : string) (connector_id : Z) (status : EvStatus)
| BatteryState (soc_percent power_kw temperature_c : f64) (mode : BatteryMode).

Section Reading.
Context {J : SerdeJson}.

Record DeviceReading : Type := {
  reading_id : Uuid;
  device_id : string;
  device_type : DeviceType;
  serial_number : string;
  zone_code : option string;
  timestamp : Z;
  metrics : DeviceMetrics;
  metadata : gmap string Value
}.
End Reading.

(** ** numeric.rs *)

Inductive numeric_error : Type :=
| InvalidNumeric
| ConversionFailed
| UnexpectedNegative.

Section Numeric.
Context {D : RustDecimal}.

Definition f64_to_decimal (val : f64) : outcome numeric_error Dec :=
  if F64.is_nan val || F64.is_infinite val then Err InvalidNumeric
  else ok_or (dec_from_f64_retain val) ConversionFailed.

Definition to_positive_decimal (val : f64) : outcome numeric_error Dec :=
  let? dec := f64_to_decimal val in
  if dec_ltb dec dec_zero then Err UnexpectedNegative else Ok dec.

(** [to_positive_decimal(..).unwrap_or(Decimal::ZERO)], the ingest form. *)
Definition positive_or_zero (val : f64) : Dec :=
  match to_positive_decimal val with Ok d => d | _ => dec_zero end.

Lemma to_positive_decimal_nonneg val d :
  to_positive_decimal val = Ok d -> dec_ltb d dec_zero = false.
Proof.
  unfold to_positive_decimal, obind. repeat split_match; naive_solver.
Qed.

Lemma positive_or_zero_nonneg `{!DecimalLaws} val :
  dec_ltb (positive_or_zero val) dec_zero = false.
Proof.
  unfold positive_or_zero. destruct (to_positive_decimal val) eqn:E;
    eauto using to_positive_decimal_nonneg, dec_lt_irrefl.
Qed.
End Numeric.
