(* ===== verification/Aggregator.v ===== *)
(** * The billing aggregator (aggregator-logic/src/aggregator.rs)

    15-minute billing bins per meter, event-time window completion, and the memory
    of settled windows that keeps a straggler from re-forming one.  State is the
    [Aggregator] record; [handle_reading], [peek_completed_bins_at], [remove_bins]
    and [restore_bins] are its operations.  A panic ([Decimal] overflow, a date out
    of chrono's range) leaves the state as it was at the panic: the aggregator sits
    behind a [tokio::sync::Mutex], which does not poison. *)

From Stdlib Require Import ZArith Lia Ascii String SpecFloat.
From stdpp Require Import base gmap strings list numbers.
From S2P Require Import Prelude RustStd External.

Open Scope Z_scope.
Open Scope bridge_scope.

(** Duration of a billing window in minutes. *)
Definition WINDOW_MINUTES : Z := 15.

Definition SETTLED_RETENTION_HOURS : Z := 24.

Abbreviation BinKey := (Uuid * Z)%type.

Section Aggregator.
Context {C : Chrono} {D : RustDecimal}.

(** ** State *)

Record BillingBin : Type := {
  meter_id : Uuid;
  user_id : Uuid;
  meter_serial : string;
  start_time : Z;
  end_time : Z;
  energy_generated : Dec;
  energy_consumed : Dec;
  reading_count : Z;
  energy_generated_peak : Dec;
  energy_generated_offpeak : Dec;
  energy_consumed_peak : Dec;
  energy_consumed_offpeak : Dec;
  max_demand_kw : Dec;
  bin_zone_code : option Z
}.

Record MeterProgress : Type := {
  watermark : Z;
  last_arrival : Z
}.

Record Aggregator : Type := {
  active_bins : gmap BinKey BillingBin;
  progress : gmap Uuid MeterProgress;
  settled : gmap Uuid (gset Z)
}.

Definition new : Aggregator :=
  {| active_bins := ∅; progress := ∅; settled := ∅ |}.

Definition set_energy_generated (b : BillingBin) (x : Dec) : BillingBin :=
  {| meter_id := b.(meter_id); user_id := b.(user_id); meter_serial := b.(meter_serial); start_time := b.(start_time); end_time := b.(end_time); energy_generated := x; energy_consumed := b.(energy_consumed); reading_count := b.(reading_count); energy_generated_peak := b.(energy_generated_peak); energy_generated_offpeak := b.(energy_generated_offpeak); energy_consumed_peak := b.(energy_consumed_peak); energy_consumed_offpeak := b.(energy_consumed_offpeak); max_demand_kw := b.(max_demand_kw); bin_zone_code := b.(bin_zone_code) |}.

Definition set_energy_consumed (b : BillingBin) (x : Dec) : BillingBin :=
  {| meter_id := b.(meter_id); user_id := b.(user_id); meter_serial := b.(meter_serial); start_time := b.(start_time); end_time := b.(end_time); energy_generated := b.(energy_generated); energy_consumed := x; reading_count := b.(reading_count); energy_generated_peak := b.(energy_generated_peak); energy_generated_offpeak := b.(energy_generated_offpeak); energy_consumed_peak := b.(energy_consumed_peak); energy_consumed_offpeak := b.(energy_consumed_offpeak); max_demand_kw := b.(max_demand_kw); bin_zone_code := b.(bin_zone_code) |}.

Definition set_reading_count (b : BillingBin) (x : Z) : BillingBin :=
  {| meter_id := b.(meter_id); user_id := b.(user_id); meter_serial := b.(meter_serial); start_time := b.(start_time); end_time := b.(end_time); energy_generated := b.(energy_generated); energy_consumed := b.(energy_consumed); reading_count := x; energy_generated_peak := b.(energy_generated_peak); energy_generated_offpeak := b.(energy_generated_offpeak); energy_consumed_peak := b.(energy_consumed_peak); energy_consumed_offpeak := b.(energy_consumed_offpeak); max_demand_kw := b.(max_demand_kw); bin_zone_code := b.(bin_zone_code) |}.

Definition set_energy_generated_peak (b : BillingBin) (x : Dec) : BillingBin :=
  {| meter_id := b.(meter_id); user_id := b.(user_id); meter_serial := b.(meter_serial); start_time := b.(start_time); end_time := b.(end_time); energy_generated := b.(energy_generated); energy_consumed := b.(energy_consumed); reading_count := b.(reading_count); energy_generated_peak := x; energy_generated_offpeak := b.(energy_generated_offpeak); energy_consumed_peak := b.(energy_consumed_peak); energy_consumed_offpeak := b.(energy_consumed_offpeak); max_demand_kw := b.(max_demand_kw); bin_zone_code := b.(bin_zone_code) |}.

Definition set_energy_generated_offpeak (b : BillingBin) (x : Dec) : BillingBin :=
  {| meter_id := b.(meter_id); user_id := b.(user_id); meter_serial := b.(meter_serial); start_time := b.(start_time); end_time := b.(end_time); energy_generated := b.(energy_generated); energy_consumed := b.(energy_consumed); reading_count := b.(reading_count); energy_generated_peak := b.(energy_generated_peak); energy_generated_offpeak := x; energy_consumed_peak := b.(energy_consumed_peak); energy_consumed_offpeak := b.(energy_consumed_offpeak); max_demand_kw := b.(max_demand_kw); bin_zone_code := b.(bin_zone_code) |}.

Definition set_energy_consumed_peak (b : BillingBin) (x : Dec) : BillingBin :=
  {| meter_id := b.(meter_id); user_id := b.(user_id); meter_serial := b.(meter_serial); start_time := b.(start_time); end_time := b.(end_time); energy_generated := b.(energy_generated); energy_consumed := b.(energy_consumed); reading_count := b.(reading_count); energy_generated_peak := b.(energy_generated_peak); energy_generated_offpeak := b.(energy_generated_offpeak); energy_consumed_peak := x; energy_consumed_offpeak := b.(energy_consumed_offpeak); max_demand_kw := b.(max_demand_kw); bin_zone_code := b.(bin_zone_code) |}.

Definition set_energy_consumed_offpeak (b : BillingBin) (x : Dec) : BillingBin :=
  {| meter_id := b.(meter_id); user_id := b.(user_id); meter_serial := b.(meter_serial); start_time := b.(start_time); end_time := b.(end_time); energy_generated := b.(energy_generated); energy_consumed := b.(energy_consumed); reading_count := b.(reading_count); energy_generated_peak := b.(energy_generated_peak); energy_generated_offpeak := b.(energy_generated_offpeak); energy_consumed_peak := b.(energy_consumed_peak); energy_consumed_offpeak := x; max_demand_kw := b.(max_demand_kw); bin_zone_code := b.(bin_zone_code) |}.

Definition set_max_demand_kw (b : BillingBin) (x : Dec) : BillingBin :=
  {| meter_id := b.(meter_id); user_id := b.(user_id); meter_serial := b.(meter_serial); start_time := b.(start_time); end_time := b.(end_time); energy_generated := b.(energy_generated); energy_consumed := b.(energy_consumed); reading_count := b.(reading_count); energy_generated_peak := b.(energy_generated_peak); energy_generated_offpeak := b.(energy_generated_offpeak); energy_consumed_peak := b.(energy_consumed_peak); energy_consumed_offpeak := b.(energy_consumed_offpeak); max_demand_kw := x; bin_zone_code := b.(bin_zone_code) |}.

Definition set_bin_zone_code (b : BillingBin) (x : option Z) : BillingBin :=
  {| meter_id := b.(meter_id); user_id := b.(user_id); meter_serial := b.(meter_serial); start_time := b.(start_time); end_time := b.(end_time); energy_generated := b.(energy_generated); energy_consumed := b.(energy_consumed); reading_count := b.(reading_count); energy_generated_peak := b.(energy_generated_peak); energy_generated_offpeak := b.(energy_generated_offpeak); energy_consumed_peak := b.(energy_consumed_peak); energy_consumed_offpeak := b.(energy_consumed_offpeak); max_demand_kw := b.(max_demand_kw); bin_zone_code := x |}.

(** ** BillingBin *)

Definition key (b : BillingBin) : BinKey := (b.(meter_id), b.(start_time)).

Definition window_start_ms (b : BillingBin) : Z := timestamp_millis b.(start_time).

(** [None] inside [Ok] is the code's [None]; [Panic] the subtraction overflow. *)
Definition net_surplus_kwh (b : BillingBin) : outcome Empty_set (option f64) :=
  let? net := unwrap (dec_sub b.(energy_generated) b.(energy_consumed)) in
  Ok (if dec_ltb dec_zero net then dec_to_f64 net else None).

Definition net_deficit_kwh (b : BillingBin) : outcome Empty_set (option f64) :=
  let? net := unwrap (dec_sub b.(energy_consumed) b.(energy_generated)) in
  Ok (if dec_ltb dec_zero net then dec_to_f64 net else None).

Definition net_energy_kwh (b : BillingBin) : outcome Empty_set f64 :=
  let? net := unwrap (dec_sub b.(energy_generated) b.(energy_consumed)) in
  Ok (default F64.zero (dec_to_f64 net)).

(** ** handle_reading *)

(** The arguments of [handle_reading]. *)
Record reading_args : Type := {
  ra_meter_id : Uuid;
  ra_user_id : Uuid;
  ra_meter_serial : string;
  ra_generated : Dec;
  ra_consumed : Dec;
  ra_timestamp : Z;
  ra_tariff_period : option Z;
  ra_demand_kw : option Dec;
  ra_zone_code : option Z
}.

(** Three [unwrap]s: [None] is their panic. *)
Definition get_window_start (time : Z) : option Z :=
  let minute := (dt_minute time / WINDOW_MINUTES) * WINDOW_MINUTES in
  t1 ← dt_with_minute time minute;
  t2 ← dt_with_second t1 0;
  dt_with_nanosecond t2 0.

Definition fresh_bin (a : reading_args) (start_t end_t : Z) : BillingBin := {|
  meter_id := a.(ra_meter_id);
  user_id := a.(ra_user_id);
  meter_serial := a.(ra_meter_serial);
  start_time := start_t;
  end_time := end_t;
  energy_generated := dec_zero;
  energy_consumed := dec_zero;
  reading_count := 0;
  energy_generated_peak := dec_zero;
  energy_generated_offpeak := dec_zero;
  energy_consumed_peak := dec_zero;
  energy_consumed_offpeak := dec_zero;
  max_demand_kw := dec_zero;
  bin_zone_code := a.(ra_zone_code)
|}.

(** The statements that update the bin, in order; [None] is a [Decimal]
    overflow panic. *)
Definition tariff_updates (a : reading_args) : list (BillingBin -> option BillingBin) :=
  match a.(ra_tariff_period) with
  | Some 1 =>
      [ (fun b => set_energy_generated_peak b <$> dec_add b.(energy_generated_peak) a.(ra_generated));
        (fun b => set_energy_consumed_peak b <$> dec_add b.(energy_consumed_peak) a.(ra_consumed)) ]
  | Some 2 =>
      [ (fun b => set_energy_generated_offpeak b <$> dec_add b.(energy_generated_offpeak) a.(ra_generated));
        (fun b => set_energy_consumed_offpeak b <$> dec_add b.(energy_consumed_offpeak) a.(ra_consumed)) ]
  | _ => []
  end.

Definition demand_update (a : reading_args) (b : BillingBin) : BillingBin :=
  match a.(ra_demand_kw) with
  | Some d => if dec_ltb b.(max_demand_kw) d then set_max_demand_kw b d else b
  | None => b
  end.

Definition bin_updates (a : reading_args) : list (BillingBin -> option BillingBin) :=
  [ (fun b => set_energy_generated b <$> dec_add b.(energy_generated) a.(ra_generated));
    (fun b => set_energy_consumed b <$> dec_add b.(energy_consumed) a.(ra_consumed));
    (fun b => Some (set_reading_count b (wrap 64 (b.(reading_count) + 1))));
    (fun b => Some (match b.(bin_zone_code) with
                    | None => set_bin_zone_code b a.(ra_zone_code)
                    | Some _ => b
                    end)) ]
  ++ tariff_updates a
  ++ [ (fun b => Some (demand_update a b)) ].

(** Run the statements; [false] marks the one that panicked, and the bin keeps
    the updates made before it. *)
Fixpoint run_updates (us : list (BillingBin -> option BillingBin)) (b : BillingBin)
    : BillingBin * bool :=
  match us with
  | [] => (b, true)
  | u :: us => match u b with
               | Some b' => run_updates us b'
               | None => (b, false)
               end
  end.

Definition note_progress (agg : Aggregator) (m : Uuid) (ts now : Z) : Aggregator :=
  let p := default {| watermark := ts; last_arrival := now |} (agg.(progress) !! m) in
  let p := {| watermark := if p.(watermark) <? ts then ts else p.(watermark);
              last_arrival := now |} in
  {| active_bins := agg.(active_bins);
     progress := <[m := p]> agg.(progress);
     settled := agg.(settled) |}.

Definition is_settled (agg : Aggregator) (m : Uuid) (start_t : Z) : bool :=
  match agg.(settled) !! m with
  | Some ws => bool_decide (start_t ∈ ws)
  | None => false
  end.

(** [now] is the service clock at the call. *)
Definition handle_reading (agg : Aggregator) (now : Z) (a : reading_args)
    : Aggregator * outcome Empty_set (option BillingBin) :=
  match get_window_start a.(ra_timestamp) with
  | None => (agg, Panic)
  | Some start_t =>
      match dt_checked_add start_t (dur_minutes WINDOW_MINUTES) with
      | None => (agg, Panic)
      | Some end_t =>
          let agg := note_progress agg a.(ra_meter_id) a.(ra_timestamp) now in
          if is_settled agg a.(ra_meter_id) start_t then (agg, Ok None)
          else
            let k := (a.(ra_meter_id), start_t) in
            let b := default (fresh_bin a start_t end_t) (agg.(active_bins) !! k) in
            let '(b', ok) := run_updates (bin_updates a) b in
            ({| active_bins := <[k := b']> agg.(active_bins);
                progress := agg.(progress);
                settled := agg.(settled) |},
             if ok then Ok (Some b') else Panic)
      end
  end.

(** ** Window completion *)

(** The filter predicate of [peek_completed_bins_at]; [None] is the panic of
    [end_time + grace]. *)
Definition bin_completed (agg : Aggregator) (now grace : Z) (b : BillingBin) : option bool :=
  deadline ← dt_checked_add b.(end_time) grace;
  Some (match agg.(progress) !! b.(meter_id) with
        | Some p =>
            (deadline <=? p.(watermark))
            || ((0 <? grace) && (grace <=? now - p.(last_arrival)) && (b.(end_time) <=? now))
        | None => deadline <=? now
        end).

Fixpoint filter_completed (agg : Aggregator) (now grace : Z) (bs : list BillingBin)
    : option (list BillingBin) :=
  match bs with
  | [] => Some []
  | b :: bs =>
      c ← bin_completed agg now grace b;
      rest ← filter_completed agg now grace bs;
      Some (if (c : bool) then b :: rest else rest)
  end.

(** [HashMap::values] in some order. *)
Definition bin_values (agg : Aggregator) : list BillingBin :=
  (map_to_list agg.(active_bins)).*2.

Definition peek_completed_bins_at (agg : Aggregator) (now grace : Z)
    : outcome Empty_set (list BillingBin) :=
  unwrap (filter_completed agg now grace (bin_values agg)).

(** ** Settlement *)

(** One iteration of [remove_bins]; [false] is the panic of the horizon. *)
Definition remove_bin (agg : Aggregator) (k : BinKey) : Aggregator * bool :=
  let '(m, w) := k in
  let bins := delete k agg.(active_bins) in
  let windows : gset Z := {[w]} ∪ default ∅ (agg.(settled) !! m) in
  match agg.(progress) !! m with
  | Some p =>
      match dt_checked_add p.(watermark) (- dur_hours SETTLED_RETENTION_HOURS) with
      | Some horizon =>
          ({| active_bins := bins; progress := agg.(progress);
              settled := <[m := filter (fun w' : Z => horizon <= w') windows]> agg.(settled) |}, true)
      | None =>
          ({| active_bins := bins; progress := agg.(progress);
              settled := <[m := windows]> agg.(settled) |}, false)
      end
  | None =>
      ({| active_bins := bins; progress := agg.(progress);
          settled := <[m := windows]> agg.(settled) |}, true)
  end.

Fixpoint remove_bins (agg : Aggregator) (ks : list BinKey) : Aggregator * outcome Empty_set unit :=
  match ks with
  | [] => (agg, Ok ())
  | k :: ks => match remove_bin agg k with
               | (agg', true) => remove_bins agg' ks
               | (agg', false) => (agg', Panic)
               end
  end.

Definition restore_bins (agg : Aggregator) (bs : list BillingBin) : Aggregator :=
  {| active_bins := fold_left (fun m b => <[key b := b]> m) bs agg.(active_bins);
     progress := agg.(progress);
     settled := agg.(settled) |}.

(** The drain the settlement loop runs under the lock (main.rs): peek, then
    remove exactly the peeked keys. *)
Definition drain_completed (agg : Aggregator) (now grace : Z)
    : Aggregator * outcome Empty_set (list BillingBin) :=
  match peek_completed_bins_at agg now grace with
  | Ok bs => match remove_bins agg (key <$> bs) with
             | (agg', Ok _) => (agg', Ok bs)
             | (agg', Err e) => (agg', Err e)
             | (agg', Panic) => (agg', Panic)
             end
  | Err e => (agg, Err e)
  | Panic => (agg, Panic)
  end.
End Aggregator.
