(* ===== verification/AggregatorProps.v ===== *)
(** * Properties of the billing aggregator

    Window floor, what one reading does to its bin, the accounting invariant over
    traces of readings and settlement drains, and the memory of settled windows. *)

From Stdlib Require Import ZArith Lia Ascii String SpecFloat.
From stdpp Require Import base gmap strings list numbers.
From S2P Require Import Prelude RustStd External Aggregator.

Open Scope Z_scope.

Definition WINDOW_NS : Z := dur_minutes WINDOW_MINUTES.

(** ** Window arithmetic *)

Section Window.
Context {C : Chrono} {CL : ChronoLaws}.

Lemma dt_valid_floor_hour t : dt_valid t -> forall x, t - t mod NS_PER_HOUR <= x <= t -> dt_valid x.
Proof.
  intros [Hlo Hhi] x Hx. pose proof dt_min_aligned as Ha. unfold dt_valid.
  unfold NS_PER_HOUR, NS_PER_MIN, NS_PER_SEC in *.
  Z.to_euclidean_division_equations. lia.
Qed.

Lemma window_floor_core t :
  let a := (t / NS_PER_MIN) mod 60 in
  let t1 := t + ((a / 15) * 15 - a) * NS_PER_MIN in
  let t2 := t1 + (0 - (t1 / NS_PER_SEC) mod 60) * NS_PER_SEC in
  let t3 := t2 - t2 mod NS_PER_SEC + 0 in
  t3 = t - t mod (15 * NS_PER_MIN) /\
  t - t mod NS_PER_HOUR <= t1 <= t /\ t - t mod NS_PER_HOUR <= t2 <= t.
Proof.
  unfold NS_PER_HOUR, NS_PER_MIN, NS_PER_SEC. cbv zeta.
  Z.to_euclidean_division_equations. lia.
Qed.

Lemma get_window_start_valid t :
  dt_valid t -> get_window_start t = Some (t - t mod WINDOW_NS).
Proof.
  intros Hv. unfold get_window_start. rewrite (dt_minute_spec t Hv).
  pose proof (window_floor_core t) as (Heq & H1 & H2). cbv zeta in *.
  change WINDOW_MINUTES with 15.
  pose proof (Z.mod_pos_bound (t / NS_PER_MIN) 60 ltac:(lia)) as Ha.
  assert (Hm : 0 <= (t / NS_PER_MIN) mod 60 / 15 * 15 < 60).
  { revert Ha. generalize ((t / NS_PER_MIN) mod 60). clear. intros z Hz.
    Z.to_euclidean_division_equations. lia. }
  apply (dt_valid_floor_hour t Hv) in H1, H2.
  rewrite <- (dt_minute_spec t Hv) in *.
  rewrite dt_with_minute_spec by done. cbn [mbind option_bind].
  rewrite dt_with_second_spec by (done || lia). cbn [mbind option_bind].
  rewrite dt_with_nanosecond_spec; [by f_equal|done|unfold NS_PER_SEC; lia|].
  rewrite Heq. apply (dt_valid_floor_hour t Hv). clear.
  unfold NS_PER_HOUR, NS_PER_MIN, NS_PER_SEC. Z.to_euclidean_division_equations. lia.
Qed.

Lemma window_start_bounds t :
  let w := t - t mod WINDOW_NS in w <= t < w + WINDOW_NS /\ w mod WINDOW_NS = 0.
Proof.
  unfold WINDOW_NS, dur_minutes, WINDOW_MINUTES, NS_PER_MIN, NS_PER_SEC. cbv zeta.
  Z.to_euclidean_division_equations. lia.
Qed.

Lemma get_window_start_bounds t w :
  dt_valid t -> get_window_start t = Some w -> w <= t < w + WINDOW_NS /\ w mod WINDOW_NS = 0.
Proof.
  intros Hv. rewrite get_window_start_valid by done. intros [= <-]. apply window_start_bounds.
Qed.
End Window.

(** ** What a bin accounts for *)

Section Accounting.
Context {C : Chrono} {D : RustDecimal}.

(** Left-to-right [Decimal] sum, the rounding and overflow of each step included. *)
Definition dec_sum (l : list Dec) : option Dec :=
  fold_left (fun acc d => acc ≫= fun a => dec_add a d) l (Some dec_zero).

Definition has_tariff (t : Z) (a : reading_args) : bool :=
  match a.(ra_tariff_period) with Some t' => t' =? t | None => false end.

Definition max_demand_step (m : Dec) (a : reading_args) : Dec :=
  match a.(ra_demand_kw) with
  | Some d => if dec_ltb m d then d else m
  | None => m
  end.

(** The bin [b] holds exactly the readings [l], in arrival order. *)
Record bin_accounts (l : list reading_args) (b : BillingBin) : Prop := {
  acc_generated : dec_sum (ra_generated <$> l) = Some b.(energy_generated);
  acc_consumed : dec_sum (ra_consumed <$> l) = Some b.(energy_consumed);
  acc_count : b.(reading_count) = wrap 64 (Z.of_nat (length l));
  acc_generated_peak :
    dec_sum (ra_generated <$> List.filter (has_tariff 1) l) = Some b.(energy_generated_peak);
  acc_consumed_peak :
    dec_sum (ra_consumed <$> List.filter (has_tariff 1) l) = Some b.(energy_consumed_peak);
  acc_generated_offpeak :
    dec_sum (ra_generated <$> List.filter (has_tariff 2) l) = Some b.(energy_generated_offpeak);
  acc_consumed_offpeak :
    dec_sum (ra_consumed <$> List.filter (has_tariff 2) l) = Some b.(energy_consumed_offpeak);
  acc_demand : fold_left max_demand_step l dec_zero = b.(max_demand_kw);
  acc_zone : b.(bin_zone_code) = head (omap ra_zone_code l);
  acc_owner : (fun a => (a.(ra_meter_id), a.(ra_user_id), a.(ra_meter_serial))) <$> head l
              = Some (b.(meter_id), b.(user_id), b.(meter_serial))
}.

Lemma dec_sum_snoc l d : dec_sum (l ++ [d]) = dec_sum l ≫= fun a => dec_add a d.
Proof. unfold dec_sum. by rewrite fold_left_app. Qed.

Lemma dec_sum_filter_snoc (f : reading_args -> Dec) P l a :
  dec_sum (f <$> List.filter P (l ++ [a])) =
  if P a then dec_sum (f <$> List.filter P l) ≫= fun x => dec_add x (f a)
  else dec_sum (f <$> List.filter P l).
Proof.
  rewrite List.filter_app. simpl. destruct (P a).
  - rewrite fmap_app. apply dec_sum_snoc.
  - by rewrite app_nil_r.
Qed.

(** The identity of a bin is what the updates never touch. *)
Definition bin_ident (b : BillingBin) :=
  (b.(meter_id), b.(user_id), b.(meter_serial), b.(start_time), b.(end_time)).

(** One reading's effect on every field of its bin. *)
Record bin_step (a : reading_args) (b b' : BillingBin) : Prop := {
  bs_generated : dec_add b.(energy_generated) a.(ra_generated) = Some b'.(energy_generated);
  bs_consumed : dec_add b.(energy_consumed) a.(ra_consumed) = Some b'.(energy_consumed);
  bs_count : b'.(reading_count) = wrap 64 (b.(reading_count) + 1);
  bs_zone : b'.(bin_zone_code) =
    match b.(bin_zone_code) with Some z => Some z | None => a.(ra_zone_code) end;
  bs_generated_peak :
    (if has_tariff 1 a then dec_add b.(energy_generated_peak) a.(ra_generated)
     else Some b.(energy_generated_peak)) = Some b'.(energy_generated_peak);
  bs_consumed_peak :
    (if has_tariff 1 a then dec_add b.(energy_consumed_peak) a.(ra_consumed)
     else Some b.(energy_consumed_peak)) = Some b'.(energy_consumed_peak);
  bs_generated_offpeak :
    (if has_tariff 2 a then dec_add b.(energy_generated_offpeak) a.(ra_generated)
     else Some b.(energy_generated_offpeak)) = Some b'.(energy_generated_offpeak);
  bs_consumed_offpeak :
    (if has_tariff 2 a then dec_add b.(energy_consumed_offpeak) a.(ra_consumed)
     else Some b.(energy_consumed_offpeak)) = Some b'.(energy_consumed_offpeak);
  bs_demand : b'.(max_demand_kw) = max_demand_step b.(max_demand_kw) a;
  bs_ident : bin_ident b' = bin_ident b
}.

Lemma run_updates_app us vs b :
  run_updates (us ++ vs) b =
  let '(b1, ok) := run_updates us b in if ok then run_updates vs b1 else (b1, false).
Proof. revert b. induction us as [|u us IH]; intros b; simpl; [done|]. by case_match. Qed.

Lemma run_updates_cons u us b b' :
  run_updates (u :: us) b = (b', true) ->
  exists b1, u b = Some b1 /\ run_updates us b1 = (b', true).
Proof. simpl. destruct (u b); naive_solver. Qed.

Lemma tariff_cases a :
  (a.(ra_tariff_period) = Some 1 /\ has_tariff 1 a = true /\ has_tariff 2 a = false) \/
  (a.(ra_tariff_period) = Some 2 /\ has_tariff 1 a = false /\ has_tariff 2 a = true) \/
  (tariff_updates a = [] /\ has_tariff 1 a = false /\ has_tariff 2 a = false).
Proof.
  unfold has_tariff, tariff_updates. destruct (ra_tariff_period a) as [z|]; [|by auto].
  destruct (decide (z = 1)) as [->|]; [by auto|].
  destruct (decide (z = 2)) as [->|]; [by auto|].
  right; right. rewrite !(proj2 (Z.eqb_neq _ _)) by done. split; [|done].
  destruct z as [|p|p]; try done. destruct p as [p|p|]; try done. by destruct p.
Qed.

Ltac updates_step :=
  repeat match goal with
  | H : run_updates (_ :: _) _ = (_, true) |- _ =>
      apply run_updates_cons in H as (? & ? & H)
  | H : _ <$> _ = Some _ |- _ => apply fmap_Some in H as (? & ? & ->)
  | H : Some _ = Some _ |- _ => injection H as <-
  | H : run_updates [] _ = _ |- _ => injection H as <-
  end.

Lemma run_bin_updates a b b' :
  run_updates (bin_updates a) b = (b', true) -> bin_step a b b'.
Proof.
  unfold bin_updates. simpl app. intros H. unfold demand_update in H.
  destruct (tariff_cases a) as [(Ht & H1 & H2)|[(Ht & H1 & H2)|(Ht & H1 & H2)]];
    unfold tariff_updates in H; rewrite ?Ht in H;
    fold (tariff_updates a) in H; rewrite ?Ht in H; simpl app in H; updates_step;
    constructor; rewrite ?H1, ?H2; unfold max_demand_step, bin_ident; simpl;
    repeat (case_match; simpl in *; simplify_eq); auto.
Qed.

Lemma head_omap_snoc (l : list reading_args) a :
  head (omap ra_zone_code (l ++ [a])) =
  match head (omap ra_zone_code l) with Some z => Some z | None => a.(ra_zone_code) end.
Proof.
  rewrite omap_app. simpl. destruct (omap ra_zone_code l); simpl; [by case_match|done].
Qed.

Lemma bin_accounts_snoc l a b b' :
  bin_accounts l b -> bin_step a b b' -> bin_accounts (l ++ [a]) b'.
Proof.
  intros [] []. unfold bin_ident in *. simplify_eq.
  constructor; rewrite ?fmap_app, ?dec_sum_filter_snoc; simpl fmap; rewrite ?dec_sum_snoc;
    rewrite ?acc_generated0, ?acc_consumed0, ?acc_generated_peak0, ?acc_consumed_peak0,
      ?acc_generated_offpeak0, ?acc_consumed_offpeak0; simpl; try done.
  - rewrite bs_count0, acc_count0, length_app, wrap_add_l by lia. f_equal. simpl. lia.
  - by rewrite fold_left_app, acc_demand0, bs_demand0.
  - by rewrite bs_zone0, head_omap_snoc, acc_zone0.
  - destruct l; [done|]. simpl in *. congruence.
Qed.

Lemma bin_accounts_fresh a s e b' :
  bin_step a (fresh_bin a s e) b' -> bin_accounts [a] b'.
Proof.
  intros []. unfold bin_ident in *. simpl in *. simplify_eq.
  constructor; simpl; rewrite ?fmap_app; unfold dec_sum; simpl; try done.
  - by destruct (has_tariff 1 a).
  - by destruct (has_tariff 1 a).
  - by destruct (has_tariff 2 a).
  - by destruct (has_tariff 2 a).
  - rewrite bs_zone0. destruct (ra_zone_code a); done.
  - congruence.
Qed.
End Accounting.

(** ** Completed bins and their removal *)

Section Drain.
Context {C : Chrono} {D : RustDecimal}.

(** Every active bin sits under its own key. *)
Definition keys_ok (agg : Aggregator) : Prop :=
  map_Forall (fun k b => key b = k) agg.(active_bins).

Definition completedb (agg : Aggregator) (now grace : Z) (b : BillingBin) : bool :=
  default false (bin_completed agg now grace b).

Definition has_key (k : BinKey) (b : BillingBin) : bool := bool_decide (key b = k).

Lemma filter_completed_filter agg now grace l bs :
  filter_completed agg now grace l = Some bs -> bs = List.filter (completedb agg now grace) l.
Proof.
  revert bs. induction l as [|b l IH]; intros bs; simpl; [by intros [= <-]|].
  intros H. apply bind_Some in H as (c & Hc & H). apply bind_Some in H as (r & Hr & H).
  simplify_eq. unfold completedb at 1. rewrite Hc. simpl. by rewrite (IH r).
Qed.

Lemma peek_filter agg now grace bs :
  peek_completed_bins_at agg now grace = Ok bs ->
  bs = List.filter (completedb agg now grace) (bin_values agg).
Proof.
  unfold peek_completed_bins_at, unwrap. case_match; [|done].
  intros [= <-]. by apply filter_completed_filter.
Qed.

Lemma elem_of_bin_values agg b :
  keys_ok agg -> b ∈ bin_values agg <-> agg.(active_bins) !! key b = Some b.
Proof.
  intros Hk. unfold bin_values. rewrite list_elem_of_fmap. split.
  - intros ([k b'] & -> & Hin). apply elem_of_map_to_list in Hin. simpl.
    by rewrite (Hk k b' Hin).
  - intros Hb. exists (key b, b). split; [done|]. by apply elem_of_map_to_list.
Qed.

Lemma filter_key_perm (m : gmap BinKey BillingBin) k :
  map_Forall (fun k b => key b = k) m ->
  List.filter (has_key k) (map_to_list m).*2 ≡ₚ option_list (m !! k).
Proof.
  induction m as [|i b m Hi IH] using map_ind; intros Hk.
  - by rewrite map_to_list_empty, lookup_empty.
  - apply map_Forall_insert in Hk as [Hib Hk]; [|done].
    rewrite map_to_list_insert by done. simpl.
    unfold has_key at 1. rewrite Hib.
    destruct (bool_decide_reflect (i = k)) as [->|Hne].
    + rewrite lookup_insert_eq, IH, Hi by done. done.
    + by rewrite lookup_insert_ne, IH by done.
Qed.

Lemma option_list_perm {A} (l : list A) (o : option A) :
  l ≡ₚ option_list o -> l = option_list o.
Proof.
  destruct o; simpl; intros H.
  - by apply Permutation_singleton_r in H.
  - by apply Permutation_nil_r in H.
Qed.

Lemma filter_comm {A} (P Q : A -> bool) l :
  List.filter P (List.filter Q l) = List.filter Q (List.filter P l).
Proof.
  induction l as [|x l IH]; [done|]. simpl.
  destruct (Q x) eqn:HQ, (P x) eqn:HP; simpl; rewrite ?HQ, ?HP, IH; done.
Qed.

Lemma peek_at_key agg now grace bs k :
  keys_ok agg -> peek_completed_bins_at agg now grace = Ok bs ->
  List.filter (has_key k) bs =
  List.filter (completedb agg now grace) (option_list (agg.(active_bins) !! k)).
Proof.
  intros Hk Hp. apply peek_filter in Hp as ->. rewrite filter_comm. f_equal.
  apply option_list_perm. by apply filter_key_perm.
Qed.

Lemma remove_bin_active agg k agg' ok :
  remove_bin agg k = (agg', ok) ->
  agg'.(active_bins) = delete k agg.(active_bins) /\ agg'.(progress) = agg.(progress).
Proof. unfold remove_bin. destruct k. repeat case_match; intros; simplify_eq; done. Qed.

Lemma remove_bins_active agg ks agg' :
  remove_bins agg ks = (agg', Ok ()) ->
  agg'.(progress) = agg.(progress) /\
  forall k, agg'.(active_bins) !! k =
    if bool_decide (k ∈ ks) then None else agg.(active_bins) !! k.
Proof.
  revert agg. induction ks as [|k0 ks IH]; intros agg; cbn [remove_bins].
  - intros [= <-]. split; [done|]. intros k.
    rewrite bool_decide_eq_false_2; [done|apply not_elem_of_nil].
  - destruct (remove_bin agg k0) as [agg1 []] eqn:E; [|done]. intros H.
    apply remove_bin_active in E as [Ha Hp]. apply IH in H as [Hp' Hk].
    split; [congruence|]. intros k. rewrite Hk, Ha.
    destruct (decide (k ∈ ks)) as [Hin|Hin].
    + rewrite !bool_decide_eq_true_2 by (rewrite ?elem_of_cons; auto). done.
    + rewrite (bool_decide_eq_false_2 (k ∈ ks)) by done.
      destruct (decide (k = k0)) as [->|Hne].
      * rewrite bool_decide_eq_true_2 by (rewrite elem_of_cons; auto). apply lookup_delete_eq.
      * rewrite bool_decide_eq_false_2 by (rewrite not_elem_of_cons; auto).
        by rewrite lookup_delete_ne.
Qed.

Lemma drain_completed_inv agg now grace agg' bs :
  drain_completed agg now grace = (agg', Ok bs) ->
  peek_completed_bins_at agg now grace = Ok bs /\ remove_bins agg (key <$> bs) = (agg', Ok ()).
Proof.
  unfold drain_completed. destruct (peek_completed_bins_at agg now grace); try done.
  destruct (remove_bins agg (key <$> a)) as [g [[]| |]] eqn:E; intros; simplify_eq. done.
Qed.

Lemma elem_of_keys_peek agg now grace bs k :
  keys_ok agg -> peek_completed_bins_at agg now grace = Ok bs ->
  k ∈ key <$> bs <-> exists b, agg.(active_bins) !! k = Some b /\ completedb agg now grace b = true.
Proof.
  intros Hk Hp. apply peek_filter in Hp as ->. rewrite list_elem_of_fmap. split.
  - intros (b & -> & Hb). apply list_elem_of_In, List.filter_In in Hb as [Hb Hc].
    apply list_elem_of_In, elem_of_bin_values in Hb; eauto.
  - intros (b & Hb & Hc). pose proof (Hk k b Hb) as Hkb. simpl in Hkb. subst k. exists b.
    split; [done|]. apply list_elem_of_In, List.filter_In. split; [|done].
    by apply list_elem_of_In, elem_of_bin_values.
Qed.

(** What one drain does at one key: the bin leaves with the snapshot when it is
    complete, and stays untouched otherwise. *)
Lemma drain_at_key agg now grace agg' bs k :
  keys_ok agg -> drain_completed agg now grace = (agg', Ok bs) ->
  agg'.(active_bins) !! k =
    (b ← agg.(active_bins) !! k; if completedb agg now grace b then None else Some b) /\
  List.filter (has_key k) bs =
    List.filter (completedb agg now grace) (option_list (agg.(active_bins) !! k)).
Proof.
  intros Hk Hd. apply drain_completed_inv in Hd as [Hp Hr].
  split; [|by eapply peek_at_key].
  apply remove_bins_active in Hr as [_ Hr]. rewrite Hr.
  destruct (agg.(active_bins) !! k) as [b|] eqn:Eb; simpl; [|by case_match].
  destruct (completedb agg now grace b) eqn:Ec.
  - rewrite bool_decide_eq_true_2; [done|]. eapply elem_of_keys_peek; eauto.
  - rewrite bool_decide_eq_false_2; [done|]. rewrite elem_of_keys_peek by eauto.
    intros (b' & Hb' & Hc'). congruence.
Qed.
End Drain.

(** ** Traces of readings and drains *)

Section Trace.
Context {C : Chrono} {D : RustDecimal}.

Inductive agg_op : Type :=
| OpReading (now : Z) (a : reading_args)
| OpDrain (now grace : Z).

(** The aggregator with two ghost logs: the readings it binned and the bins its
    drains handed to settlement. *)
Record trace_state : Type := {
  ts_agg : Aggregator;
  ts_binned : list reading_args;
  ts_drained : list BillingBin
}.

Definition trace_init : trace_state :=
  {| ts_agg := new; ts_binned := []; ts_drained := [] |}.

(** [None] when the operation panics. *)
Definition trace_step (s : trace_state) (op : agg_op) : option trace_state :=
  match op with
  | OpReading now a =>
      match handle_reading s.(ts_agg) now a with
      | (agg, Ok (Some _)) =>
          Some {| ts_agg := agg; ts_binned := s.(ts_binned) ++ [a]; ts_drained := s.(ts_drained) |}
      | (agg, Ok None) =>
          Some {| ts_agg := agg; ts_binned := s.(ts_binned); ts_drained := s.(ts_drained) |}
      | _ => None
      end
  | OpDrain now grace =>
      match drain_completed s.(ts_agg) now grace with
      | (agg, Ok bs) =>
          Some {| ts_agg := agg; ts_binned := s.(ts_binned); ts_drained := s.(ts_drained) ++ bs |}
      | _ => None
      end
  end.

Fixpoint run_trace (s : trace_state) (ops : list agg_op) : option trace_state :=
  match ops with
  | [] => Some s
  | op :: ops => s' ← trace_step s op; run_trace s' ops
  end.

Lemma run_trace_invariant (I : trace_state -> Prop) s ops s' :
  (forall a op b, I a -> trace_step a op = Some b -> I b) ->
  I s -> run_trace s ops = Some s' -> I s'.
Proof.
  intros Hstep. revert s. induction ops as [|op ops IH]; intros s Hs; simpl.
  - by intros [= <-].
  - intros H. apply bind_Some in H as (s1 & H1 & H). eauto.
Qed.

(** Whether a reading belongs to the bin [k]. *)
Definition in_key (k : BinKey) (a : reading_args) : bool :=
  bool_decide (a.(ra_meter_id) = k.1) && bool_decide (get_window_start a.(ra_timestamp) = Some k.2).

(** What a binned reading does, stated once for all clients. *)
Lemma handle_reading_binned agg now a agg' b' :
  handle_reading agg now a = (agg', Ok (Some b')) ->
  exists w e, get_window_start a.(ra_timestamp) = Some w /\
    dt_checked_add w WINDOW_NS = Some e /\
    is_settled agg a.(ra_meter_id) w = false /\
    agg'.(active_bins) = <[(a.(ra_meter_id), w) := b']> agg.(active_bins) /\
    agg'.(settled) = agg.(settled) /\
    agg'.(progress) = (note_progress agg a.(ra_meter_id) a.(ra_timestamp) now).(progress) /\
    bin_step a (default (fresh_bin a w e) (agg.(active_bins) !! (a.(ra_meter_id), w))) b'.
Proof.
  unfold handle_reading. destruct (get_window_start (ra_timestamp a)) as [w|]; [|done].
  fold WINDOW_NS. destruct (dt_checked_add w WINDOW_NS) as [e|] eqn:He; [|done]. cbv zeta.
  change (is_settled (note_progress agg (ra_meter_id a) (ra_timestamp a) now) (ra_meter_id a) w)
    with (is_settled agg (ra_meter_id a) w).
  destruct (is_settled agg (ra_meter_id a) w) eqn:Hs; [done|].
  destruct (run_updates _ _) as [b1 []] eqn:Hu; [|done]. intros [= <- <-].
  exists w, e. repeat (split; [done|]). by apply run_bin_updates.
Qed.

Lemma handle_reading_late agg now a agg' :
  handle_reading agg now a = (agg', Ok None) ->
  agg' = note_progress agg a.(ra_meter_id) a.(ra_timestamp) now /\
  exists w, get_window_start a.(ra_timestamp) = Some w /\ is_settled agg a.(ra_meter_id) w = true.
Proof.
  unfold handle_reading. destruct (get_window_start (ra_timestamp a)) as [w|]; [|done].
  destruct (dt_checked_add _ _) as [e|]; [|done]. cbv zeta.
  change (is_settled (note_progress agg (ra_meter_id a) (ra_timestamp a) now) (ra_meter_id a) w)
    with (is_settled agg (ra_meter_id a) w).
  destruct (is_settled agg (ra_meter_id a) w) eqn:Hs.
  - intros [= <-]. eauto.
  - by destruct (run_updates _ _) as [b1 []].
Qed.

Lemma bin_step_key a b b' : bin_step a b b' -> key b' = key b.
Proof. intros []. unfold bin_ident, key in *. congruence. Qed.

Lemma keys_ok_step s op s' :
  keys_ok s.(ts_agg) -> trace_step s op = Some s' -> keys_ok s'.(ts_agg).
Proof.
  intros Hk. destruct op as [now a|now grace]; simpl.
  - destruct (handle_reading _ now a) as [agg [[b'|]| |]] eqn:E; try done; intros [= <-]; simpl.
    + apply handle_reading_binned in E as (w & e & _ & _ & _ & Ha & _ & _ & Hb).
      unfold keys_ok. rewrite Ha. intros k b. rewrite lookup_insert.
      case_decide as Heq; [|apply Hk]. intros [= <-]. subst k. apply bin_step_key in Hb.
      rewrite Hb. destruct (_ !! _) as [b0|] eqn:E0; simpl; [by apply Hk|done].
    + apply handle_reading_late in E as [-> _]. done.
  - destruct (drain_completed _ now grace) as [agg [bs| |]] eqn:E; try done; intros [= <-]; simpl.
    intros k b. destruct (drain_at_key _ _ _ _ _ k Hk E) as [-> _].
    intros H. apply bind_Some in H as (b0 & Hb0 & H). case_match; simplify_eq. by apply Hk.
Qed.

(** At the key [k]: the binned readings are the drained groups, oldest first,
    followed by the content of the active bin. *)
Definition accounted (k : BinKey) (s : trace_state) : Prop :=
  exists groups cur,
    List.filter (in_key k) s.(ts_binned) = concat groups ++ cur /\
    Forall2 bin_accounts groups (List.filter (has_key k) s.(ts_drained)) /\
    match s.(ts_agg).(active_bins) !! k with
    | Some b => bin_accounts cur b
    | None => cur = []
    end.

Lemma accounted_step k s op s' :
  keys_ok s.(ts_agg) -> accounted k s -> trace_step s op = Some s' -> accounted k s'.
Proof.
  intros Hk (groups & cur & Hbin & Hgr & Hcur). destruct op as [now a|now grace]; simpl.
  - destruct (handle_reading _ now a) as [agg [[b'|]| |]] eqn:E; try done; intros [= <-];
      unfold accounted; simpl.
    + apply handle_reading_binned in E as (w & e & Hw & He & _ & Ha & _ & _ & Hb).
      rewrite Ha, List.filter_app. simpl. unfold in_key at 2. rewrite Hw.
      destruct (decide (k = (ra_meter_id a, w))) as [->|Hne]; simpl.
      * rewrite !bool_decide_eq_true_2 by done. simpl.
        exists groups, (cur ++ [a]). rewrite Hbin, app_assoc. split; [done|]. split; [done|].
        rewrite lookup_insert_eq.
        destruct (active_bins _ !! _); simpl in *; [by eapply bin_accounts_snoc|].
        subst cur. by eapply bin_accounts_fresh.
      * exists groups, cur. rewrite lookup_insert_ne by done. split; [|done].
        rewrite <- Hbin.
        destruct (decide (ra_meter_id a = k.1)) as [Hm|];
          [|rewrite bool_decide_eq_false_2 by done; by rewrite app_nil_r].
        rewrite (bool_decide_eq_false_2 (Some w = Some k.2)), andb_false_r, app_nil_r; [done|].
        intros [= Hw']. apply Hne. destruct k; simpl in *; congruence.
    + apply handle_reading_late in E as [-> _]. by exists groups, cur.
  - destruct (drain_completed _ now grace) as [agg [bs| |]] eqn:E; try done; intros [= <-].
    unfold accounted; simpl. destruct (drain_at_key _ _ _ _ _ k Hk E) as [-> Hf].
    rewrite List.filter_app, Hf.
    destruct (active_bins _ !! k) as [b|]; simpl; [|exists groups, cur; by rewrite app_nil_r].
    destruct (completedb _ now grace b).
    + exists (groups ++ [cur]), []. rewrite concat_app. simpl. rewrite !app_nil_r.
      split; [done|]. split; [|done]. apply Forall2_app; [done|]. by constructor.
    + exists groups, cur. by rewrite app_nil_r.
Qed.

Lemma trace_accounted ops s k :
  run_trace trace_init ops = Some s -> keys_ok s.(ts_agg) /\ accounted k s.
Proof.
  apply (run_trace_invariant (fun s => keys_ok s.(ts_agg) /\ accounted k s)).
  - intros a op b [Hk Ha] Hs. eauto using keys_ok_step, accounted_step.
  - split; [done|]. by exists [], [].
Qed.
End Trace.
