(* ===== verification/SettledWindows.v ===== *)
(** * Settled windows: lateness, the settled-window memory and at-most-once drains

    The claims about the billing aggregator: where a reading lands, what leaves
    with a drain, which readings a settled window still accepts, and how long the
    memory of a settled window protects it. *)

From Stdlib Require Import ZArith Lia Ascii String SpecFloat.
From stdpp Require Import base gmap strings list numbers.
From S2P Require Import Prelude RustStd External Aggregator AggregatorProps.

Open Scope Z_scope.

Definition RETENTION_NS : Z := dur_hours SETTLED_RETENTION_HOURS.

Section Memory.
Context {C : Chrono} {CL : ChronoLaws} {D : RustDecimal}.

Definition watermark_of (agg : Aggregator) (m : Uuid) : option Z :=
  watermark <$> agg.(progress) !! m.

(** A reading is timely when its window starts no more than the retention behind
    the newest timestamp its meter has sent so far. *)
Definition timely (agg : Aggregator) (a : reading_args) : bool :=
  match get_window_start a.(ra_timestamp), watermark_of agg a.(ra_meter_id) with
  | Some w, Some wm => wm - RETENTION_NS <=? w
  | _, _ => true
  end.

Definition timely_op (agg : Aggregator) (op : agg_op) : bool :=
  match op with
  | OpReading _ a => timely agg a
  | OpDrain _ _ => true
  end.

(** [run_trace], requiring every reading to be timely when it arrives. *)
Fixpoint run_timely (s : trace_state) (ops : list agg_op) : option trace_state :=
  match ops with
  | [] => Some s
  | op :: ops =>
      if timely_op s.(ts_agg) op then s' ← trace_step s op; run_timely s' ops else None
  end.

(** *** Watermarks only move forward *)

Lemma note_progress_watermark agg m ts now m' :
  watermark_of (note_progress agg m ts now) m' =
  if bool_decide (m' = m) then Some (Z.max ts (default ts (watermark_of agg m)))
  else watermark_of agg m'.
Proof.
  unfold watermark_of, note_progress. simpl. rewrite lookup_insert.
  destruct (decide (m' = m)) as [->|Hne].
  - rewrite decide_True, bool_decide_eq_true_2 by done. simpl.
    destruct (_ !! m) as [p|]; simpl; f_equal; case_match; breflect; lia.
  - by rewrite decide_False, bool_decide_eq_false_2 by done.
Qed.

Lemma remove_bins_progress agg ks agg' r :
  remove_bins agg ks = (agg', r) -> agg'.(progress) = agg.(progress).
Proof.
  revert agg. induction ks as [|k ks IH]; intros agg; cbn [remove_bins]; [by intros [= <- <-]|].
  destruct (remove_bin agg k) as [agg1 []] eqn:E; apply remove_bin_active in E as [_ Hp].
  - intros H. apply IH in H. congruence.
  - intros [= <- <-]. done.
Qed.

Lemma drain_progress agg now grace agg' r :
  drain_completed agg now grace = (agg', r) -> agg'.(progress) = agg.(progress).
Proof.
  unfold drain_completed. destruct (peek_completed_bins_at _ _ _); [|by intros [= <- <-]..].
  destruct (remove_bins _ _) as [g [[]| |]] eqn:E; intros; simplify_eq;
    by eapply remove_bins_progress.
Qed.

Lemma trace_watermark s op s' m wm :
  trace_step s op = Some s' -> watermark_of s.(ts_agg) m = Some wm ->
  exists wm', watermark_of s'.(ts_agg) m = Some wm' /\ wm <= wm'.
Proof.
  destruct op as [now a|now grace]; simpl; intros H Hwm.
  - assert (Hp : watermark_of s'.(ts_agg) m =
        watermark_of (note_progress s.(ts_agg) a.(ra_meter_id) a.(ra_timestamp) now) m).
    { destruct (handle_reading _ now a) as [agg [[b|]| |]] eqn:E; try done; simplify_eq; simpl.
      - apply handle_reading_binned in E as (?&?&_&_&_&_&_&Hpr&_). unfold watermark_of. by rewrite Hpr.
      - by apply handle_reading_late in E as [-> _]. }
    rewrite Hp, note_progress_watermark. destruct (bool_decide_reflect (m = a.(ra_meter_id))) as [->|].
    + rewrite Hwm. simpl. eexists. split; [done|]. lia.
    + eauto with lia.
  - destruct (drain_completed _ now grace) as [agg [bs| |]] eqn:E; simplify_eq. simpl.
    apply drain_progress in E. unfold watermark_of in *. rewrite E. eauto with lia.
Qed.

(** *** What a removal does to the memory *)

Definition settled_in (agg : Aggregator) (k : BinKey) : Prop :=
  k.2 ∈ default ∅ (agg.(settled) !! k.1).

(** The window is older than the retention of its meter. *)
Definition expired_in (agg : Aggregator) (k : BinKey) : Prop :=
  exists wm, watermark_of agg k.1 = Some wm /\ k.2 < wm - RETENTION_NS.

Definition remembered (agg : Aggregator) (k : BinKey) : Prop := settled_in agg k \/ expired_in agg k.

Definition watermarks_valid (agg : Aggregator) : Prop :=
  forall m wm, watermark_of agg m = Some wm -> dt_valid wm.

Lemma is_settled_spec agg k : is_settled agg k.1 k.2 = true <-> settled_in agg k.
Proof.
  unfold is_settled, settled_in. destruct (_ !! k.1) as [ws|]; simpl.
  - by rewrite bool_decide_eq_true.
  - split; [done|]. set_solver.
Qed.

(** The memory after one removal: the removed window joins, and windows behind
    the retention horizon leave. *)
Lemma remove_bin_settled agg k agg' k' :
  watermarks_valid agg -> remove_bin agg k = (agg', true) ->
  settled_in agg' k' <->
  (k' = k \/ settled_in agg k') /\ (k'.1 = k.1 -> ~ expired_in agg k').
Proof.
  intros Hv. unfold remove_bin. destruct k as [m w], k' as [m' w'].
  unfold settled_in, expired_in, watermark_of. simpl. destruct (_ !! m) as [p|] eqn:Ep.
  - rewrite dt_checked_add_spec by (apply (Hv m); unfold watermark_of; by rewrite Ep).
    destruct (_ && _); intros; simplify_eq; simpl. destruct (decide (m' = m)) as [->|Hne].
    + rewrite lookup_insert_eq, Ep. simpl. rewrite elem_of_filter, elem_of_union, elem_of_singleton.
      unfold RETENTION_NS in *. split.
      * intros [Hle Hin]. split; [destruct Hin; [left; congruence|auto]|].
        intros _ (wm & [= <-] & Hlt). lia.
      * intros [Hin Hne]. split; [|destruct Hin; [left; congruence|auto]].
        apply Z.nlt_ge. intros Hlt. apply Hne; [done|]. exists p.(watermark). split; [done|]. lia.
    + rewrite lookup_insert_ne by done. split; [auto|]. intros [[?|?] _]; congruence.
  - intros [= <-]. simpl. destruct (decide (m' = m)) as [->|Hne].
    + rewrite lookup_insert_eq, Ep. simpl. rewrite elem_of_union, elem_of_singleton.
      split; [|intros [[?|?] _]; [left; congruence|auto]].
      intros Hin. split; [destruct Hin; [left; congruence|auto]|]. by intros _ (? & [=] & _).
    + rewrite lookup_insert_ne by done. split; [auto|]. intros [[?|?] _]; congruence.
Qed.

Lemma expired_dec agg k : {expired_in agg k} + {~ expired_in agg k}.
Proof.
  unfold expired_in. destruct (watermark_of agg k.1) as [wm|].
  - destruct (decide (k.2 < wm - RETENTION_NS)) as [?|Hn]; [left; eauto|right].
    intros (? & [= <-] & ?). done.
  - right. by intros (? & [=] & _).
Qed.

Lemma remove_bin_memory agg k agg' :
  watermarks_valid agg -> remove_bin agg k = (agg', true) ->
  watermarks_valid agg' /\
  (forall k', k' = k \/ remembered agg k' -> remembered agg' k') /\
  (forall k', settled_in agg' k' -> k' = k \/ settled_in agg k').
Proof.
  intros Hv Hr. pose proof (remove_bin_active _ _ _ _ Hr) as [_ Hp].
  assert (Hw : forall m, watermark_of agg' m = watermark_of agg m)
    by (intros; unfold watermark_of; by rewrite Hp).
  split; [intros m wm; rewrite Hw; apply Hv|]. split; intros k'.
  - intros Hk'. unfold remembered. rewrite (remove_bin_settled _ _ _ _ Hv Hr).
    destruct (expired_dec agg k') as [He|Hne].
    + right. unfold expired_in in *. by rewrite Hw.
    + left. split; [|done]. destruct Hk' as [->|[?|?]]; [auto..|contradiction].
  - rewrite (remove_bin_settled _ _ _ _ Hv Hr). intros [? _]. done.
Qed.

Lemma remove_bins_memory agg ks agg' :
  watermarks_valid agg -> remove_bins agg ks = (agg', Ok ()) ->
  watermarks_valid agg' /\
  (forall k', k' ∈ ks \/ remembered agg k' -> remembered agg' k') /\
  (forall k', settled_in agg' k' -> k' ∈ ks \/ settled_in agg k').
Proof.
  revert agg. induction ks as [|k ks IH]; intros agg Hv; cbn [remove_bins].
  - intros [= <-]. split; [done|]. split; [|auto]. intros k' [Hin|?]; [|done]. set_solver.
  - destruct (remove_bin agg k) as [agg1 []] eqn:E; [|done]. intros H.
    destruct (remove_bin_memory _ _ _ Hv E) as (Hv1 & Hr1 & Hs1).
    destruct (IH _ Hv1 H) as (Hv' & Hr' & Hs'). split; [done|].
    split; intros k' Hk'.
    + rewrite elem_of_cons in Hk'. apply Hr'. destruct Hk' as [[->|?]|?]; auto.
    + rewrite elem_of_cons. apply Hs' in Hk' as [?|[->|?]%Hs1]; auto.
Qed.

(** *** The invariant of traces *)

Definition op_valid (op : agg_op) : Prop :=
  match op with
  | OpReading _ a => dt_valid a.(ra_timestamp)
  | OpDrain _ _ => True
  end.

Record memory_inv (s : trace_state) : Prop := {
  mi_keys : keys_ok s.(ts_agg);
  mi_valid : watermarks_valid s.(ts_agg);
  mi_settled : forall k, settled_in s.(ts_agg) k -> s.(ts_agg).(active_bins) !! k = None;
  mi_drained : forall k, k ∈ key <$> s.(ts_drained) -> remembered s.(ts_agg) k
}.

Lemma note_progress_memory agg m ts now k :
  remembered agg k -> remembered (note_progress agg m ts now) k.
Proof.
  intros [Hs|(wm & Hwm & Hlt)]; [by left|right]. unfold expired_in.
  rewrite note_progress_watermark. case_bool_decide as Hm; [|eauto].
  rewrite <- Hm, Hwm. simpl. eexists. split; [done|]. lia.
Qed.

Lemma note_progress_valid agg m ts now :
  dt_valid ts -> watermarks_valid agg -> watermarks_valid (note_progress agg m ts now).
Proof.
  intros Ht Hv m' wm. rewrite note_progress_watermark. case_bool_decide; [|apply Hv].
  intros [= <-]. destruct (watermark_of agg m) as [w0|] eqn:E; simpl.
  - destruct (Z.max_spec ts w0) as [[_ ->]|[_ ->]]; [by eapply Hv|done].
  - by rewrite Z.max_id.
Qed.

(** The memory depends on the two maps a reading can only extend. *)
Lemma memory_proper agg agg' :
  agg'.(progress) = agg.(progress) -> agg'.(settled) = agg.(settled) ->
  (watermarks_valid agg -> watermarks_valid agg') /\
  (forall k, settled_in agg' k <-> settled_in agg k) /\
  (forall k, remembered agg k -> remembered agg' k).
Proof.
  intros Hp Hs. unfold remembered, expired_in, watermarks_valid, settled_in, watermark_of.
  rewrite Hp, Hs. naive_solver.
Qed.

Lemma memory_step s op s' :
  memory_inv s -> op_valid op -> trace_step s op = Some s' -> memory_inv s'.
Proof.
  intros [Hk Hv Hs Hd] Ho Hstep. pose proof (keys_ok_step _ _ _ Hk Hstep) as Hk'.
  destruct op as [now a|now grace]; simpl in *.
  - pose proof (note_progress_valid s.(ts_agg) a.(ra_meter_id) _ now Ho Hv) as Hv1.
    destruct (handle_reading _ now a) as [agg [[b'|]| |]] eqn:E; try done; simplify_eq; simpl in *.
    + apply handle_reading_binned in E as (w & e & Hw & _ & Hns & Ha & Hse & Hp & _).
      destruct (memory_proper _ agg Hp Hse) as (Hv2 & Hs2 & Hr2).
      constructor; simpl; [done|auto|..].
      * intros k Hks%Hs2. rewrite Ha, lookup_insert. case_decide as Heq; [|by apply Hs].
        subst k. apply is_settled_spec in Hks. simpl in Hks. exfalso.
        change (is_settled s.(ts_agg) a.(ra_meter_id) w = true) in Hks. congruence.
      * intros k Hin. apply Hr2, note_progress_memory, Hd, Hin.
    + apply handle_reading_late in E as [-> _]. constructor; simpl; [done|done|exact Hs|].
      intros k Hin. apply note_progress_memory, Hd, Hin.
  - destruct (drain_completed _ now grace) as [agg [bs| |]] eqn:E; simplify_eq. simpl in *.
    pose proof (drain_completed_inv _ _ _ _ _ E) as [Hpk Hrm].
    destruct (remove_bins_memory _ _ _ Hv Hrm) as (Hv' & Hr' & Hs').
    constructor; simpl; [done|done|..].
    + intros k Hks%Hs'. apply remove_bins_active in Hrm as [_ Hrm]. rewrite Hrm.
      destruct Hks as [Hin|Hin]; [by rewrite bool_decide_eq_true_2|]. rewrite Hs by done.
      by case_match.
    + intros k. rewrite fmap_app, elem_of_app. intros [Hin|Hin]; apply Hr'; auto.
Qed.

Lemma memory_init : memory_inv trace_init.
Proof.
  constructor; [done| |intros k _; apply lookup_empty|intros k Hk; set_solver].
  intros m wm. unfold watermark_of. simpl. by rewrite lookup_empty.
Qed.

Lemma memory_trace ops s :
  Forall op_valid ops -> run_trace trace_init ops = Some s -> memory_inv s.
Proof.
  generalize memory_init. generalize trace_init. induction ops as [|op ops IH]; intros s0 Hi Ho; simpl.
  - by intros [= <-].
  - apply Forall_cons_1 in Ho as [Ho Hos]. intros (s1 & H1 & H)%bind_Some.
    eauto using memory_step.
Qed.

(** *** Drained once *)

(** Two distinct bins of one snapshot sit under distinct keys. *)
Lemma peek_keys_nodup agg now grace bs :
  keys_ok agg -> peek_completed_bins_at agg now grace = Ok bs -> NoDup (key <$> bs).
Proof.
  intros Hk ->%peek_filter. unfold bin_values.
  assert (Hall : Forall (fun kb => key kb.2 = kb.1) (map_to_list agg.(active_bins))).
  { apply Forall_forall. intros [k b] Hin%list_elem_of_In%elem_of_map_to_list. by apply (Hk k b). }
  pose proof (NoDup_fst_map_to_list agg.(active_bins)) as Hnd. revert Hall Hnd.
  induction (map_to_list agg.(active_bins)) as [|[k b] l IH]; simpl; intros Hall Hnd; [constructor|].
  apply Forall_cons_1 in Hall as [Hkb Hall]. apply list.NoDup_cons in Hnd as [Hni Hnd].
  simpl in Hkb. case_match; [|auto]. simpl. constructor; [|auto]. rewrite Hkb. intros Hin.
  apply Hni. apply list_elem_of_fmap in Hin as (b' & -> & Hb').
  apply list_elem_of_In, List.filter_In in Hb' as [Hb'%list_elem_of_In _].
  apply list_elem_of_fmap in Hb' as ([k' b''] & -> & Hin). rewrite Forall_forall in Hall.
  specialize (Hall _ ltac:(by apply list_elem_of_In)). simpl in *. rewrite Hall.
  apply list_elem_of_fmap. by exists (k', b'').
Qed.

Record once_inv (s : trace_state) : Prop := {
  oi_memory : memory_inv s;
  oi_nodup : NoDup (key <$> s.(ts_drained));
  oi_active : forall k b, s.(ts_agg).(active_bins) !! k = Some b -> k ∉ key <$> s.(ts_drained)
}.

Lemma once_step s op s' :
  once_inv s -> op_valid op -> timely_op s.(ts_agg) op = true ->
  trace_step s op = Some s' -> once_inv s'.
Proof.
  intros [Hm Hnd Hact] Ho Ht Hstep. pose proof (memory_step _ _ _ Hm Ho Hstep) as Hm'.
  destruct Hm as [Hk Hv Hs Hd]. destruct op as [now a|now grace]; simpl in *.
  - destruct (handle_reading _ now a) as [agg [[b'|]| |]] eqn:E; try done; simplify_eq; simpl in *;
      constructor; simpl; try done.
    + apply handle_reading_binned in E as (w & e & Hw & _ & Hns & Ha & _ & _ & _).
      intros k b. rewrite Ha, lookup_insert. case_decide as Heq; [|apply Hact]. intros _ Hin.
      unfold timely in Ht. rewrite Hw in Ht.
      destruct (Hd _ Hin) as [Hset|(wm & Hwm & Hlt)]; subst k; simpl in *.
      * apply is_settled_spec in Hset. simpl in Hset. congruence.
      * rewrite Hwm in Ht. breflect. lia.
    + apply handle_reading_late in E as [-> _]. exact Hact.
  - destruct (drain_completed _ now grace) as [agg [bs| |]] eqn:E; simplify_eq. simpl in *.
    pose proof (drain_completed_inv _ _ _ _ _ E) as [Hpk Hrm].
    constructor; simpl; [done|..].
    + rewrite fmap_app. apply list.NoDup_app. split; [done|]. split; [|by eapply peek_keys_nodup].
      intros k Hin1 Hin2. eapply elem_of_keys_peek in Hin2 as (b & Hb & _); [|done..].
      by eapply Hact.
    + intros k b Hb. rewrite fmap_app, not_elem_of_app.
      apply remove_bins_active in Hrm as [_ Hrm]. rewrite Hrm in Hb. case_bool_decide; [done|].
      split; [by eapply Hact|done].
Qed.

Lemma once_run s ops s' :
  once_inv s -> Forall op_valid ops -> run_timely s ops = Some s' -> once_inv s'.
Proof.
  revert s. induction ops as [|op ops IH]; intros s Hi Ho; simpl; [by intros [= <-]|].
  apply Forall_cons_1 in Ho as [Ho Hos]. case_match; [|done]. intros (s1 & H1 & Hrun)%bind_Some.
  eauto using once_step.
Qed.

Lemma once_init : once_inv trace_init.
Proof.
  constructor; [apply memory_init|constructor|]. intros k b. simpl. by rewrite lookup_empty.
Qed.
End Memory.

(** ** Claims *)

Section Claims.
Context {C : Chrono} {CL : ChronoLaws} {D : RustDecimal}.

Lemma filter_completed_dom agg now grace l r b :
  filter_completed agg now grace l = Some r -> b ∈ l ->
  is_Some (bin_completed agg now grace b).
Proof.
  revert r. induction l as [|b0 l IH]; intros r Hr Hb; [set_solver|]. cbn in Hr.
  apply bind_Some in Hr as (c & Hc & Hr). apply bind_Some in Hr as (r' & Hr' & _).
  apply elem_of_cons in Hb as [->|Hb]; eauto.
Qed.

Lemma filter_completed_none agg now grace l :
  (forall b, b ∈ l -> bin_completed agg now grace b = Some false) ->
  filter_completed agg now grace l = Some [].
Proof.
  induction l as [|b l IH]; intros Hin; [done|]. cbn [filter_completed].
  rewrite Hin by set_solver. simpl. rewrite IH by set_solver. done.
Qed.

Lemma elem_of_values agg b :
  b ∈ bin_values agg <-> exists k, agg.(active_bins) !! k = Some b.
Proof.
  unfold bin_values. rewrite list_elem_of_fmap. split.
  - intros ([k b0] & -> & Hb%elem_of_map_to_list). eauto.
  - intros [k Hb]. exists (k, b). by rewrite elem_of_map_to_list.
Qed.

(** A reading's window start is the last quarter hour at or before its timestamp:
    the three [unwrap]s of [get_window_start] never panic on a valid date, the
    start is a multiple of 15 minutes and the timestamp lies in the 15 minutes
    that follow it. *)
Theorem window_floor t :
  dt_valid t ->
  exists w, get_window_start t = Some w /\ w <= t < w + WINDOW_NS /\ w mod WINDOW_NS = 0.
Proof.
  intros Hv. eexists. split; [by apply get_window_start_valid|]. apply window_start_bounds.
Qed.

(** C2: over any sequence of readings and settlement drains, and for every
    (meter, window), the readings accepted for billing are partitioned, in order,
    into the bins handed to settlement and the bin still open: each of those bins
    carries exactly the sum of its group's generation and consumption (in total
    and per tariff), its reading count, its demand peak, its first zone and its
    first reading's owner.  No accepted energy is dropped or counted twice. *)
Theorem energy_conserved ops s k :
  run_trace trace_init ops = Some s ->
  exists groups cur,
    List.filter (in_key k) s.(ts_binned) = concat groups ++ cur /\
    Forall2 bin_accounts groups (List.filter (has_key k) s.(ts_drained)) /\
    match s.(ts_agg).(active_bins) !! k with
    | Some b => bin_accounts cur b
    | None => cur = []
    end.
Proof. intros H. by destruct (trace_accounted ops s k H) as [_ Ha]. Qed.

(** Once a window has settled, no reading of that window is billed again:
    in every reachable state a settled window has no open bin, and a further
    reading for it returns [None] and leaves bins and memory unchanged, recording
    only that the meter is alive. *)
Theorem late_reading_excluded ops s m w now a :
  Forall op_valid ops -> run_trace trace_init ops = Some s ->
  settled_in s.(ts_agg) (m, w) ->
  s.(ts_agg).(active_bins) !! (m, w) = None /\
  (a.(ra_meter_id) = m -> get_window_start a.(ra_timestamp) = Some w ->
   is_Some (dt_checked_add w WINDOW_NS) ->
   handle_reading s.(ts_agg) now a = (note_progress s.(ts_agg) m a.(ra_timestamp) now, Ok None)).
Proof.
  intros Ho Hr Hs. pose proof (memory_trace _ _ Ho Hr) as Hm. split; [by apply Hm|].
  intros <- Hw [e He]. unfold handle_reading. fold WINDOW_NS. rewrite Hw, He. cbv zeta.
  change (is_settled (note_progress _ _ _ _) ?m w) with (is_settled s.(ts_agg) m w).
  apply is_settled_spec in Hs. simpl in Hs. by rewrite Hs.
Qed.


(** Completion is judged by the meter's own clock: a bin that a drain takes
    from a meter heard from within the grace period has [end_time + grace] at or
    below the meter's watermark, however far the wall clock has run ahead. *)
Theorem event_time_completion agg now grace agg' bs b p :
  keys_ok agg -> (forall k b, agg.(active_bins) !! k = Some b -> dt_valid b.(end_time)) ->
  drain_completed agg now grace = (agg', Ok bs) -> b ∈ bs ->
  agg.(progress) !! b.(meter_id) = Some p -> now - p.(last_arrival) < grace ->
  b.(end_time) + grace <= p.(watermark).
Proof.
  intros Hk Hv Hd Hb Hp Hrecent. apply drain_completed_inv in Hd as [Hpk%peek_filter _].
  subst bs. apply list_elem_of_In, List.filter_In in Hb as [Hb%list_elem_of_In Hc].
  apply elem_of_bin_values in Hb; [|done]. unfold completedb, bin_completed in Hc.
  rewrite dt_checked_add_spec in Hc by (by eapply Hv). destruct (_ && _) in Hc; [|done].
  simpl in Hc. rewrite Hp in Hc. breflect; [done|lia].
Qed.

(** A drain leaves no completed bin behind and touches no other: afterwards
    the aggregator holds exactly the bins that were not yet complete, unchanged. *)
Theorem drain_complete agg now grace agg' bs :
  keys_ok agg -> drain_completed agg now grace = (agg', Ok bs) ->
  peek_completed_bins_at agg' now grace = Ok [] /\
  (forall k b, agg'.(active_bins) !! k = Some b <->
     agg.(active_bins) !! k = Some b /\ completedb agg now grace b = false).
Proof.
  intros Hk Hd.
  assert (Hat : forall k b, agg'.(active_bins) !! k = Some b <->
     agg.(active_bins) !! k = Some b /\ completedb agg now grace b = false).
  { intros k b. destruct (drain_at_key _ _ _ _ _ k Hk Hd) as [-> _].
    destruct (_ !! k) as [b0|]; simpl; [|split; [done|intros [[=] _]]].
    destruct (completedb agg now grace b0) eqn:E; split; intros H; destruct_and?; simplify_eq; (congruence || (split; congruence)). }
  split; [|done]. pose proof (drain_progress _ _ _ _ _ Hd) as Hp.
  apply drain_completed_inv in Hd as [Hpk _]. unfold peek_completed_bins_at, unwrap in *.
  destruct (filter_completed agg now grace _) as [l|] eqn:El; [|done].
  rewrite filter_completed_none; [done|]. intros b [k [Hb Hc]%Hat]%elem_of_values.
  destruct (filter_completed_dom _ _ _ _ _ b El) as [c Hc']; [by eapply elem_of_values; eauto|].
  unfold completedb in Hc. rewrite Hc' in Hc. simpl in Hc. subst c.
  unfold bin_completed in *. by rewrite Hp.
Qed.

(** A bin is in surplus, in deficit or balanced, never two at once: the
    mintable surplus is present only when more was generated than consumed, the
    deficit only in the opposite case, and one computation panics only if the
    other does. *)
Theorem surplus_deficit_exclusive `{!DecimalLaws} b :
  match net_surplus_kwh b, net_deficit_kwh b with
  | Ok (Some _), Ok d => dec_ltb b.(energy_consumed) b.(energy_generated) = true /\ d = None
  | Ok None, Ok (Some _) => dec_ltb b.(energy_generated) b.(energy_consumed) = true
  | Ok None, Ok None => True
  | Panic, Panic => True
  | _, _ => False
  end.
Proof.
  unfold net_surplus_kwh, net_deficit_kwh, unwrap.
  pose proof (dec_sub_dom b.(energy_generated) b.(energy_consumed)) as H1.
  pose proof (dec_sub_dom b.(energy_consumed) b.(energy_generated)) as H2.
  destruct (dec_sub b.(energy_generated) b.(energy_consumed)) as [s|] eqn:Es;
    destruct (dec_sub b.(energy_consumed) b.(energy_generated)) as [d|] eqn:Ed; simpl;
    try (by destruct H1; eauto); try (by destruct H2; eauto); [|done].
  rewrite (dec_sub_sign _ _ _ Es), (dec_sub_sign _ _ _ Ed).
  destruct (dec_ltb b.(energy_consumed) b.(energy_generated)) eqn:E1.
  - destruct (dec_ltb b.(energy_generated) b.(energy_consumed)) eqn:E2.
    + pose proof (dec_lt_trans _ _ _ E1 E2) as E3. by rewrite dec_lt_irrefl in E3.
    + by destruct (dec_to_f64 s).
  - destruct (dec_ltb b.(energy_generated) b.(energy_consumed)); [by destruct (dec_to_f64 d)|done].
Qed.
End Claims.

(** ** Witnesses, on the reference calendar and whole-unit decimals *)

Section Witnesses.
#[local] Existing Instance chrono_ref.
#[local] Existing Instance decimal_ref.
#[local] Existing Instance chrono_ref_laws.
#[local] Existing Instance decimal_ref_laws.

(** 2026-01-01T00:00:00Z plus some minutes. *)
Definition at_min (m : Z) : Z := 1767225600 * NS_PER_SEC + m * NS_PER_MIN.

Definition reading_at (m : Z) (gen con : Z) : reading_args := {|
  ra_meter_id := 7%N; ra_user_id := 1%N; ra_meter_serial := "M1"%string;
  ra_generated := gen; ra_consumed := con; ra_timestamp := at_min m;
  ra_tariff_period := Some 1; ra_demand_kw := Some con; ra_zone_code := Some 3
|}.

(** Two readings of window 0, one of window 1, a drain, a straggler of window 0. *)
Definition day_ops : list agg_op :=
  [ OpReading (at_min 1) (reading_at 1 5 2); OpReading (at_min 7) (reading_at 7 6 1);
    OpReading (at_min 20) (reading_at 20 3 9); OpDrain (at_min 20) 0;
    OpReading (at_min 21) (reading_at 14 4 4) ].

Definition day_state : trace_state := default trace_init (run_trace trace_init day_ops).

Lemma day_runs : run_trace trace_init day_ops = Some day_state.
Proof. apply default_is_some. vm_compute. reflexivity. Qed.

Lemma day_valid : Forall op_valid day_ops.
Proof. repeat constructor; vm_compute; discriminate. Qed.

Lemma window_floor_witness :
  exists w, get_window_start (at_min 37) = Some w /\ w <= at_min 37 < w + WINDOW_NS /\ w mod WINDOW_NS = 0.
Proof. apply (window_floor (at_min 37)). split; vm_compute; discriminate. Defined.

Lemma energy_conserved_witness :
  exists groups cur,
    List.filter (in_key (7%N, at_min 0)) day_state.(ts_binned) = concat groups ++ cur /\
    Forall2 bin_accounts groups (List.filter (has_key (7%N, at_min 0)) day_state.(ts_drained)) /\
    match day_state.(ts_agg).(active_bins) !! (7%N, at_min 0) with
    | Some b => bin_accounts cur b
    | None => cur = []
    end.
Proof. apply (energy_conserved day_ops day_state (7%N, at_min 0)). apply day_runs. Defined.

Lemma late_reading_excluded_witness :
  day_state.(ts_agg).(active_bins) !! (7%N, at_min 0) = None /\
  handle_reading day_state.(ts_agg) (at_min 30) (reading_at 3 8 0) =
    (note_progress day_state.(ts_agg) 7%N (at_min 3) (at_min 30), Ok None).
Proof.
  destruct (late_reading_excluded day_ops day_state 7%N (at_min 0) (at_min 30) (reading_at 3 8 0)
              day_valid day_runs) as [Hn Hl].
  - apply is_settled_spec. vm_compute. reflexivity.
  - split; [exact Hn|]. apply Hl; [reflexivity|vm_compute; reflexivity|].
    eexists. vm_compute. reflexivity.
Defined.

Definition timely_state : trace_state := default trace_init (run_timely trace_init day_ops).


(** The three readings, before the drain. *)
Definition morning : trace_state := default trace_init (run_trace trace_init (take 3 day_ops)).

Lemma morning_keys : keys_ok morning.(ts_agg).
Proof.
  refine (proj1 (trace_accounted (take 3 day_ops) morning (0%N, 0) _)).
  apply default_is_some. vm_compute. reflexivity.
Qed.

Definition morning_drain : Aggregator * outcome Empty_set (list BillingBin) :=
  drain_completed morning.(ts_agg) (at_min 20) NS_PER_MIN.

Definition morning_bins : list BillingBin := default [] (ok_of morning_drain.2).
Definition morning_bin : BillingBin :=
  default (fresh_bin (reading_at 0 0 0) 0 0) (head morning_bins).
Definition morning_progress : MeterProgress :=
  default {| watermark := 0; last_arrival := 0 |} (morning.(ts_agg).(progress) !! 7%N).

Lemma morning_drains : drain_completed morning.(ts_agg) (at_min 20) NS_PER_MIN = (morning_drain.1, Ok morning_bins).
Proof. apply ok_pair_is_ok. vm_compute. reflexivity. Qed.

Lemma event_time_completion_witness :
  morning_bin.(start_time) = at_min 0 /\
  morning_bin.(end_time) + NS_PER_MIN <= morning_progress.(watermark).
Proof.
  split; [vm_compute; reflexivity|].
  apply (event_time_completion morning.(ts_agg) (at_min 20) NS_PER_MIN morning_drain.1 morning_bins).
  - apply morning_keys.
  - intros k b Hb.
    assert (Hall : forallb (fun b => chrono_valid_b b.(end_time)) (bin_values morning.(ts_agg)) = true)
      by (vm_compute; reflexivity).
    rewrite forallb_forall in Hall. specialize (Hall b).
    rewrite <- list_elem_of_In, elem_of_values in Hall. specialize (Hall ltac:(eauto)).
    unfold chrono_valid_b in Hall. breflect. split; done.
  - apply morning_drains.
  - apply head_default_elem. vm_compute. reflexivity.
  - apply default_is_some. vm_compute. reflexivity.
  - vm_compute. reflexivity.
Defined.

Lemma drain_complete_witness :
  peek_completed_bins_at morning_drain.1 (at_min 20) NS_PER_MIN = Ok [] /\
  (forall k b, morning_drain.1.(active_bins) !! k = Some b <->
     morning.(ts_agg).(active_bins) !! k = Some b /\
     completedb morning.(ts_agg) (at_min 20) NS_PER_MIN b = false).
Proof.
  exact (drain_complete morning.(ts_agg) (at_min 20) NS_PER_MIN _ _ morning_keys morning_drains).
Defined.

Lemma surplus_deficit_exclusive_witness :
  match net_surplus_kwh morning_bin, net_deficit_kwh morning_bin with
  | Ok (Some _), Ok d =>
      dec_ltb morning_bin.(energy_consumed) morning_bin.(energy_generated) = true /\ d = None
  | Ok None, Ok (Some _) =>
      dec_ltb morning_bin.(energy_generated) morning_bin.(energy_consumed) = true
  | Ok None, Ok None => True
  | Panic, Panic => True
  | _, _ => False
  end.
Proof. exact (surplus_deficit_exclusive morning_bin). Defined.

(** A backfill: the meter's newest reading is a day and an hour ahead, then its
    old buffered readings arrive around a drain. *)
Definition backfill_ops : list agg_op :=
  [ OpReading (at_min 1500) (reading_at 1500 1 0); OpReading (at_min 1500) (reading_at 1 5 0);
    OpDrain (at_min 1500) 0; OpReading (at_min 1501) (reading_at 2 6 0); OpDrain (at_min 1501) 0 ].

(** The memory of a settled window is dropped at once when the window is
    more than 24 h behind its meter's newest reading, so such a window is billed
    again by the next straggler: the same (meter, window) reaches settlement
    twice. *)
Theorem backfilled_window_resettles :
  exists s, run_trace trace_init backfill_ops = Some s /\
    key <$> s.(ts_drained) = [(7%N, at_min 0); (7%N, at_min 0)].
Proof.
  exists (default trace_init (run_trace trace_init backfill_ops)).
  split; [apply default_is_some|]; vm_compute; reflexivity.
Qed.
End Witnesses.
