(* ===== verification/BinaryDecoder.v ===== *)
(** * Secure DLMS-lite v4 frames (aggregator-stacks/src/binary_decoder.rs)

    [parse_header] checks the CRC-32 and the version and reads the plaintext
    header; [parse] then decrypts the block and reads its tag-length-value
    entries.  Indexing and [split_at] out of range are the [Panic] outcome. *)

From Stdlib Require Import ZArith Lia Ascii String SpecFloat.
From stdpp Require Import base gmap strings list numbers.
From S2P Require Import Prelude RustStd External.

Open Scope Z_scope.
Open Scope bridge_scope.

Definition PROTOCOL_VERSION_V4 : Z := 4.

Inductive frame_error : Type :=
| PayloadTooSmall
| LengthExceedsPayload
| CrcMismatch
| UnsupportedVersion (v : Z)
| InvalidTs
| DecryptionFailed.

Record DlmsHeader : Type := {
  hdr_version : Z;
  hdr_manufacturer_id : string;
  hdr_logical_device_name : string;
  hdr_timestamp : Z
}.

Record DlmsBinaryFrame : Type := {
  header : DlmsHeader;
  active_energy_import_wh : option Z;
  active_energy_export_wh : option Z;
  voltage_cv : option Z;
  current_ma : option Z;
  battery_soc_bps : option Z
}.

Definition is_nul (c : ascii) : bool := code c =? 0.

Section Decoder.
Context {K : Crypto} {C : Chrono}.

(** [payload[i]], with its out-of-range panic. *)
Definition byte_at (payload : list Z) (i : nat) : outcome frame_error Z := unwrap (payload !! i).

Definition bytes_at (payload : list Z) (a b : nat) : outcome frame_error (list Z) :=
  unwrap (slice payload a b).

(** [&payload[..total_length + 2]] split before its last four bytes. *)
Definition split_crc (payload : list Z) (total_length : nat)
    : outcome frame_error (list Z * list Z) :=
  let? frame_data := bytes_at payload 0 (total_length + 2) in
  if (length frame_data <? 4)%nat then Panic
  else Ok (take (length frame_data - 4) frame_data, drop (length frame_data - 4) frame_data).

Definition parse_header (payload : list Z) : outcome frame_error DlmsHeader :=
  let? _ := ensure (25 <=? length payload)%nat PayloadTooSmall in
  let? len_byte := byte_at payload 1 in
  let total_length := Z.to_nat len_byte in
  let? _ := ensure (total_length + 2 <=? length payload)%nat LengthExceedsPayload in
  let? (data_to_checksum, checksum_bytes) := split_crc payload total_length in
  let? _ := ensure (from_be_bytes checksum_bytes =? crc32 data_to_checksum) CrcMismatch in
  let? version := byte_at payload 0 in
  let? _ := ensure (version =? PROTOCOL_VERSION_V4) (UnsupportedVersion version) in
  let? manuf := bytes_at payload 2 5 in
  let? ldn := bytes_at payload 5 13 in
  let? ts_bytes := bytes_at payload 13 21 in
  let? ts := ok_or (dt_timestamp_opt (wrap_i64 (from_be_bytes ts_bytes))) InvalidTs in
  Ok {| hdr_version := version;
        hdr_manufacturer_id := from_utf8_lossy manuf;
        hdr_logical_device_name := trim_matches is_nul (from_utf8_lossy ldn);
        hdr_timestamp := ts |}.

(** One entry of the block: the [match tag] of the loop. *)
Definition apply_tlv (f : DlmsBinaryFrame) (tag : Z) (v : list Z) : DlmsBinaryFrame :=
  let n := from_be_bytes v in
  match tag, length v with
  | 1, 8%nat => {| header := f.(header); active_energy_import_wh := Some n; active_energy_export_wh := f.(active_energy_export_wh); voltage_cv := f.(voltage_cv); current_ma := f.(current_ma); battery_soc_bps := f.(battery_soc_bps) |}
  | 2, 8%nat => {| header := f.(header); active_energy_import_wh := f.(active_energy_import_wh); active_energy_export_wh := Some n; voltage_cv := f.(voltage_cv); current_ma := f.(current_ma); battery_soc_bps := f.(battery_soc_bps) |}
  | 3, 4%nat => {| header := f.(header); active_energy_import_wh := f.(active_energy_import_wh); active_energy_export_wh := f.(active_energy_export_wh); voltage_cv := Some n; current_ma := f.(current_ma); battery_soc_bps := f.(battery_soc_bps) |}
  | 4, 4%nat => {| header := f.(header); active_energy_import_wh := f.(active_energy_import_wh); active_energy_export_wh := f.(active_energy_export_wh); voltage_cv := f.(voltage_cv); current_ma := Some n; battery_soc_bps := f.(battery_soc_bps) |}
  | 5, 4%nat => {| header := f.(header); active_energy_import_wh := f.(active_energy_import_wh); active_energy_export_wh := f.(active_energy_export_wh); voltage_cv := f.(voltage_cv); current_ma := f.(current_ma); battery_soc_bps := Some n |}
  | _, _ => f
  end.

(** The loop over [decrypted_data[tlv_cursor..]]; every round consumes at least
    the tag and the length byte, so [length data] rounds always suffice
    ([tlv_loop_fuel]). *)
Fixpoint tlv_loop (fuel : nat) (data : list Z) (f : DlmsBinaryFrame) : DlmsBinaryFrame :=
  match fuel, data with
  | S fuel, tag :: tag_len :: rest =>
      let n := Z.to_nat tag_len in
      if (length rest <? n)%nat then f
      else tlv_loop fuel (drop n rest) (apply_tlv f tag (take n rest))
  | _, _ => f
  end.

Definition empty_frame (h : DlmsHeader) : DlmsBinaryFrame := {|
  header := h; active_energy_import_wh := None; active_energy_export_wh := None;
  voltage_cv := None; current_ma := None; battery_soc_bps := None |}.

(** [Key::from_slice] panics unless the key has 32 bytes; the nonce is the raw
    manufacturer, timestamp and version bytes. *)
Definition decrypt_block (key : list Z) (manuf ts : list Z) (version : Z) (block : list Z)
    : outcome frame_error (list Z) :=
  if negb (length key =? 32)%nat then Panic
  else ok_or (gcm_decrypt key (manuf ++ ts ++ [version]) [] block) DecryptionFailed.

Definition parse (payload : list Z) (encryption_key : option (list Z))
    : outcome frame_error DlmsBinaryFrame :=
  let? h := parse_header payload in
  let? len_byte := byte_at payload 1 in
  let total_length := Z.to_nat len_byte in
  let? manuf := bytes_at payload 2 5 in
  let? ts := bytes_at payload 13 21 in
  let? encrypted := bytes_at payload 21 (total_length + 2 - 4) in
  let? decrypted :=
    match encryption_key with
    | Some key => decrypt_block key manuf ts h.(hdr_version) encrypted
    | None => Ok encrypted
    end in
  Ok (tlv_loop (length decrypted) decrypted (empty_frame h)).

(** ** The wire format, as the doc comment of [parse] lays it out *)

Record wire : Type := {
  w_manuf : list Z;
  w_ldn : list Z;
  w_ts : Z;
  w_tlvs : list (Z * list Z)
}.

Definition encode_tlvs (l : list (Z * list Z)) : list Z :=
  concat ((fun tv => tv.1 :: Z.of_nat (length tv.2) :: tv.2) <$> l).

Definition seal_block (key : option (list Z)) (w : wire) : list Z :=
  match key with
  | Some k => gcm_encrypt k (w.(w_manuf) ++ to_be_bytes 8 w.(w_ts) ++ [PROTOCOL_VERSION_V4]) []
                (encode_tlvs w.(w_tlvs))
  | None => encode_tlvs w.(w_tlvs)
  end.

Definition wire_body (key : option (list Z)) (w : wire) : list Z :=
  w.(w_manuf) ++ w.(w_ldn) ++ to_be_bytes 8 w.(w_ts) ++ seal_block key w.

(** The length byte counts the body and the checksum. *)
Definition encode_frame (key : option (list Z)) (w : wire) : list Z :=
  let body := wire_body key w in
  let data := PROTOCOL_VERSION_V4 :: Z.of_nat (length body + 4) :: body in
  data ++ to_be_bytes 4 (crc32 data).

Definition wire_header (w : wire) (t : Z) : DlmsHeader := {|
  hdr_version := PROTOCOL_VERSION_V4;
  hdr_manufacturer_id := from_utf8_lossy w.(w_manuf);
  hdr_logical_device_name := trim_matches is_nul (from_utf8_lossy w.(w_ldn));
  hdr_timestamp := t |}.

Record wire_ok (key : option (list Z)) (w : wire) : Prop := {
  wo_manuf : length w.(w_manuf) = 3%nat;
  wo_ldn : length w.(w_ldn) = 8%nat;
  wo_ts : in_i64 w.(w_ts) = true /\ 0 <= w.(w_ts);
  wo_len : (length (wire_body key w) + 4 <= 255)%nat;
  wo_key : match key with Some k => length k = 32%nat | None => True end
}.
End Decoder.

(** AES-GCM opens what it sealed; a CRC-32 is a [u32]. *)
Class CryptoLaws `{Crypto} : Prop := {
  gcm_open_seal k n a m : length k = 32%nat -> length n = 12%nat ->
    gcm_decrypt k n a (gcm_encrypt k n a m) = Some m;
  crc32_u32 l : 0 <= crc32 l < 2 ^ 32
}.

(** ** Lemmas *)

Section Lemmas.
Context {K : Crypto} {C : Chrono}.

Lemma tlv_loop_fuel data : forall n m f,
  (length data <= n)%nat -> (length data <= m)%nat -> tlv_loop n data f = tlv_loop m data f.
Proof.
  induction data as [data IH] using (induction_ltof1 _ length). unfold ltof in IH.
  intros [|n] [|m] f Hn Hm; try done; try (destruct data; simpl in *; [done|lia]).
  destruct data as [|tag [|tl rest]]; simpl in *; try done. case_match; [done|].
  apply IH; rewrite length_drop; lia.
Qed.

Lemma encode_tlvs_cons tv l :
  encode_tlvs (tv :: l) = tv.1 :: Z.of_nat (length tv.2) :: tv.2 ++ encode_tlvs l.
Proof. done. Qed.

Lemma tlv_loop_entry n t v rest f :
  tlv_loop (S n) (t :: Z.of_nat (length v) :: v ++ rest) f = tlv_loop n rest (apply_tlv f t v).
Proof.
  cbn [tlv_loop]. rewrite Nat2Z.id. cbv zeta.
  rewrite (proj2 (Nat.ltb_ge _ _)) by (rewrite length_app; lia).
  by rewrite take_app_length, drop_app_length.
Qed.

(** Entries are applied left to right, whatever follows them. *)
Lemma tlv_loop_app l tail f :
  tlv_loop (length (encode_tlvs l ++ tail)) (encode_tlvs l ++ tail) f =
  tlv_loop (length tail) tail (fold_left (fun f tv => apply_tlv f tv.1 tv.2) l f).
Proof.
  revert f. induction l as [|[t v] l IH]; intros f; [done|].
  rewrite encode_tlvs_cons. cbn [fst snd app length]. rewrite <- app_assoc, tlv_loop_entry.
  cbn [fold_left fst snd]. rewrite <- IH. apply tlv_loop_fuel; [|done].
  rewrite !length_app. lia.
Qed.

Lemma tlv_loop_header n d f : (tlv_loop n d f).(header) = f.(header).
Proof.
  revert d f. induction n as [|n IH]; intros d f; [done|]. destruct d as [|tag [|tl rest]]; try done.
  cbn [tlv_loop]. case_match; [done|]. rewrite IH. unfold apply_tlv. repeat case_match; done.
Qed.

Lemma byte_at_Ok payload i : (i < length payload)%nat -> exists b, byte_at payload i = Ok b /\ payload !! i = Some b.
Proof.
  intros Hi. destruct (lookup_lt_is_Some_2 payload i Hi) as [b Hb]. exists b.
  unfold byte_at. by rewrite Hb.
Qed.

Lemma bytes_at_Ok payload a b :
  (a <= b <= length payload)%nat ->
  exists l, bytes_at payload a b = Ok l /\ slice payload a b = Some l /\ length l = (b - a)%nat.
Proof.
  intros H. destruct (slice_is_Some payload a b H) as [l Hl]. exists l.
  unfold bytes_at. rewrite Hl. eauto using slice_length.
Qed.

Lemma bytes_at_panic payload a b : bytes_at payload a b = Panic <-> ~ (a <= b <= length payload)%nat.
Proof.
  unfold bytes_at, slice. destruct (_ && _) eqn:E; simpl; breflect; split; intros; try done; lia.
Qed.

Lemma split_crc_outcome payload n :
  (n + 2 <= length payload)%nat ->
  split_crc payload n =
    if (n <? 2)%nat then Panic
    else Ok (take (n - 2) payload, take 4 (drop (n - 2) payload)).
Proof.
  intros H. unfold split_crc, bytes_at, slice.
  rewrite (proj2 (Nat.leb_le _ _)) by lia. rewrite (proj2 (Nat.leb_le _ _)) by done.
  cbn [andb unwrap obind]. rewrite drop_0, Nat.sub_0_r, length_take, Nat.min_l by done.
  destruct (n <? 2)%nat eqn:E; breflect.
  - by rewrite (proj2 (Nat.ltb_lt _ _)) by lia.
  - rewrite (proj2 (Nat.ltb_ge _ _)) by lia. replace (n + 2 - 4)%nat with (n - 2)%nat by lia.
    rewrite take_take, Nat.min_l by lia. rewrite skipn_firstn_comm.
    by replace (n + 2 - (n - 2))%nat with 4%nat by lia.
Qed.
End Lemmas.

(** ** Claims *)

Section Claims.
Context {K : Crypto} {C : Chrono}.

Lemma parse_header_run payload :
  (25 <= length payload)%nat ->
  exists len version manuf ldn ts,
    payload !! 1%nat = Some len /\ payload !! 0%nat = Some version /\
    slice payload 2 5 = Some manuf /\ slice payload 5 13 = Some ldn /\
    slice payload 13 21 = Some ts /\
    parse_header payload =
      let n := Z.to_nat len in
      if negb (n + 2 <=? length payload)%nat then Err LengthExceedsPayload
      else if (n <? 2)%nat then Panic
      else if negb (from_be_bytes (take 4 (drop (n - 2) payload)) =? crc32 (take (n - 2) payload))
      then Err CrcMismatch
      else if negb (version =? PROTOCOL_VERSION_V4) then Err (UnsupportedVersion version)
      else match dt_timestamp_opt (wrap_i64 (from_be_bytes ts)) with
           | None => Err InvalidTs
           | Some t => Ok {| hdr_version := version;
                             hdr_manufacturer_id := from_utf8_lossy manuf;
                             hdr_logical_device_name := trim_matches is_nul (from_utf8_lossy ldn);
                             hdr_timestamp := t |}
           end.
Proof.
  intros H. unfold parse_header.
  destruct (byte_at_Ok payload 1) as (len & E1 & Hl); [lia|].
  destruct (byte_at_Ok payload 0) as (v & E0 & Hv); [lia|].
  destruct (bytes_at_Ok payload 2 5) as (m & Em & Hm & _); [lia|].
  destruct (bytes_at_Ok payload 5 13) as (d & Ed & Hd & _); [lia|].
  destruct (bytes_at_Ok payload 13 21) as (t & Et & Ht & _); [lia|].
  exists len, v, m, d, t. do 5 (split; [done|]).
  rewrite (proj2 (Nat.leb_le _ _) H), E1. cbn [ensure obind]. cbv zeta.
  destruct (_ + 2 <=? _)%nat eqn:El; cbn [ensure obind negb]; [|done]. breflect.
  rewrite split_crc_outcome by done. destruct (_ <? 2)%nat; cbn [obind]; [done|].
  destruct (_ =? crc32 _); cbn [ensure obind negb]; [|done].
  rewrite E0. cbn [obind]. destruct (v =? _); cbn [ensure obind negb]; [|done].
  rewrite Em, Ed, Et. cbn [obind]. by destruct (dt_timestamp_opt _).
Qed.

Lemma parse_header_short payload :
  (length payload < 25)%nat -> parse_header payload = Err PayloadTooSmall.
Proof. intros H. unfold parse_header. by rewrite (proj2 (Nat.leb_gt _ _)) by lia. Qed.

Lemma parse_header_panics payload :
  is_panic (parse_header payload) = true <->
  exists len, payload !! 1%nat = Some len /\ (25 <= length payload)%nat /\ (Z.to_nat len < 2)%nat.
Proof.
  destruct (decide (25 <= length payload)%nat) as [H|H].
  2: { rewrite parse_header_short by lia. split; [done|]. intros (? & _ & ? & _). lia. }
  destruct (parse_header_run payload H) as (len & v & m & d & t & Hl & _ & _ & _ & _ & ->).
  cbv zeta. split.
  - destruct (_ <=? _)%nat; [|done]. cbn [negb]. destruct (_ <? 2)%nat eqn:E2; breflect; [eauto|].
    destruct (_ =? crc32 _); [|done]. destruct (v =? _); [|done]. by destruct (dt_timestamp_opt _).
  - intros (l & Hl' & _ & Hs). simplify_eq. rewrite (proj2 (Nat.leb_le _ _)) by lia.
    by rewrite (proj2 (Nat.ltb_lt _ _) Hs).
Qed.

Lemma parse_header_ok payload h :
  parse_header payload = Ok h ->
  exists len manuf ts, payload !! 1%nat = Some len /\
    (25 <= length payload)%nat /\ (2 <= Z.to_nat len)%nat /\ (Z.to_nat len + 2 <= length payload)%nat /\
    bytes_at payload 2 5 = Ok manuf /\ bytes_at payload 13 21 = Ok ts /\
    h.(hdr_version) = PROTOCOL_VERSION_V4 /\
    from_be_bytes (take 4 (drop (Z.to_nat len - 2) payload)) = crc32 (take (Z.to_nat len - 2) payload).
Proof.
  destruct (decide (25 <= length payload)%nat) as [H|H].
  2: { by rewrite parse_header_short by lia. }
  destruct (parse_header_run payload H) as (len & v & m & d & t & Hl & _ & Hm & _ & Ht & ->).
  cbv zeta. destruct (_ <=? _)%nat eqn:E1; [|done]. cbn [negb].
  destruct (_ <? 2)%nat eqn:E2; [done|]. destruct (_ =? crc32 _) eqn:E3; [|done]. cbn [negb].
  destruct (v =? _) eqn:E4; [|done]. destruct (dt_timestamp_opt _); [|done]. intros [= <-].
  breflect. exists len, m, t. unfold bytes_at. rewrite Hm, Ht. simpl. eauto 10.
Qed.

(** C40: parsing a frame panics exactly on these inputs: 25 bytes or more whose
    declared length is below 2 (the checksum split underflows), or an otherwise
    valid header with a declared length below 23 (the block ends before it
    starts) or a key that is not 32 bytes.  All other bytes give a frame or an
    error. *)
Theorem frame_panics_exactly payload key :
  is_panic (parse payload key) = true <->
  exists len, payload !! 1%nat = Some len /\ (25 <= length payload)%nat /\
    (Z.to_nat len < 2 \/
     (exists h, parse_header payload = Ok h) /\
     (Z.to_nat len < 23 \/ exists k, key = Some k /\ length k <> 32))%nat.
Proof.
  unfold parse. destruct (parse_header payload) as [h|e|] eqn:Eh; cbn [obind is_panic].
  - destruct (parse_header_ok _ _ Eh) as (len & m & t & Hl & H & H2 & Hb & Em & Et & _).
    rewrite Em, Et. unfold byte_at. rewrite Hl. cbn [unwrap obind].
    destruct (decide (Z.to_nat len < 23)%nat) as [Hs|Hs].
    { rewrite (proj2 (bytes_at_panic _ _ _)) by lia. split; [|done]. eauto 10. }
    destruct (bytes_at_Ok payload 21 (Z.to_nat len + 2 - 4)) as (blk & -> & _); [lia|].
    cbn [obind]. destruct key as [k|]; cbn [obind is_panic].
    + unfold decrypt_block. destruct (length k =? 32)%nat eqn:Ek; breflect; cbn [negb].
      * split; [by destruct (gcm_decrypt _ _ _ _)|].
        intros (l & ? & _ & [?|[_ [?|(k' & [= <-] & ?)]]]); simplify_eq; lia.
      * cbn [obind is_panic]. split; [|done]. intros _. exists len. eauto 12.
    + split; [done|]. intros (l & ? & _ & [?|[_ [?|(k' & [=] & _)]]]); simplify_eq; lia.
  - split; [done|]. intros (l & Hl & H & [Hs|[[h Hh] _]]); [|done].
    pose proof (proj2 (parse_header_panics payload) (ex_intro _ l (conj Hl (conj H Hs)))) as Hp.
    by rewrite Eh in Hp.
  - split; [|done]. intros _. destruct (proj1 (parse_header_panics payload)) as (l & Hl & H & Hs);
      [by rewrite Eh|]. eauto 10.
Qed.

(** An accepted frame is an intact one: its four checksum bytes are the
    CRC-32 of everything before them, its version byte is 4, and with a key its
    block is what AES-GCM opened under the nonce made of the frame's own
    manufacturer, timestamp and version bytes. *)
Theorem frame_integrity payload key f :
  parse payload key = Ok f ->
  exists len manuf ts block,
    payload !! 1%nat = Some len /\
    from_be_bytes (take 4 (drop (Z.to_nat len - 2) payload)) = crc32 (take (Z.to_nat len - 2) payload) /\
    slice payload 2 5 = Some manuf /\ slice payload 13 21 = Some ts /\
    slice payload 21 (Z.to_nat len + 2 - 4) = Some block /\
    f.(header).(hdr_version) = PROTOCOL_VERSION_V4 /\
    exists plain,
      match key with
      | Some k => gcm_decrypt k (manuf ++ ts ++ [PROTOCOL_VERSION_V4]) [] block = Some plain
      | None => plain = block
      end /\
      f = tlv_loop (length plain) plain (empty_frame f.(header)).
Proof.
  unfold parse. destruct (parse_header payload) as [h|e|] eqn:Eh; cbn [obind]; [|done..].
  destruct (parse_header_ok _ _ Eh) as (len & m & t & Hl & _ & _ & _ & Em & Et & Hv & Hcrc).
  rewrite Em, Et. unfold byte_at, bytes_at in *. rewrite Hl. cbn [unwrap obind].
  destruct (slice payload 2 5); [|done]. destruct (slice payload 13 21); [|done]. simplify_eq/=.
  destruct (slice payload 21 _) as [blk|] eqn:Eblk; cbn [unwrap obind]; [|done].
  intros Hk. exists len, m, t, blk. do 5 (split; [done|]).
  destruct key as [k|]; cbn [obind] in Hk.
  - unfold decrypt_block in Hk. destruct (negb _); [done|]. rewrite Hv in Hk.
    destruct (gcm_decrypt _ _ _ _) as [pl|] eqn:Eg; [|done]. simplify_eq/=.
    rewrite tlv_loop_header. eauto.
  - simplify_eq/=. rewrite tlv_loop_header. eauto.
Qed.

End Claims.

Section Roundtrip.
Context {K : Crypto} {C : Chrono} {KL : CryptoLaws}.
Context (key : option (list Z)) (w : wire) (Hw : wire_ok key w).

Let n : nat := (length (wire_body key w) + 4)%nat.
Let data : list Z := PROTOCOL_VERSION_V4 :: Z.of_nat n :: wire_body key w.
Let ts : list Z := to_be_bytes 8 w.(w_ts).
Let crc : list Z := to_be_bytes 4 (crc32 data).
Let P : list Z := encode_frame key w.

Lemma wire_layout :
  P = [PROTOCOL_VERSION_V4; Z.of_nat n] ++ w.(w_manuf) ++ w.(w_ldn) ++ ts ++ seal_block key w ++ crc.
Proof. unfold P, encode_frame, crc, data, ts, n, wire_body. cbn [app]. by rewrite <- !app_assoc. Qed.

Lemma wire_lengths :
  length ts = 8%nat /\ length crc = 4%nat /\ n = (23 + length (seal_block key w))%nat /\
  length P = (n + 2)%nat /\ length data = (n - 2)%nat.
Proof.
  destruct Hw as [Hm Hd _ _ _].
  assert (Lts : length ts = 8%nat) by apply length_to_be_bytes.
  assert (Lcrc : length crc = 4%nat) by apply length_to_be_bytes.
  assert (Ln : n = (23 + length (seal_block key w))%nat).
  { unfold n, wire_body. fold ts. rewrite !length_app, Hm, Hd, Lts. lia. }
  do 3 (split; [done|]). split.
  - rewrite wire_layout, !length_app, Hm, Hd, Lts, Lcrc. cbn [length]. lia.
  - unfold data. cbn [length]. unfold n. lia.
Qed.

Lemma wire_slices :
  slice P 2 5 = Some w.(w_manuf) /\ slice P 5 13 = Some w.(w_ldn) /\ slice P 13 21 = Some ts /\
  slice P 21 (n + 2 - 4) = Some (seal_block key w).
Proof.
  destruct wire_lengths as (Lts & Lcrc & Ln & _). destruct Hw as [Hm Hd _ _ _].
  pose proof wire_layout as HP. repeat split.
  - eapply slice_mid; [exact HP|done|lia].
  - eapply (slice_mid _ ([_; _] ++ w.(w_manuf))); [rewrite <- app_assoc; exact HP|cbn; lia|lia].
  - eapply (slice_mid _ ([_; _] ++ w.(w_manuf) ++ w.(w_ldn)));
      [rewrite <- !app_assoc; exact HP|rewrite !length_app; cbn [length]; lia|lia].
  - eapply (slice_mid _ ([_; _] ++ w.(w_manuf) ++ w.(w_ldn) ++ ts));
      [rewrite <- !app_assoc; exact HP|rewrite !length_app; cbn [length]; lia|lia].
Qed.

Lemma wire_parse_header t :
  dt_timestamp_opt w.(w_ts) = Some t -> parse_header P = Ok (wire_header w t).
Proof.
  intros Ht. destruct wire_lengths as (Lts & Lcrc & Ln & LP & Ld).
  destruct wire_slices as (Sm & Sd & St & _). destruct Hw as [_ _ [Hts Hpos] _ _].
  destruct (parse_header_run P) as (l & v & m & d & t' & Hl & Hv & Em & Ed & Et & ->); [lia|].
  pose proof wire_layout as HP. rewrite HP in Hl, Hv. cbn [lookup list_lookup app] in Hl, Hv.
  assert (l = Z.of_nat n /\ v = PROTOCOL_VERSION_V4 /\ m = w.(w_manuf) /\ d = w.(w_ldn) /\ t' = ts)
    as (-> & -> & -> & -> & ->) by (repeat split; congruence).
  cbv zeta. rewrite Nat2Z.id.
  rewrite (proj2 (Nat.leb_le _ _)) by lia. rewrite (proj2 (Nat.ltb_ge _ _)) by lia. cbn [negb].
  rewrite <- Ld. change P with (data ++ crc). rewrite take_app_length, drop_app_length.
  rewrite take_ge by lia. unfold crc. rewrite from_to_be_bytes by apply crc32_u32.
  rewrite Z.eqb_refl. cbn [negb]. change (PROTOCOL_VERSION_V4 =? PROTOCOL_VERSION_V4) with true.
  cbn [negb]. unfold ts. rewrite from_to_be_bytes.
  - by rewrite wrap_i64_id, Ht by done.
  - unfold in_i64, i64_max in Hts. breflect. change (Z.of_nat 8) with 8. lia.
Qed.

Lemma wire_open :
  match key with
  | Some k => decrypt_block k w.(w_manuf) ts PROTOCOL_VERSION_V4 (seal_block key w)
  | None => Ok (seal_block key w)
  end = Ok (encode_tlvs w.(w_tlvs)).
Proof.
  destruct wire_lengths as (Lts & _). destruct Hw as [Hm _ _ _ Hk]. unfold seal_block.
  destruct key as [k|]; [|done]. unfold decrypt_block. rewrite Hk. cbn [Nat.eqb negb].
  rewrite gcm_open_seal; [done|done|]. rewrite !length_app, Hm. fold ts. rewrite Lts. done.
Qed.

Lemma wire_parse t :
  dt_timestamp_opt w.(w_ts) = Some t ->
  parse P key =
  Ok (fold_left (fun f tv => apply_tlv f tv.1 tv.2) w.(w_tlvs) (empty_frame (wire_header w t))).
Proof.
  intros Ht. unfold parse. rewrite (wire_parse_header t Ht). cbn [obind]. unfold byte_at, bytes_at.
  replace (P !! 1%nat) with (Some (Z.of_nat n)) by (by rewrite wire_layout). cbn [unwrap obind].
  rewrite Nat2Z.id. destruct wire_slices as (-> & _ & -> & ->). cbn [unwrap obind].
  change (hdr_version (wire_header w t)) with PROTOCOL_VERSION_V4. rewrite wire_open. cbn [obind].
  f_equal. pose proof (tlv_loop_app w.(w_tlvs) [] (empty_frame (wire_header w t))) as Hl.
  rewrite app_nil_r in Hl. exact Hl.
Qed.
End Roundtrip.

Section RoundtripClaim.
Context {K : Crypto} {C : Chrono}.

End RoundtripClaim.

(** ** Witnesses *)

Lemma crypto_ref_laws : @CryptoLaws crypto_ref.
Proof.
  constructor; intros; cbn.
  - by rewrite Z.eqb_refl.
  - apply wrap_bounds. lia.
Qed.

Section Witnesses.
#[local] Existing Instance chrono_ref.
#[local] Existing Instance crypto_ref.
#[local] Existing Instance crypto_ref_laws.

Definition sample_wire : wire := {|
  w_manuf := [71; 84; 88]; w_ldn := [77; 49; 0; 0; 0; 0; 0; 0]; w_ts := 1767225600;
  w_tlvs := [(1, to_be_bytes 8 1500); (9, [1; 2]); (2, to_be_bytes 8 700); (3, to_be_bytes 4 23000)]
|}.

Definition sample_key : list Z := replicate 32 5.


Lemma frame_integrity_witness :
  exists len manuf ts block, 
    encode_frame None sample_wire !! 1%nat = Some len /\
    from_be_bytes (take 4 (drop (Z.to_nat len - 2) (encode_frame None sample_wire))) =
      crc32 (take (Z.to_nat len - 2) (encode_frame None sample_wire)) /\
    slice (encode_frame None sample_wire) 2 5 = Some manuf /\
    slice (encode_frame None sample_wire) 13 21 = Some ts /\
    slice (encode_frame None sample_wire) 21 (Z.to_nat len + 2 - 4) = Some block.
Proof.
  destruct (frame_integrity (encode_frame None sample_wire) None
    {| header := {| hdr_version := 4; hdr_manufacturer_id := "GTX"; hdr_logical_device_name := "M1";
                     hdr_timestamp := 1767225600 * NS_PER_SEC |};
        active_energy_import_wh := Some 1500; active_energy_export_wh := Some 700;
        voltage_cv := Some 23000; current_ma := None; battery_soc_bps := None |})
    as (len & m & t & b & H1 & H2 & H3 & H4 & H5 & _).
  - vm_compute. reflexivity.
  - exists len, m, t, b. auto.
Defined.

(** Twenty-five bytes with a correct checksum and a declared length of 22. *)
Definition short_frame : list Z :=
  let data := [4; 22] ++ replicate 18 0 in data ++ to_be_bytes 4 (crc32 data) ++ [0].

Lemma short_frame_panics : parse short_frame None = Panic /\ length short_frame = 25%nat.
Proof. vm_compute. split; reflexivity. Qed.
End Witnesses.
