(* ===== verification/Stores.v ===== *)
(** * The durable Redis stores (aggregator-logic: redis_hash.rs, bin_store.rs,
    mint_outbox.rs)

    Three Redis hashes: the in-flight billing bins, the pending mints and the
    parked mints.  Every command can succeed, fail after Redis applied it (a lost
    reply) or fail without effect; the callers only see [Ok] or [Err]. *)

From Stdlib Require Import ZArith Lia Ascii String SpecFloat.
From stdpp Require Import base gmap strings list numbers.
From S2P Require Import Prelude RustStd External Aggregator.

Open Scope Z_scope.
Open Scope bridge_scope.

(** ** Redis commands with faults *)

Inductive io : Type :=
| IoOk
| IoErrApplied
| IoErrLost.

Definition io_applies (o : io) : bool := match o with IoErrLost => false | _ => true end.
Definition io_succeeds (o : io) : bool := match o with IoOk => true | _ => false end.

Inductive redis_error : Type := RedisError.

Definition io_result (o : io) : outcome redis_error unit :=
  if io_succeeds o then Ok () else Err RedisError.

Abbreviation rhash := (gmap string string).

Definition hset (h : rhash) (f v : string) (o : io) : rhash * outcome redis_error unit :=
  (if io_applies o then <[f := v]> h else h, io_result o).

Definition hdel (h : rhash) (fs : list string) (o : io) : rhash * outcome redis_error unit :=
  (if io_applies o then fold_right delete h fs else h, io_result o).

Record Redis : Type := {
  bins_h : rhash;
  outbox_h : rhash;
  parked_h : rhash
}.

Definition set_bins_h (r : Redis) (h : rhash) : Redis :=
  {| bins_h := h; outbox_h := r.(outbox_h); parked_h := r.(parked_h) |}.
Definition set_outbox_h (r : Redis) (h : rhash) : Redis :=
  {| bins_h := r.(bins_h); outbox_h := h; parked_h := r.(parked_h) |}.
Definition set_parked_h (r : Redis) (h : rhash) : Redis :=
  {| bins_h := r.(bins_h); outbox_h := r.(outbox_h); parked_h := h |}.

(** ** redis_hash.rs *)

Definition parse_redis_hash {T : Type} `{Codec T} (h : rhash) : list T :=
  omap (fun fj => decode fj.2) (map_to_list h).

(** ** bin_store.rs *)

Section BinStore.
Context {C : Chrono} {D : RustDecimal} {U : UuidText} {BC : Codec BillingBin}.

Definition bin_field (k : BinKey) : string :=
  uuid_show k.1 +:+ ":" +:+ show_Z (timestamp_millis k.2).

Definition bin_write (r : Redis) (b : BillingBin) (o : io) : Redis * outcome redis_error unit :=
  let '(h, res) := hset r.(bins_h) (bin_field (key b)) (encode b) o in (set_bins_h r h, res).

Definition bin_remove (r : Redis) (ks : list BinKey) (o : io) : Redis * outcome redis_error unit :=
  match ks with
  | [] => (r, Ok ())
  | _ => let '(h, res) := hdel r.(bins_h) (bin_field <$> ks) o in (set_bins_h r h, res)
  end.

Definition bin_load_all (r : Redis) (o : io) : outcome redis_error (list BillingBin) :=
  let? _ := io_result o in Ok (parse_redis_hash r.(bins_h)).
End BinStore.

(** ** mint_outbox.rs *)

Record PendingMint : Type := {
  pm_meter_serial : string;
  pm_meter_id : Uuid;
  pm_window_start_ms : Z;
  pm_energy_kwh : f64;
  pm_enqueued_at_ms : Z
}.

(** [now] is the service clock. *)
Definition pending_new (serial : string) (mid : Uuid) (window_start_ms : Z) (kwh : f64) (now : Z)
    : PendingMint := {|
  pm_meter_serial := serial; pm_meter_id := mid; pm_window_start_ms := window_start_ms;
  pm_energy_kwh := kwh; pm_enqueued_at_ms := timestamp_millis now |}.

Definition field (p : PendingMint) : string :=
  p.(pm_meter_serial) +:+ ":" +:+ show_Z p.(pm_window_start_ms).

Definition is_expired (p : PendingMint) (now_ms max_age_secs : Z) : bool :=
  if max_age_secs =? 0 then false
  else sat_i64 (wrap_i64 max_age_secs * 1000) <? sat_i64 (now_ms - p.(pm_enqueued_at_ms)).

Section Outbox.
Context {PC : Codec PendingMint}.

Definition enqueue (r : Redis) (p : PendingMint) (o : io) : Redis * outcome redis_error unit :=
  let '(h, res) := hset r.(outbox_h) (field p) (encode p) o in (set_outbox_h r h, res).

(** The second [HDEL] only runs after the first succeeded, and its failure is
    ignored. *)
Definition outbox_remove (r : Redis) (f : string) (o1 o2 : io) : Redis * outcome redis_error unit :=
  let '(h, res) := hdel r.(outbox_h) [f] o1 in
  let r := set_outbox_h r h in
  match res with
  | Ok _ => (set_parked_h r (hdel r.(parked_h) [f] o2).1, Ok ())
  | e => (r, e)
  end.

Definition park (r : Redis) (p : PendingMint) (o1 o2 : io) : Redis * outcome redis_error unit :=
  let '(h, res) := hset r.(parked_h) (field p) (encode p) o1 in
  let r := set_parked_h r h in
  match res with
  | Ok _ => let '(h, res) := hdel r.(outbox_h) [field p] o2 in (set_outbox_h r h, res)
  | e => (r, e)
  end.

Definition outbox_load_all (r : Redis) (o : io) : outcome redis_error (list PendingMint) :=
  let? _ := io_result o in Ok (parse_redis_hash r.(outbox_h)).
End Outbox.

(** ** Lemmas *)

Lemma colon_not_digit : is_ascii_digit ":"%char = false.
Proof. reflexivity. Qed.

Lemma show_Z_no_colon z : contains_char ":"%char (show_Z z) = false.
Proof. by apply show_Z_no_char. Qed.

#[export] Hint Resolve show_Z_no_colon : bridge.

(** Outbox fields identify the (serial, window). *)
Lemma field_inj p q :
  in_i64 p.(pm_window_start_ms) = true -> in_i64 q.(pm_window_start_ms) = true ->
  field p = field q ->
  p.(pm_meter_serial) = q.(pm_meter_serial) /\ p.(pm_window_start_ms) = q.(pm_window_start_ms).
Proof.
  intros Hp Hq H. apply string_app_cons_inj in H as [? ?]; auto with bridge.
  split; [done|]. by apply show_Z_inj.
Qed.

Section BinStoreProps.
Context {C : Chrono} {D : RustDecimal} {U : UuidText} {UL : UuidLaws}.
Context {BC : Codec BillingBin} {BL : CodecLaws BillingBin}.

(** Window starts are whole milliseconds in the [i64] range. *)
Definition key_storable (k : BinKey) : Prop :=
  k.2 mod 1000000 = 0 /\ in_i64 (timestamp_millis k.2) = true.

Lemma bin_field_inj k1 k2 :
  key_storable k1 -> key_storable k2 -> bin_field k1 = bin_field k2 -> k1 = k2.
Proof.
  intros [A1 I1] [A2 I2] H. apply string_app_cons_inj in H as [Hu Hm]; auto with bridge.
  apply uuid_show_inj in Hu. apply show_Z_inj in Hm; [|done..].
  destruct k1 as [m1 t1], k2 as [m2 t2]; simpl in *. f_equal; [done|].
  unfold timestamp_millis in Hm. Z.to_euclidean_division_equations. lia.
Qed.

(** What the hash stores: [m], one field per key. *)
Record bins_repr (h : rhash) (m : gmap BinKey BillingBin) : Prop := {
  br_dom : forall k b, m !! k = Some b -> key b = k /\ key_storable k /\ codec_dom b;
  br_lookup : forall f v, h !! f = Some v <-> exists k b, m !! k = Some b /\ f = bin_field k /\ v = encode b
}.

Lemma bins_repr_empty : bins_repr ∅ ∅.
Proof.
  constructor.
  - intros k b. by rewrite lookup_empty.
  - intros f v. rewrite lookup_empty. split; [done|]. intros (k & b & H & _).
    by rewrite lookup_empty in H.
Qed.

Lemma bins_repr_write h m b :
  bins_repr h m -> key_storable (key b) -> codec_dom b ->
  bins_repr (<[bin_field (key b) := encode b]> h) (<[key b := b]> m).
Proof.
  intros [Hd Hl] Hk Hc. constructor.
  - intros k b'. rewrite lookup_insert. case_decide; [|apply Hd]. intros [= <-]. by subst.
  - intros f v. rewrite lookup_insert. case_decide as Hf.
    + subst f. split; [intros [= <-]; exists (key b), b; by rewrite lookup_insert_eq|].
      intros (k & b' & Hm & Hf & ->). f_equal. rewrite lookup_insert in Hm.
      case_decide as Hkk; [congruence|]. destruct (Hd _ _ Hm) as (_ & Hk' & _).
      by apply bin_field_inj in Hf.
    + rewrite Hl. split; intros (k & b' & Hm & -> & ->); exists k, b'; (split; [|done]).
      * rewrite lookup_insert_ne; [done|]. congruence.
      * rewrite lookup_insert_ne in Hm; [done|]. intros <-. by simplify_map_eq.
Qed.

Lemma bins_repr_remove h m k :
  bins_repr h m -> key_storable k -> bins_repr (delete (bin_field k) h) (delete k m).
Proof.
  intros [Hd Hl] Hk. constructor.
  - intros k' b. rewrite lookup_delete_Some. intros [_ ?]. eauto.
  - intros f v. rewrite lookup_delete_Some, Hl. split.
    + intros (Hf & k' & b & Hm & -> & ->). exists k', b. rewrite lookup_delete_ne; [done|].
      congruence.
    + intros (k' & b & Hm & -> & ->). apply lookup_delete_Some in Hm as [Hne Hm].
      split; [|eauto]. intros Hf. destruct (Hd _ _ Hm) as (_ & Hk' & _).
      by apply bin_field_inj in Hf.
Qed.

(** Loading the hash gives back the bins, in some order. *)
Lemma bins_repr_load h m :
  bins_repr h m -> forall b, b ∈ parse_redis_hash (T := BillingBin) h <-> m !! key b = Some b.
Proof.
  intros [Hd Hl] b. unfold parse_redis_hash. rewrite list_elem_of_omap. split.
  - intros ([f v] & Hin & Hdec). apply elem_of_map_to_list, Hl in Hin as (k & b' & Hm & -> & ->).
    destruct (Hd _ _ Hm) as (Hk & _ & Hc). simpl in Hdec. rewrite decode_encode in Hdec by done.
    simplify_eq. done.
  - intros Hm. exists (bin_field (key b), encode b). destruct (Hd _ _ Hm) as (_ & _ & Hc).
    split; [|simpl; by rewrite decode_encode]. apply elem_of_map_to_list, Hl. eauto.
Qed.

Lemma bins_repr_removes h m ks :
  bins_repr h m -> Forall key_storable ks ->
  bins_repr (fold_right delete h (bin_field <$> ks)) (fold_right delete m ks).
Proof.
  intros Hr. induction 1 as [|k ks Hk _ IH]; [done|]. simpl. by apply bins_repr_remove.
Qed.

(** *** Recovery *)

Lemma restore_lookup (l : list BillingBin) (m : gmap BinKey BillingBin) k :
  match fold_left (fun m b => <[key b := b]> m) l m !! k with
  | Some b => (b ∈ l /\ key b = k) \/ m !! k = Some b
  | None => m !! k = None
  end.
Proof.
  revert m. induction l as [|b0 l IH]; intros m; simpl; [case_match; auto|].
  specialize (IH (<[key b0 := b0]> m)). case_match.
  - destruct IH as [[Hin Hk]|Hm]; [left; set_solver|]. rewrite lookup_insert in Hm.
    case_decide; [|auto]. simplify_eq. left. set_solver.
  - rewrite lookup_insert in IH. by case_decide.
Qed.

Lemma restore_lookup_in (l : list BillingBin) (m : gmap BinKey BillingBin) b :
  b ∈ l -> exists b', fold_left (fun m b => <[key b := b]> m) l m !! key b = Some b' /\ b' ∈ l.
Proof.
  revert m. induction l as [|b0 l IH]; intros m Hin; [set_solver|]. simpl.
  apply elem_of_cons in Hin as [->|Hin].
  - pose proof (restore_lookup l (<[key b0 := b0]> m) (key b0)) as H. case_match.
    + destruct H as [[Hin _]|Hm]; eexists; (split; [done|]); [set_solver|].
      rewrite lookup_insert_eq in Hm. set_solver.
    + by rewrite lookup_insert_eq in H.
  - destruct (IH (<[key b0 := b0]> m) Hin) as (b' & Hb' & Hi). exists b'. split; [done|set_solver].
Qed.

Lemma restore_values (m : gmap BinKey BillingBin) (l : list BillingBin) :
  (forall b, b ∈ l <-> m !! key b = Some b) -> map_Forall (fun k b => key b = k) m ->
  (restore_bins new l).(active_bins) = m.
Proof.
  intros Hl Hk. apply map_eq. intros k. simpl. destruct (m !! k) as [b|] eqn:E.
  - pose proof (Hk k b E) as Hkb. simpl in Hkb. subst k.
    destruct (restore_lookup_in l ∅ b) as (b' & Hb' & Hi); [by apply Hl|].
    rewrite Hb'. f_equal. apply Hl in Hi.
    pose proof (restore_lookup l ∅ (key b)) as H. rewrite Hb', lookup_empty in H.
    destruct H as [[_ Hkey]|?]; [|done]. rewrite Hkey in Hi. congruence.
  - pose proof (restore_lookup l ∅ k) as H. case_match; [|done].
    destruct H as [[Hin <-]|H]; [apply Hl in Hin; congruence|by rewrite lookup_empty in H].
Qed.

(** The store operations of the ingest edge and the settlement loop, each with
    its fault. *)
Inductive store_op : Type :=
| SWrite (b : BillingBin) (o : io)
| SRemove (ks : list BinKey) (o : io).

Definition store_exec (r : Redis) (op : store_op) : Redis :=
  match op with
  | SWrite b o => (bin_write r b o).1
  | SRemove ks o => (bin_remove r ks o).1
  end.

(** The specification: a map from keys to bins. *)
Definition store_spec (m : gmap BinKey BillingBin) (op : store_op) : gmap BinKey BillingBin :=
  match op with
  | SWrite b o => if io_applies o then <[key b := b]> m else m
  | SRemove ks o => if io_applies o then fold_right delete m ks else m
  end.

Definition op_storable (op : store_op) : Prop :=
  match op with
  | SWrite b _ => key_storable (key b) /\ codec_dom b
  | SRemove ks _ => Forall key_storable ks
  end.

Lemma store_exec_repr r m op :
  bins_repr r.(bins_h) m -> op_storable op -> bins_repr (store_exec r op).(bins_h) (store_spec m op).
Proof.
  intros Hr Ho. destruct op as [b o|ks o]; simpl in *.
  - destruct (io_applies o) eqn:E; simpl; [|done].
    destruct Ho. by apply bins_repr_write.
  - destruct ks as [|k ks]; [by destruct (io_applies o)|]. simpl.
    destruct (io_applies o); simpl; [|done]. by apply (bins_repr_removes _ _ (k :: ks)).
Qed.

Lemma store_run_repr ops r m :
  bins_repr r.(bins_h) m -> Forall op_storable ops ->
  bins_repr (fold_left store_exec ops r).(bins_h) (fold_left store_spec ops m).
Proof.
  intros Hr Ho. revert r m Hr. induction Ho as [|op ops Ho _ IH]; intros r m Hr; [done|].
  simpl. apply IH. by apply store_exec_repr.
Qed.

(** C13: the Redis bin store is a faithful map from (meter, window) to bin, whatever
    faults its commands meet: after any sequence of write-throughs and removals,
    a restart that loads the hash rebuilds exactly the bins the applied commands
    left, each under its own key with its accumulated totals. *)
Theorem crash_recovery ops bs :
  Forall op_storable ops ->
  bin_load_all (fold_left store_exec ops {| bins_h := ∅; outbox_h := ∅; parked_h := ∅ |}) IoOk = Ok bs ->
  (restore_bins new bs).(active_bins) = fold_left store_spec ops ∅.
Proof.
  intros Ho [= <-].
  assert (Hr := store_run_repr ops {| bins_h := ∅; outbox_h := ∅; parked_h := ∅ |} ∅ bins_repr_empty Ho).
  apply restore_values; [by apply bins_repr_load|].
  intros k b Hb. by destruct (br_dom _ _ Hr k b Hb).
Qed.
End BinStoreProps.

Section OutboxProps.
Context {PC : Codec PendingMint} {PL : CodecLaws PendingMint}.

Lemma outbox_load_in r p :
  codec_dom p -> r.(outbox_h) !! field p = Some (encode p) ->
  p ∈ parse_redis_hash (T := PendingMint) r.(outbox_h).
Proof.
  intros Hc Hl. unfold parse_redis_hash. rewrite list_elem_of_omap.
  exists (field p, encode p). split; [by apply elem_of_map_to_list|simpl; by rewrite decode_encode].
Qed.

(** An enqueue that Redis acknowledged is in every later load of the outbox,
    and it is the only entry for its (serial, window): it replaces whatever the
    field held before. *)
Theorem enqueue_load r p o r' ps :
  codec_dom p -> enqueue r p o = (r', Ok ()) -> outbox_load_all r' IoOk = Ok ps ->
  p ∈ ps /\ r'.(outbox_h) = <[field p := encode p]> r.(outbox_h) /\
  r'.(bins_h) = r.(bins_h) /\ r'.(parked_h) = r.(parked_h).
Proof.
  intros Hc He [= <-]. unfold enqueue in He. destruct o; simpl in He; try discriminate.
  injection He as <-. split; [|done].
  apply outbox_load_in; [done|]. apply lookup_insert_eq.
Qed.

(** Parking never loses an entry: whatever its two commands do, the entry is
    afterwards in the outbox or in the parked hash, and when [park] reports
    success it is in the parked hash only. *)
Theorem park_keeps_entry r p o1 o2 r' res :
  r.(outbox_h) !! field p = Some (encode p) -> park r p o1 o2 = (r', res) ->
  (r'.(outbox_h) !! field p = Some (encode p) \/ r'.(parked_h) !! field p = Some (encode p)) /\
  (res = Ok () -> r'.(outbox_h) !! field p = None /\ r'.(parked_h) !! field p = Some (encode p)).
Proof.
  intros Ho. unfold park. destruct o1, o2; simpl; intros [= <- <-]; simpl;
    rewrite ?lookup_insert_eq, ?lookup_delete_eq; (split; [auto|intros ?; try discriminate; auto]).
Qed.

(** An entry expires exactly when its age exceeds the retention bound, and never
    when the bound is 0; the saturating arithmetic cannot overflow. *)
Theorem expiry_bound p now_ms max_age :
  in_i64 (now_ms - p.(pm_enqueued_at_ms)) = true -> 0 <= max_age -> max_age * 1000 <= i64_max ->
  is_expired p now_ms max_age = true <->
  max_age <> 0 /\ max_age * 1000 < now_ms - p.(pm_enqueued_at_ms).
Proof.
  intros Hn Hpos Hmax. unfold is_expired. unfold i64_max in Hmax.
  assert (Hi : in_i64 max_age = true /\ in_i64 (max_age * 1000) = true).
  { unfold in_i64, i64_min, i64_max. split; apply andb_true_iff; rewrite !Z.leb_le; lia. }
  rewrite wrap_i64_id by apply Hi. rewrite !sat_i64_id by (done || apply Hi).
  destruct (max_age =? 0) eqn:E; breflect; [split; [done|]; lia|].
  rewrite Z.ltb_lt. split; [auto|]. by intros [_ ?].
Qed.
End OutboxProps.

(** ** Witnesses *)

#[export] Instance PendingMint_eq_dec : EqDecision PendingMint.
Proof. solve_decision. Defined.

#[export] Instance PendingMint_countable : Countable PendingMint.
Proof.
  apply (inj_countable'
    (fun p => (p.(pm_meter_serial), p.(pm_meter_id), p.(pm_window_start_ms), p.(pm_energy_kwh), p.(pm_enqueued_at_ms)))
    (fun '(a, b, c, d, e) => {| pm_meter_serial := a; pm_meter_id := b; pm_window_start_ms := c;
                                pm_energy_kwh := d; pm_enqueued_at_ms := e |})).
  by intros [].
Defined.

Section RefBins.
#[local] Existing Instance decimal_ref.

Definition bin_code (b : BillingBin) :=
  (b.(meter_id), b.(user_id), b.(meter_serial), b.(start_time), b.(end_time),
   ((b.(energy_generated) : Z), (b.(energy_consumed) : Z), b.(reading_count),
    (b.(energy_generated_peak) : Z), (b.(energy_generated_offpeak) : Z),
    (b.(energy_consumed_peak) : Z), (b.(energy_consumed_offpeak) : Z),
    (b.(max_demand_kw) : Z), b.(bin_zone_code))).

Definition bin_uncode (c : N * N * string * Z * Z * (Z * Z * Z * Z * Z * Z * Z * Z * option Z)) : BillingBin :=
  let '(m, u, s, st, en, (g, c, n, gp, go, cp, co, d, z)) := c in
  {| meter_id := m; user_id := u; meter_serial := s; start_time := st; end_time := en;
     energy_generated := g; energy_consumed := c; reading_count := n;
     energy_generated_peak := gp; energy_generated_offpeak := go;
     energy_consumed_peak := cp; energy_consumed_offpeak := co;
     max_demand_kw := d; bin_zone_code := z |}.

#[local] Instance BillingBin_eq_dec : EqDecision BillingBin.
Proof.
  intros a b. destruct (decide (bin_code a = bin_code b)) as [H|H]; [left|right; congruence].
  destruct a, b. unfold bin_code in H. simpl in H. by injection H as -> -> -> -> -> -> -> -> -> -> -> -> -> ->.
Defined.

#[local] Instance BillingBin_countable : Countable BillingBin.
Proof. apply (inj_countable' bin_code bin_uncode). by intros []. Defined.

Definition bin_codec_ref : Codec BillingBin := codec_ref BillingBin.

Lemma bin_codec_ref_laws : @CodecLaws BillingBin bin_codec_ref.
Proof. apply codec_ref_laws. Qed.
End RefBins.

Definition pending_codec_ref : Codec PendingMint := codec_ref PendingMint.

Lemma pending_codec_ref_laws : @CodecLaws PendingMint pending_codec_ref.
Proof. apply codec_ref_laws. Qed.

Section Witnesses.
#[local] Existing Instance chrono_ref.
#[local] Existing Instance decimal_ref.
#[local] Existing Instance uuid_ref.
#[local] Existing Instance uuid_ref_laws.
#[local] Existing Instance bin_codec_ref.
#[local] Existing Instance bin_codec_ref_laws.
#[local] Existing Instance pending_codec_ref.
#[local] Existing Instance pending_codec_ref_laws.

Definition sample_bin (m : N) (w : Z) (gen : Z) : BillingBin :=
  bin_uncode (m, 1%N, "M1"%string, w * NS_PER_MIN, (w + 15) * NS_PER_MIN,
              (gen, 2, 1, 0, 0, 0, 0, 0, None)).

(** A lost reply, an overwrite, a failed write and a removal. *)
Definition sample_store_ops : list store_op :=
  [ SWrite (sample_bin 7 0 5) IoErrApplied; SWrite (sample_bin 8 15 1) IoOk;
    SWrite (sample_bin 7 0 9) IoOk; SWrite (sample_bin 9 0 4) IoErrLost;
    SRemove [key (sample_bin 8 15 1)] IoOk ].

Definition empty_redis : Redis := {| bins_h := ∅; outbox_h := ∅; parked_h := ∅ |}.

Definition sample_store : Redis := fold_left store_exec sample_store_ops empty_redis.

Lemma crash_recovery_witness :
  (restore_bins new (parse_redis_hash sample_store.(bins_h))).(active_bins) =
  fold_left store_spec sample_store_ops ∅.
Proof.
  apply (crash_recovery sample_store_ops (parse_redis_hash sample_store.(bins_h))).
  - repeat constructor; vm_compute; reflexivity.
  - unfold bin_load_all. cbn [io_result io_succeeds obind]. unfold sample_store, empty_redis. reflexivity.
Defined.

Definition sample_pending (kwh at_ms : Z) : PendingMint :=
  {| pm_meter_serial := "M1"; pm_meter_id := 7%N; pm_window_start_ms := 1767225600000;
     pm_energy_kwh := F64.of_Z kwh; pm_enqueued_at_ms := at_ms |}.

Lemma enqueue_load_witness :
  sample_pending 5 0 ∈ parse_redis_hash (T := PendingMint)
    (enqueue empty_redis (sample_pending 5 0) IoOk).1.(outbox_h) /\
  (enqueue empty_redis (sample_pending 5 0) IoOk).1.(outbox_h) =
    <[field (sample_pending 5 0) := encode (sample_pending 5 0)]> ∅.
Proof.
  destruct (enqueue_load empty_redis (sample_pending 5 0) IoOk
              (enqueue empty_redis (sample_pending 5 0) IoOk).1
              (parse_redis_hash (enqueue empty_redis (sample_pending 5 0) IoOk).1.(outbox_h)))
    as (H1 & H2 & _); [exact I|reflexivity|reflexivity|]. split; assumption.
Defined.

Lemma park_keeps_entry_witness :
  let p := sample_pending 5 0 in
  let r := (enqueue empty_redis p IoOk).1 in
  (park r p IoOk IoErrLost).1.(outbox_h) !! field p = Some (encode p) \/
  (park r p IoOk IoErrLost).1.(parked_h) !! field p = Some (encode p).
Proof.
  intros p r. refine (proj1 (park_keeps_entry r p IoOk IoErrLost _ (Err RedisError) _ _)).
  - reflexivity.
  - reflexivity.
Defined.

Lemma expiry_bound_witness :
  is_expired (sample_pending 5 0) 604800001 604800 = true.
Proof.
  apply (expiry_bound (sample_pending 5 0) 604800001 604800); [reflexivity|lia|unfold i64_max; lia|].
  split; [done|]. reflexivity.
Defined.
End Witnesses.
