(* ===== verification/Mint.v ===== *)
(** * Minting through Chain Bridge (aggregator-persistence/src/infra/mint.rs) and the
    mint attempts of settlement (aggregator-logic/src/mint_settlement.rs)

    The gateway publishes a mint intent and waits for the bridge's reply; an
    attempt claims its key in the process-wide in-flight set, resolves the wallet
    and calls the gateway.  The network, the wallet lookup and the envelope signer
    are arguments. *)

From Stdlib Require Import ZArith Lia Ascii String SpecFloat.
From stdpp Require Import base gmap strings list numbers.
From S2P Require Import Prelude RustStd External Stores.

Open Scope Z_scope.
Open Scope bridge_scope.

(** ** mint.rs *)

Definition mint_idempotency_key (meter_serial : string) (window_start_ms : Z) : string :=
  "mint:" +:+ meter_serial +:+ ":" +:+ show_Z window_start_ms.

Definition wallet_is_valid `{Crypto} (wallet : string) : bool :=
  match bs58_decode wallet with
  | Some b => (length b =? 32)%nat
  | None => false
  end.

Definition url_userinfo (url : string) : option (string * string) :=
  let after_scheme := match split_once_str "://" url with Some (_, rest) => rest | None => url end in
  let authority := take_until (fun c => Ascii.eqb c "/" || Ascii.eqb c "?") after_scheme in
  ui ← rsplit_once "@" authority;
  Some (match split_once ":" ui.1 with
        | Some (user, pass) => (user, pass)
        | None => (ui.1, EmptyString)
        end).

Record MintOutcome : Type := { mo_signature : string; mo_slot : Z }.

Record MintEnergyResultMessage : Type := {
  mr_success : bool;
  mr_signature : option string;
  mr_error : option string;
  mr_slot : Z
}.

Record MintBatchItemResult : Type := {
  br_index : Z;
  br_idempotency_key : string;
  br_success : bool;
  br_signature : option string;
  br_slot : Z;
  br_error : option string
}.

Record BatchMintInput : Type := {
  bi_recipient_wallet : string;
  bi_energy_kwh : f64;
  bi_meter_id : list Z;
  bi_meter_serial : string;
  bi_window_start_ms : Z
}.

Inductive mint_error : Type :=
| NotConfigured
| SubscribeFailed
| PublishFailed
| NotAcked
| MintReplyTimeout
| ReplyStreamClosed
| DecodeFailed
| NoSignature
| BridgeError (msg : string).

Definition parse_mint_result (r : MintEnergyResultMessage) : outcome mint_error MintOutcome :=
  if r.(mr_success) then
    let? signature := ok_or r.(mr_signature) NoSignature in
    Ok {| mo_signature := signature; mo_slot := r.(mr_slot) |}
  else Err (BridgeError (default "mint failed"%string r.(mr_error))).

(** The wire messages of the shared types crate, as far as this code fills them. *)
Record MintEnergyMessage : Type := {
  mm_correlation_id : string;
  mm_idempotency_key : string;
  mm_reply_subject : string;
  mm_recipient_wallet : string;
  mm_energy_kwh : f64;
  mm_meter_id : list Z;
  mm_window_start_ms : Z;
  mm_service_identity : string;
  mm_created_at_ms : Z;
  mm_auth : option string
}.

Record BatchMintItem : Type := {
  it_idempotency_key : string;
  it_recipient_wallet : string;
  it_energy_kwh : f64;
  it_meter_id : list Z;
  it_window_start_ms : Z
}.

Record MintEnergyBatchMessage : Type := {
  bm_correlation_id : string;
  bm_reply_subject : string;
  bm_items : list BatchMintItem;
  bm_service_identity : string;
  bm_created_at_ms : Z;
  bm_auth : option string
}.

(** One round trip: which of the calls fail, and what comes back. *)
Inductive reply (R : Type) : Type :=
| ReplyTimedOut
| ReplyClosed
| ReplyUndecodable
| ReplyMsg (r : R).
Arguments ReplyTimedOut {R}.
Arguments ReplyClosed {R}.
Arguments ReplyUndecodable {R}.
Arguments ReplyMsg {R} r.

Record round_trip (R : Type) : Type := {
  rt_correlation_id : string;
  rt_now : Z;
  rt_subscribe_ok : bool;
  rt_publish_ok : bool;
  rt_ack_ok : bool;
  rt_reply : reply R
}.
Arguments rt_correlation_id {R}. Arguments rt_now {R}. Arguments rt_subscribe_ok {R}.
Arguments rt_publish_ok {R}. Arguments rt_ack_ok {R}. Arguments rt_reply {R}.

(** The common tail of [mint] and [mint_batch]: subscribe, publish, await the
    acknowledgement, await and decode the reply. *)
Definition request {R : Type} (rt : round_trip R) : outcome mint_error R :=
  let? _ := ensure rt.(rt_subscribe_ok) SubscribeFailed in
  let? _ := ensure rt.(rt_publish_ok) PublishFailed in
  let? _ := ensure rt.(rt_ack_ok) NotAcked in
  match rt.(rt_reply) with
  | ReplyTimedOut => Err MintReplyTimeout
  | ReplyClosed => Err ReplyStreamClosed
  | ReplyUndecodable => Err DecodeFailed
  | ReplyMsg r => Ok r
  end.

(** [try_into().unwrap_or(0u64)] of the millisecond clock. *)
Definition created_at_ms (now : Z) : Z :=
  let ms := timestamp_millis now in if 0 <=? ms then ms else 0.

Record NatsMintGateway : Type := {
  gw_service_identity : string;
  gw_sign_mint : option (MintEnergyMessage -> string);
  gw_sign_batch : option (MintEnergyBatchMessage -> string)
}.

Inductive MintGateway : Type :=
| Nats (gw : NatsMintGateway)
| Disabled.

Definition is_enabled (g : MintGateway) : bool :=
  match g with Nats _ => true | Disabled => false end.

Definition mint_message (gw : NatsMintGateway) (rt_id : string) (now : Z)
    (wallet : string) (kwh : f64) (mid : list Z) (serial : string) (window : Z) : MintEnergyMessage :=
  let msg auth := {|
    mm_correlation_id := rt_id;
    mm_idempotency_key := mint_idempotency_key serial window;
    mm_reply_subject := "chain.mint.result." +:+ rt_id;
    mm_recipient_wallet := wallet; mm_energy_kwh := kwh; mm_meter_id := mid;
    mm_window_start_ms := window; mm_service_identity := gw.(gw_service_identity);
    mm_created_at_ms := created_at_ms now; mm_auth := auth |} in
  match gw.(gw_sign_mint) with
  | Some sign => msg (Some (sign (msg None)))
  | None => msg None
  end.

(** The published intent, if the call got that far, and the result. *)
Definition gateway_mint (g : MintGateway) (rt : round_trip MintEnergyResultMessage)
    (wallet : string) (kwh : f64) (mid : list Z) (serial : string) (window : Z)
    : option MintEnergyMessage * outcome mint_error MintOutcome :=
  match g with
  | Disabled => (None, Err NotConfigured)
  | Nats gw =>
      let msg := mint_message gw rt.(rt_correlation_id) rt.(rt_now) wallet kwh mid serial window in
      (if rt.(rt_subscribe_ok) then Some msg else None,
       let? r := request rt in parse_mint_result r)
  end.

Definition batch_item (i : BatchMintInput) : BatchMintItem := {|
  it_idempotency_key := mint_idempotency_key i.(bi_meter_serial) i.(bi_window_start_ms);
  it_recipient_wallet := i.(bi_recipient_wallet); it_energy_kwh := i.(bi_energy_kwh);
  it_meter_id := i.(bi_meter_id); it_window_start_ms := i.(bi_window_start_ms) |}.

Definition batch_message (gw : NatsMintGateway) (rt_id : string) (now : Z)
    (inputs : list BatchMintInput) : MintEnergyBatchMessage :=
  let msg auth := {|
    bm_correlation_id := rt_id; bm_reply_subject := "chain.mint.batch.result." +:+ rt_id;
    bm_items := batch_item <$> inputs; bm_service_identity := gw.(gw_service_identity);
    bm_created_at_ms := created_at_ms now; bm_auth := auth |} in
  match gw.(gw_sign_batch) with
  | Some sign => msg (Some (sign (msg None)))
  | None => msg None
  end.

Definition gateway_mint_batch (g : MintGateway) (rt : round_trip (list MintBatchItemResult))
    (inputs : list BatchMintInput)
    : option MintEnergyBatchMessage * outcome mint_error (list MintBatchItemResult) :=
  match g with
  | Disabled => (None, Err NotConfigured)
  | Nats gw =>
      match inputs with
      | [] => (None, Ok [])
      | _ => (if rt.(rt_subscribe_ok)
              then Some (batch_message gw rt.(rt_correlation_id) rt.(rt_now) inputs) else None,
              request rt)
      end
  end.

(** ** mint_settlement.rs *)

(** The in-flight set; a guard is the key it releases when dropped. *)
Abbreviation MintInFlight := (gset string).

Definition try_begin (s : MintInFlight) (k : string) : option MintInFlight :=
  if decide (k ∈ s) then None else Some ({[k]} ∪ s).

Definition guard_drop (s : MintInFlight) (k : string) : MintInFlight := s ∖ {[k]}.

Definition mint_failure_reason (e : mint_error) : string :=
  match e with MintReplyTimeout => "reply_timeout" | _ => "mint_err" end.

(** The metric labels of one attempt and the row write-back it triggers. *)
Record write_back : Type := { wb_serial : string; wb_window : Z; wb_signature : string; wb_slot : Z }.

Record attempt : Type := {
  at_confirmed : bool;
  at_metric : string * string;
  at_published : option MintEnergyMessage;
  at_write_back : option write_back;
  at_inflight : MintInFlight
}.

Inductive lookup_error : Type := LookupError.

Section Settlement.
Context {K : Crypto}.

Definition mint_to (g : MintGateway) (rt : round_trip MintEnergyResultMessage) (wallet : string)
    (p : PendingMint) : option MintEnergyMessage * outcome mint_error MintOutcome :=
  gateway_mint g rt wallet p.(pm_energy_kwh) (to_be_bytes 16 (Z.of_N p.(pm_meter_id)))
    p.(pm_meter_serial) p.(pm_window_start_ms).

(** [wallet_res] is [resolve_wallet]'s answer; [has_wb] whether a write-back
    handle is configured. *)
Definition attempt_mint (g : MintGateway) (wallet_res : outcome lookup_error (option string))
    (rt : round_trip MintEnergyResultMessage) (s : MintInFlight) (has_wb : bool) (p : PendingMint)
    : attempt :=
  match try_begin s (field p) with
  | None => {| at_confirmed := false; at_metric := ("skipped", "in_flight")%string;
               at_published := None; at_write_back := None; at_inflight := s |}
  | Some s1 =>
      let skip reason := {| at_confirmed := false; at_metric := ("skipped"%string, reason);
                            at_published := None; at_write_back := None;
                            at_inflight := guard_drop s1 (field p) |} in
      match wallet_res with
      | Ok (Some w) =>
          if negb (wallet_is_valid w) then skip "invalid_wallet"%string
          else
            let '(pub, res) := mint_to g rt w p in
            match res with
            | Ok out =>
                {| at_confirmed := true; at_metric := ("settled", "ok")%string; at_published := pub;
                   at_write_back :=
                     if has_wb then Some {| wb_serial := p.(pm_meter_serial); wb_window := p.(pm_window_start_ms);
                                            wb_signature := out.(mo_signature); wb_slot := out.(mo_slot) |}
                     else None;
                   at_inflight := guard_drop s1 (field p) |}
            | Err e =>
                {| at_confirmed := false; at_metric := ("failed"%string, mint_failure_reason e);
                   at_published := pub; at_write_back := None; at_inflight := guard_drop s1 (field p) |}
            | Panic =>
                {| at_confirmed := false; at_metric := (EmptyString, EmptyString);
                   at_published := pub; at_write_back := None; at_inflight := guard_drop s1 (field p) |}
            end
      | Ok None => skip "no_wallet"%string
      | _ => skip "resolve_err"%string
      end
  end.

(** *** Batches *)

Record BatchClassification : Type := {
  confirmed_fields : list string;
  confirmed : nat;
  failed : nat
}.

Definition result_field (r : MintBatchItemResult) : string :=
  default r.(br_idempotency_key) (strip_prefix "mint:" r.(br_idempotency_key)).

Definition classify_batch_results (rs : list MintBatchItemResult) : BatchClassification :=
  let '(fs, n) := fold_left (fun '(fs, n) r =>
    if r.(br_success) then (fs ++ [result_field r], n) else (fs, S n)) rs ([], 0%nat) in
  {| confirmed_fields := fs; confirmed := length fs; failed := n |}.

Record DeferralTally : Type := {
  dt_in_flight : nat;
  dt_no_wallet : nat;
  dt_invalid_wallet : nat;
  dt_resolve_err : nat;
  dt_sample_serial : option string
}.

Inductive deferral : Type := DInFlight | DNoWallet | DInvalidWallet | DResolveErr.

(** The counter of one reason, with [note]. *)
Definition defer (t : DeferralTally) (d : deferral) (serial : string) : DeferralTally :=
  let inc d' n := match d, d' with
    | DInFlight, DInFlight | DNoWallet, DNoWallet
    | DInvalidWallet, DInvalidWallet | DResolveErr, DResolveErr => S n
    | _, _ => n end in
  {| dt_in_flight := inc DInFlight t.(dt_in_flight);
     dt_no_wallet := inc DNoWallet t.(dt_no_wallet);
     dt_invalid_wallet := inc DInvalidWallet t.(dt_invalid_wallet);
     dt_resolve_err := inc DResolveErr t.(dt_resolve_err);
     dt_sample_serial := match t.(dt_sample_serial) with None => Some serial | s => s end |}.

Definition total (t : DeferralTally) : nat :=
  t.(dt_in_flight) + t.(dt_no_wallet) + t.(dt_invalid_wallet) + t.(dt_resolve_err).

(** [Instant]s and the interval in nanoseconds. *)
Definition throttle_elapsed (last : option Z) (now interval : Z) : bool :=
  match last with
  | Some t => if interval =? 0 then true else interval <=? Z.max 0 (now - t)
  | None => true
  end.

Definition defer_log_due (last : option Z) (now interval : Z) : option Z * bool :=
  if throttle_elapsed last now interval then (Some now, true) else (last, false).

(** The claim loop: the set grows by each claimed key; a skipped entry releases
    its key at once, a collected one keeps it until the batch returns. *)
Record claim_state : Type := {
  cs_inflight : MintInFlight;
  cs_inputs : list BatchMintInput;
  cs_guards : list string;
  cs_deferred : DeferralTally
}.

Definition batch_input (w : string) (p : PendingMint) : BatchMintInput := {|
  bi_recipient_wallet := w; bi_energy_kwh := p.(pm_energy_kwh);
  bi_meter_id := to_be_bytes 16 (Z.of_N p.(pm_meter_id));
  bi_meter_serial := p.(pm_meter_serial); bi_window_start_ms := p.(pm_window_start_ms) |}.

Definition claim_one (c : claim_state) (pw : PendingMint * outcome lookup_error (option string))
    : claim_state :=
  let '(p, wallet_res) := pw in
  match try_begin c.(cs_inflight) (field p) with
  | None => {| cs_inflight := c.(cs_inflight); cs_inputs := c.(cs_inputs); cs_guards := c.(cs_guards);
               cs_deferred := defer c.(cs_deferred) DInFlight p.(pm_meter_serial) |}
  | Some s1 =>
      let skip d := {| cs_inflight := guard_drop s1 (field p); cs_inputs := c.(cs_inputs);
                       cs_guards := c.(cs_guards);
                       cs_deferred := defer c.(cs_deferred) d p.(pm_meter_serial) |} in
      match wallet_res with
      | Ok (Some w) =>
          if negb (wallet_is_valid w) then skip DInvalidWallet
          else {| cs_inflight := s1; cs_inputs := c.(cs_inputs) ++ [batch_input w p];
                  cs_guards := c.(cs_guards) ++ [field p]; cs_deferred := c.(cs_deferred) |}
      | Ok None => skip DNoWallet
      | _ => skip DResolveErr
      end
  end.

Definition claim_start (s : MintInFlight) : claim_state :=
  {| cs_inflight := s; cs_inputs := []; cs_guards := [];
     cs_deferred := {| dt_in_flight := 0; dt_no_wallet := 0; dt_invalid_wallet := 0;
                       dt_resolve_err := 0; dt_sample_serial := None |} |}.

Definition claim_batch (s : MintInFlight)
    (pending : list (PendingMint * outcome lookup_error (option string))) : claim_state :=
  fold_left claim_one pending (claim_start s).

Definition parse_mint_field (idempotency_key : string) : option (string * Z) :=
  let fld := default idempotency_key (strip_prefix "mint:" idempotency_key) in
  sw ← rsplit_once ":" fld;
  w ← parse_i64 sw.2;
  Some (sw.1, w).

Definition write_back_confirmed (rs : list MintBatchItemResult) : list write_back :=
  omap (fun r =>
    if negb r.(br_success) then None
    else sig ← r.(br_signature);
         sw ← parse_mint_field r.(br_idempotency_key);
         Some {| wb_serial := sw.1; wb_window := sw.2; wb_signature := sig; wb_slot := r.(br_slot) |}) rs.

Record batch_attempt : Type := {
  ba_confirmed : list string;
  ba_published : option MintEnergyBatchMessage;
  ba_write_backs : list write_back;
  ba_deferred : DeferralTally;
  ba_inflight : MintInFlight
}.

Definition attempt_mint_batch (g : MintGateway) (rt : round_trip (list MintBatchItemResult))
    (s : MintInFlight) (has_wb : bool)
    (pending : list (PendingMint * outcome lookup_error (option string))) : batch_attempt :=
  let c := claim_batch s pending in
  let released := fold_left guard_drop c.(cs_guards) c.(cs_inflight) in
  match c.(cs_inputs) with
  | [] => {| ba_confirmed := []; ba_published := None; ba_write_backs := [];
             ba_deferred := c.(cs_deferred); ba_inflight := released |}
  | _ =>
      let '(pub, res) := gateway_mint_batch g rt c.(cs_inputs) in
      match res with
      | Ok results =>
          {| ba_confirmed := (classify_batch_results results).(confirmed_fields);
             ba_published := pub;
             ba_write_backs := if has_wb then write_back_confirmed results else [];
             ba_deferred := c.(cs_deferred); ba_inflight := released |}
      | _ => {| ba_confirmed := []; ba_published := pub; ba_write_backs := [];
                ba_deferred := c.(cs_deferred); ba_inflight := released |}
      end
  end.
End Settlement.
