(* ===== verification/MintProps.v ===== *)
(** * Properties of the mint gateway and of mint attempts

    Keys round-trip between the outbox, the bridge and the write-back; a
    confirmation means a signed bridge success; the in-flight set is restored and
    keeps one attempt per key; a batch accounts for every entry it was given. *)

From Stdlib Require Import ZArith Lia Ascii String SpecFloat.
From stdpp Require Import base gmap strings list numbers.
From S2P Require Import Prelude RustStd External Stores Mint.

Open Scope Z_scope.

(** ** Keys *)

Lemma mint_key_field p :
  mint_idempotency_key p.(pm_meter_serial) p.(pm_window_start_ms) = "mint:" +:+ field p.
Proof. reflexivity. Qed.

Lemma parse_field_show serial w :
  in_i64 w = true ->
  (sw ← rsplit_once ":" (serial +:+ ":" +:+ show_Z w); v ← parse_i64 sw.2; Some (sw.1, v)) = Some (serial, w).
Proof.
  intros Hw. change (":" +:+ show_Z w) with (String ":" (show_Z w)).
  rewrite rsplit_once_app by auto with bridge. simpl. by rewrite parse_show_i64.
Qed.

Lemma strip_mint s : strip_prefix "mint:" ("mint:" +:+ s) = Some s.
Proof. apply strip_prefix_app. Qed.

(** The idempotency key of a pending mint identifies it everywhere: parsing the
    key gives back the meter serial (colons included) and the window, stripping
    its prefix gives the outbox field, and two pending mints share a key only when
    they share the serial and the window. *)
Theorem mint_key_roundtrip p q :
  in_i64 p.(pm_window_start_ms) = true -> in_i64 q.(pm_window_start_ms) = true ->
  parse_mint_field (mint_idempotency_key p.(pm_meter_serial) p.(pm_window_start_ms))
    = Some (p.(pm_meter_serial), p.(pm_window_start_ms)) /\
  (forall r, r.(br_idempotency_key) = mint_idempotency_key p.(pm_meter_serial) p.(pm_window_start_ms) ->
     result_field r = field p) /\
  (mint_idempotency_key p.(pm_meter_serial) p.(pm_window_start_ms)
     = mint_idempotency_key q.(pm_meter_serial) q.(pm_window_start_ms) ->
   p.(pm_meter_serial) = q.(pm_meter_serial) /\ p.(pm_window_start_ms) = q.(pm_window_start_ms)).
Proof.
  intros Hp Hq. rewrite !mint_key_field. split; [|split].
  - unfold parse_mint_field. rewrite strip_mint. by apply parse_field_show.
  - intros r Hr. unfold result_field. by rewrite Hr, strip_mint.
  - intros H. apply string_app_inj_l in H. by apply field_inj.
Qed.

(** ** The in-flight set *)

Lemma try_begin_Some s k s1 : try_begin s k = Some s1 -> k ∉ s /\ s1 = ({[k]} ∪ s).
Proof. unfold try_begin. case_decide; [done|]. by intros [= <-]. Qed.

Lemma try_begin_None s k : try_begin s k = None -> k ∈ s.
Proof. unfold try_begin. by case_decide. Qed.

Lemma guard_drop_begin s k s1 : try_begin s k = Some s1 -> guard_drop s1 k = s.
Proof. intros [Hn ->]%try_begin_Some. unfold guard_drop. set_solver. Qed.

Section Attempts.
Context {K : Crypto}.

Lemma gateway_mint_Ok g rt w kwh mid serial window pub out :
  gateway_mint g rt w kwh mid serial window = (pub, Ok out) ->
  exists gw r, g = Nats gw /\
    pub = Some (mint_message gw rt.(rt_correlation_id) rt.(rt_now) w kwh mid serial window) /\
    rt.(rt_ack_ok) = true /\ rt.(rt_reply) = ReplyMsg r /\
    r.(mr_success) = true /\ r.(mr_signature) = Some out.(mo_signature).
Proof.
  unfold gateway_mint, request, parse_mint_result. destruct g as [gw|]; [|done].
  destruct rt as [cid now [] [] [] rep]; simpl; try (intros [=]; done).
  destruct rep as [| | |r]; simpl; try (intros [=]; done).
  destruct (mr_success r) eqn:Es; [|intros [=]].
  destruct (mr_signature r) as [sg|] eqn:Eg; simpl; [|intros [=]].
  intros [= <- <-]. exists gw, r. done.
Qed.

(** A mint attempt reports success only for a mint the bridge confirmed with a
    signature, after a durably acknowledged intent carrying this entry's key,
    energy and a 32-byte wallet; only then are the reading rows written back.  The
    in-flight set is left as it was found, and a key that is already in flight is
    neither published nor confirmed. *)
Theorem attempt_confirms g wres rt s has_wb p :
  let a := attempt_mint g wres rt s has_wb p in
  a.(at_inflight) = s /\
  (field p ∈ s -> a.(at_confirmed) = false /\ a.(at_published) = None) /\
  (a.(at_confirmed) = false -> a.(at_write_back) = None) /\
  (a.(at_confirmed) = true ->
   exists gw w r sig, g = Nats gw /\ wres = Ok (Some w) /\ wallet_is_valid w = true /\
     rt.(rt_ack_ok) = true /\ rt.(rt_reply) = ReplyMsg r /\
     r.(mr_success) = true /\ r.(mr_signature) = Some sig /\
     exists m, a.(at_published) = Some m /\ m.(mm_recipient_wallet) = w /\
       m.(mm_energy_kwh) = p.(pm_energy_kwh) /\
       m.(mm_idempotency_key) = mint_idempotency_key p.(pm_meter_serial) p.(pm_window_start_ms)).
Proof.
  unfold attempt_mint. destruct (try_begin s (field p)) as [s1|] eqn:Eb.
  2: { simpl. split; [done|]. split; [done|]. split; [done|]. intros [=]. }
  rewrite !(guard_drop_begin _ _ _ Eb). apply try_begin_Some in Eb as [Hn _].
  destruct wres as [[w|]| |]; simpl; try (repeat split; by (done || intros [=] || contradiction)).
  destruct (wallet_is_valid w) eqn:Ew; simpl;
    [|repeat split; by (done || intros [=] || contradiction)].
  destruct (mint_to g rt w p) as [pub [out| |]] eqn:Em; simpl;
    try (repeat split; by (done || intros [=] || contradiction)).
  split; [done|]. split; [contradiction|]. split; [done|]. intros _.
  apply gateway_mint_Ok in Em as (gw & r & -> & -> & Ha & Hr & Hs & Hsig).
  exists gw, w, r, (mo_signature out). repeat (split; [done|]).
  eexists. split; [done|]. unfold mint_message. by destruct (gw_sign_mint gw).
Qed.

(** ** Batches *)

Lemma classify_fold rs fs n :
  fold_left (fun '(fs, n) r =>
    if r.(br_success) then (fs ++ [result_field r], n) else (fs, S n)) rs (fs, n)
  = (fs ++ (result_field <$> List.filter br_success rs),
     (n + length (List.filter (fun r => negb r.(br_success)) rs))%nat).
Proof.
  revert fs n. induction rs as [|r rs IH]; intros fs n; simpl; [by rewrite app_nil_r, Nat.add_0_r|].
  destruct (br_success r); simpl; rewrite IH; f_equal; [by rewrite <- app_assoc|simpl; lia].
Qed.

Lemma classify_spec rs :
  let c := classify_batch_results rs in
  c.(confirmed_fields) = result_field <$> List.filter br_success rs /\
  (c.(confirmed) + c.(failed) = length rs)%nat.
Proof.
  unfold classify_batch_results. rewrite classify_fold. simpl. split; [done|].
  rewrite length_fmap. induction rs as [|r rs IH]; simpl; [done|].
  destruct (br_success r); simpl; lia.
Qed.

Definition input_key (i : BatchMintInput) : string :=
  mint_idempotency_key i.(bi_meter_serial) i.(bi_window_start_ms).

Lemma defer_total t d serial : total (defer t d serial) = S (total t).
Proof. destruct d; unfold total; simpl; lia. Qed.

(** The invariant of the claim loop, against the entries handled so far. *)
Record claim_inv (s : MintInFlight)
    (done_ : list (PendingMint * outcome lookup_error (option string))) (c : claim_state) : Prop := {
  ci_inflight : c.(cs_inflight) = s ∪ list_to_set c.(cs_guards);
  ci_fresh : forall k, k ∈ c.(cs_guards) -> k ∉ s;
  ci_nodup : NoDup c.(cs_guards);
  ci_keys : input_key <$> c.(cs_inputs) = (fun k => "mint:" +:+ k) <$> c.(cs_guards);
  ci_from : forall i, i ∈ c.(cs_inputs) -> exists p w, (p, Ok (Some w)) ∈ done_ /\
              wallet_is_valid w = true /\ i = batch_input w p;
  ci_total : (total c.(cs_deferred) + length c.(cs_inputs) = length done_)%nat
}.

Lemma claim_inv_skip s done_ c pw d :
  claim_inv s done_ c ->
  claim_inv s (done_ ++ [pw])
    {| cs_inflight := c.(cs_inflight); cs_inputs := c.(cs_inputs); cs_guards := c.(cs_guards);
       cs_deferred := defer c.(cs_deferred) d pw.1.(pm_meter_serial) |}.
Proof.
  intros []. constructor; simpl; try done.
  - intros i (p & w & Hin & ?)%ci_from0. exists p, w. split; [set_solver|done].
  - rewrite defer_total, length_app. simpl. lia.
Qed.

Lemma claim_inv_step s done_ c pw :
  claim_inv s done_ c -> claim_inv s (done_ ++ [pw]) (claim_one c pw).
Proof.
  intros Hc. destruct pw as [p wres]. unfold claim_one.
  destruct (try_begin _ (field p)) as [s1|] eqn:Eb; [|by apply (claim_inv_skip s done_ c (p, wres))].
  pose proof (guard_drop_begin _ _ _ Eb) as Hd.
  assert (Hskip : forall d, claim_inv s (done_ ++ [(p, wres)])
    {| cs_inflight := guard_drop s1 (field p); cs_inputs := c.(cs_inputs); cs_guards := c.(cs_guards);
       cs_deferred := defer c.(cs_deferred) d p.(pm_meter_serial) |}).
  { intros d. rewrite Hd. by apply (claim_inv_skip s done_ c (p, wres)). }
  destruct wres as [[w|]| |]; try apply Hskip. destruct (wallet_is_valid w) eqn:Ew; [|apply Hskip].
  apply try_begin_Some in Eb as [Hn ->]. destruct Hc. constructor; simpl.
  - rewrite ci_inflight0, list_to_set_app_L. simpl. set_solver.
  - intros k. rewrite elem_of_app, list_elem_of_singleton. intros [?| ->]; [auto|].
    rewrite ci_inflight0 in Hn. set_solver.
  - apply list.NoDup_app. split; [done|]. split; [|apply NoDup_singleton].
    intros k Hk ->%list_elem_of_singleton. rewrite ci_inflight0, elem_of_union, elem_of_list_to_set in Hn.
    auto.
  - by rewrite !fmap_app, ci_keys0.
  - intros i. rewrite elem_of_app, list_elem_of_singleton. intros [Hi|Hi].
    + apply ci_from0 in Hi as (q & v & Hin & ?). exists q, v. split; [set_solver|done].
    + subst i. exists p, w. split; [set_solver|done].
  - rewrite !length_app. simpl. lia.
Qed.

Lemma claim_batch_inv s pending : claim_inv s pending (claim_batch s pending).
Proof.
  unfold claim_batch. induction pending as [|pw pending IH] using rev_ind.
  - constructor; simpl; try done; [set_solver|set_solver|constructor|set_solver].
  - rewrite fold_left_app. simpl. by apply claim_inv_step.
Qed.

Lemma guards_released s gs :
  (forall k, k ∈ gs -> k ∉ s) -> fold_left guard_drop gs (s ∪ list_to_set gs) = s.
Proof.
  assert (H : forall gs X, fold_left guard_drop gs X = X ∖ list_to_set gs).
  { induction gs0 as [|g gs0 IH]; intros X; simpl; [set_solver|]. rewrite IH.
    unfold guard_drop. set_solver. }
  intros Hs. rewrite H. set_solver.
Qed.

Lemma attempt_batch_shape g rt s has_wb pending :
  let c := claim_batch s pending in
  let a := attempt_mint_batch g rt s has_wb pending in
  a.(ba_inflight) = s /\ a.(ba_deferred) = c.(cs_deferred) /\
  (a.(ba_confirmed) = [] \/
   exists results, c.(cs_inputs) <> [] /\ (gateway_mint_batch g rt c.(cs_inputs)).2 = Ok results /\
     a.(ba_confirmed) = result_field <$> List.filter br_success results).
Proof.
  cbv zeta. pose proof (claim_batch_inv s pending) as [Hi Hf _ _ _ _].
  assert (Hrel : fold_left guard_drop (claim_batch s pending).(cs_guards)
                   (claim_batch s pending).(cs_inflight) = s) by (rewrite Hi; by apply guards_released).
  unfold attempt_mint_batch. rewrite Hrel.
  destruct (cs_inputs (claim_batch s pending)) as [|i l] eqn:Ei; [auto|].
  destruct (gateway_mint_batch g rt (i :: l)) as [pub [results| |]]; simpl; auto.
  split; [done|]. split; [done|]. right. exists results. repeat split; auto.
  apply classify_spec.
Qed.

(** C30: a batched attempt settles its entries one way each: the in-flight set is
    restored; every entry is either counted in exactly one deferral or submitted;
    the submitted keys are pairwise distinct and were not in flight, and each
    comes from an entry with a valid wallet.  If the bridge answers only for keys
    it was sent, every field reported confirmed is the field of a submitted
    entry. *)
Theorem batch_accounts g rt s has_wb pending :
  let c := claim_batch s pending in
  let a := attempt_mint_batch g rt s has_wb pending in
  a.(ba_inflight) = s /\
  (total a.(ba_deferred) + length c.(cs_inputs) = length pending)%nat /\
  NoDup (input_key <$> c.(cs_inputs)) /\
  (forall i, i ∈ c.(cs_inputs) -> exists p w, (p, Ok (Some w)) ∈ pending /\ field p ∉ s /\
     wallet_is_valid w = true /\ i = batch_input w p) /\
  ((forall results r, (gateway_mint_batch g rt c.(cs_inputs)).2 = Ok results -> r ∈ results ->
      r.(br_idempotency_key) ∈ input_key <$> c.(cs_inputs)) ->
   forall f, f ∈ a.(ba_confirmed) ->
     exists p w, (p, Ok (Some w)) ∈ pending /\ field p ∉ s /\ batch_input w p ∈ c.(cs_inputs) /\ f = field p).
Proof.
  cbv zeta. destruct (attempt_batch_shape g rt s has_wb pending) as (Hin & Hdef & Hconf).
  destruct (claim_batch_inv s pending) as [_ Hfresh Hnd Hkeys Hfrom Htot].
  assert (Hfrom' : forall i, i ∈ (claim_batch s pending).(cs_inputs) ->
    exists p w, (p, Ok (Some w)) ∈ pending /\ field p ∉ s /\ wallet_is_valid w = true /\ i = batch_input w p).
  { intros i Hi. destruct (Hfrom i Hi) as (p & w & Hp & Hw & ->). exists p, w. split; [done|].
    split; [|done]. apply Hfresh.
    assert (Hk : input_key (batch_input w p) ∈ input_key <$> (claim_batch s pending).(cs_inputs))
      by (by apply list_elem_of_fmap_2).
    rewrite Hkeys in Hk. apply list_elem_of_fmap in Hk as (k & Hk & Hin').
    change (input_key (batch_input w p)) with ("mint:" +:+ field p) in Hk.
    apply string_app_inj_l in Hk. by subst k. }
  split; [done|]. split; [by rewrite Hdef|]. split.
  { rewrite Hkeys. apply NoDup_fmap_2; [|done]. intros a b. apply string_app_inj_l. }
  split; [done|]. intros Hbridge f Hf. destruct Hconf as [Hnil|(results & _ & Hres & Heq)].
  { rewrite Hnil in Hf. set_solver. }
  rewrite Heq in Hf. apply list_elem_of_fmap in Hf as (r & -> & Hr).
  apply list_elem_of_In, List.filter_In in Hr as [Hr%list_elem_of_In _].
  pose proof (Hbridge _ _ Hres Hr) as Hk. apply list_elem_of_fmap in Hk as (i & Hk & Hi).
  destruct (Hfrom' i Hi) as (p & w & Hp & Hns & Hw & ->). exists p, w. do 3 (split; [done|]).
  unfold result_field. rewrite Hk. change (input_key (batch_input w p)) with ("mint:" +:+ field p).
  by rewrite strip_mint.
Qed.

(** A mint error is counted as a reply timeout exactly when the intent was
    durably acknowledged and no reply arrived in time, the one failure after which
    the mint may still have landed. *)
Theorem timeout_reason g rt w kwh mid serial window pub e :
  gateway_mint g rt w kwh mid serial window = (pub, Err e) ->
  mint_failure_reason e = "reply_timeout"%string <->
  is_enabled g = true /\ rt.(rt_subscribe_ok) = true /\ rt.(rt_publish_ok) = true /\
  rt.(rt_ack_ok) = true /\ rt.(rt_reply) = ReplyTimedOut.
Proof.
  unfold gateway_mint, request, parse_mint_result. destruct g as [gw|].
  2: { intros [= <- <-]. simpl. split; [done|]. by intros [? _]. }
  destruct rt as [cid now [] [] [] rep]; simpl;
    try (intros [= <- <-]; simpl; split; [done|]; by intros (_ & ? & ? & ? & _)).
  destruct rep as [| | |r]; simpl; try (intros [= <- <-]; simpl; split; [done|]; by intros (_ & _ & _ & _ & ?)).
  destruct (mr_success r); [destruct (mr_signature r); [done|]|]; intros [= <- <-]; simpl;
    (split; [done|]); by intros (_ & _ & _ & _ & ?).
Qed.

(** A success without a signature: the batch path confirms it and lets its entry leave
    the outbox, without a write-back, while the single path reports an error and
    keeps the entry. *)
Lemma batch_confirms_unsigned key i slot err :
  let r := {| br_index := i; br_idempotency_key := key; br_success := true; br_signature := None;
              br_slot := slot; br_error := err |} in
  (classify_batch_results [r]).(confirmed_fields) = [result_field r] /\ write_back_confirmed [r] = [] /\
  forall m, m.(mr_success) = true -> m.(mr_signature) = None -> parse_mint_result m = Err NoSignature.
Proof. cbn. split_and!; [done..|]. intros m Hs Hn. unfold parse_mint_result. by rewrite Hs, Hn. Qed.
End Attempts.

(** ** Witnesses *)

Section Witnesses.
#[local] Existing Instance crypto_ref.

Definition p1 : PendingMint := sample_pending 5 0.
Definition p2 : PendingMint :=
  {| pm_meter_serial := "a:b"; pm_meter_id := 8%N; pm_window_start_ms := -900000;
     pm_energy_kwh := F64.of_Z 2; pm_enqueued_at_ms := 0 |}.

Lemma mint_key_roundtrip_witness :
  parse_mint_field (mint_idempotency_key "a:b" (-900000)) = Some ("a:b"%string, -900000).
Proof. apply (mint_key_roundtrip p2 p1); reflexivity. Defined.

Definition gw0 : MintGateway :=
  Nats {| gw_service_identity := "aggregator"; gw_sign_mint := None; gw_sign_batch := None |}.

Definition wallet0 : string := "0123456789abcdef0123456789abcdef".

(** The bridge confirms the first of two keys. *)
Definition batch_reply : list MintBatchItemResult :=
  [ {| br_index := 0; br_idempotency_key := mint_idempotency_key "M1" 1767225600000; br_success := true;
       br_signature := Some "sig"%string; br_slot := 9; br_error := None |};
    {| br_index := 1; br_idempotency_key := mint_idempotency_key "a:b" (-900000); br_success := false;
       br_signature := None; br_slot := 0; br_error := Some "sim"%string |} ].

Definition rt0 {R} (r : reply R) : round_trip R :=
  {| rt_correlation_id := "c"; rt_now := 0; rt_subscribe_ok := true; rt_publish_ok := true;
     rt_ack_ok := true; rt_reply := r |}.

Definition batch0 : list (PendingMint * outcome lookup_error (option string)) :=
  [(p1, Ok (Some wallet0)); (p2, Ok (Some wallet0)); (p1, Ok (Some wallet0)); (p2, Ok None)].

Lemma batch_accounts_witness :
  exists p w, (p, Ok (Some w)) ∈ batch0 /\ field p ∉ (∅ : MintInFlight) /\
    batch_input w p ∈ (claim_batch ∅ batch0).(cs_inputs) /\ field p1 = field p.
Proof.
  refine (proj2 (proj2 (proj2 (proj2
    (batch_accounts gw0 (rt0 (ReplyMsg batch_reply)) ∅ true batch0)))) _ (field p1) _).
  - intros results r Hres Hr. vm_compute in Hres. injection Hres as <-.
    vm_compute. repeat (apply elem_of_cons in Hr as [->|Hr]; [repeat constructor|]).
    by apply elem_of_nil in Hr.
  - vm_compute. constructor.
Defined.

Lemma timeout_reason_witness :
  mint_failure_reason MintReplyTimeout = "reply_timeout"%string.
Proof.
  apply (timeout_reason gw0 (rt0 ReplyTimedOut) wallet0 F64.zero [] "M1" 0
          (Some (mint_message {| gw_service_identity := "aggregator"; gw_sign_mint := None; gw_sign_batch := None |}
                   "c" 0 wallet0 F64.zero [] "M1" 0))).
  - reflexivity.
  - repeat split.
Defined.
End Witnesses.
