(* ===== verification/Settlement.v ===== *)
(** * The settlement sweep and the outbox drain (src/main.rs, aggregator-logic:
    billing_sink.rs, zone_balance.rs)

    [settle_bin] is the body of the sweep for one completed bin: InfluxDB point,
    mint decision, owner gate, durable hand-off to the outbox, eviction of the
    durable bin.  [drain_tick] is one tick of the outbox drain loop. *)

From Stdlib Require Import ZArith Lia Ascii String SpecFloat.
From stdpp Require Import base gmap strings list numbers.
From S2P Require Import Prelude RustStd External Aggregator Stores Mint.

Open Scope Z_scope.
Open Scope bridge_scope.

(** ** billing_sink.rs *)

(** infra/influxdb.rs: a measurement point. *)
Record TelemetryPoint : Type := {
  tp_measurement : string;
  tp_device_id : string;
  tp_device_type : string;
  tp_serial_number : string;
  tp_zone_code : option string;
  tp_extra_tags : list (string * string);
  tp_fields : list (string * f64);
  tp_timestamp_ns : Z
}.

Inductive MintDecision : Type :=
| Surplus (kwh : f64)
| NoSurplus
| MintDisabled.

Inductive MintHandoff : Type :=
| NotApplicable
| Enqueued
| MintedDirectly
| BestEffortOnly
| Lost.

Definition bin_durably_settled (h : MintHandoff) : bool :=
  match h with Lost => false | _ => true end.

Section BillingSink.
Context {C : Chrono} {D : RustDecimal} {U : UuidText}.

Definition dec_f (d : Dec) : f64 := default F64.zero (dec_to_f64 d).

Definition bin_to_billing_point (b : BillingBin) : option TelemetryPoint :=
  ts ← dt_nanos_opt b.(end_time);
  Some {| tp_measurement := "billing";
          tp_device_id := uuid_show b.(meter_id);
          tp_device_type := "smart_meter";
          tp_serial_number := b.(meter_serial);
          tp_zone_code := None;
          tp_extra_tags := [("user_id"%string, uuid_show b.(user_id))];
          tp_fields :=
            [ ("energy_generated"%string, dec_f b.(energy_generated));
              ("energy_consumed"%string, dec_f b.(energy_consumed));
              ("energy_generated_peak"%string, dec_f b.(energy_generated_peak));
              ("energy_generated_offpeak"%string, dec_f b.(energy_generated_offpeak));
              ("energy_consumed_peak"%string, dec_f b.(energy_consumed_peak));
              ("energy_consumed_offpeak"%string, dec_f b.(energy_consumed_offpeak));
              ("max_demand_kw"%string, dec_f b.(max_demand_kw));
              ("reading_count"%string, F64.of_Z b.(reading_count)) ];
          tp_timestamp_ns := ts |}.

Definition plan_mint (b : BillingBin) (mint_enabled : bool) : outcome Empty_set MintDecision :=
  if negb mint_enabled then Ok MintDisabled
  else
    let? s := net_surplus_kwh b in
    Ok (match s with Some kwh => Surplus kwh | None => NoSurplus end).
End BillingSink.

(** ** zone_balance.rs *)

Record ZoneBalance : Type := {
  zb_zone_code : option Z;
  zb_generated_kwh : f64;
  zb_consumed_kwh : f64;
  zb_net_kwh : f64;
  zb_bin_count : Z
}.

Definition imbalance_kwh (z : ZoneBalance) : f64 := F64.abs z.(zb_net_kwh).

Definition imbalance_ratio (z : ZoneBalance) : option f64 :=
  let throughput := F64.add z.(zb_generated_kwh) z.(zb_consumed_kwh) in
  if F64.ltb F64.zero throughput then Some (F64.div (F64.abs z.(zb_net_kwh)) throughput) else None.

(** [BTreeMap] order of [Option<u16>]: [None] first, then by code. *)
Definition zone_ltb (a b : option Z) : bool :=
  match a, b with
  | None, Some _ => true
  | Some x, Some y => x <? y
  | _, None => false
  end.

Section Zones.
Context {D : RustDecimal}.

Definition zone_add (z : ZoneBalance) (b : BillingBin) (net : f64) : ZoneBalance := {|
  zb_zone_code := z.(zb_zone_code);
  zb_generated_kwh := F64.add z.(zb_generated_kwh) (dec_f b.(energy_generated));
  zb_consumed_kwh := F64.add z.(zb_consumed_kwh) (dec_f b.(energy_consumed));
  zb_net_kwh := F64.add z.(zb_net_kwh) net;
  zb_bin_count := z.(zb_bin_count) + 1 |}.

Definition zone_empty (c : option Z) : ZoneBalance :=
  {| zb_zone_code := c; zb_generated_kwh := F64.zero; zb_consumed_kwh := F64.zero;
     zb_net_kwh := F64.zero; zb_bin_count := 0 |}.

(** [by_zone.entry(code).or_insert(..)] on the ordered map. *)
Fixpoint zone_entry (m : list ZoneBalance) (c : option Z) (f : ZoneBalance -> ZoneBalance)
    : list ZoneBalance :=
  match m with
  | [] => [f (zone_empty c)]
  | z :: m' =>
      if bool_decide (z.(zb_zone_code) = c) then f z :: m'
      else if zone_ltb c z.(zb_zone_code) then f (zone_empty c) :: z :: m'
      else z :: zone_entry m' c f
  end.

Fixpoint zone_balances_from (m : list ZoneBalance) (bins : list BillingBin)
    : outcome Empty_set (list ZoneBalance) :=
  match bins with
  | [] => Ok m
  | b :: bins =>
      let? net := net_energy_kwh b in
      zone_balances_from (zone_entry m b.(bin_zone_code) (fun z => zone_add z b net)) bins
  end.

Definition zone_balances (bins : list BillingBin) : outcome Empty_set (list ZoneBalance) :=
  zone_balances_from [] bins.

Definition system_net_kwh (l : list ZoneBalance) : f64 :=
  F64.sum (zb_net_kwh <$> l) F64.zero.
End Zones.

(** ** The sweep of main.rs, one bin *)

(** What the services answer while one bin is settled. *)
Record sweep_env : Type := {
  se_gateway : MintGateway;
  se_owner : outcome lookup_error (option Uuid);
  se_truth : outcome lookup_error (option Uuid);
  se_now : Z;
  se_has_outbox : bool;
  se_enqueue1 : io;
  se_enqueue2 : io;
  se_wallet : outcome lookup_error (option string);
  se_round_trip : round_trip MintEnergyResultMessage;
  se_inflight : MintInFlight;
  se_has_writeback : bool;
  se_has_store : bool;
  se_evict : io;
  se_has_influx : bool
}.

(** Owner gate: only two definite "not registered" answers skip the mint. *)
Definition owner_known (e : sweep_env) : bool :=
  match e.(se_owner) with
  | Ok (Some _) => true
  | Ok None =>
      match e.(se_truth) with
      | Ok (Some _) => true
      | Ok None => false
      | _ => true
      end
  | _ => true
  end.

Record sweep_result : Type := {
  sr_redis : Redis;
  sr_handoff : MintHandoff;
  sr_spawned : option PendingMint;
  sr_point : option TelemetryPoint;
  sr_no_surplus : option (string * Z)
}.

Section Sweep.
Context {C : Chrono} {D : RustDecimal} {U : UuidText} {K : Crypto}.
Context {BC : Codec BillingBin} {PC : Codec PendingMint}.

(** The hand-off of a pending mint, and the attempt spawned for it. *)
Definition hand_off (e : sweep_env) (r : Redis) (p : PendingMint)
    : Redis * MintHandoff * option PendingMint :=
  if e.(se_has_outbox) then
    match enqueue r p e.(se_enqueue1) with
    | (r1, Ok _) => (r1, Enqueued, Some p)
    | (r1, _) =>
        match enqueue r1 p e.(se_enqueue2) with
        | (r2, Ok _) => (r2, Enqueued, None)
        | (r2, _) =>
            if (attempt_mint e.(se_gateway) e.(se_wallet) e.(se_round_trip) e.(se_inflight)
                  e.(se_has_writeback) p).(at_confirmed)
            then (r2, MintedDirectly, None)
            else (r2, Lost, None)
        end
    end
  else (r, BestEffortOnly, Some p).

Definition pending_of (b : BillingBin) (kwh : f64) (now : Z) : PendingMint :=
  pending_new b.(meter_serial) b.(meter_id) (window_start_ms b) kwh now.

Definition evict_bin (e : sweep_env) (r : Redis) (b : BillingBin) (h : MintHandoff) : Redis :=
  if bin_durably_settled h && e.(se_has_store) then (bin_remove r [key b] e.(se_evict)).1 else r.

Definition settle_bin (e : sweep_env) (r : Redis) (b : BillingBin) : outcome Empty_set sweep_result :=
  let point := if e.(se_has_influx) then bin_to_billing_point b else None in
  let? d := plan_mint b (is_enabled e.(se_gateway)) in
  let '(r1, h, spawned) :=
    match d with
    | Surplus kwh => if owner_known e then hand_off e r (pending_of b kwh e.(se_now))
                     else (r, NotApplicable, None)
    | NoSurplus | MintDisabled => (r, NotApplicable, None)
    end in
  Ok {| sr_redis := evict_bin e r1 b h;
        sr_handoff := h;
        sr_spawned := spawned;
        sr_point := point;
        sr_no_surplus := match d with
                         | NoSurplus => if e.(se_has_writeback) then Some (b.(meter_serial), window_start_ms b) else None
                         | _ => None
                         end |}.

(** The loop over a sweep's bins, each with its own answers. *)
Fixpoint settle_bins (r : Redis) (bs : list (BillingBin * sweep_env)) : outcome Empty_set (Redis * list sweep_result) :=
  match bs with
  | [] => Ok (r, [])
  | (b, e) :: bs =>
      let? sr := settle_bin e r b in
      let? (r', srs) := settle_bins sr.(sr_redis) bs in
      Ok (r', sr :: srs)
  end.

(** ** The drain loop, one tick *)

Definition partition_expired (now_ms max_age : Z) (ps : list PendingMint)
    : list PendingMint * list PendingMint :=
  (List.filter (fun p => is_expired p now_ms max_age) ps,
   List.filter (fun p => negb (is_expired p now_ms max_age)) ps).

(** [slice::chunks]; the batch size is positive ([filter(|&n| n > 0)]). *)
Fixpoint chunks_fuel {A : Type} (fuel n : nat) (l : list A) : list (list A) :=
  match fuel, l with
  | _, [] => []
  | O, _ => []
  | S fuel, _ => take n l :: chunks_fuel fuel n (drop n l)
  end.

Definition chunks {A : Type} (n : nat) (l : list A) : list (list A) := chunks_fuel (length l) n l.

Definition batch_size (env : option string) : nat :=
  match env ≫= parse_unsigned 64 with
  | Some n => if 0 <? n then Z.to_nat n else 15
  | None => 15
  end.

Record drain_env : Type := {
  de_load : io;
  de_now_ms : Z;
  de_max_age : Z;
  de_batch_size : option string;
  de_park : PendingMint -> io * io;
  de_wallet : PendingMint -> outcome lookup_error (option string);
  de_gateway : MintGateway;
  de_round_trip : nat -> round_trip (list MintBatchItemResult);
  de_has_writeback : bool;
  de_remove : string -> io * io
}.

Definition park_all (e : drain_env) (r : Redis) (ps : list PendingMint) : Redis :=
  fold_left (fun r p => (park r p (e.(de_park) p).1 (e.(de_park) p).2).1) ps r.

Definition remove_all (e : drain_env) (r : Redis) (fs : list string) : Redis :=
  fold_left (fun r f => (outbox_remove r f (e.(de_remove) f).1 (e.(de_remove) f).2).1) fs r.

(** One batch task: attempt, then remove what was confirmed. *)
Definition drain_batch (e : drain_env) (s : MintInFlight) (r : Redis) (ib : nat * list PendingMint) : Redis :=
  let a := attempt_mint_batch e.(de_gateway) (e.(de_round_trip) ib.1) s e.(de_has_writeback)
             ((fun p => (p, e.(de_wallet) p)) <$> ib.2) in
  remove_all e r a.(ba_confirmed).

(** The batch tasks run one after the other here; every interleaving of their
    Redis commands is covered by the step relation of the next file. *)
Definition drain_tick (e : drain_env) (s : MintInFlight) (r : Redis) : Redis :=
  match outbox_load_all r e.(de_load) with
  | Ok pending =>
      let '(expired, to_mint) := partition_expired e.(de_now_ms) e.(de_max_age) pending in
      let r := park_all e r expired in
      fold_left (drain_batch e s) (imap pair (chunks (batch_size e.(de_batch_size)) to_mint)) r
  | _ => r
  end.
End Sweep.
