(* ===== verification/SettlementSafety.v ===== *)
(** * Surplus is never lost

    A step relation in which the settlement sweep, the spawned mint attempts, the
    outbox drain and the ingest write-through interleave freely, one Redis command
    or bridge reply at a time; every command may fail with or without effect and
    the process may crash at any point, losing all running tasks.  The invariant:
    a bin that once reached the durable store is still there, or its mint sits in
    the outbox or the parked hash, or it is on chain, or the sweep found nothing
    to mint for it. *)

From Stdlib Require Import ZArith Lia Ascii String SpecFloat.
From stdpp Require Import base gmap strings list numbers.
From S2P Require Import Prelude RustStd External Aggregator Stores Mint MintProps Settlement.

Open Scope Z_scope.

Section Safety.
Context {C : Chrono} {D : RustDecimal} {U : UuidText} {UL : UuidLaws} {K : Crypto}.
Context {BC : Codec BillingBin} {PC : Codec PendingMint}.

(** A meter has one serial. *)
Context (serial_of : Uuid -> string).

Definition bin_ok (b : BillingBin) : Prop :=
  b.(meter_serial) = serial_of b.(meter_id) /\ key_storable (key b).

(** The outbox field of a bin's mint. *)
Definition mint_field (b : BillingBin) : string :=
  b.(meter_serial) +:+ ":" +:+ show_Z (window_start_ms b).

(** Where the running tasks are, between two atomic steps. *)
Inductive task : Type :=
| TEnqueue (b : BillingBin) (p : PendingMint)
| TEnqueueRetry (b : BillingBin) (p : PendingMint)
| TDirect (b : BillingBin) (p : PendingMint)
| TEvict (b : BillingBin) (h : MintHandoff)
| TAttempt (f : string)
| TRemove (f : string)
| TRemoveParked (f : string)
| TPark (p : PendingMint)
| TParkDel (p : PendingMint).

Abbreviation chain := (gset string).

(** One atomic step of one task: new stores, the fields minted on chain, and the
    tasks that continue it. *)
Inductive task_step : Redis -> chain -> task -> Redis -> chain -> list task -> Prop :=
| L_enqueue_ok r ch b p o r' : enqueue r p o = (r', Ok ()) ->
    task_step r ch (TEnqueue b p) r' ch [TEvict b Enqueued; TAttempt (field p)]
| L_enqueue_err r ch b p o r' e : enqueue r p o = (r', Err e) ->
    task_step r ch (TEnqueue b p) r' ch [TEnqueueRetry b p]
| L_retry_ok r ch b p o r' : enqueue r p o = (r', Ok ()) ->
    task_step r ch (TEnqueueRetry b p) r' ch [TEvict b Enqueued]
| L_retry_err r ch b p o r' e : enqueue r p o = (r', Err e) ->
    task_step r ch (TEnqueueRetry b p) r' ch [TDirect b p]
| L_direct_ok r ch b p :
    task_step r ch (TDirect b p) r ({[field p]} ∪ ch) [TEvict b MintedDirectly]
| L_direct_fail r ch b p : task_step r ch (TDirect b p) r ch [TEvict b Lost]
| L_direct_fail_landed r ch b p :
    task_step r ch (TDirect b p) r ({[field p]} ∪ ch) [TEvict b Lost]
| L_evict r ch b h o r' res : bin_durably_settled h = true -> bin_remove r [key b] o = (r', res) ->
    task_step r ch (TEvict b h) r' ch []
| L_evict_kept r ch b h : bin_durably_settled h = false -> task_step r ch (TEvict b h) r ch []
| L_attempt_ok r ch f : task_step r ch (TAttempt f) r ({[f]} ∪ ch) [TRemove f]
| L_attempt_fail r ch f : task_step r ch (TAttempt f) r ch []
| L_attempt_fail_landed r ch f : task_step r ch (TAttempt f) r ({[f]} ∪ ch) []
| L_remove_ok r ch f o h : hdel r.(outbox_h) [f] o = (h, Ok ()) ->
    task_step r ch (TRemove f) (set_outbox_h r h) ch [TRemoveParked f]
| L_remove_err r ch f o h e : hdel r.(outbox_h) [f] o = (h, Err e) ->
    task_step r ch (TRemove f) (set_outbox_h r h) ch []
| L_remove_parked r ch f o h res : hdel r.(parked_h) [f] o = (h, res) ->
    task_step r ch (TRemoveParked f) (set_parked_h r h) ch []
| L_park_ok r ch p o h : hset r.(parked_h) (field p) (encode p) o = (h, Ok ()) ->
    task_step r ch (TPark p) (set_parked_h r h) ch [TParkDel p]
| L_park_err r ch p o h e : hset r.(parked_h) (field p) (encode p) o = (h, Err e) ->
    task_step r ch (TPark p) (set_parked_h r h) ch []
| L_park_del r ch p o h res : hdel r.(outbox_h) [field p] o = (h, res) ->
    task_step r ch (TParkDel p) (set_outbox_h r h) ch [].

(** The stores, the chain, the bins that reached the store (with their mint
    field), the bins the sweep released without a mint, and the running tasks. *)
Record sys : Type := {
  s_redis : Redis;
  s_chain : chain;
  s_tracked : gset (string * string);
  s_released : gset string;
  s_tasks : list task
}.

Definition sys_init : sys :=
  {| s_redis := {| bins_h := ∅; outbox_h := ∅; parked_h := ∅ |};
     s_chain := ∅; s_tracked := ∅; s_released := ∅; s_tasks := [] |}.

Inductive sys_step : sys -> sys -> Prop :=
(** ingest writes a bin through *)
| S_write s b o : bin_ok b ->
    sys_step s {| s_redis := (bin_write s.(s_redis) b o).1; s_chain := s.(s_chain);
                  s_tracked := if io_applies o then {[(bin_field (key b), mint_field b)]} ∪ s.(s_tracked)
                               else s.(s_tracked);
                  s_released := s.(s_released); s_tasks := s.(s_tasks) |}
(** the sweep reaches a bin with a surplus and a known owner *)
| S_sweep s b e kwh : bin_ok b ->
    plan_mint b (is_enabled e.(se_gateway)) = Ok (Surplus kwh) -> owner_known e = true ->
    sys_step s {| s_redis := s.(s_redis); s_chain := s.(s_chain); s_tracked := s.(s_tracked);
                  s_released := s.(s_released);
                  s_tasks := TEnqueue b (pending_of b kwh e.(se_now)) :: s.(s_tasks) |}
(** the sweep reaches a bin it has nothing to mint for *)
| S_sweep_none s b e d : bin_ok b ->
    plan_mint b (is_enabled e.(se_gateway)) = Ok d ->
    match d with Surplus _ => owner_known e = false | _ => True end ->
    sys_step s {| s_redis := s.(s_redis); s_chain := s.(s_chain); s_tracked := s.(s_tracked);
                  s_released := {[bin_field (key b)]} ∪ s.(s_released);
                  s_tasks := TEvict b NotApplicable :: s.(s_tasks) |}
(** the drain acts on an entry of a snapshot, which may be stale by now *)
| S_drain_attempt s f :
    sys_step s {| s_redis := s.(s_redis); s_chain := s.(s_chain); s_tracked := s.(s_tracked);
                  s_released := s.(s_released); s_tasks := TAttempt f :: s.(s_tasks) |}
| S_drain_park s p :
    sys_step s {| s_redis := s.(s_redis); s_chain := s.(s_chain); s_tracked := s.(s_tracked);
                  s_released := s.(s_released); s_tasks := TPark p :: s.(s_tasks) |}
| S_task s l1 t l2 r' ch' ts : s.(s_tasks) = l1 ++ t :: l2 ->
    task_step s.(s_redis) s.(s_chain) t r' ch' ts ->
    sys_step s {| s_redis := r'; s_chain := ch'; s_tracked := s.(s_tracked);
                  s_released := s.(s_released); s_tasks := l1 ++ ts ++ l2 |}
| S_crash s :
    sys_step s {| s_redis := s.(s_redis); s_chain := s.(s_chain); s_tracked := s.(s_tracked);
                  s_released := s.(s_released); s_tasks := [] |}.

(** ** The invariant *)

(** The mint has a durable home. *)
Definition mint_safe (r : Redis) (ch : chain) (f : string) : Prop :=
  is_Some (r.(outbox_h) !! f) \/ is_Some (r.(parked_h) !! f) \/ f ∈ ch.

Definition task_ok (r : Redis) (ch : chain) (released : gset string) (t : task) : Prop :=
  match t with
  | TEnqueue b p | TEnqueueRetry b p | TDirect b p => bin_ok b /\ field p = mint_field b
  | TEvict b h => bin_ok b /\
      match h with
      | Lost => True
      | NotApplicable => bin_field (key b) ∈ released
      | _ => mint_safe r ch (mint_field b)
      end
  | TRemove f | TRemoveParked f => f ∈ ch
  | TParkDel p => is_Some (r.(parked_h) !! field p) \/ field p ∈ ch
  | TAttempt _ | TPark _ => True
  end.

Record sys_inv (s : sys) : Prop := {
  si_tracked : forall bf f, (bf, f) ∈ s.(s_tracked) ->
    (exists b, bin_ok b /\ bf = bin_field (key b) /\ f = mint_field b) /\
    (is_Some (s.(s_redis).(bins_h) !! bf) \/ mint_safe s.(s_redis) s.(s_chain) f \/ bf ∈ s.(s_released));
  si_tasks : Forall (task_ok s.(s_redis) s.(s_chain) s.(s_released)) s.(s_tasks)
}.

(** What no step takes away. *)
Definition store_le (r : Redis) (ch : chain) (r' : Redis) (ch' : chain) : Prop :=
  ch ⊆ ch' /\ (forall f, mint_safe r ch f -> mint_safe r' ch' f) /\
  (forall f, is_Some (r.(parked_h) !! f) \/ f ∈ ch -> is_Some (r'.(parked_h) !! f) \/ f ∈ ch').

Lemma store_le_refl r ch : store_le r ch r ch.
Proof. by split; [|split]. Qed.

Lemma task_ok_mono r ch rel r' ch' rel' t :
  store_le r ch r' ch' -> rel ⊆ rel' -> task_ok r ch rel t -> task_ok r' ch' rel' t.
Proof.
  intros (Hch & Hsafe & Hpark) Hrel. destruct t; simpl; auto.
  intros [Hb Hh]. split; [done|]. destruct h; auto.
Qed.

(** *** Single commands *)

Lemma enqueue_cases r p o r' res :
  enqueue r p o = (r', res) ->
  (r' = r \/ r' = set_outbox_h r (<[field p := encode p]> r.(outbox_h))) /\
  (res = Ok () -> r' = set_outbox_h r (<[field p := encode p]> r.(outbox_h))).
Proof.
  unfold enqueue, hset. destruct r, o; simpl; intros [= <- <-]; auto; split; auto; intros [=].
Qed.

Lemma set_outbox_insert_le r ch f v :
  store_le r ch (set_outbox_h r (<[f := v]> r.(outbox_h))) ch.
Proof.
  split; [done|]. split; [|done]. intros g. unfold mint_safe. simpl.
  rewrite lookup_insert. case_decide; eauto.
Qed.

Lemma set_parked_insert_le r ch f v :
  store_le r ch (set_parked_h r (<[f := v]> r.(parked_h))) ch.
Proof.
  split; [done|]. unfold mint_safe. simpl.
  split; intros g; rewrite lookup_insert; case_decide; eauto.
Qed.

Lemma chain_le r ch f : store_le r ch r ({[f]} ∪ ch).
Proof. unfold store_le, mint_safe. split; [set_solver|]. split; intros g; set_solver. Qed.

Lemma set_outbox_delete_le r ch f :
  is_Some (r.(parked_h) !! f) \/ f ∈ ch -> store_le r ch (set_outbox_h r (delete f r.(outbox_h))) ch.
Proof.
  intros Hf. split; [done|]. split; [|done]. intros g. unfold mint_safe. simpl.
  rewrite lookup_delete. case_decide; subst; tauto.
Qed.

Lemma set_parked_delete_le r ch f :
  f ∈ ch -> store_le r ch (set_parked_h r (delete f r.(parked_h))) ch.
Proof.
  intros Hf. split; [done|]. unfold mint_safe. simpl.
  split; intros g; rewrite lookup_delete; case_decide; subst; tauto.
Qed.

Lemma hdel_one h f o h' res : hdel h [f] o = (h', res) -> h' = h \/ h' = delete f h.
Proof. unfold hdel. destruct o; simpl; intros [= <- <-]; auto. Qed.

Lemma set_outbox_id r : set_outbox_h r r.(outbox_h) = r.
Proof. by destruct r. Qed.

Lemma set_parked_id r : set_parked_h r r.(parked_h) = r.
Proof. by destruct r. Qed.

Lemma hdel_outbox_le r ch f o h res :
  is_Some (r.(parked_h) !! f) \/ f ∈ ch -> hdel r.(outbox_h) [f] o = (h, res) ->
  store_le r ch (set_outbox_h r h) ch.
Proof.
  intros Hf [->| ->]%hdel_one; [rewrite set_outbox_id; apply store_le_refl|].
  by apply set_outbox_delete_le.
Qed.

Lemma hdel_parked_le r ch f o h res :
  f ∈ ch -> hdel r.(parked_h) [f] o = (h, res) -> store_le r ch (set_parked_h r h) ch.
Proof.
  intros Hf [->| ->]%hdel_one; [rewrite set_parked_id; apply store_le_refl|].
  by apply set_parked_delete_le.
Qed.

Lemma hset_parked_le r ch f v o h res :
  hset r.(parked_h) f v o = (h, res) ->
  store_le r ch (set_parked_h r h) ch /\ (res = Ok () -> is_Some (h !! f)).
Proof.
  unfold hset. destruct o; simpl; intros [= <- <-];
    (split; [apply set_parked_insert_le || (rewrite set_parked_id; apply store_le_refl)|intros [=]]).
  by rewrite lookup_insert_eq.
Qed.

Lemma enqueue_le r ch p o r' res :
  enqueue r p o = (r', res) ->
  store_le r ch r' ch /\ r'.(bins_h) = r.(bins_h) /\ (res = Ok () -> mint_safe r' ch (field p)).
Proof.
  intros [Hr Hok]%enqueue_cases. split; [|split].
  - destruct Hr as [->| ->]; [apply store_le_refl|apply set_outbox_insert_le].
  - by destruct Hr as [->| ->].
  - intros Hres. rewrite (Hok Hres). left. simpl. by rewrite lookup_insert_eq.
Qed.

Lemma evict_le r ch k o r' res :
  bin_remove r [k] o = (r', res) ->
  store_le r ch r' ch /\
  forall bf, is_Some (r.(bins_h) !! bf) -> bf <> bin_field k -> is_Some (r'.(bins_h) !! bf).
Proof.
  unfold bin_remove, hdel. destruct o; simpl; intros [= <- <-];
    (split; [by split; [|split]|]); intros bf Hbf Hne; simpl; rewrite ?lookup_delete_ne by done; done.
Qed.

(** *** One task *)

Lemma task_step_ok r ch rel t r' ch' ts :
  task_ok r ch rel t -> task_step r ch t r' ch' ts ->
  store_le r ch r' ch' /\ Forall (task_ok r' ch' rel) ts /\
  (forall bf, is_Some (r.(bins_h) !! bf) -> is_Some (r'.(bins_h) !! bf) \/
     exists b, bin_ok b /\ bf = bin_field (key b) /\ (mint_safe r ch (mint_field b) \/ bf ∈ rel)).
Proof.
  intros Ht Hstep. destruct Hstep; simpl in Ht.
  - destruct (enqueue_le _ ch _ _ _ _ H) as (Hle & -> & Hs). destruct Ht as [Hb Hf].
    split; [done|]. split; [|auto]. apply List.Forall_cons; [|by repeat constructor].
    split; [done|]. simpl. rewrite <- Hf. auto.
  - destruct (enqueue_le _ ch _ _ _ _ H) as (Hle & -> & _). split; [done|]. by split; [apply List.Forall_cons|auto].
  - destruct (enqueue_le _ ch _ _ _ _ H) as (Hle & -> & Hs). destruct Ht as [Hb Hf].
    split; [done|]. split; [|auto]. apply List.Forall_cons; [|constructor].
    split; [done|]. simpl. rewrite <- Hf. auto.
  - destruct (enqueue_le _ ch _ _ _ _ H) as (Hle & -> & _). split; [done|]. by split; [apply List.Forall_cons|auto].
  - destruct Ht as [Hb Hf]. split; [apply chain_le|]. split; [|auto].
    apply List.Forall_cons; [|constructor]. split; [done|]. right; right. rewrite <- Hf. set_solver.
  - split; [apply store_le_refl|]. split; [|auto]. apply List.Forall_cons; [|constructor]. by split; [apply Ht|].
  - split; [apply chain_le|]. split; [|auto]. apply List.Forall_cons; [|constructor]. by split; [apply Ht|].
  - destruct (evict_le _ ch _ _ _ _ H0) as (Hle & Hb). split; [done|]. split; [constructor|].
    intros bf Hbf. destruct (decide (bf = bin_field (key b))) as [->|Hne]; [right|left; auto].
    destruct Ht as [Hok Hh]. exists b. split; [done|]. split; [done|]. destruct h; auto; done.
  - split; [apply store_le_refl|]. split; [constructor|auto].
  - split; [apply chain_le|]. split; [|auto]. apply List.Forall_cons; [|constructor]. simpl. set_solver.
  - split; [apply store_le_refl|]. split; [constructor|auto].
  - split; [apply chain_le|]. split; [constructor|auto].
  - split; [eapply hdel_outbox_le; eauto|]. split; [by apply List.Forall_cons|auto].
  - split; [eapply hdel_outbox_le; eauto|]. split; [constructor|auto].
  - split; [eapply hdel_parked_le; eauto|]. split; [constructor|auto].
  - destruct (hset_parked_le _ ch _ _ _ _ _ H) as [Hle Hp]. split; [done|]. split; [|auto].
    apply List.Forall_cons; [|constructor]. simpl. auto.
  - destruct (hset_parked_le _ ch _ _ _ _ _ H) as [Hle _]. split; [done|]. split; [constructor|auto].
  - split; [eapply hdel_outbox_le; eauto|]. split; [constructor|auto].
Qed.

(** The bin field determines the mint field. *)
Lemma bin_ok_field b b' :
  bin_ok b -> bin_ok b' -> bin_field (key b) = bin_field (key b') -> mint_field b = mint_field b'.
Proof.
  intros [Hs Hk] [Hs' Hk'] Hf. apply bin_field_inj in Hf; [|done..].
  unfold key in Hf. injection Hf as Hm Ht. unfold mint_field, window_start_ms. congruence.
Qed.

(** *** Every step *)

(** A step that only extends the task list, the released set and the tracked set. *)
Lemma sys_inv_extend s tr rel ts :
  sys_inv s -> Forall (task_ok s.(s_redis) s.(s_chain) rel) ts -> s.(s_released) ⊆ rel ->
  tr = s.(s_tracked) ->
  sys_inv {| s_redis := s.(s_redis); s_chain := s.(s_chain); s_tracked := tr;
             s_released := rel; s_tasks := ts ++ s.(s_tasks) |}.
Proof.
  intros [Htr Hta] Hts Hrel ->. constructor; simpl.
  - intros bf f Hin. destruct (Htr bf f Hin) as [Hb [?|[?|?]]]; (split; [done|]); set_solver.
  - apply Forall_app. split; [done|]. eapply Forall_impl; [|exact Hta].
    intros t. apply task_ok_mono; [apply store_le_refl|done].
Qed.

Lemma sys_inv_task s l1 t l2 r' ch' ts :
  sys_inv s -> s.(s_tasks) = l1 ++ t :: l2 ->
  task_step s.(s_redis) s.(s_chain) t r' ch' ts ->
  sys_inv {| s_redis := r'; s_chain := ch'; s_tracked := s.(s_tracked);
             s_released := s.(s_released); s_tasks := l1 ++ ts ++ l2 |}.
Proof.
  intros [Htr Hta] Hl Hstep. rewrite Hl in Hta.
  apply Forall_app in Hta as [H1 H2]. apply Forall_cons_1 in H2 as [Ht H2].
  destruct (task_step_ok _ _ _ _ _ _ _ Ht Hstep) as (Hle & Hts & Hbins).
  assert (Hmono : forall l, Forall (task_ok s.(s_redis) s.(s_chain) s.(s_released)) l ->
                            Forall (task_ok r' ch' s.(s_released)) l).
  { intros l Hf. eapply Forall_impl; [|exact Hf]. intros u. by apply task_ok_mono. }
  constructor; simpl.
  - intros bf f Hin. destruct (Htr bf f Hin) as [(b & Hb & Hbf & Hf) Hhome].
    split; [by exists b|]. destruct Hle as (_ & Hsafe & _).
    destruct Hhome as [Hin_b|[Hs|?]]; [|right; left; auto|auto].
    destruct (Hbins bf Hin_b) as [?|(b' & Hb' & Hbf' & Hhome)]; [auto|right].
    destruct Hhome as [Hs|?]; [left|auto]. apply Hsafe.
    rewrite Hf, (bin_ok_field b b'); [done..|congruence].
  - apply Forall_app. split; [auto|]. apply Forall_app. auto.
Qed.

Lemma sys_inv_write s b o :
  sys_inv s -> bin_ok b ->
  sys_inv {| s_redis := (bin_write s.(s_redis) b o).1; s_chain := s.(s_chain);
             s_tracked := if io_applies o then {[(bin_field (key b), mint_field b)]} ∪ s.(s_tracked)
                          else s.(s_tracked);
             s_released := s.(s_released); s_tasks := s.(s_tasks) |}.
Proof.
  intros [Htr Hta] Hb.
  assert (Hbins : (bin_write s.(s_redis) b o).1.(bins_h) =
    if io_applies o then <[bin_field (key b) := encode b]> s.(s_redis).(bins_h) else s.(s_redis).(bins_h))
    by (by destruct o).
  assert (Hsafe : forall f, mint_safe (bin_write s.(s_redis) b o).1 s.(s_chain) f <->
                            mint_safe s.(s_redis) s.(s_chain) f) by (by destruct o).
  constructor; cbn [s_redis s_chain s_tracked s_released s_tasks].
  - intros bf f Hin. rewrite Hbins, Hsafe. destruct (io_applies o); [|auto].
    apply elem_of_union in Hin as [[= -> ->]%elem_of_singleton|Hin].
    + split; [eauto|]. left. by rewrite lookup_insert_eq.
    + destruct (Htr bf f Hin) as [? [?|[?|?]]]; (split; [done|]); auto.
      left. rewrite lookup_insert. by case_decide.
  - eapply Forall_impl; [|exact Hta]. intros t. apply task_ok_mono; [|done]. by destruct o.
Qed.

Lemma sys_inv_step s s' : sys_inv s -> sys_step s s' -> sys_inv s'.
Proof.
  intros Hi Hstep. destruct Hstep.
  - by apply sys_inv_write.
  - apply (sys_inv_extend s _ _ [_]); auto. by apply List.Forall_cons.
  - apply (sys_inv_extend s _ _ [_]); auto; [|set_solver]. apply List.Forall_cons; [|constructor].
    split; [done|]. set_solver.
  - apply (sys_inv_extend s _ _ [_]); auto. by apply List.Forall_cons.
  - apply (sys_inv_extend s _ _ [_]); auto. by apply List.Forall_cons.
  - eapply sys_inv_task; eauto.
  - destruct Hi as [Htr _]. by constructor; simpl.
Qed.

Lemma sys_inv_init : sys_inv sys_init.
Proof. constructor; simpl; [set_solver|constructor]. Qed.


(** ** The code's runs are runs of the relation *)

Definition with_tasks (s : sys) (r : Redis) (ch : chain) (rel : gset string) (ts : list task) : sys :=
  {| s_redis := r; s_chain := ch; s_tracked := s.(s_tracked); s_released := rel; s_tasks := ts |}.

Lemma steps_front s0 s r ch rel t ts l r' ch' :
  steps sys_step s0 (with_tasks s r ch rel (t :: l)) -> task_step r ch t r' ch' ts ->
  steps sys_step s0 (with_tasks s r' ch' rel (ts ++ l)).
Proof.
  intros Hs Ht. eapply steps_next; [exact Hs|].
  apply (S_task (with_tasks s r ch rel (t :: l)) [] t l r' ch' ts); done.
Qed.

Lemma with_tasks_id s : with_tasks s s.(s_redis) s.(s_chain) s.(s_released) s.(s_tasks) = s.
Proof. by destruct s. Qed.

Lemma enqueue_result r p o : exists r', enqueue r p o = (r', io_result o).
Proof. unfold enqueue, hset. eauto. Qed.

Lemma io_result_cases o : io_result o = Ok () \/ exists e, io_result o = Err e.
Proof. unfold io_result. destruct (io_succeeds o); eauto. Qed.

Lemma hand_off_steps s0 s e r ch b p rel l r' h sp :
  e.(se_has_outbox) = true -> hand_off e r p = (r', h, sp) ->
  steps sys_step s0 (with_tasks s r ch rel (TEnqueue b p :: l)) ->
  exists ch' l', steps sys_step s0 (with_tasks s r' ch' rel (TEvict b h :: l')) /\ ch ⊆ ch' /\
    (h = MintedDirectly -> field p ∈ ch').
Proof.
  intros Ho Hh Hs. unfold hand_off in Hh. rewrite Ho in Hh.
  destruct (enqueue_result r p e.(se_enqueue1)) as [r1 E1]. rewrite E1 in Hh.
  destruct (io_result_cases e.(se_enqueue1)) as [H1|[e1 H1]]; rewrite H1 in *.
  { simplify_eq. eexists ch, _. split; [|done]. eapply (steps_front _ _ _ _ _ _ [_; _]); [exact Hs|].
    by econstructor. }
  assert (Hs1 := steps_front _ _ _ _ _ _ [_] _ _ _ Hs (L_enqueue_err _ ch b p _ _ _ E1)).
  destruct (enqueue_result r1 p e.(se_enqueue2)) as [r2 E2]. rewrite E2 in Hh.
  destruct (io_result_cases e.(se_enqueue2)) as [H2|[e2 H2]]; rewrite H2 in *.
  { simplify_eq. eexists ch, _. split; [|done]. eapply (steps_front _ _ _ _ _ _ [_]); [exact Hs1|].
    by econstructor. }
  assert (Hs2 := steps_front _ _ _ _ _ _ [_] _ _ _ Hs1 (L_retry_err _ ch b p _ _ _ E2)).
  destruct (at_confirmed _) in Hh; simplify_eq.
  - eexists _, _. split; [eapply (steps_front _ _ _ _ _ _ [_]); [exact Hs2|apply L_direct_ok]|].
    split; set_solver.
  - eexists ch, _. split; [|done]. eapply (steps_front _ _ _ _ _ _ [_]); [exact Hs2|apply L_direct_fail].
Qed.

Lemma evict_steps s0 s e r ch rel b h l :
  e.(se_has_store) = true -> steps sys_step s0 (with_tasks s r ch rel (TEvict b h :: l)) ->
  steps sys_step s0 (with_tasks s (evict_bin e r b h) ch rel l).
Proof.
  intros Hst Hs. unfold evict_bin. rewrite Hst, andb_true_r.
  destruct (bin_durably_settled h) eqn:Eh.
  - destruct (bin_remove r [key b] (se_evict e)) as [r' res] eqn:Er.
    apply (steps_front _ _ _ _ _ _ [] _ _ _ Hs). by eapply L_evict.
  - apply (steps_front _ _ _ _ _ _ [] _ _ _ Hs). by apply L_evict_kept.
Qed.

Lemma sweep_none_steps s e b d :
  bin_ok b -> e.(se_has_store) = true ->
  plan_mint b (is_enabled e.(se_gateway)) = Ok d ->
  match d with Surplus _ => owner_known e = false | _ => True end ->
  steps sys_step s (with_tasks s (evict_bin e s.(s_redis) b NotApplicable) s.(s_chain)
                      ({[bin_field (key b)]} ∪ s.(s_released)) s.(s_tasks)).
Proof.
  intros Hb Hst Hp Hd. apply (evict_steps s s e _ _ _ b NotApplicable); [done|].
  eapply steps_next; [constructor|]. by eapply S_sweep_none.
Qed.

Lemma hand_off_applicable e r p r' h sp : hand_off e r p = (r', h, sp) -> h <> NotApplicable.
Proof. unfold hand_off. repeat case_match; intros; simplify_eq; done. Qed.


Lemma park_steps s0 s r ch rel p l o1 o2 :
  steps sys_step s0 (with_tasks s r ch rel l) ->
  steps sys_step s0 (with_tasks s (park r p o1 o2).1 ch rel l).
Proof.
  intros Hs. assert (Hs1 : steps sys_step s0 (with_tasks s r ch rel (TPark p :: l))).
  { eapply steps_next; [exact Hs|]. apply (S_drain_park (with_tasks s r ch rel l)). }
  unfold park. destruct (hset _ _ _ o1) as [h res] eqn:E.
  assert (Hres : res = Ok () \/ exists e, res = Err e).
  { unfold hset in E. simplify_eq. apply io_result_cases. }
  destruct Hres as [->|[e ->]].
  - assert (Hs2 := steps_front _ _ _ _ _ _ [_] _ _ _ Hs1 (L_park_ok _ ch p _ _ E)).
    destruct (hdel (set_parked_h r h).(outbox_h) [field p] o2) as [h2 res2] eqn:E2. cbn [fst].
    apply (steps_front _ _ _ _ _ _ [] _ _ _ Hs2). by apply (L_park_del (set_parked_h r h) ch p o2 h2 res2).
  - cbn [fst]. apply (steps_front _ _ _ _ _ _ [] _ _ _ Hs1). by eapply L_park_err.
Qed.

Lemma remove_steps s0 s r ch rel f l o1 o2 :
  steps sys_step s0 (with_tasks s r ch rel l) ->
  steps sys_step s0 (with_tasks s (outbox_remove r f o1 o2).1 ({[f]} ∪ ch) rel l).
Proof.
  intros Hs. assert (Hs1 : steps sys_step s0 (with_tasks s r ({[f]} ∪ ch) rel (TRemove f :: l))).
  { eapply (steps_front _ _ _ _ _ _ [_]); [|apply L_attempt_ok].
    eapply steps_next; [exact Hs|]. apply (S_drain_attempt (with_tasks s r ch rel l)). }
  unfold outbox_remove. destruct (hdel _ _ o1) as [h res] eqn:E.
  assert (Hres : res = Ok () \/ exists e, res = Err e).
  { unfold hdel in E. simplify_eq. apply io_result_cases. }
  destruct Hres as [->|[e ->]]; cbn [fst].
  - assert (Hs2 := steps_front _ _ _ _ _ _ [_] _ _ _ Hs1 (L_remove_ok _ _ f _ _ E)).
    apply (steps_front _ _ _ _ _ _ [] _ _ _ Hs2).
    eapply (L_remove_parked (set_outbox_h r h) _ f o2). apply surjective_pairing.
  - apply (steps_front _ _ _ _ _ _ [] _ _ _ Hs1). by eapply L_remove_err.
Qed.

Lemma park_all_steps s0 s e ps r ch rel l :
  steps sys_step s0 (with_tasks s r ch rel l) ->
  steps sys_step s0 (with_tasks s (park_all e r ps) ch rel l).
Proof.
  unfold park_all. revert r. induction ps as [|p ps IH]; intros r Hs; [done|]. simpl.
  apply IH. by apply park_steps.
Qed.

Lemma remove_all_steps s0 s e fs r ch rel l :
  steps sys_step s0 (with_tasks s r ch rel l) ->
  exists ch', steps sys_step s0 (with_tasks s (remove_all e r fs) ch' rel l).
Proof.
  unfold remove_all. revert r ch. induction fs as [|f fs IH]; intros r ch Hs; [by exists ch|]. simpl.
  eapply IH. by apply remove_steps.
Qed.


(** A confirmed mint can stay listed as unresolved: when the drain decides to
    park an entry and the confirming [remove] runs first, the parked copy that
    [park] then writes is left behind. *)
Theorem park_after_remove_strays r p :
  let r1 := (outbox_remove r (field p) IoOk IoOk).1 in
  let r2 := (park r1 p IoOk IoOk).1 in
  r2.(outbox_h) !! field p = None /\ r2.(parked_h) !! field p = Some (encode p).
Proof.
  simpl. rewrite lookup_delete_eq, lookup_insert_eq. done.
Qed.

(** The outbox keeps one energy per (serial, window): when a window that is
    already queued is handed off again (a straggler re-formed its bin after a
    restart), the acknowledged enqueue replaces the queued energy by the new bin's
    alone. *)
Theorem reenqueue_replaces e r p q r' sp :
  field q = field p -> r.(outbox_h) !! field p = Some (encode p) ->
  hand_off e r q = (r', Enqueued, sp) -> r'.(outbox_h) !! field p = Some (encode q).
Proof.
  intros Hf _. unfold hand_off. destruct (se_has_outbox e); [|done].
  destruct (enqueue r q (se_enqueue1 e)) as [r1 res1] eqn:E1.
  destruct (enqueue r1 q (se_enqueue2 e)) as [r2 res2] eqn:E2.
  apply enqueue_cases in E1 as [_ H1], E2 as [_ H2].
  destruct res1 as [[]| |]; [intros [= <- <-]; rewrite H1 by done|..];
    [simpl; by rewrite <- Hf, lookup_insert_eq|..];
    (destruct res2 as [[]| |]; [intros [= <- <-]; rewrite H2 by done|..];
      [simpl; by rewrite <- Hf, lookup_insert_eq|..]; case_match; intros; simplify_eq).
Qed.
End Safety.

(** ** Witnesses *)

Section Witnesses.
#[local] Existing Instance chrono_ref.
#[local] Existing Instance decimal_ref.
#[local] Existing Instance uuid_ref.
#[local] Existing Instance uuid_ref_laws.
#[local] Existing Instance crypto_ref.
#[local] Existing Instance bin_codec_ref.
#[local] Existing Instance pending_codec_ref.

Definition serial_ref (_ : Uuid) : string := "M1".
Definition surplus_bin : BillingBin := sample_bin 7 0 5.

Lemma surplus_bin_ok : bin_ok serial_ref surplus_bin.
Proof. repeat split; vm_compute; reflexivity. Qed.

(** Redis loses the reply of the first enqueue and refuses the second, and the
    bridge times out: the worst answers the sweep can get. *)
Definition worst_env : sweep_env := {|
  se_gateway := gw0; se_owner := Ok (Some 1%N); se_truth := Ok None; se_now := 0;
  se_has_outbox := true; se_enqueue1 := IoErrLost; se_enqueue2 := IoErrLost;
  se_wallet := Ok (Some wallet0); se_round_trip := rt0 ReplyTimedOut; se_inflight := ∅;
  se_has_writeback := true; se_has_store := true; se_evict := IoOk; se_has_influx := false |}.

(** The store after the ingest write-through, a sweep that fails every way, and
    a crash. *)
Definition written : sys := {|
  s_redis := (bin_write {| bins_h := ∅; outbox_h := ∅; parked_h := ∅ |} surplus_bin IoOk).1;
  s_chain := ∅; s_tracked := {[(bin_field (key surplus_bin), mint_field surplus_bin)]} ∪ ∅;
  s_released := ∅; s_tasks := [] |}.

Lemma written_reachable : steps (sys_step serial_ref) sys_init written.
Proof.
  eapply steps_next; [constructor|].
  apply (S_write serial_ref sys_init surplus_bin IoOk surplus_bin_ok).
Qed.


Definition worst_result : sweep_result :=
  default {| sr_redis := written.(s_redis); sr_handoff := NotApplicable; sr_spawned := None;
             sr_point := None; sr_no_surplus := None |}
    (ok_of (settle_bin worst_env written.(s_redis) surplus_bin)).


Definition good_env : sweep_env := {|
  se_gateway := gw0; se_owner := Ok (Some 1%N); se_truth := Ok None; se_now := 0;
  se_has_outbox := true; se_enqueue1 := IoOk; se_enqueue2 := IoOk;
  se_wallet := Ok (Some wallet0); se_round_trip := rt0 ReplyTimedOut; se_inflight := ∅;
  se_has_writeback := true; se_has_store := true; se_evict := IoOk; se_has_influx := false |}.

Lemma reenqueue_replaces_witness :
  let p := sample_pending 10 0 in
  let q := sample_pending 1 60000 in
  let r := (enqueue {| bins_h := ∅; outbox_h := ∅; parked_h := ∅ |} p IoOk).1 in
  (hand_off good_env r q).1.1.(outbox_h) !! field p = Some (encode q).
Proof.
  intros p q r.
  apply (reenqueue_replaces good_env r p q (hand_off good_env r q).1.1 (Some q)); reflexivity.
Defined.
End Witnesses.
