(* ===== verification/DeviceKeys.v ===== *)
(** * Device keys and signatures (aggregator-persistence/src/infra/crypto.rs)

    The Ed25519 verifier and the AES key registry: both resolve a device's key
    through a TTL cache in front of Redis, over a connection that is rebuilt once
    after a transport error.  Redis answers, connection attempts and clock reads
    are arguments; instants and durations are nanoseconds. *)

From Stdlib Require Import ZArith Lia Ascii String SpecFloat.
From stdpp Require Import base gmap strings list numbers.
From S2P Require Import Prelude RustStd External.

Open Scope Z_scope.
Open Scope bridge_scope.

(** ** The TTL cache *)

Definition CACHE_PRUNE_INTERVAL : Z := 30 * NS_PER_SEC.

(** [CachedPubkey] / [CachedEncKey]: a present key or a remembered absence. *)
Record Cached (V : Type) : Type := { ck_key : option V; ck_expires : Z }.
Arguments ck_key {V}. Arguments ck_expires {V}.

Record PrunedCache (V : Type) : Type := {
  pc_map : gmap string (Cached V);
  pc_last_pruned : Z
}.
Arguments pc_map {V}. Arguments pc_last_pruned {V}.

Section Cache.
Context {V : Type}.

(** [now'] is the clock read inside [insert_pruned]. *)
Definition insert_pruned (c : PrunedCache V) (k : string) (v : Cached V) (expired : Cached V -> bool)
    (now' : Z) : PrunedCache V :=
  let c := if CACHE_PRUNE_INTERVAL <=? Z.max 0 (now' - c.(pc_last_pruned))
           then {| pc_map := filter (fun kv => expired kv.2 = false) c.(pc_map); pc_last_pruned := now' |}
           else c in
  {| pc_map := <[k := v]> c.(pc_map); pc_last_pruned := c.(pc_last_pruned) |}.

(** [pubkey_cache_get] / [key_cache_get]. *)
Definition cache_get (c : PrunedCache V) (id : string) (now : Z) : PrunedCache V * option (option V) :=
  match c.(pc_map) !! id with
  | Some e => if now <? e.(ck_expires) then (c, Some e.(ck_key))
              else ({| pc_map := delete id c.(pc_map); pc_last_pruned := c.(pc_last_pruned) |}, None)
  | None => (c, None)
  end.

(** [pubkey_cache_put] / [key_cache_put] with their two lifetimes. *)
Definition cache_put (pos_ttl neg_ttl : Z) (c : PrunedCache V) (id : string) (v : option V) (now now' : Z)
    : PrunedCache V :=
  let ttl := match v with Some _ => pos_ttl | None => neg_ttl end in
  insert_pruned c id {| ck_key := v; ck_expires := now + ttl |}
    (fun e => e.(ck_expires) <=? now) now'.
End Cache.

(** [ttl_env]: the override of a lifetime in seconds. *)
Definition ttl_env (var : option string) (default_secs : Z) : Z :=
  (match var ≫= fun v => parse_unsigned 64 (trim v) with Some n => n | None => default_secs end) * NS_PER_SEC.

Definition PUBKEY_POSITIVE_TTL_SECS : Z := 60.
Definition PUBKEY_NEGATIVE_TTL_SECS : Z := 10.
Definition ENCKEY_POSITIVE_TTL_SECS : Z := 300.
Definition ENCKEY_NEGATIVE_TTL_SECS : Z := 10.

(** ** The self-healing connection *)

Inductive key_error : Type :=
| NoRedis
| RedisDown
| KeyNotFound
| MalformedKey
| BadSignatureEncoding
| BadSignature
| MismatchedLengths
| NoVault
| UnwrapFailed.

Record link : Type := { lk_url : bool; lk_conn : bool }.

(** [connected]: whether a connection attempt would succeed. *)
Definition conn (l : link) (connected : bool) : link * outcome key_error unit :=
  if l.(lk_conn) then (l, Ok ())
  else if negb l.(lk_url) then (l, Err NoRedis)
  else if connected then ({| lk_url := l.(lk_url); lk_conn := true |}, Ok ())
  else (l, Err RedisDown).

Definition invalidate (l : link) : link :=
  if l.(lk_url) then {| lk_url := true; lk_conn := false |} else l.

(** What Redis does for one retried command: two connection attempts, two
    answers ([None] is a transport error). *)
Record redis_call (A : Type) : Type := {
  rc_connect1 : bool; rc_answer1 : option A;
  rc_connect2 : bool; rc_answer2 : option A
}.
Arguments rc_connect1 {A}. Arguments rc_answer1 {A}. Arguments rc_connect2 {A}. Arguments rc_answer2 {A}.

(** [get_with_retry] and [mget_with_retry]. *)
Definition with_retry {A : Type} (l : link) (c : redis_call A) : link * outcome key_error A :=
  match conn l c.(rc_connect1) with
  | (l1, Ok _) =>
      match c.(rc_answer1) with
      | Some a => (l1, Ok a)
      | None =>
          match conn (invalidate l1) c.(rc_connect2) with
          | (l2, Ok _) => (l2, ok_or c.(rc_answer2) RedisDown)
          | (l2, Err e) => (l2, Err e)
          | (l2, Panic) => (l2, Panic)
          end
      end
  | (l1, Err e) => (l1, Err e)
  | (l1, Panic) => (l1, Panic)
  end.

(** ** Parsing keys *)

Section Parse.
Context {K : Crypto}.

Definition parse_ed25519_pubkey (raw : string) : outcome key_error VerifyingKey :=
  let s := trim raw in
  let? bytes := if (String.length s =? 64)%nat then ok_or (hex_decode s) MalformedKey
                else Ok (bytes_of_string s) in
  if negb (length bytes =? 32)%nat then Err MalformedKey
  else ok_or (vk_from_bytes bytes) MalformedKey.

Definition decode_aes_key_hex (raw : string) : outcome key_error (list Z) :=
  let? bytes := ok_or (hex_decode (trim raw)) MalformedKey in
  if (length bytes =? 32)%nat then Ok bytes else Err MalformedKey.
End Parse.

(** ** Resolving one key: cache, then Redis *)

Section Resolve.
Context {V : Type} (parse_key : string -> outcome key_error V) (pos_ttl neg_ttl : Z).

Record registry : Type := { rg_link : link; rg_cache : PrunedCache V }.

(** Clock reads of one resolution: the cache lookup, the store, the prune. *)
Record clock : Type := { ck_get : Z; ck_put : Z; ck_prune : Z }.

(** [resolve_pubkey] / [get_device_aes_key]. *)
Definition resolve_key (g : registry) (id : string) (t : clock) (c : redis_call (option string))
    : registry * outcome key_error (option V) :=
  let '(cache, hit) := cache_get g.(rg_cache) id t.(ck_get) in
  match hit with
  | Some verdict => ({| rg_link := g.(rg_link); rg_cache := cache |}, Ok verdict)
  | None =>
      let '(l, res) := with_retry g.(rg_link) c in
      match (let? raw := res in
             match raw with
             | None => Ok None
             | Some s => let? v := parse_key s in Ok (Some v)
             end) with
      | Ok v => ({| rg_link := l; rg_cache := cache_put pos_ttl neg_ttl cache id v t.(ck_put) t.(ck_prune) |}, Ok v)
      | Err e => ({| rg_link := l; rg_cache := cache |}, Err e)
      | Panic => ({| rg_link := l; rg_cache := cache |}, Panic)
      end
  end.

(** The cache pass of a batch: verdicts, with the missed positions. *)
Fixpoint batch_lookup (c : PrunedCache V) (ids : list string) (now : Z)
    : PrunedCache V * list (option (option V)) :=
  match ids with
  | [] => (c, [])
  | id :: ids =>
      let '(c1, hit) := cache_get c id now in
      let '(c2, hits) := batch_lookup c1 ids now in
      (c2, hit :: hits)
  end.

(** The fill pass: the [MGET] answers go to the missed positions in order. *)
Fixpoint batch_fill (c : PrunedCache V) (ids : list string) (hits : list (option (option V)))
    (raw : list (option string)) (now now' : Z) : PrunedCache V * list (option V) :=
  match ids, hits with
  | id :: ids, Some v :: hits =>
      let '(c, out) := batch_fill c ids hits raw now now' in (c, v :: out)
  | id :: ids, None :: hits =>
      match raw with
      | [] => let '(c, out) := batch_fill c ids hits [] now now' in (c, None :: out)
      | slot :: raw =>
          let '(c, parsed) :=
            match slot with
            | Some s => match parse_key s with
                        | Ok v => (cache_put pos_ttl neg_ttl c id (Some v) now now', Some v)
                        | _ => (c, None)
                        end
            | None => (cache_put pos_ttl neg_ttl c id None now now', None)
            end in
          let '(c, out) := batch_fill c ids hits raw now now' in (c, parsed :: out)
      end
  | _, _ => (c, [])
  end.

Definition missed (ids : list string) (hits : list (option (option V))) : list string :=
  omap (fun ih => match ih.2 with None => Some ih.1 | Some _ => None end) (zip ids hits).

(** [get_device_aes_keys], and the key part of the batch verification. *)
Definition resolve_batch (g : registry) (ids : list string) (t : clock)
    (c : redis_call (list (option string))) : registry * outcome key_error (list (option V)) :=
  let '(cache, hits) := batch_lookup g.(rg_cache) ids t.(ck_get) in
  match missed ids hits with
  | [] => ({| rg_link := g.(rg_link); rg_cache := cache |}, Ok (default None <$> hits))
  | _ =>
      let '(l, res) := with_retry g.(rg_link) c in
      match res with
      | Ok raw => let '(cache, out) := batch_fill cache ids hits raw t.(ck_put) t.(ck_prune) in
                  ({| rg_link := l; rg_cache := cache |}, Ok out)
      | Err e => ({| rg_link := l; rg_cache := cache |}, Err e)
      | Panic => ({| rg_link := l; rg_cache := cache |}, Panic)
      end
  end.
End Resolve.
Arguments registry : clear implicits.
Arguments rg_link {V}. Arguments rg_cache {V}.

(** ** Signature verification *)

Section Verify.
Context {K : Crypto} (pos_ttl neg_ttl : Z).

Definition check_signature (vk : VerifyingKey) (payload : list Z) (signature_base58 : string)
    : outcome key_error bool :=
  let? sig := ok_or (bs58_decode signature_base58) BadSignatureEncoding in
  Ok ((length sig =? 64)%nat && ed25519_verify vk payload sig).

Definition verify_telemetry_signature (g : registry VerifyingKey) (id : string) (payload : list Z)
    (signature_base58 : string) (t : clock) (c : redis_call (option string))
    : registry VerifyingKey * outcome key_error bool :=
  let '(g, res) := resolve_key parse_ed25519_pubkey pos_ttl neg_ttl g id t c in
  (g, let? k := res in
      let? vk := ok_or k KeyNotFound in
      check_signature vk payload signature_base58).

Definition verify_telemetry_signature_batch (g : registry VerifyingKey) (ids : list string)
    (payloads signatures : list (list Z)) (t : clock) (c : redis_call (list (option string)))
    : registry VerifyingKey * outcome key_error (list bool) :=
  if negb (length ids =? length payloads)%nat || negb (length ids =? length signatures)%nat
  then (g, Err MismatchedLengths)
  else match ids with
  | [] => (g, Ok [])
  | _ =>
      let '(g, res) := resolve_batch parse_ed25519_pubkey pos_ttl neg_ttl g ids t c in
      (g, let? vks := res in
          Ok (zip_with (fun (vk : option VerifyingKey) (ps : list Z * list Z) =>
                match vk with Some k => ed25519_verify k ps.1 ps.2 | None => false end)
                vks (zip payloads signatures)))
  end.
End Verify.

(** ** Versioned keys and the replay counter *)

Section Versioned.
Context (vault_unwrap : option (string -> option (list Z))).

Definition versioned_cache : Type := gmap (string * Z) (list Z).

Definition get_device_aes_key_versioned (l : link) (vc : versioned_cache) (id : string) (kid : Z)
    (c : redis_call (option string)) : link * versioned_cache * outcome key_error (option (list Z)) :=
  match vc !! (id, kid) with
  | Some k => (l, vc, Ok (Some k))
  | None =>
      let '(l, res) := with_retry l c in
      match res with
      | Ok None => (l, vc, Ok None)
      | Ok (Some w) =>
          match vault_unwrap with
          | None => (l, vc, Err NoVault)
          | Some unwrap_key =>
              match unwrap_key (trim w) with
              | None => (l, vc, Err UnwrapFailed)
              | Some k => (l, <[(id, kid) := k]> vc, Ok (Some k))
              end
          end
      | Err e => (l, vc, Err e)
      | Panic => (l, vc, Panic)
      end
  end.
End Versioned.

(** Lua numbers, as Redis scripts see them: [tonumber] of a decimal text. *)
Class LuaNumber := {
  lua_num : Type;
  tonumber : Z -> lua_num;
  lua_ge : lua_num -> lua_num -> bool
}.

(** Conversion to a Lua number rounds monotonically. *)
Class LuaLaws `{LuaNumber} : Prop := {
  tonumber_mono a b : a <= b -> lua_ge (tonumber b) (tonumber a) = true
}.

Section Counter.
Context {L : LuaNumber}.

(** The script: compare, store, accept. *)
Definition ic_script (store : gmap string Z) (key : string) (counter : Z) : gmap string Z * Z :=
  match store !! key with
  | Some cur => if lua_ge (tonumber cur) (tonumber counter) then (store, 0)
                else (<[key := counter]> store, 1)
  | None => (<[key := counter]> store, 1)
  end.

Definition ic_key (id : string) : string := "gridtokenx:devices:" +:+ id +:+ ":ic".

Definition check_and_bump_counter (l : link) (connected reachable : bool) (store : gmap string Z)
    (id : string) (counter : Z) : gmap string Z * outcome key_error bool :=
  match conn l connected with
  | (_, Ok _) =>
      if reachable then let '(store, r) := ic_script store (ic_key id) counter in (store, Ok (r =? 1))
      else (store, Err RedisDown)
  | (_, Err e) => (store, Err e)
  | (_, Panic) => (store, Panic)
  end.
End Counter.
