(* ===== verification/DeviceKeysProps.v ===== *)
(** * Properties of device keys and signatures

    Verification fails closed, a cached verdict is never older than its lifetime,
    a batch verdict is the single verdict of each entry, and the replay counter
    accepts each meter's counters in strictly increasing order. *)

From Stdlib Require Import ZArith Lia Ascii String SpecFloat Sorted.
From stdpp Require Import base gmap strings list numbers.
From S2P Require Import Prelude RustStd External DeviceKeys.

Open Scope Z_scope.

(** ** The connection *)

Lemma with_retry_Ok {A} l (c : redis_call A) l' a :
  with_retry l c = (l', Ok a) -> c.(rc_answer1) = Some a \/ c.(rc_answer2) = Some a.
Proof.
  unfold with_retry. destruct (conn l _) as [l1 [[]| |]]; try done.
  destruct (rc_answer1 c); [intros [= <- <-]; auto|].
  destruct (conn (invalidate l1) _) as [l2 [[]| |]]; try done.
  destruct (rc_answer2 c); simpl; intros [= <- <-]; auto.
Qed.

(** A command survives one broken connection: with a URL to rebuild from, a
    transport error followed by a successful reconnect and answer yields the
    answer; without a URL, or when the reconnect fails, it is an error, never an
    "absent" answer. *)
Theorem reconnects_once {A} l (c : redis_call A) a :
  l.(lk_conn) = true -> c.(rc_answer1) = None -> c.(rc_answer2) = Some a ->
  (with_retry l c).2 =
    if l.(lk_url) then if c.(rc_connect2) then Ok a else Err RedisDown else Ok a.
Proof.
  intros Hc H1 H2. unfold with_retry, conn. rewrite Hc, H1. unfold invalidate.
  destruct (lk_url l); simpl; [destruct (rc_connect2 c); by rewrite ?H2|]. by rewrite Hc, H2.
Qed.

(** ** The cache *)

Section Cache.
Context {V : Type} (parse_key : string -> outcome key_error V) (pos_ttl neg_ttl : Z).

Definition verdict_ttl (v : option V) : Z := match v with Some _ => pos_ttl | None => neg_ttl end.

(** Every entry records a Redis answer of the log and expires one lifetime after
    it. *)
Definition cache_sound (log : list (Z * string * option V)) (c : PrunedCache V) : Prop :=
  forall id e, c.(pc_map) !! id = Some e ->
    exists t0, (t0, id, e.(ck_key)) ∈ log /\ e.(ck_expires) = t0 + verdict_ttl e.(ck_key).

Lemma cache_get_Some (c : PrunedCache V) id now c' v :
  cache_get c id now = (c', Some v) ->
  c' = c /\ exists e, c.(pc_map) !! id = Some e /\ e.(ck_key) = v /\ now < e.(ck_expires).
Proof.
  unfold cache_get. destruct (pc_map c !! id) as [e|]; [|done].
  destruct (now <? ck_expires e) eqn:E; [|done]. intros [= <- <-]. breflect. eauto.
Qed.

Lemma cache_get_sound log c id now c' hit :
  cache_sound log c -> cache_get c id now = (c', hit) -> cache_sound log c'.
Proof.
  intros Hs. unfold cache_get. destruct (pc_map c !! id) as [e|]; [|by intros [= <- <-]].
  destruct (now <? ck_expires e); [by intros [= <- <-]|]. intros [= <- <-] id' e'. simpl.
  rewrite lookup_delete_Some. intros [_ H]. eauto.
Qed.

Lemma cache_put_sound log c id v now now' :
  cache_sound log c -> cache_sound ((now, id, v) :: log) (cache_put pos_ttl neg_ttl c id v now now').
Proof.
  intros Hs id' e'. unfold cache_put, insert_pruned. simpl. rewrite lookup_insert. case_decide as Hid.
  - intros [= <-]. subst id'. exists now. simpl. split; [apply list_elem_of_here|]. by destruct v.
  - intros H. assert (Hin : pc_map c !! id' = Some e').
    { case_match; [|done]. simpl in H. by apply map_lookup_filter_Some in H as [? _]. }
    destruct (Hs _ _ Hin) as (t0 & Ht & He). exists t0. split; [by apply list_elem_of_further|done].
Qed.

(** What one resolution adds to the log. *)
Definition resolve_log (g : registry V) (id : string) (t : clock) (c : redis_call (option string))
    : list (Z * string * option V) :=
  match (cache_get g.(rg_cache) id t.(ck_get)).2, (resolve_key parse_key pos_ttl neg_ttl g id t c).2 with
  | None, Ok v => [(t.(ck_put), id, v)]
  | _, _ => []
  end.

Lemma resolve_key_spec g id t c g' res :
  resolve_key parse_key pos_ttl neg_ttl g id t c = (g', res) ->
  match (cache_get g.(rg_cache) id t.(ck_get)).2 with
  | Some v => res = Ok v
  | None =>
      match (with_retry g.(rg_link) c).2 with
      | Ok None => res = Ok None
      | Ok (Some raw) => match parse_key raw with
                         | Ok v => res = Ok (Some v)
                         | Err e => res = Err e
                         | Panic => res = Panic
                         end
      | Err e => res = Err e
      | Panic => res = Panic
      end
  end.
Proof.
  unfold resolve_key. destruct (cache_get _ _ _) as [c1 [v|]]; [by intros [= <- <-]|]. simpl.
  destruct (with_retry _ _) as [l [[raw|]|e|]]; simpl; try by intros [= <- <-].
  destruct (parse_key raw); simpl; by intros [= <- <-].
Qed.

Lemma resolve_key_sound log g id t c g' res :
  cache_sound log g.(rg_cache) -> resolve_key parse_key pos_ttl neg_ttl g id t c = (g', res) ->
  cache_sound (resolve_log g id t c ++ log) g'.(rg_cache).
Proof.
  intros Hs E. unfold resolve_log. rewrite E. simpl. revert E. unfold resolve_key.
  destruct (cache_get _ _ _) as [c1 hit] eqn:Eg. pose proof (cache_get_sound _ _ _ _ _ _ Hs Eg) as Hs1.
  simpl. destruct hit as [v|]; [by intros [= <- <-]|].
  destruct (with_retry _ _) as [l res']. destruct (obind _ _) as [v|e|]; intros [= <- <-]; simpl; try done.
  by apply cache_put_sound.
Qed.

(** A sequence of resolutions, with the log of Redis answers. *)
Fixpoint run_resolves (g : registry V) (log : list (Z * string * option V))
    (ops : list (string * clock * redis_call (option string))) : registry V * list (Z * string * option V) :=
  match ops with
  | [] => (g, log)
  | (id, t, c) :: ops =>
      run_resolves (resolve_key parse_key pos_ttl neg_ttl g id t c).1 (resolve_log g id t c ++ log) ops
  end.

Lemma run_resolves_sound ops g log :
  cache_sound log g.(rg_cache) ->
  cache_sound (run_resolves g log ops).2 (run_resolves g log ops).1.(rg_cache).
Proof.
  revert g log. induction ops as [|[[id t] c] ops IH]; intros g log Hs; [done|]. simpl. apply IH.
  eapply resolve_key_sound; [done|]. apply surjective_pairing.
Qed.

(** C39: the lifetime bounds revocation latency: after any history of lookups, a
    verdict answered for a device is either read from Redis by this very call, or
    it is one Redis gave at an earlier moment less than the verdict's lifetime
    ago. *)
Theorem verdict_age_bounded l ops id t c now0 v :
  let '(g, log) := run_resolves {| rg_link := l; rg_cache := {| pc_map := ∅; pc_last_pruned := now0 |} |} [] ops in
  (resolve_key parse_key pos_ttl neg_ttl g id t c).2 = Ok v ->
  (exists raw, (c.(rc_answer1) = Some raw \/ c.(rc_answer2) = Some raw) /\
     match raw with None => v = None | Some s => exists k, parse_key s = Ok k /\ v = Some k end) \/
  (exists t0, (t0, id, v) ∈ log /\ t.(ck_get) < t0 + verdict_ttl v).
Proof.
  pose proof (run_resolves_sound ops {| rg_link := l; rg_cache := {| pc_map := ∅; pc_last_pruned := now0 |} |} [])
    as Hs. destruct (run_resolves _ _ _) as [g log]. simpl in Hs.
  specialize (Hs ltac:(intros ? ? H; simpl in H; by rewrite lookup_empty in H)).
  destruct (resolve_key _ _ _ g id t c) as [g' res] eqn:E. simpl. intros ->.
  apply resolve_key_spec in E. destruct (cache_get _ _ _) as [c1 [v'|]] eqn:Eg; simpl in E.
  - injection E as <-. right. apply cache_get_Some in Eg as [_ (e & He & Hk & Hlt)].
    destruct (Hs _ _ He) as (t0 & Hin & Hexp). subst v. exists t0. split; [done|]. lia.
  - left. destruct (with_retry _ _) as [l' [raw|e|]] eqn:Er; simpl in E; try done.
    apply with_retry_Ok in Er. exists raw. split; [done|]. destruct raw as [s|]; [|by simplify_eq].
    destruct (parse_key s); simplify_eq. eauto.
Qed.

(** ** Batches *)

(** The verdict of one device, from the cache or from a Redis snapshot. *)
Definition key_of (c : PrunedCache V) (store : string -> option string) (now : Z) (id : string) : option V :=
  match (cache_get c id now).2 with
  | Some v => v
  | None => s ← store id; ok_of (parse_key s)
  end.

(** A lookup only drops its own expired entry, so it never changes another
    lookup at the same moment. *)
Lemma cache_get_stable (c : PrunedCache V) id id' now :
  (cache_get (cache_get c id now).1 id' now).2 = (cache_get c id' now).2.
Proof.
  unfold cache_get. destruct (pc_map c !! id) as [e|] eqn:E; [|done].
  destruct (now <? ck_expires e) eqn:El; [done|]. simpl.
  destruct (decide (id' = id)) as [->|Hne].
  - by rewrite lookup_delete_eq, E, El.
  - rewrite lookup_delete_ne by done.
    destruct (pc_map c !! id') as [e'|]; [destruct (now <? ck_expires e')|]; done.
Qed.

Lemma batch_lookup_hits (c : PrunedCache V) ids now :
  (batch_lookup c ids now).2 = (fun id => (cache_get c id now).2) <$> ids.
Proof.
  revert c. induction ids as [|id ids IH]; intros c; [done|]. simpl.
  destruct (cache_get c id now) as [c1 hit] eqn:E. specialize (IH c1).
  destruct (batch_lookup c1 ids now) as [c2 hits]. simpl in *. f_equal. rewrite IH.
  apply list_fmap_ext. intros i x _. pose proof (cache_get_stable c id x now) as H.
  by rewrite E in H.
Qed.

Lemma batch_fill_out (c : PrunedCache V) ids hits store now now' :
  length hits = length ids ->
  (batch_fill parse_key pos_ttl neg_ttl c ids hits (store <$> missed ids hits) now now').2 =
  zip_with (fun id (hit : option (option V)) =>
    match hit with Some v => v | None => s ← store id; ok_of (parse_key s) end) ids hits.
Proof.
  revert c hits. induction ids as [|id ids IH]; intros c [|hit hits] Hl; simpl in *; try done.
  injection Hl as Hl. unfold missed. simpl. fold (missed ids hits). destruct hit as [v|]; simpl.
  - specialize (IH c hits Hl). destruct (batch_fill _ _ _ c _ _ _ _ _). simpl in *. by rewrite IH.
  - destruct (store id) as [s|]; simpl; [destruct (parse_key s) as [v| |]; simpl|];
      match goal with |- context [batch_fill _ _ _ ?c' _ _ _ _ _] => specialize (IH c' hits Hl) end;
      destruct (batch_fill _ _ _ _ _ _ _ _ _); simpl in *; by rewrite IH.
Qed.

Lemma missed_nil_out ids hits (store : string -> option string) :
  length hits = length ids -> missed ids hits = [] ->
  default None <$> hits =
  zip_with (fun id (hit : option (option V)) =>
    match hit with Some v => v | None => s ← store id; ok_of (parse_key s) end) ids hits.
Proof.
  revert hits. induction ids as [|id ids IH]; intros [|hit hits] Hl Hm; simpl in *; try done.
  destruct hit as [v|]; [|done]. unfold missed in Hm. simpl in Hm. simpl. by rewrite IH by (done || lia).
Qed.

Lemma resolve_batch_spec g ids t c store g' out :
  (forall raw, (with_retry g.(rg_link) c).2 = Ok raw ->
     raw = store <$> missed ids ((batch_lookup g.(rg_cache) ids t.(ck_get)).2)) ->
  resolve_batch parse_key pos_ttl neg_ttl g ids t c = (g', Ok out) ->
  out = key_of g.(rg_cache) store t.(ck_get) <$> ids.
Proof.
  intros Hraw. unfold resolve_batch.
  destruct (batch_lookup _ _ _) as [c1 hits] eqn:Eb.
  assert (Hh : hits = (fun id => (cache_get g.(rg_cache) id t.(ck_get)).2) <$> ids)
    by (by rewrite <- batch_lookup_hits, Eb).
  assert (Hl : length hits = length ids) by (by rewrite Hh, length_fmap).
  assert (Hz : zip_with (fun id (hit : option (option V)) =>
    match hit with Some v => v | None => s ← store id; ok_of (parse_key s) end) ids hits
    = key_of g.(rg_cache) store t.(ck_get) <$> ids).
  { rewrite Hh. clear. induction ids as [|id ids IH]; [done|]. simpl. f_equal. apply IH. }
  rewrite <- Hz. destruct (missed ids hits) eqn:Em.
  - intros [= <- <-]. by apply missed_nil_out.
  - destruct (with_retry _ c) as [lk [raw|e|]]; simpl in *; try done.
    specialize (Hraw raw eq_refl). rewrite Hraw.
    pose proof (batch_fill_out c1 ids hits store t.(ck_put) t.(ck_prune) Hl) as Hf.
    destruct (batch_fill _ _ _ _ _ _ _ _ _) as [c2 o]. simpl in Hf. intros [= <- <-]. done.
Qed.
End Cache.

(** ** Signatures *)

Section Signatures.
Context {K : Crypto} (pos_ttl neg_ttl : Z).

(** C34: a telemetry signature is accepted only if 64 signature bytes verify under
    a key that is cached and unexpired for that device or was just read from Redis
    and parsed; when the key is not cached and Redis cannot be read, the result is
    that error and never a verdict, and an absent key is an error as well. *)
Theorem verification_fails_closed g id payload sig58 t c :
  let res := (verify_telemetry_signature pos_ttl neg_ttl g id payload sig58 t c).2 in
  (res = Ok true ->
   exists vk sig, bs58_decode sig58 = Some sig /\ length sig = 64%nat /\
     ed25519_verify vk payload sig = true /\
     ((exists e, g.(rg_cache).(pc_map) !! id = Some e /\ e.(ck_key) = Some vk /\ t.(ck_get) < e.(ck_expires)) \/
      (exists raw, (c.(rc_answer1) = Some (Some raw) \/ c.(rc_answer2) = Some (Some raw)) /\
         parse_ed25519_pubkey raw = Ok vk))) /\
  ((cache_get g.(rg_cache) id t.(ck_get)).2 = None ->
   forall e, (with_retry g.(rg_link) c).2 = Err e -> res = Err e) /\
  ((cache_get g.(rg_cache) id t.(ck_get)).2 = None ->
   (with_retry g.(rg_link) c).2 = Ok None -> res = Err KeyNotFound).
Proof.
  cbv zeta. unfold verify_telemetry_signature.
  destruct (resolve_key _ _ _ g id t c) as [g' res] eqn:E. apply resolve_key_spec in E.
  cbn [snd]. split; [|split].
  - intros H. destruct res as [[vk|]|e|]; cbn [obind ok_or] in H; try done.
    unfold check_signature in H. destruct (bs58_decode sig58) as [sig|] eqn:Es; cbn [obind ok_or] in H; [|done].
    injection H as H. breflect. exists vk, sig. do 3 (split; [done|]).
    destruct (cache_get _ _ _) as [c1 [v|]] eqn:Eg; cbn [snd] in E.
    + injection E as <-. left. by apply cache_get_Some in Eg as [_ He].
    + right. destruct (with_retry _ c) as [l [[raw|]|e|]] eqn:Er; cbn [snd] in E; try done.
      apply with_retry_Ok in Er. exists raw. split; [done|].
      destruct (parse_ed25519_pubkey raw); by simplify_eq.
  - intros Hn e He. rewrite Hn, He in E. by subst res.
  - intros Hn Ha. rewrite Hn, Ha in E. by subst res.
Qed.

(** The single verdict of one entry, as the batch reports it: an error (absent
    or malformed key) is a rejection. *)
Definition single_verdict (c : PrunedCache VerifyingKey) (store : string -> option string) (now : Z)
    (id : string) (payload sig : list Z) : bool :=
  match key_of parse_ed25519_pubkey c store now id with
  | Some vk => ed25519_verify vk payload sig
  | None => false
  end.

Lemma batch_verdicts g ids payloads sigs t c store g' out :
  (forall raw, (with_retry g.(rg_link) c).2 = Ok raw ->
     raw = store <$> missed ids ((batch_lookup g.(rg_cache) ids t.(ck_get)).2)) ->
  verify_telemetry_signature_batch pos_ttl neg_ttl g ids payloads sigs t c = (g', Ok out) ->
  out = zip_with (fun id ps => single_verdict g.(rg_cache) store t.(ck_get) id ps.1 ps.2) ids (zip payloads sigs).
Proof.
  intros Hraw. unfold verify_telemetry_signature_batch. destruct (_ || _); [done|]. intros H.
  destruct ids as [|id0 ids0]; [by simplify_eq/=|].
  destruct (resolve_batch _ _ _ g _ t c) as [g1 [vks| |]] eqn:Er; simpl in H; try done.
  injection H as <- <-. rewrite (resolve_batch_spec _ _ _ _ _ _ _ _ _ _ Hraw Er).
  generalize (id0 :: ids0). generalize (zip payloads sigs). clear. intros l l'. revert l.
  induction l' as [|id l' IH]; intros [|[p s] l]; simpl; try done. f_equal. apply IH.
Qed.

(** A batch verifies each entry exactly as a single verification against the
    same cache and Redis contents would, malformed and absent keys rejecting only
    their own entry; and a single verification accepts exactly those entries. *)
Theorem batch_is_pointwise g ids payloads sigs t c store g' out :
  (forall raw, (with_retry g.(rg_link) c).2 = Ok raw ->
     raw = store <$> missed ids ((batch_lookup g.(rg_cache) ids t.(ck_get)).2)) ->
  verify_telemetry_signature_batch pos_ttl neg_ttl g ids payloads sigs t c = (g', Ok out) ->
  out = zip_with (fun id ps => single_verdict g.(rg_cache) store t.(ck_get) id ps.1 ps.2) ids (zip payloads sigs) /\
  (forall id payload sig58 sig cs, bs58_decode sig58 = Some sig -> length sig = 64%nat ->
     (with_retry g.(rg_link) cs).2 = Ok (store id) ->
     single_verdict g.(rg_cache) store t.(ck_get) id payload sig = true <->
     (verify_telemetry_signature pos_ttl neg_ttl g id payload sig58 t cs).2 = Ok true).
Proof.
  intros Hraw H. split; [by eapply batch_verdicts|].
  - intros id payload sig58 sig cs Hb Hlen Hst. unfold verify_telemetry_signature, single_verdict.
    destruct (resolve_key _ _ _ g id t cs) as [g1 res] eqn:E. apply resolve_key_spec in E.
    rewrite Hst in E. cbn [snd]. unfold key_of.
    assert (Hchk : forall vk, ed25519_verify vk payload sig = true <-> check_signature vk payload sig58 = Ok true).
    { intros vk. unfold check_signature. rewrite Hb. cbn [ok_or obind]. rewrite Hlen. simpl.
      split; [by intros ->|congruence]. }
    destruct (cache_get _ _ _).2 as [[vk|]|].
    + subst res. apply Hchk.
    + by subst res.
    + destruct (store id) as [s|]; cbn [mbind option_bind]; [|by subst res].
      destruct (parse_ed25519_pubkey s); subst res; [apply Hchk|done..].
Qed.
End Signatures.

(** ** The replay counter *)

Section Counter.
Context {L : LuaNumber} {LL : LuaLaws}.

(** Frames of several meters submit their counters in turn; the log keeps the
    accepted ones, newest first. *)
Fixpoint run_counters (store : gmap string Z) (subs : list (string * Z)) (acc : list (string * Z))
    : gmap string Z * list (string * Z) :=
  match subs with
  | [] => (store, acc)
  | (id, n) :: subs =>
      let '(store', ok) := ic_script store (ic_key id) n in
      run_counters store' subs (if ok =? 1 then (id, n) :: acc else acc)
  end.

Definition accepted_of (id : string) (acc : list (string * Z)) : list Z :=
  snd <$> List.filter (fun a => String.eqb a.1 id) acc.

Lemma ic_key_inj a b : ic_key a = ic_key b -> a = b.
Proof.
  unfold ic_key. intros H. apply string_app_inj_l in H. revert b H.
  induction a as [|x a IH]; intros [|y b] H; [done|..].
  - destruct b as [|z [|w [|v b]]]; discriminate H.
  - destruct a as [|z [|w [|v a]]]; discriminate H.
  - change (String x (a +:+ ":ic") = String y (b +:+ ":ic")) in H. injection H as -> H.
    f_equal. by apply IH.
Qed.

Definition counters_inv (store : gmap string Z) (acc : list (string * Z)) : Prop :=
  forall id, StronglySorted Z.gt (accepted_of id acc) /\ store !! ic_key id = head (accepted_of id acc).

Lemma accepted_cons id n acc id' :
  accepted_of id' ((id, n) :: acc) = if String.eqb id id' then n :: accepted_of id' acc else accepted_of id' acc.
Proof. unfold accepted_of. simpl. by destruct (String.eqb id id'). Qed.

Lemma sorted_gt_cons n l :
  StronglySorted Z.gt l -> (forall m, head l = Some m -> n > m) -> StronglySorted Z.gt (n :: l).
Proof.
  intros Hs Hh. constructor; [done|]. destruct l as [|m l]; [constructor|].
  specialize (Hh m eq_refl). constructor; [done|]. apply StronglySorted_inv in Hs as [_ Hf].
  eapply List.Forall_impl; [|exact Hf]. simpl. intros; lia.
Qed.

Lemma counters_step store acc id n store' r :
  counters_inv store acc -> ic_script store (ic_key id) n = (store', r) ->
  counters_inv store' (if r =? 1 then (id, n) :: acc else acc).
Proof.
  intros Hi. unfold ic_script.
  assert (Hacc : (forall m, store !! ic_key id = Some m -> n > m) ->
    counters_inv (<[ic_key id := n]> store) ((id, n) :: acc)).
  { intros Hgt id'. rewrite accepted_cons. destruct (Hi id') as [Hs Hh].
    destruct (String.eqb_spec id id') as [<-|Hne].
    - split; [apply sorted_gt_cons; [done|]; rewrite <- Hh; done|]. by rewrite lookup_insert_eq.
    - split; [done|]. rewrite lookup_insert_ne; [done|]. by intros ?%ic_key_inj. }
  destruct (store !! ic_key id) as [cur|] eqn:Ec.
  - destruct (lua_ge _ _) eqn:El; intros [= <- <-]; [done|]. apply Hacc. intros m [= <-].
    apply Z.lt_gt, Z.nle_gt. intros Hle. apply tonumber_mono in Hle. congruence.
  - intros [= <- <-]. by apply Hacc.
Qed.

Lemma run_counters_inv subs store acc :
  counters_inv store acc -> counters_inv (run_counters store subs acc).1 (run_counters store subs acc).2.
Proof.
  revert store acc. induction subs as [|[id n] subs IH]; intros store acc Hi; [done|]. simpl.
  destruct (ic_script store (ic_key id) n) as [store' r] eqn:E. apply IH. by eapply counters_step.
Qed.

(** C35: the replay counter accepts, for every meter, strictly increasing counters
    only, in any order of submissions and although Redis compares them as Lua
    numbers: a replayed or reordered frame is never accepted. *)
Theorem counter_strictly_increases subs id :
  StronglySorted Z.gt (accepted_of id (run_counters ∅ subs []).2).
Proof.
  apply (run_counters_inv subs ∅ []). intros id'. split; [constructor|]. apply lookup_empty.
Qed.
End Counter.

(** ** Witnesses *)

Definition lua_ref : LuaNumber := {| lua_num := Z; tonumber z := z; lua_ge := Z.geb |}.

Lemma lua_ref_laws : @LuaLaws lua_ref.
Proof. constructor. intros a b H. cbn. by apply Z.geb_le. Qed.

(** Doubles, as Redis really uses. *)
Definition lua_f64 : LuaNumber :=
  {| lua_num := f64; tonumber := F64.of_Z; lua_ge a b := F64.leb b a |}.

(** Past 2^53 distinct counters can be equal as doubles: the larger one is then
    refused. *)
Lemma large_counter_refused :
  (@ic_script lua_f64 {[ic_key "M1" := 2 ^ 53]} (ic_key "M1") (2 ^ 53 + 1)).2 = 0 /\
  (@ic_script lua_f64 {[ic_key "M1" := 2 ^ 53]} (ic_key "M1") (2 ^ 53 + 2)).2 = 1.
Proof. vm_compute. split; reflexivity. Qed.

Section Witnesses.
#[local] Existing Instance crypto_ref.

Definition link0 : link := {| lk_url := true; lk_conn := true |}.
Definition raw_key : string := "0123456789abcdef0123456789abcdef".
Definition vk0 : list Z := bytes_of_string raw_key.
Definition payload0 : list Z := [1; 2; 3].
Definition sig0 : list Z := take 64 (vk0 ++ payload0 ++ replicate 64 0).
Definition reg0 : registry VerifyingKey :=
  {| rg_link := link0; rg_cache := {| pc_map := ∅; pc_last_pruned := 0 |} |}.
Definition clock0 (t : Z) : clock := {| ck_get := t; ck_put := t; ck_prune := t |}.
Definition call0 {A} (a : A) : redis_call A :=
  {| rc_connect1 := true; rc_answer1 := None; rc_connect2 := true; rc_answer2 := Some a |}.

Lemma reconnects_once_witness : (with_retry link0 (call0 (Some raw_key))).2 = Ok (Some raw_key).
Proof. apply (reconnects_once link0 (call0 (Some raw_key)) (Some raw_key)); reflexivity. Defined.

Definition history0 : list (string * clock * redis_call (option string)) :=
  [("M1"%string, clock0 5, call0 (Some raw_key))].

Lemma verdict_age_bounded_witness :
  let '(g, log) := run_resolves parse_ed25519_pubkey 60 10 reg0 [] history0 in
  exists t0, (t0, "M1"%string, Some vk0) ∈ log /\ 64 < t0 + 60.
Proof.
  pose proof (verdict_age_bounded parse_ed25519_pubkey 60 10 link0 history0 "M1" (clock0 64)
                (call0 None) 0 (Some vk0)) as H.
  change {| rg_link := link0; rg_cache := {| pc_map := ∅; pc_last_pruned := 0 |} |} with reg0 in H.
  assert (E : let '(g, _) := run_resolves parse_ed25519_pubkey 60 10 reg0 [] history0 in
    (resolve_key parse_ed25519_pubkey 60 10 g "M1" (clock0 64) (call0 None)).2 = Ok (Some vk0))
    by (vm_compute; reflexivity).
  destruct (run_resolves parse_ed25519_pubkey 60 10 reg0 [] history0) as [g log].
  destruct (H E) as [(raw & [Ha|Ha] & Hm)|Hr]; [discriminate Ha| |exact Hr].
  injection Ha as <-. discriminate Hm.
Defined.

Definition store0 (id : string) : option string := if String.eqb id "M1" then Some raw_key else None.

Lemma batch_is_pointwise_witness :
  (verify_telemetry_signature_batch 60 10 reg0 ["M1"; "M2"]%string [payload0; payload0] [sig0; sig0]
     (clock0 5) (call0 [Some raw_key; None])).2 = Ok [true; false] /\
  single_verdict reg0.(rg_cache) store0 5 "M1" payload0 sig0 = true.
Proof.
  assert (E : (verify_telemetry_signature_batch 60 10 reg0 ["M1"; "M2"]%string [payload0; payload0] [sig0; sig0]
     (clock0 5) (call0 [Some raw_key; None])).2 = Ok [true; false]) by (vm_compute; reflexivity).
  split; [exact E|].
  destruct (batch_is_pointwise 60 10 reg0 ["M1"; "M2"]%string [payload0; payload0] [sig0; sig0] (clock0 5)
    (call0 [Some raw_key; None]) store0
    (verify_telemetry_signature_batch 60 10 reg0 ["M1"; "M2"]%string [payload0; payload0] [sig0; sig0]
     (clock0 5) (call0 [Some raw_key; None])).1 [true; false]) as [H _].
  - intros raw Hr. vm_compute in Hr. injection Hr as <-. vm_compute. reflexivity.
  - rewrite <- E. apply surjective_pairing.
  - exact (eq_sym (f_equal (fun l => default false (head l)) H)).
Defined.

Lemma verification_fails_closed_witness :
  exists vk sig, bs58_decode (string_of_bytes sig0) = Some sig /\ length sig = 64%nat /\
     ed25519_verify vk payload0 sig = true.
Proof.
  destruct (proj1 (verification_fails_closed 60 10 reg0 "M1" payload0 (string_of_bytes sig0) (clock0 5)
    (call0 (Some raw_key)))) as (vk & sig & H1 & H2 & H3 & _).
  - vm_compute. reflexivity.
  - exists vk, sig. auto.
Defined.
End Witnesses.

Lemma counter_strictly_increases_witness :
  accepted_of "M1" (@run_counters lua_ref ∅ [("M1", 4); ("M2", 9); ("M1", 4); ("M1", 7); ("M1", 5)]%string []).2 = [7; 4] /\
  StronglySorted Z.gt [7; 4].
Proof.
  split; [vm_compute; reflexivity|].
  exact (@counter_strictly_increases lua_ref lua_ref_laws
           [("M1", 4); ("M2", 9); ("M1", 4); ("M1", 7); ("M1", 5)]%string "M1").
Defined.
