(* ===== verification/MeterRegistry.v ===== *)
(** * Meter ownership (aggregator-persistence/src/infra/meter_registry.rs)

    Serial to owner and wallet, through the local caches, Redis and Postgres, with
    a short negative cache for unknown serials.  The [world] is what the backends
    hold; its tables are indexed by the raw serial, canonicalization being part of
    the query. *)

From Stdlib Require Import ZArith Lia Ascii String SpecFloat.
From stdpp Require Import base gmap strings list numbers.
From S2P Require Import Prelude RustStd External Stores Mint.

Open Scope Z_scope.
Open Scope bridge_scope.

Definition METER_NEG_CACHE_TTL_SECS : Z := 30.

Definition neg_cache_ttl (var : option string) : Z :=
  (match var ≫= fun v => parse_unsigned 64 (trim v) with
   | Some n => n | None => METER_NEG_CACHE_TTL_SECS end) * NS_PER_SEC.

Record MeterRegistry : Type := {
  mr_redis : bool;
  mr_pg : bool;
  mr_use_read_model : bool;
  mr_local_cache : gmap string Uuid;
  mr_wallet_cache : gmap string string;
  mr_neg_cache : gmap string Z
}.

Definition set_local (g : MeterRegistry) (c : gmap string Uuid) : MeterRegistry :=
  {| mr_redis := g.(mr_redis); mr_pg := g.(mr_pg); mr_use_read_model := g.(mr_use_read_model);
     mr_local_cache := c; mr_wallet_cache := g.(mr_wallet_cache); mr_neg_cache := g.(mr_neg_cache) |}.
Definition set_wallet (g : MeterRegistry) (c : gmap string string) : MeterRegistry :=
  {| mr_redis := g.(mr_redis); mr_pg := g.(mr_pg); mr_use_read_model := g.(mr_use_read_model);
     mr_local_cache := g.(mr_local_cache); mr_wallet_cache := c; mr_neg_cache := g.(mr_neg_cache) |}.
Definition set_neg (g : MeterRegistry) (c : gmap string Z) : MeterRegistry :=
  {| mr_redis := g.(mr_redis); mr_pg := g.(mr_pg); mr_use_read_model := g.(mr_use_read_model);
     mr_local_cache := g.(mr_local_cache); mr_wallet_cache := g.(mr_wallet_cache); mr_neg_cache := c |}.

Record world : Type := {
  w_kv : gmap string string;
  w_read_model : string -> option (Uuid * option string);
  w_join : string -> option (Uuid * option string);
  w_meters : string -> option Uuid
}.

Definition set_kv (w : world) (kv : gmap string string) : world :=
  {| w_kv := kv; w_read_model := w.(w_read_model); w_join := w.(w_join); w_meters := w.(w_meters) |}.

(** Which backend calls succeed. *)
Record faults : Type := {
  f_get : bool;
  f_db : bool;
  f_set_user : io;
  f_set_wallet : io
}.

Definition user_key (serial : string) : string := "gridtokenx:meters:" +:+ serial +:+ ":user_id".
Definition wallet_key (serial : string) : string := "gridtokenx:meters:" +:+ serial +:+ ":wallet".

Definition nonblank (w : string) : bool := negb (is_empty (trim w)).

Definition filter_wallet (w : option string) : option string :=
  w ≫= fun w => if nonblank w then Some w else None.

(** ** The negative cache *)

Definition negatively_cached (g : MeterRegistry) (serial : string) (now : Z) : MeterRegistry * bool :=
  match g.(mr_neg_cache) !! serial with
  | Some exp => if now <? exp then (g, true) else (set_neg g (delete serial g.(mr_neg_cache)), false)
  | None => (g, false)
  end.

Definition cache_negative (ttl : Z) (g : MeterRegistry) (serial : string) (now : Z) : MeterRegistry :=
  set_neg g (<[serial := now + ttl]> (filter (fun kv => now < kv.2) g.(mr_neg_cache))).

Definition clear_negative (g : MeterRegistry) (serial : string) : MeterRegistry :=
  set_neg g (delete serial g.(mr_neg_cache)).

(** ** Lookups *)

Definition fetch_owner_from_db (g : MeterRegistry) (w : world) (ok : bool) (serial : string)
    : outcome lookup_error (option (Uuid * option string)) :=
  if negb g.(mr_pg) then Ok None
  else if ok then Ok (if g.(mr_use_read_model) then w.(w_read_model) serial else w.(w_join) serial)
  else Err LookupError.

Definition owner_in_source_of_truth (g : MeterRegistry) (w : world) (ok : bool) (serial : string)
    : outcome lookup_error (option Uuid) :=
  if negb g.(mr_pg) then Ok None
  else if negb g.(mr_use_read_model) then Ok None
  else if ok then Ok (w.(w_meters) serial) else Err LookupError.

Section Registry.
Context {U : UuidText} (neg_ttl : Z).

Definition kv_set (w : world) (k v : string) (o : io) : world :=
  set_kv w (if io_applies o then <[k := v]> w.(w_kv) else w.(w_kv)).

Definition backfill (g : MeterRegistry) (w : world) (f : faults) (serial : string) (uid : Uuid)
    (wallet : option string) : MeterRegistry * world :=
  let g := clear_negative g serial in
  let g := set_local g (<[serial := uid]> g.(mr_local_cache)) in
  let wal := filter_wallet wallet in
  let g := match wal with Some v => set_wallet g (<[serial := v]> g.(mr_wallet_cache)) | None => g end in
  let w := if g.(mr_redis) then
             let w := kv_set w (user_key serial) (uuid_show uid) f.(f_set_user) in
             match wal with Some v => kv_set w (wallet_key serial) v f.(f_set_wallet) | None => w end
           else w in
  (g, w).

(** The Redis tier: [Ok None] falls through to Postgres. *)
Definition redis_user (g : MeterRegistry) (w : world) (ok : bool) (serial : string)
    : outcome lookup_error (option Uuid) :=
  if g.(mr_redis) then
    if ok then Ok (w.(w_kv) !! user_key serial ≫= uuid_parse) else Err LookupError
  else Ok None.

(** [now'] is the clock when the miss is remembered. *)
Definition resolve_user_id (g : MeterRegistry) (w : world) (f : faults) (serial : string) (now now' : Z)
    : MeterRegistry * world * outcome lookup_error (option Uuid) :=
  match g.(mr_local_cache) !! serial with
  | Some uid => (g, w, Ok (Some uid))
  | None =>
      let '(g, neg) := negatively_cached g serial now in
      if neg then (g, w, Ok None)
      else match redis_user g w f.(f_get) serial with
      | Ok (Some uid) => (set_local g (<[serial := uid]> g.(mr_local_cache)), w, Ok (Some uid))
      | Ok None =>
          match fetch_owner_from_db g w f.(f_db) serial with
          | Ok (Some (uid, wallet)) =>
              let '(g, w) := backfill g w f serial uid wallet in (g, w, Ok (Some uid))
          | Ok None =>
              if negb g.(mr_redis) && negb g.(mr_pg) then (g, w, Ok (Some uuid_nil))
              else (cache_negative neg_ttl g serial now', w, Ok None)
          | Err e => (g, w, Err e)
          | Panic => (g, w, Panic)
          end
      | Err e => (g, w, Err e)
      | Panic => (g, w, Panic)
      end
  end.

Definition redis_wallet (g : MeterRegistry) (w : world) (ok : bool) (serial : string)
    : outcome lookup_error (option string) :=
  if g.(mr_redis) then
    if ok then Ok (filter_wallet (w.(w_kv) !! wallet_key serial)) else Err LookupError
  else Ok None.

Definition resolve_wallet (g : MeterRegistry) (w : world) (f : faults) (serial : string)
    : MeterRegistry * world * outcome lookup_error (option string) :=
  match g.(mr_wallet_cache) !! serial with
  | Some v => (g, w, Ok (Some v))
  | None =>
      match redis_wallet g w f.(f_get) serial with
      | Ok (Some v) => (set_wallet g (<[serial := v]> g.(mr_wallet_cache)), w, Ok (Some v))
      | Ok None =>
          match fetch_owner_from_db g w f.(f_db) serial with
          | Ok (Some (uid, db_wallet)) =>
              let '(g, w) := backfill g w f serial uid db_wallet in (g, w, Ok (filter_wallet db_wallet))
          | Ok None => (g, w, Ok None)
          | Err e => (g, w, Err e)
          | Panic => (g, w, Panic)
          end
      | Err e => (g, w, Err e)
      | Panic => (g, w, Panic)
      end
  end.

(** The Redis writes come first; their failure leaves the caches untouched. *)
Definition register_meter (g : MeterRegistry) (w : world) (f : faults) (serial : string) (uid : Uuid)
    (wallet : option string) : MeterRegistry * world * outcome lookup_error unit :=
  let wal := filter_wallet wallet in
  let '(w, res) :=
    if g.(mr_redis) then
      let w := kv_set w (user_key serial) (uuid_show uid) f.(f_set_user) in
      if io_succeeds f.(f_set_user) then
        match wal with
        | Some v => (kv_set w (wallet_key serial) v f.(f_set_wallet),
                     if io_succeeds f.(f_set_wallet) then Ok () else Err LookupError)
        | None => (w, Ok ())
        end
      else (w, Err LookupError)
    else (w, Ok ()) in
  match res with
  | Ok _ =>
      let g := set_local g (<[serial := uid]> g.(mr_local_cache)) in
      let g := match wal with Some v => set_wallet g (<[serial := v]> g.(mr_wallet_cache)) | None => g end in
      (clear_negative g serial, w, Ok ())
  | e => (g, w, e)
  end.

(** ** Claims *)

(** A successful registration takes effect at once: the next lookups of the
    serial give its owner, and its wallet when a non-blank one was given, whatever
    the backends answer and even if the serial was just remembered as unknown. *)
Theorem registration_resolves g w f serial uid wallet g' w' f' now now' :
  register_meter g w f serial uid wallet = (g', w', Ok ()) ->
  (resolve_user_id g' w' f' serial now now').2 = Ok (Some uid) /\
  (forall v, filter_wallet wallet = Some v -> (resolve_wallet g' w' f' serial).2 = Ok (Some v)).
Proof.
  unfold register_meter. destruct (if mr_redis g then _ else _) as [w1 [[]| |]]; try done.
  intros [= <- <-]. split.
  - unfold resolve_user_id. destruct (filter_wallet wallet); simpl; by rewrite lookup_insert_eq.
  - intros v Hv. unfold resolve_wallet. rewrite Hv. simpl. by rewrite lookup_insert_eq.
Qed.

(** An owner, once resolved, stays resolved without the backends: the same
    lookup later returns it for any backend contents and faults, at any time
    (unless no backend is configured, where the nil owner is recomputed). *)
Theorem resolution_sticks g w f serial now now' g' w' uid :
  resolve_user_id g w f serial now now' = (g', w', Ok (Some uid)) ->
  forall w2 f2 t t',
    (resolve_user_id g' w2 f2 serial t t').2 = Ok (Some uid) \/
    (g'.(mr_redis) = false /\ g'.(mr_pg) = false /\ uid = uuid_nil).
Proof.
  unfold resolve_user_id at 1. destruct (mr_local_cache g !! serial) as [u|] eqn:El.
  { intros [= <- <- <-] w2 f2 t t'. left. unfold resolve_user_id. by rewrite El. }
  destruct (negatively_cached g serial now) as [g1 []]; [done|].
  destruct (redis_user g1 w (f_get f) serial) as [[u|]| |]; try done.
  { intros [= <- <- <-] w2 f2 t t'. left. unfold resolve_user_id. simpl. by rewrite lookup_insert_eq. }
  destruct (fetch_owner_from_db g1 w (f_db f) serial) as [[[u wal]|]| |]; try done.
  { destruct (backfill g1 w f serial u wal) as [g2 w2'] eqn:Eb. intros [= <- <- <-] w2 f2 t t'. left.
    unfold backfill in Eb. unfold resolve_user_id.
    destruct (filter_wallet wal); simpl in Eb; injection Eb as <- _; simpl; by rewrite lookup_insert_eq. }
  destruct (mr_redis g1) eqn:Er, (mr_pg g1) eqn:Ep; simpl; try done.
  intros [= <- <- <-] w2 f2 t t'. auto.
Qed.

Lemma redis_user_None g w ok serial :
  redis_user g w ok serial = Ok None -> g.(mr_redis) = true -> w.(w_kv) !! user_key serial ≫= uuid_parse = None.
Proof. unfold redis_user. intros H Hr. rewrite Hr in H. destruct ok; by simplify_eq. Qed.

Lemma fetch_owner_None g w ok serial :
  fetch_owner_from_db g w ok serial = Ok None -> g.(mr_pg) = true ->
  (if g.(mr_use_read_model) then w.(w_read_model) serial else w.(w_join) serial) = None.
Proof. unfold fetch_owner_from_db. intros H Hp. rewrite Hp in H. destruct ok; by simplify_eq/=. Qed.

Lemma negatively_cached_spec g serial now g1 b :
  negatively_cached g serial now = (g1, b) ->
  (b = true -> exists exp, g.(mr_neg_cache) !! serial = Some exp /\ now < exp) /\
  g1.(mr_redis) = g.(mr_redis) /\ g1.(mr_pg) = g.(mr_pg) /\ g1.(mr_use_read_model) = g.(mr_use_read_model).
Proof.
  unfold negatively_cached. destruct (mr_neg_cache g !! serial) as [exp|]; [|by intros [= <- <-]].
  destruct (now <? exp) eqn:E; intros [= <- <-]; breflect; (split; [|done]); [eauto|done].
Qed.

(** An "unknown" answer is a real one: it means that just now neither Redis nor
    Postgres knew a (well-formed) owner, or that this was found out less than the
    negative lifetime ago. *)
Theorem unknown_is_recent g w f serial now now' g' w' :
  resolve_user_id g w f serial now now' = (g', w', Ok None) ->
  (exists exp, g.(mr_neg_cache) !! serial = Some exp /\ now < exp) \/
  ((g.(mr_redis) = true -> w.(w_kv) !! user_key serial ≫= uuid_parse = None) /\
   (g.(mr_pg) = true -> (if g.(mr_use_read_model) then w.(w_read_model) serial else w.(w_join) serial) = None) /\
   g'.(mr_neg_cache) !! serial = Some (now' + neg_ttl)).
Proof.
  unfold resolve_user_id. destruct (mr_local_cache g !! serial); [done|].
  destruct (negatively_cached g serial now) as [g1 b] eqn:En.
  apply negatively_cached_spec in En as (Hb & Hr & Hp & Hm).
  destruct b; [auto|]. rewrite <- Hr, <- Hp, <- Hm.
  destruct (redis_user g1 w (f_get f) serial) as [[u|]| |] eqn:Eu; try done.
  destruct (fetch_owner_from_db g1 w (f_db f) serial) as [[[u wal]|]| |] eqn:Ef; try done.
  destruct (_ && _); [done|]. intros [= <- <-]. right.
  split; [by eapply redis_user_None|]. split; [by eapply fetch_owner_None|]. simpl. apply lookup_insert_eq.
Qed.

(** A wallet is resolved once per process: after any successful wallet lookup,
    every later lookup of that serial gives the same wallet, whatever the registry
    holds by then. *)
Theorem wallet_never_refreshed g w f serial g' w' v :
  resolve_wallet g w f serial = (g', w', Ok (Some v)) ->
  forall w2 f2, (resolve_wallet g' w2 f2 serial).2 = Ok (Some v).
Proof.
  unfold resolve_wallet at 1. destruct (mr_wallet_cache g !! serial) as [u|] eqn:El.
  { intros [= <- <- <-] w2 f2. unfold resolve_wallet. by rewrite El. }
  destruct (redis_wallet g w (f_get f) serial) as [[u|]| |]; try done.
  { intros [= <- <- <-] w2 f2. unfold resolve_wallet. simpl. by rewrite lookup_insert_eq. }
  destruct (fetch_owner_from_db g w (f_db f) serial) as [[[u wal]|]| |]; try done.
  destruct (backfill g w f serial u wal) as [g2 w2'] eqn:Eb. intros [= <- <- Hv] w2 f2.
  unfold backfill in Eb. rewrite Hv in Eb. simpl in Eb. injection Eb as <- _.
  unfold resolve_wallet. simpl. by rewrite lookup_insert_eq.
Qed.
End Registry.

(** ** Witnesses *)

Section Witnesses.
#[local] Existing Instance uuid_ref.

(** The legacy shared database, with Redis. *)
Definition registry0 : MeterRegistry :=
  {| mr_redis := true; mr_pg := true; mr_use_read_model := false;
     mr_local_cache := ∅; mr_wallet_cache := ∅; mr_neg_cache := ∅ |}.

Definition world0 (owner : option (Uuid * option string)) : world :=
  {| w_kv := ∅; w_read_model _ := None; w_join _ := owner; w_meters _ := fst <$> owner |}.

Definition no_faults : faults := {| f_get := true; f_db := true; f_set_user := IoOk; f_set_wallet := IoOk |}.

Definition ttl0 : Z := neg_cache_ttl None.

Lemma registration_resolves_witness :
  let '(g, w, _) := register_meter (cache_negative ttl0 registry0 "M1" 0) (world0 None) no_faults "M1" 5%N (Some "wal"%string) in
  (resolve_user_id ttl0 g w no_faults "M1" 1 1).2 = Ok (Some 5%N).
Proof.
  destruct (register_meter (cache_negative ttl0 registry0 "M1" 0) (world0 None) no_faults "M1" 5%N (Some "wal"%string))
    as [[g w] r] eqn:E.
  refine (proj1 (registration_resolves ttl0 _ _ _ _ _ _ _ _ no_faults 1 1 _)).
  rewrite E. f_equal. vm_compute in E. injection E as _ _ <-. reflexivity.
Defined.

Lemma resolution_sticks_witness :
  exists g w, resolve_user_id ttl0 registry0 (world0 (Some (5%N, None))) no_faults "M1" 0 0 = (g, w, Ok (Some 5%N)) /\
    (resolve_user_id ttl0 g (world0 None) no_faults "M1" 9 9).2 = Ok (Some 5%N).
Proof.
  destruct (resolve_user_id ttl0 registry0 (world0 (Some (5%N, None))) no_faults "M1" 0 0) as [[g w] r] eqn:E.
  assert (Hr : r = Ok (Some 5%N) /\ g.(mr_redis) = true) by (vm_compute in E; injection E as <- _ <-; split; reflexivity).
  destruct Hr as [-> Hg]. exists g, w. split; [reflexivity|].
  destruct (resolution_sticks ttl0 _ _ _ _ _ _ _ _ _ E (world0 None) no_faults 9 9) as [H|[H _]]; [exact H|].
  rewrite Hg in H. discriminate H.
Defined.

(** A first lookup misses; the owner then registers in Postgres. *)
Definition after_miss : MeterRegistry :=
  (resolve_user_id ttl0 registry0 (world0 None) no_faults "M1" 0 0).1.1.

Lemma unknown_is_recent_witness :
  exists exp, after_miss.(mr_neg_cache) !! "M1"%string = Some exp /\ NS_PER_SEC < exp.
Proof.
  destruct (unknown_is_recent ttl0 after_miss (world0 (Some (5%N, None))) no_faults "M1" NS_PER_SEC NS_PER_SEC
              after_miss (world0 (Some (5%N, None)))) as [H|(_ & H & _)].
  - reflexivity.
  - exact H.
  - specialize (H eq_refl). discriminate H.
Defined.

Lemma wallet_never_refreshed_witness :
  exists g w, resolve_wallet registry0 (world0 (Some (5%N, Some "bad"%string))) no_faults "M1" = (g, w, Ok (Some "bad"%string)) /\
    (resolve_wallet g (world0 (Some (5%N, Some "good"%string))) no_faults "M1").2 = Ok (Some "bad"%string).
Proof.
  destruct (resolve_wallet registry0 (world0 (Some (5%N, Some "bad"%string))) no_faults "M1") as [[g w] r] eqn:E.
  assert (Hr : r = Ok (Some "bad"%string)) by (vm_compute in E; injection E as _ _ <-; reflexivity).
  subst r. exists g, w. split; [reflexivity|].
  exact (wallet_never_refreshed registry0 _ _ _ _ _ _ E (world0 (Some (5%N, Some "good"%string))) no_faults).
Defined.

(** On the shared database the owner gate of settlement can be wrong for up to
    the negative lifetime: a meter that was looked up once before it registered is
    still "unknown" a second later, and the authoritative check answers "unknown"
    without asking the database, although the database has the owner. *)
Theorem stale_miss_releases_surplus :
  let w := world0 (Some (5%N, Some "wal"%string)) in
  (resolve_user_id ttl0 after_miss w no_faults "M1" NS_PER_SEC NS_PER_SEC).2 = Ok None /\
  owner_in_source_of_truth after_miss w true "M1" = Ok None /\
  fetch_owner_from_db after_miss w true "M1" = Ok (Some (5%N, Some "wal"%string)).
Proof. vm_compute. repeat split. Qed.
End Witnesses.
