(* ===== verification/Dlms.v ===== *)
(** * The DLMS/COSEM stack (aggregator-stacks/src/stacks/dlms.rs)

    OBIS-coded telemetry to a device reading.  The payload is a [HashMap], so
    [map_payload] runs over its entries in an arbitrary order: a list here, with
    theorems for every permutation. *)

From Stdlib Require Import ZArith Lia Ascii String SpecFloat.
From stdpp Require Import base gmap strings list numbers.
From S2P Require Import Prelude RustStd External Models.

Open Scope Z_scope.
Open Scope bridge_scope.

(** ** OBIS codes *)

Module obis.
Definition ELEC_ACTIVE_IMPORT_TOTAL : string := "1.1.1.8.0.255".
Definition ELEC_ACTIVE_EXPORT_TOTAL : string := "1.1.2.8.0.255".
Definition ELEC_ACTIVE_IMPORT_RATE1 : string := "1.1.1.8.1.255".
Definition ELEC_ACTIVE_IMPORT_RATE2 : string := "1.1.1.8.2.255".
Definition ELEC_ACTIVE_EXPORT_RATE1 : string := "1.1.2.8.1.255".
Definition ELEC_ACTIVE_EXPORT_RATE2 : string := "1.1.2.8.2.255".
Definition ELEC_MAX_DEMAND_IMPORT : string := "1.1.1.6.0.255".
Definition ELEC_SUM_ACTIVE_POWER : string := "1.1.16.7.0.255".
Definition ELEC_REACTIVE_IMPORT_TOTAL : string := "1.1.3.8.0.255".
Definition ELEC_REACTIVE_EXPORT_TOTAL : string := "1.1.4.8.0.255".
Definition ELEC_VOLTAGE_L1 : string := "1.1.32.7.0.255".
Definition ELEC_VOLTAGE_L2 : string := "1.1.52.7.0.255".
Definition ELEC_VOLTAGE_L3 : string := "1.1.72.7.0.255".
Definition ELEC_CURRENT_L1 : string := "1.1.31.7.0.255".
Definition ELEC_CURRENT_L2 : string := "1.1.51.7.0.255".
Definition ELEC_CURRENT_L3 : string := "1.1.71.7.0.255".
Definition ELEC_TOTAL_ACTIVE_POWER : string := "1.1.1.7.0.255".
Definition ELEC_FREQUENCY : string := "1.1.14.7.0.255".
Definition ELEC_POWER_FACTOR : string := "1.1.13.7.0.255".
Definition GAS_VOLUME_TOTAL : string := "7.0.11.0.0.255".
Definition WATER_VOLUME_TOTAL : string := "8.0.11.0.0.255".
Definition DR_STATUS : string := "0.0.96.10.0.255".
Definition ACTIVE_TARIFF : string := "0.0.96.14.0.255".
Definition BATTERY_SOC : string := "0.0.96.130.0.255".
Definition BATTERY_DISPATCH : string := "0.0.96.131.0.255".
Definition EV_CHARGE_POWER : string := "0.0.96.132.0.255".
End obis.

Section Dlms.
Context {J : SerdeJson} {C : Chrono}.

Definition f64_or_zero (v : Value) : f64 := default F64.zero (as_f64 v).

Definition THOUSAND : f64 := F64.of_Z 1000.

Definition kilo (v : Value) : Value := value_of_f64 (F64.div (f64_or_zero v) THOUSAND).

(** The local variables of the loop. *)
Record map_state : Type := {
  ms_generated_wh : f64;
  ms_consumed_wh : f64;
  ms_metadata : gmap string Value;
  ms_plain_generated : option f64;
  ms_plain_consumed : option f64;
  ms_obis_generated : bool;
  ms_obis_consumed : bool
}.

Definition map_init : map_state :=
  {| ms_generated_wh := F64.zero; ms_consumed_wh := F64.zero; ms_metadata := ∅;
     ms_plain_generated := None; ms_plain_consumed := None;
     ms_obis_generated := false; ms_obis_consumed := false |}.

Definition put (m : map_state) (kvs : list (string * Value)) : map_state :=
  {| ms_generated_wh := m.(ms_generated_wh); ms_consumed_wh := m.(ms_consumed_wh);
     ms_metadata := fold_left (fun md kv => <[kv.1 := kv.2]> md) kvs m.(ms_metadata);
     ms_plain_generated := m.(ms_plain_generated); ms_plain_consumed := m.(ms_plain_consumed);
     ms_obis_generated := m.(ms_obis_generated); ms_obis_consumed := m.(ms_obis_consumed) |}.

(** What an entry's metadata is called: its name and value, per OBIS code. *)
Definition metadata_of (k : string) (v : Value) : list (string * Value) :=
  if String.eqb k obis.ELEC_ACTIVE_IMPORT_TOTAL then [("obis_active_import"%string, v)]
  else if String.eqb k obis.ELEC_ACTIVE_EXPORT_TOTAL then [("obis_active_export"%string, v)]
  else if String.eqb k obis.ELEC_ACTIVE_IMPORT_RATE1 then [("active_import_rate1_kwh"%string, kilo v)]
  else if String.eqb k obis.ELEC_ACTIVE_IMPORT_RATE2 then [("active_import_rate2_kwh"%string, kilo v)]
  else if String.eqb k obis.ELEC_ACTIVE_EXPORT_RATE1 then [("active_export_rate1_kwh"%string, kilo v)]
  else if String.eqb k obis.ELEC_ACTIVE_EXPORT_RATE2 then [("active_export_rate2_kwh"%string, kilo v)]
  else if String.eqb k obis.ELEC_MAX_DEMAND_IMPORT then [("max_demand_import_kw"%string, v)]
  else if String.eqb k obis.ELEC_SUM_ACTIVE_POWER then [("sum_active_power_kw"%string, v)]
  else if String.eqb k obis.ELEC_REACTIVE_IMPORT_TOTAL then [("reactive_energy_import_kvarh"%string, kilo v)]
  else if String.eqb k obis.ELEC_REACTIVE_EXPORT_TOTAL then [("reactive_energy_export_kvarh"%string, kilo v)]
  else if String.eqb k obis.ELEC_VOLTAGE_L1 then [("voltage_l1_v"%string, v); ("voltage_v"%string, v)]
  else if String.eqb k obis.ELEC_VOLTAGE_L2 then [("voltage_l2_v"%string, v)]
  else if String.eqb k obis.ELEC_VOLTAGE_L3 then [("voltage_l3_v"%string, v)]
  else if String.eqb k obis.ELEC_CURRENT_L1 then [("current_l1_a"%string, v); ("current_a"%string, v)]
  else if String.eqb k obis.ELEC_CURRENT_L2 then [("current_l2_a"%string, v)]
  else if String.eqb k obis.ELEC_CURRENT_L3 then [("current_l3_a"%string, v)]
  else if String.eqb k obis.ELEC_TOTAL_ACTIVE_POWER then [("total_active_power_w"%string, v)]
  else if String.eqb k obis.ELEC_FREQUENCY then [("frequency_hz"%string, v)]
  else if String.eqb k obis.ELEC_POWER_FACTOR then [("power_factor"%string, v)]
  else if String.eqb k obis.GAS_VOLUME_TOTAL then
    [("utility_type"%string, value_of_str "gas"); ("volume_m3"%string, v)]
  else if String.eqb k obis.WATER_VOLUME_TOTAL then
    [("utility_type"%string, value_of_str "water"); ("volume_m3"%string, v)]
  else if String.eqb k obis.DR_STATUS then [("demand_response_status"%string, v)]
  else if String.eqb k obis.ACTIVE_TARIFF then [("active_tariff"%string, v)]
  else if String.eqb k obis.BATTERY_SOC then [("battery_soc_percent"%string, v)]
  else if String.eqb k obis.BATTERY_DISPATCH then [("battery_dispatch_kw"%string, v)]
  else if String.eqb k obis.EV_CHARGE_POWER then [("ev_charging_kw"%string, v)]
  else [(k, v)].

(** The energy variables an entry assigns. *)
Definition energy_of (m : map_state) (k : string) (v : Value) : map_state :=
  if String.eqb k obis.ELEC_ACTIVE_IMPORT_TOTAL then
    {| ms_generated_wh := m.(ms_generated_wh); ms_consumed_wh := f64_or_zero v;
       ms_metadata := m.(ms_metadata); ms_plain_generated := m.(ms_plain_generated);
       ms_plain_consumed := m.(ms_plain_consumed); ms_obis_generated := m.(ms_obis_generated);
       ms_obis_consumed := true |}
  else if String.eqb k obis.ELEC_ACTIVE_EXPORT_TOTAL then
    {| ms_generated_wh := f64_or_zero v; ms_consumed_wh := m.(ms_consumed_wh);
       ms_metadata := m.(ms_metadata); ms_plain_generated := m.(ms_plain_generated);
       ms_plain_consumed := m.(ms_plain_consumed); ms_obis_generated := true;
       ms_obis_consumed := m.(ms_obis_consumed) |}
  else if String.eqb k "energy_generated" then
    {| ms_generated_wh := m.(ms_generated_wh); ms_consumed_wh := m.(ms_consumed_wh);
       ms_metadata := m.(ms_metadata); ms_plain_generated := as_f64 v;
       ms_plain_consumed := m.(ms_plain_consumed); ms_obis_generated := m.(ms_obis_generated);
       ms_obis_consumed := m.(ms_obis_consumed) |}
  else if String.eqb k "energy_consumed" then
    {| ms_generated_wh := m.(ms_generated_wh); ms_consumed_wh := m.(ms_consumed_wh);
       ms_metadata := m.(ms_metadata); ms_plain_generated := m.(ms_plain_generated);
       ms_plain_consumed := as_f64 v; ms_obis_generated := m.(ms_obis_generated);
       ms_obis_consumed := m.(ms_obis_consumed) |}
  else if String.eqb k obis.GAS_VOLUME_TOTAL || String.eqb k obis.WATER_VOLUME_TOTAL then
    {| ms_generated_wh := m.(ms_generated_wh); ms_consumed_wh := f64_or_zero v;
       ms_metadata := m.(ms_metadata); ms_plain_generated := m.(ms_plain_generated);
       ms_plain_consumed := m.(ms_plain_consumed); ms_obis_generated := m.(ms_obis_generated);
       ms_obis_consumed := m.(ms_obis_consumed) |}
  else m.

(** One arm of the [match key.as_str()]. *)
Definition map_entry (m : map_state) (kv : string * Value) : map_state :=
  put (energy_of m kv.1 kv.2) (metadata_of kv.1 kv.2).

Definition resolve_plain (obis_set : bool) (plain : option f64) (wh : f64) : f64 :=
  if obis_set then wh
  else match plain with Some kwh => F64.mul kwh THOUSAND | None => wh end.

Definition map_payload (entries : list (string * Value)) : f64 * f64 * gmap string Value :=
  let m := fold_left map_entry entries map_init in
  let generated_wh := resolve_plain m.(ms_obis_generated) m.(ms_plain_generated) m.(ms_generated_wh) in
  let consumed_wh := resolve_plain m.(ms_obis_consumed) m.(ms_plain_consumed) m.(ms_consumed_wh) in
  (F64.div generated_wh THOUSAND, F64.div consumed_wh THOUSAND, m.(ms_metadata)).

(** Lookup in the parsed map; keys are distinct. *)
Definition entry_get (k : string) (entries : list (string * Value)) : option Value :=
  snd <$> List.find (fun kv => String.eqb kv.1 k) entries.

Inductive stack_error : Type := ParseFailed.

(** A string code or a bare JSON number. *)
Definition zone_text (v : Value) : option string :=
  match as_str v with
  | Some s => Some s
  | None => show_Z <$> as_u64 v
  end.

(** [rid] is the fresh reading id, [now] the arrival time. *)
Definition handle_message (device_id : string) (raw_data : string) (rid : Uuid) (now : Z)
    : outcome stack_error (option DeviceReading) :=
  let? payload := ok_or (json_parse raw_data ≫= as_object) ParseFailed in
  let '(generated_kwh, consumed_kwh, md) := map_payload payload in
  let md := <["protocol_standard" := value_of_str "IEC 62056 (DLMS/COSEM)"]> md in
  let md := <["cosem_modeling" := value_of_str "active_attribute_proxy"]> md in
  let ts := default now ((entry_get "timestamp" payload ≫= as_str) ≫= dt_parse_rfc3339) in
  let zone := entry_get "zone_code" payload ≫= zone_text in
  Ok (Some {| reading_id := rid; device_id := device_id; device_type := SmartMeter;
              serial_number := device_id; zone_code := zone; timestamp := ts;
              metrics := Energy generated_kwh consumed_kwh (F64.sub generated_kwh consumed_kwh);
              metadata := md |}).
End Dlms.

(** ** Properties *)

Section Props.
Context {J : SerdeJson}.

(** The value under a key, for a list with distinct keys. *)
Lemma entry_get_snoc k l k' v :
  k' ∉ l.*1 -> entry_get k (l ++ [(k', v)]) = if String.eqb k' k then Some v else entry_get k l.
Proof.
  unfold entry_get. induction l as [|[k0 v0] l IH]; intros Hni; simpl.
  - by destruct (String.eqb k' k).
  - apply not_elem_of_cons in Hni as [Hne Hni]. specialize (IH Hni).
    destruct (String.eqb_spec k0 k) as [->|]; [|done]. simpl.
    destruct (String.eqb_spec k' k) as [->|]; [done|done].
Qed.

Lemma entry_get_elem k v l : NoDup l.*1 -> entry_get k l = Some v <-> (k, v) ∈ l.
Proof.
  unfold entry_get. induction l as [|[k0 v0] l IH]; simpl; intros Hnd; [set_solver|].
  apply list.NoDup_cons in Hnd as [Hni Hnd]. rewrite elem_of_cons.
  destruct (String.eqb_spec k0 k) as [->|Hne]; simpl.
  - split; [intros [= ->]; by left|]. intros [[= ->]|Hin]; [done|]. exfalso. apply Hni.
    apply list_elem_of_fmap. by exists (k, v).
  - rewrite (IH Hnd). split; [auto|]. intros [[= -> ->]|?]; done.
Qed.

Lemma entry_get_perm k l l' : NoDup l.*1 -> l ≡ₚ l' -> entry_get k l = entry_get k l'.
Proof.
  intros Hnd Hp. assert (Hnd' : NoDup l'.*1) by (by rewrite <- Hp).
  destruct (entry_get k l') as [v|] eqn:E.
  - apply entry_get_elem in E; [|done]. apply entry_get_elem; [done|]. by rewrite Hp.
  - destruct (entry_get k l) as [v|] eqn:E'; [|done]. apply entry_get_elem in E'; [|done].
    rewrite Hp in E'. apply entry_get_elem in E'; [|done]. congruence.
Qed.

Definition is_volume (k : string) : bool :=
  String.eqb k obis.GAS_VOLUME_TOTAL || String.eqb k obis.WATER_VOLUME_TOTAL.

(** What the loop's energy variables hold: a function of the contents only. *)
Record energy_inv (l : list (string * Value)) (m : map_state) : Prop := {
  ei_obis_gen : m.(ms_obis_generated) = is_someb (entry_get obis.ELEC_ACTIVE_EXPORT_TOTAL l);
  ei_obis_con : m.(ms_obis_consumed) = is_someb (entry_get obis.ELEC_ACTIVE_IMPORT_TOTAL l);
  ei_gen : m.(ms_generated_wh) =
    match entry_get obis.ELEC_ACTIVE_EXPORT_TOTAL l with Some v => f64_or_zero v | None => F64.zero end;
  ei_con : m.(ms_consumed_wh) =
    match entry_get obis.ELEC_ACTIVE_IMPORT_TOTAL l with Some v => f64_or_zero v | None => F64.zero end;
  ei_plain_gen : m.(ms_plain_generated) = entry_get "energy_generated" l ≫= as_f64;
  ei_plain_con : m.(ms_plain_consumed) = entry_get "energy_consumed" l ≫= as_f64
}.

Lemma energy_put l m kvs : energy_inv l m -> energy_inv l (put m kvs).
Proof. by intros []. Qed.

Lemma energy_inv_step l m k v :
  k ∉ l.*1 -> is_volume k = false -> energy_inv l m -> energy_inv (l ++ [(k, v)]) (map_entry m (k, v)).
Proof.
  intros Hni Hvol []. apply energy_put. unfold energy_of. simpl.
  destruct (String.eqb_spec k obis.ELEC_ACTIVE_IMPORT_TOTAL) as [->|H1].
  { constructor; simpl; rewrite entry_get_snoc by done; done. }
  destruct (String.eqb_spec k obis.ELEC_ACTIVE_EXPORT_TOTAL) as [->|H2].
  { constructor; simpl; rewrite entry_get_snoc by done; done. }
  destruct (String.eqb_spec k "energy_generated") as [->|H3].
  { constructor; simpl; rewrite entry_get_snoc by done; done. }
  destruct (String.eqb_spec k "energy_consumed") as [->|H4].
  { constructor; simpl; rewrite entry_get_snoc by done; done. }
  unfold is_volume in Hvol. rewrite Hvol.
  apply String.eqb_neq in H1, H2, H3, H4.
  constructor; rewrite entry_get_snoc by done; rewrite ?H1, ?H2, ?H3, ?H4; done.
Qed.

Lemma energy_inv_fold l :
  NoDup l.*1 -> forallb (fun kv => negb (is_volume kv.1)) l = true ->
  energy_inv l (fold_left map_entry l map_init).
Proof.
  induction l as [|[k v] l IH] using rev_ind; intros Hnd Hvol; [by constructor|].
  rewrite fmap_app in Hnd. apply list.NoDup_app in Hnd as (Hnd & Hdisj & _).
  rewrite forallb_app in Hvol. apply andb_true_iff in Hvol as [Hvol Hk]. simpl in Hk.
  rewrite andb_true_r in Hk. apply negb_true_iff in Hk.
  rewrite fold_left_app. simpl. apply energy_inv_step; auto.
  intros Hin. apply (Hdisj k Hin). apply list_elem_of_here.
Qed.

(** The energy of a payload, by contents. *)
Definition energy_spec (obis_key plain_key : string) (l : list (string * Value)) : f64 :=
  F64.div
    (match entry_get obis_key l with
     | Some v => f64_or_zero v
     | None => match entry_get plain_key l ≫= as_f64 with
               | Some kwh => F64.mul kwh THOUSAND
               | None => F64.zero
               end
     end) THOUSAND.

(** For a payload without gas or water volumes, the decoded energies do not
    depend on the hash map's iteration order: whatever the order of the (distinct)
    entries, generation is the OBIS export register in kWh if present and the plain
    [energy_generated] otherwise, and consumption likewise from the import
    register and [energy_consumed]. *)
Theorem energy_order_independent l l' :
  NoDup l.*1 -> forallb (fun kv => negb (is_volume kv.1)) l = true -> l ≡ₚ l' ->
  (map_payload l').1 =
    (energy_spec obis.ELEC_ACTIVE_EXPORT_TOTAL "energy_generated" l',
     energy_spec obis.ELEC_ACTIVE_IMPORT_TOTAL "energy_consumed" l') /\
  (map_payload l').1 = (map_payload l).1.
Proof.
  intros Hnd Hvol Hp.
  assert (Hnd' : NoDup l'.*1) by (by rewrite <- Hp).
  assert (Hvol' : forallb (fun kv => negb (is_volume kv.1)) l' = true).
  { rewrite forallb_forall in *. intros x Hx. apply Hvol. rewrite <- list_elem_of_In in *. by rewrite Hp. }
  assert (Hspec : forall x, NoDup x.*1 -> forallb (fun kv => negb (is_volume kv.1)) x = true ->
    (map_payload x).1 = (energy_spec obis.ELEC_ACTIVE_EXPORT_TOTAL "energy_generated" x,
                         energy_spec obis.ELEC_ACTIVE_IMPORT_TOTAL "energy_consumed" x)).
  { intros x Hx Hv. destruct (energy_inv_fold x Hx Hv). unfold map_payload, energy_spec. simpl.
    rewrite ei_obis_gen0, ei_obis_con0, ei_gen0, ei_con0, ei_plain_gen0, ei_plain_con0.
    unfold resolve_plain.
    destruct (entry_get obis.ELEC_ACTIVE_EXPORT_TOTAL x), (entry_get obis.ELEC_ACTIVE_IMPORT_TOTAL x);
      reflexivity. }
  split; [by apply Hspec|]. rewrite !Hspec by done.
  assert (Hget : forall k, entry_get k l' = entry_get k l).
  { intros k. symmetry. by apply entry_get_perm. }
  unfold energy_spec. by rewrite !Hget.
Qed.
End Props.

(** ** Witnesses *)

Section Witnesses.
#[local] Existing Instance json_ref.

Definition sample_payload : list (string * Value) :=
  [ (obis.ELEC_ACTIVE_IMPORT_TOTAL, JInt 1500); ("energy_consumed"%string, JInt 7);
    ("energy_generated"%string, JInt 2); ("kwh"%string, JInt 9) ].

Lemma energy_order_independent_witness :
  (map_payload (rev sample_payload)).1 = (map_payload sample_payload).1 /\
  (map_payload sample_payload).1 = (F64.of_Z 2, F64.of_decimal 15 1).
Proof.
  split; [|vm_compute; reflexivity].
  apply (energy_order_independent sample_payload (rev sample_payload)).
  - apply (bool_decide_unpack _). vm_compute. exact I.
  - vm_compute. reflexivity.
  - apply Permutation_rev.
Defined.

(** A gas volume and an import register in one payload: the last one visited
    wins. *)
Definition mixed_payload : list (string * Value) :=
  [ (obis.ELEC_ACTIVE_IMPORT_TOTAL, JInt 1000); (obis.GAS_VOLUME_TOTAL, JInt 5000) ].

(** With a gas volume next to the import register the decoded consumption
    depends on the hash map's iteration order. *)
Theorem volume_order_dependent :
  (map_payload mixed_payload).1.2 = F64.of_Z 5 /\ (map_payload (rev mixed_payload)).1.2 = F64.of_Z 1.
Proof. vm_compute. split; reflexivity. Qed.
End Witnesses.
