(* ===== verification/Handlers.v ===== *)
(** * REST ingestion (aggregator-api/src/handlers.rs)

    The security gates of the REST paths: secure mode, signature enforcement, the
    simulator bypass, the encrypted [dlms-enc] envelope with its replay counter,
    and the three ingest handlers.  The signature verifier and the key lookups are
    arguments (their code is modelled in DeviceKeys); a handler returns the
    rejection status or the reading it hands to dissemination. *)

From Stdlib Require Import ZArith Lia Ascii String SpecFloat.
From stdpp Require Import base gmap strings list numbers.
From S2P Require Import Prelude RustStd External Models DeviceKeys Dlms.

Open Scope Z_scope.
Open Scope bridge_scope.

(** The environment variables the gates read. *)
Record config : Type := {
  env_require_secure : option string;
  env_allow_unverified : option string
}.

Definition env_is_true (v : option string) : bool := String.eqb (default EmptyString v) "true".

Definition secure_mode_enabled (c : config) : bool := env_is_true c.(env_require_secure).

Definition signature_enforcement_disabled (c : config) : bool :=
  negb (secure_mode_enabled c) && env_is_true c.(env_allow_unverified).

Definition simulator_bypass_allowed (c : config) : bool := negb (secure_mode_enabled c).

Definition resolve_protocol (raw : string) : string :=
  let p := to_lowercase raw in
  if is_empty p || String.eqb p "auto" then "dlms"%string else p.

Definition is_supported_protocol (resolved : string) : bool :=
  String.eqb resolved "dlms" || String.eqb resolved "simulator".

Inductive StatusCode : Type :=
| OK
| ACCEPTED
| BAD_REQUEST
| UNAUTHORIZED
| FORBIDDEN
| CONFLICT
| UPGRADE_REQUIRED
| INTERNAL_SERVER_ERROR.

Definition secure_mode_gate (secure_mode was_encrypted : bool) : option StatusCode :=
  if secure_mode && negb was_encrypted then Some UPGRADE_REQUIRED else None.

Definition sig_failure_status (verified : outcome key_error bool) (enforcement_disabled : bool)
    : option StatusCode :=
  if enforcement_disabled then None
  else match verified with
       | Ok true => None
       | Ok false => Some FORBIDDEN
       | _ => Some UNAUTHORIZED
       end.

Section Handlers.
Context {J : SerdeJson} {K : Crypto} {C : Chrono} {FT : F64Text} {L : LuaNumber}.

(** ** Sign targets *)

Definition sign_num (payload : Value) (k : string) : option f64 :=
  v ← jget k payload;
  match as_f64 v with
  | Some x => Some x
  | None => as_str v ≫= f64_parse
  end.

(** [Option::or_else]. *)
Definition or_else {A : Type} (a b : option A) : option A :=
  match a with Some x => Some x | None => b end.

Definition canonical_sign_value (payload : Value) : string :=
  let wh k := (fun wh => F64.div wh THOUSAND) <$> sign_num payload k in
  f64_show (default F64.zero
    (or_else (sign_num payload "kwh")
    (or_else (sign_num payload "energy_consumed")
    (or_else (sign_num payload "energy_generated")
    (or_else (wh obis.ELEC_ACTIVE_IMPORT_TOTAL) (wh obis.ELEC_ACTIVE_EXPORT_TOTAL)))))).

Definition sign_target (device_id kwh : string) (ts : Z) : list Z :=
  bytes_of_string (device_id +:+ ":" +:+ kwh +:+ ":" +:+ show_Z ts).

(** The integer division truncates towards zero. *)
Definition rest_sign_candidates (device_id kwh : string) (timestamp_ms : Z) (payload : Value)
    : list (list Z) :=
  [sign_target device_id kwh timestamp_ms; sign_target device_id kwh (Z.quot timestamp_ms 1000)] ++
  match as_object payload with
  | Some entries =>
      [bytes_of_string (json_print (value_of_object
         (List.filter (fun kv => negb (String.eqb kv.1 "signature")) entries)))]
  | None => []
  end.

Section Verify.
Context (verify : string -> list Z -> string -> outcome key_error bool).

Fixpoint try_candidates (device_id signature : string) (cs : list (list Z)) : outcome key_error bool :=
  match cs with
  | [] => Ok false
  | c :: cs =>
      match verify device_id c signature with
      | Ok true => Ok true
      | Ok false => try_candidates device_id signature cs
      | Err e => Err e
      | Panic => Panic
      end
  end.

Definition verify_rest_signature (device_id : string) (payload : Value) (signature kwh : string)
    (timestamp_ms : Z) : outcome key_error bool :=
  try_candidates device_id signature (rest_sign_candidates device_id kwh timestamp_ms payload).

(** ** The encrypted envelope *)

Inductive DecryptOutcome : Type :=
| DecOk (v : Value)
| DecReplay
| DecBad.

Record decrypt_env : Type := {
  dv_legacy_key : string -> outcome key_error (option (list Z));
  dv_versioned_key : string -> Z -> outcome key_error (option (list Z));
  dv_link : link;
  dv_connected : bool;
  dv_reachable : bool
}.

Definition envelope_aad (device_id : string) (counter : Z) : list Z :=
  bytes_of_string (device_id +:+ ":" +:+ show_Z counter).

Definition decrypt_dlms_envelope (e : decrypt_env) (store : gmap string Z) (device_id : string)
    (payload : Value) : gmap string Z * DecryptOutcome :=
  match (enc ← jget "enc" payload; counter ← jget "counter" enc ≫= as_i64; Some (enc, counter)) with
  | None => (store, DecBad)
  | Some (enc, counter) =>
      let kid := jget "kid" enc ≫= as_i64 in
      let nonce_b64 := default EmptyString (jget "nonce" enc ≫= as_str) in
      let ct_b64 := default EmptyString (jget "ciphertext" enc ≫= as_str) in
      match (n ← base64_decode nonce_b64; if (length n =? 12)%nat then Some n else None),
            base64_decode ct_b64 with
      | Some nonce, Some ct =>
          match (match kid with
                 | Some v => e.(dv_versioned_key) device_id v
                 | None => e.(dv_legacy_key) device_id
                 end) with
          | Ok (Some key) =>
              match gcm_decrypt key nonce (envelope_aad device_id counter) ct with
              | None => (store, DecBad)
              | Some plaintext =>
                  match check_and_bump_counter e.(dv_link) e.(dv_connected) e.(dv_reachable) store
                          device_id counter with
                  | (store, Ok true) =>
                      (store, match json_parse (string_of_bytes plaintext) with
                              | Some v => DecOk v
                              | None => DecBad
                              end)
                  | (store, Ok false) => (store, DecReplay)
                  | (store, _) => (store, DecBad)
                  end
              end
          | _ => (store, DecBad)
          end
      | _, _ => (store, DecBad)
      end
  end.

(** ** Single frames *)

Record PrivateNetworkPayload : Type := {
  pn_protocol : string;
  pn_device_id : string;
  pn_payload : Value
}.

Inductive ingest_result : Type :=
| Rejected (code : StatusCode)
| NoReading
| Disseminate (r : DeviceReading) (verified : bool).

(** The [kwh] shown for the simulator path: numbers or numeric text. *)
Definition declared_kwh (v : Value) : f64 :=
  default F64.zero
    (or_else (sign_num v "kwh")
    (or_else (jget "energy_consumed" v ≫= as_f64) (jget "energy_generated" v ≫= as_f64))).

Definition simulator_reading (rid : Uuid) (now : Z) (device : string) (v : Value) : DeviceReading := {|
  reading_id := rid; device_id := device; device_type := SmartMeter; serial_number := device;
  zone_code := jget "zone_code" v ≫= as_str;
  timestamp := default now (dt_parse_rfc3339 (default EmptyString (jget "timestamp" v ≫= as_str)));
  metrics := Energy (default F64.zero (jget "energy_generated" v ≫= as_f64))
                    (default F64.zero (jget "energy_consumed" v ≫= as_f64))
                    (default F64.zero (f64_parse (f64_show (declared_kwh v))));
  metadata := list_to_map (default [] (as_object v)) |}.

(** The timestamp of the sign target, in milliseconds; 0 when unparsable. *)
Definition sign_timestamp_ms (v : Value) : Z :=
  match dt_parse_rfc3339 (default EmptyString (jget "timestamp" v ≫= as_str)) with
  | Some t => timestamp_millis t
  | None => 0
  end.

Definition signature_of (v : Value) : string := default EmptyString (jget "signature" v ≫= as_str).

Definition frame_signature (device : string) (v : Value) : outcome key_error bool :=
  verify_rest_signature device v (signature_of v) (canonical_sign_value v) (sign_timestamp_ms v).

(** From the secure-mode gate on, with the (possibly decrypted) frame. *)
Definition ingest_frame (c : config) (rid : Uuid) (now : Z) (was_encrypted : bool)
    (p : PrivateNetworkPayload) : ingest_result :=
  match secure_mode_gate (secure_mode_enabled c) was_encrypted with
  | Some code => Rejected code
  | None =>
      let protocol := resolve_protocol p.(pn_protocol) in
      if negb (is_supported_protocol protocol) then Rejected BAD_REQUEST
      else
        let is_simulator := String.eqb protocol "simulator" && simulator_bypass_allowed c in
        let sig := if is_simulator then Ok true else frame_signature p.(pn_device_id) p.(pn_payload) in
        match (if is_simulator then None else sig_failure_status sig (signature_enforcement_disabled c)) with
        | Some code => Rejected code
        | None =>
            let sig_verified := match sig with Ok true => true | _ => false end in
            if String.eqb protocol "simulator" then
              Disseminate (simulator_reading rid now p.(pn_device_id) p.(pn_payload)) sig_verified
            else match handle_message p.(pn_device_id) (json_print p.(pn_payload)) rid now with
                 | Ok (Some r) => Disseminate r sig_verified
                 | Ok None => NoReading
                 | _ => Rejected BAD_REQUEST
                 end
        end
  end.

Definition is_encrypted (p : PrivateNetworkPayload) : bool :=
  String.eqb (to_lowercase p.(pn_protocol)) "dlms-enc".

Definition ingest_private_network (c : config) (e : decrypt_env) (store : gmap string Z) (rid : Uuid)
    (now : Z) (p : PrivateNetworkPayload) : gmap string Z * ingest_result :=
  if is_encrypted p then
    match decrypt_dlms_envelope e store p.(pn_device_id) p.(pn_payload) with
    | (store, DecOk obis) =>
        (store, ingest_frame c rid now true
                  {| pn_protocol := "dlms"; pn_device_id := p.(pn_device_id); pn_payload := obis |})
    | (store, DecReplay) => (store, Rejected CONFLICT)
    | (store, DecBad) => (store, Rejected BAD_REQUEST)
    end
  else (store, ingest_frame c rid now false p).

(** ** Batches *)

(** The device of a batch item; [ids] and [now] as for a single frame. *)
Definition item_device (item : Value) : string :=
  default "unknown"%string
    (or_else (jget "device_id" item) (or_else (jget "meter_id" item) (jget "meter_serial" item)) ≫= as_str).

Definition batch_item_reading (c : config) (protocol : string) (rid : Uuid) (now : Z) (item : Value)
    : option DeviceReading :=
  let device := item_device item in
  let verified :=
    if String.eqb protocol "simulator" && simulator_bypass_allowed c then true
    else match frame_signature device item with Ok true => true | _ => false end in
  if negb verified && negb (signature_enforcement_disabled c) then None
  else if String.eqb protocol "simulator" then Some (simulator_reading rid now device item)
  else match handle_message device (json_print item) rid now with
       | Ok (Some r) => Some r
       | _ => None
       end.

(** The readings handed to the router, or the rejection. *)
Definition ingest_private_network_batch (c : config) (now : Z) (top : string) (items : list (Uuid * Value))
    : StatusCode + list DeviceReading :=
  match secure_mode_gate (secure_mode_enabled c) false with
  | Some code => inl code
  | None =>
      let top_protocol := to_lowercase top in
      if negb (is_empty top_protocol || String.eqb top_protocol "auto" || is_supported_protocol top_protocol)
      then inl BAD_REQUEST
      else inr (omap (fun it => batch_item_reading c (resolve_protocol top_protocol) it.1 now it.2) items)
  end.

(** [ingest_legacy_batch]: no gate, no signature. *)
Definition legacy_reading (rid : Uuid) (now : Z) (item : Value) : DeviceReading :=
  let device := default "unknown"%string (or_else (jget "meter_serial" item) (jget "meter_id" item) ≫= as_str) in
  let kwh := default F64.zero (jget "kwh" item ≫= as_f64) in
  {| reading_id := rid; device_id := device; device_type := SmartMeter; serial_number := device;
     zone_code := jget "zone_code" item ≫= as_str;
     timestamp := default now (dt_parse_rfc3339 (default EmptyString (jget "timestamp" item ≫= as_str)));
     metrics := Energy (default kwh (jget "energy_generated" item ≫= as_f64))
                       (default F64.zero (jget "energy_consumed" item ≫= as_f64)) kwh;
     metadata := list_to_map (default [] (as_object item)) |}.

Definition ingest_legacy_batch (c : config) (now : Z) (rids : nat -> Uuid) (payload : Value)
    : StatusCode + list DeviceReading :=
  match jget "readings" payload ≫= as_array with
  | None => inl BAD_REQUEST
  | Some items => inr (imap (fun i item => legacy_reading (rids i) now item) items)
  end.
End Verify.
End Handlers.
