(* ===== verification/HandlersProps.v ===== *)
(** * Properties of REST ingestion

    Secure mode admits only authenticated, fresh, signed frames; outside it the
    default is fail-closed; a frame that does not authenticate cannot move the
    replay counter; and what the signature of a frame covers. *)

From Stdlib Require Import ZArith Lia Ascii String SpecFloat.
From stdpp Require Import base gmap strings list numbers.
From S2P Require Import Prelude RustStd External Models DeviceKeys Dlms Handlers.

Open Scope Z_scope.

Section Props.
Context {J : SerdeJson} {K : Crypto} {C : Chrono} {FT : F64Text} {L : LuaNumber}.
Context (verify : string -> list Z -> string -> outcome key_error bool).

Lemma secure_enforces c : secure_mode_enabled c = true -> signature_enforcement_disabled c = false.
Proof. unfold signature_enforcement_disabled. by intros ->. Qed.

Lemma sig_failure_None sig : sig_failure_status sig false = None -> sig = Ok true.
Proof. unfold sig_failure_status. destruct sig as [[]| |]; done. Qed.

(** A frame the single path disseminates. *)
Lemma ingest_frame_disseminates c rid now enc p r v :
  ingest_frame verify c rid now enc p = Disseminate r v ->
  (secure_mode_enabled c = true -> enc = true) /\
  (signature_enforcement_disabled c = false ->
   v = true /\
   (frame_signature verify p.(pn_device_id) p.(pn_payload) = Ok true \/
    (resolve_protocol p.(pn_protocol) = "simulator"%string /\ secure_mode_enabled c = false))).
Proof.
  unfold ingest_frame, secure_mode_gate. intros H. split.
  - intros Hs. rewrite Hs in H. destruct enc; [done|]. by simpl in H.
  - intros Hd. destruct (secure_mode_enabled c && negb enc) eqn:Eg; [done|].
    destruct (negb (is_supported_protocol _)); [done|]. rewrite Hd in H.
    destruct (String.eqb_spec (resolve_protocol (pn_protocol p)) "simulator") as [Es|Es];
      unfold simulator_bypass_allowed in H.
    + destruct (secure_mode_enabled c) eqn:Ec; cbn [negb andb] in H.
      * destruct (sig_failure_status _ _) eqn:Ef; [done|]. apply sig_failure_None in Ef.
        rewrite Ef in H. simplify_eq. auto.
      * simplify_eq. auto.
    + cbn [andb] in H. destruct (sig_failure_status _ _) eqn:Ef; [done|]. apply sig_failure_None in Ef.
      rewrite Ef in H. split; [|auto]. destruct (handle_message _ _ _ _) as [[?|]| |]; by simplify_eq.
Qed.

(** What an opened envelope went through. *)
Lemma decrypt_opens e store device payload store' v :
  decrypt_dlms_envelope e store device payload = (store', DecOk v) ->
  exists counter key nonce ct plaintext,
    gcm_decrypt key nonce (envelope_aad device counter) ct = Some plaintext /\
    json_parse (string_of_bytes plaintext) = Some v /\
    check_and_bump_counter e.(dv_link) e.(dv_connected) e.(dv_reachable) store device counter = (store', Ok true).
Proof.
  unfold decrypt_dlms_envelope. destruct (_ ≫= _) as [[enc counter]|]; [|done].
  destruct (base64_decode _ ≫= _) as [nonce|]; [|done]. destruct (base64_decode _) as [ct|]; [|done].
  destruct (match _ with Some _ => _ | None => _ end) as [[key|]| |]; try done.
  destruct (gcm_decrypt key nonce _ ct) as [plaintext|] eqn:Eg; [|done].
  destruct (check_and_bump_counter _ _ _ store device counter) as [s1 [[]| |]] eqn:Eb; try done.
  destruct (json_parse _) eqn:Ej; [|done]. intros [= <- <-]. eauto 10.
Qed.



(** The replay counter of a device moves only for a frame that authenticated
    under its key with that counter in the associated data: forged envelopes leave
    every counter as it was. *)
Theorem counter_needs_authentication e store device payload store' res :
  decrypt_dlms_envelope e store device payload = (store', res) ->
  store' = store \/
  exists counter key nonce ct plaintext,
    gcm_decrypt key nonce (envelope_aad device counter) ct = Some plaintext /\
    store' = <[ic_key device := counter]> store.
Proof.
  unfold decrypt_dlms_envelope. destruct (_ ≫= _) as [[enc counter]|]; [|intros [= <- _]; auto].
  destruct (base64_decode _ ≫= _) as [nonce|]; [|intros [= <- _]; auto].
  destruct (base64_decode _) as [ct|]; [|intros [= <- _]; auto].
  destruct (match _ with Some _ => _ | None => _ end) as [[key|]| |]; try (intros [= <- _]; auto).
  destruct (gcm_decrypt key nonce _ ct) as [plaintext|] eqn:Eg; [|intros [= <- _]; auto].
  assert (Hb : (check_and_bump_counter (dv_link e) (dv_connected e) (dv_reachable e) store device counter).1 = store \/
    (check_and_bump_counter (dv_link e) (dv_connected e) (dv_reachable e) store device counter).1
      = <[ic_key device := counter]> store).
  { unfold check_and_bump_counter, ic_script. destruct (conn _ _) as [l [[]| |]]; auto.
    destruct (dv_reachable e); auto. destruct (store !! _); [destruct (lua_ge _ _)|]; auto. }
  destruct (check_and_bump_counter _ _ _ store device counter) as [s1 [[]| |]]; simpl in Hb;
    intros [= <- _]; destruct Hb as [->|Hb]; eauto 10.
Qed.

(** A verified frame vouches for its device, its declared [kwh] and its
    timestamp only: any other payload with the same [kwh], timestamp and signature
    fields verifies too, whatever its other registers say. *)
Theorem signature_binds_kwh_only device v v' x :
  sign_num v "kwh" = Some x -> sign_num v' "kwh" = Some x ->
  sign_timestamp_ms v' = sign_timestamp_ms v -> signature_of v' = signature_of v ->
  verify device (sign_target device (f64_show x) (sign_timestamp_ms v)) (signature_of v) = Ok true ->
  frame_signature verify device v = Ok true /\ frame_signature verify device v' = Ok true.
Proof.
  intros Hv Hv' Hts Hsg Hok. unfold frame_signature, verify_rest_signature, rest_sign_candidates.
  rewrite Hts, Hsg. unfold canonical_sign_value. rewrite Hv, Hv'. simpl. by rewrite Hok.
Qed.

(** The legacy telemetry path consults neither secure mode nor any signature: it
    hands every item of its array to dissemination under any configuration. *)
Theorem legacy_path_ungated c now rids payload items :
  jget "readings" payload ≫= as_array = Some items ->
  exists rs, ingest_legacy_batch c now rids payload = inr rs /\ length rs = length items.
Proof.
  intros H. unfold ingest_legacy_batch. rewrite H. eexists. split; [done|]. apply length_imap.
Qed.
End Props.

(** ** Witnesses *)

Section Witnesses.
#[local] Existing Instance crypto_ref.
#[local] Existing Instance chrono_ref.

#[local] Instance text_ref : F64Text :=
  {| f64_show x := match x with S754_finite false m e => show_Z (Z.shiftl (Zpos m) e) | _ => "0" end;
     f64_parse s := F64.of_Z <$> parse_i64 s |}.

#[local] Instance lua0 : LuaNumber := {| lua_num := Z; tonumber z := z; lua_ge := Z.geb |}.

(** A JSON reader that knows one text. *)
Definition inner_frame : jval :=
  JObj [("kwh"%string, JInt 4); ("timestamp"%string, JStr "1767225600"); ("signature"%string, JStr "s")].

#[local] Instance json_one : SerdeJson := {|
  Value := jval; jget := jval_get; as_f64 := @as_f64 json_ref; as_i64 := @as_i64 json_ref;
  as_u64 := @as_u64 json_ref; as_str := @as_str json_ref; as_array := @as_array json_ref;
  as_object := @as_object json_ref; value_of_f64 := JFloat; value_of_str := JStr; value_of_object := JObj;
  json_parse s := if String.eqb s "inner" then Some inner_frame else None;
  json_print _ := "inner" |}.

Definition good_verify (d : string) (m : list Z) (s : string) : outcome key_error bool :=
  Ok (String.eqb s "s" && bool_decide (m = sign_target d "4" 1767225600000)).

Definition secure_cfg : config :=
  {| env_require_secure := Some "true"%string; env_allow_unverified := Some "true"%string |}.

Definition sample_enc_env : decrypt_env :=
  {| dv_legacy_key _ := Ok (Some (replicate 32 1)); dv_versioned_key _ _ := Ok None;
     dv_link := {| lk_url := true; lk_conn := true |}; dv_connected := true; dv_reachable := true |}.

Definition sealed_inner : string :=
  string_of_bytes (gcm_encrypt (replicate 32 1) (bytes_of_string "twelve bytes") (envelope_aad "M1" 8)
                     (bytes_of_string "inner")).

Definition sealed_frame : PrivateNetworkPayload :=
  {| pn_protocol := "DLMS-ENC"; pn_device_id := "M1";
     pn_payload := JObj [("enc"%string, JObj [("counter"%string, JInt 8); ("nonce"%string, JStr "twelve bytes");
                                       ("ciphertext"%string, JStr sealed_inner)])] |}.

Definition sealed_run : gmap string Z * ingest_result :=
  ingest_private_network good_verify secure_cfg sample_enc_env {[ic_key "M1" := 7]} 1%N 0 sealed_frame.

Definition sealed_reading : DeviceReading :=
  match sealed_run.2 with Disseminate r _ => r | _ => simulator_reading 0%N 0 "none" JNull end.

Lemma sealed_runs : sealed_run = (sealed_run.1, Disseminate sealed_reading true).
Proof.
  assert (H : match sealed_run.2 with Disseminate _ true => true | _ => false end = true)
    by (vm_compute; reflexivity).
  unfold sealed_reading. destruct sealed_run as [s [| |r []]]; try discriminate H. reflexivity.
Qed.



Lemma counter_needs_authentication_witness :
  let '(store', _) := decrypt_dlms_envelope sample_enc_env {[ic_key "M1" := 7]} "M1" sealed_frame.(pn_payload) in
  store' = {[ic_key "M1" := 7]} \/
  exists counter key nonce ct plaintext,
    gcm_decrypt key nonce (envelope_aad "M1" counter) ct = Some plaintext /\
    store' = <[ic_key "M1" := counter]> {[ic_key "M1" := 7]}.
Proof.
  destruct (decrypt_dlms_envelope sample_enc_env {[ic_key "M1" := 7]} "M1" sealed_frame.(pn_payload))
    as [store' res] eqn:E.
  exact (counter_needs_authentication sample_enc_env _ _ _ _ _ E).
Defined.

(** The same frame with an export register of 9 MWh added. *)
Definition padded_frame : jval :=
  JObj [(obis.ELEC_ACTIVE_EXPORT_TOTAL, JInt 9000000); ("kwh"%string, JInt 4);
        ("timestamp"%string, JStr "1767225600"); ("signature"%string, JStr "s")].

Lemma signature_binds_kwh_only_witness :
  frame_signature good_verify "M1" padded_frame = Ok true /\
  (map_payload (default [] (as_object inner_frame))).1.1 = F64.zero /\
  (map_payload (default [] (as_object padded_frame))).1.1 = F64.of_Z 9000.
Proof.
  split; [|split; vm_compute; reflexivity].
  refine (proj2 (signature_binds_kwh_only good_verify "M1" inner_frame padded_frame (F64.of_Z 4) _ _ _ _ _));
    vm_compute; reflexivity.
Defined.

Lemma legacy_path_ungated_witness :
  exists rs, ingest_legacy_batch secure_cfg 0 (fun _ => 1%N) (JObj [("readings"%string, JArr [JObj []])]) = inr rs /\
    length rs = 1%nat.
Proof. apply (legacy_path_ungated (J := json_one) secure_cfg 0 (fun _ => 1%N) (JObj [("readings"%string, JArr [JObj []])]) [JObj []]). reflexivity. Defined.
End Witnesses.
