(* ===== verification/Auth.v ===== *)
(** * API-key authentication (aggregator-api/src/auth.rs)

    The middleware in front of the REST routes: the verdict cache with its two
    lifetimes, the IAM consultation behind an optional circuit breaker, the
    three-way policy that keeps a definitive reject away from the static keys, and
    the request as a whole.  The circuit breaker is a parameter; IAM's answer and
    the clock readings are data of a request. *)

From Stdlib Require Import ZArith Lia Ascii String SpecFloat.
From stdpp Require Import base gmap strings list numbers.
From S2P Require Import Prelude RustStd.

Open Scope Z_scope.
Open Scope bridge_scope.

(** Durations and instants in nanoseconds. *)
Definition SECOND : Z := 1000000000.

Definition API_KEY_POSITIVE_TTL_SECS : Z := 60.
Definition API_KEY_NEGATIVE_TTL_SECS : Z := 10.

Definition ttl_from_env (v : option string) (default_secs : Z) : Z :=
  default default_secs (v ≫= fun s => parse_unsigned 64 (trim s)) * SECOND.

(** ** The policy *)

Inductive IamVerdict : Type := Authorized | Rejected | Unavailable.

Inductive PostIam : Type := Allow | Deny | TryStatic.

Definition post_iam_action (verdict : IamVerdict) : PostIam :=
  match verdict with
  | Authorized => Allow
  | Rejected => Deny
  | Unavailable => TryStatic
  end.

Definition cache_verdict_for (action : PostIam) : option bool :=
  match action with
  | Allow => Some true
  | Deny => Some false
  | TryStatic => None
  end.

(** ** The verdict cache *)

Record CachedAuth : Type := { expires : Z; valid : bool }.

Abbreviation cache := (gmap string CachedAuth).

Definition cache_lookup (c : cache) (key : string) (now : Z) : cache * option bool :=
  match c !! key with
  | Some entry => if entry.(expires) >? now then (c, Some entry.(valid)) else (delete key c, None)
  | None => (c, None)
  end.

Section Auth.
(** [gridtokenx_telemetry::breaker::CircuitBreaker]; asking it may change its
    state (half-open probes). *)
Context {breaker : Type} (should_allow : breaker -> breaker * bool)
        (record_success record_failure : breaker -> breaker).
Context (positive_ttl negative_ttl : Z) (api_keys : list string).

Definition ttl_of (is_valid : bool) : Z := if is_valid then positive_ttl else negative_ttl.

Definition cache_store (c : cache) (key : string) (is_valid : bool) (now : Z) : cache :=
  <[key := {| expires := now + ttl_of is_valid; valid := is_valid |}]>
    (filter (fun kv => kv.2.(expires) > now) c).

(** ** A request *)

Record request : Type := {
  rq_key : option string;               (* the X-API-KEY header, when readable *)
  rq_lookup : Z;                        (* clock of the cache lookup *)
  rq_store : Z;                         (* clock of the cache write *)
  rq_iam : option (outcome unit bool)   (* what IAM answers; [None] without a client *)
}.

Inductive response : Type := Next | Unauthorized.

Record state : Type := { st_cache : cache; st_breaker : option breaker }.

(** The circuit breaker's verdict on calling IAM. *)
Definition breaker_allows (b : option breaker) : option breaker * bool :=
  match b with
  | Some cb => let '(cb, ok) := should_allow cb in (Some cb, ok)
  | None => (None, true)
  end.

(** The IAM consultation: breaker, verdict, and whether IAM was called. *)
Definition consult_iam (b : option breaker) (iam : option (outcome unit bool))
    : option breaker * IamVerdict * bool :=
  let '(b, ok) := breaker_allows b in
  if negb ok then (b, Unavailable, false)
  else match iam with
       | Some (Ok true) => (record_success <$> b, Authorized, true)
       | Some (Ok false) => (record_success <$> b, Rejected, true)
       | Some _ => (record_failure <$> b, Unavailable, true)
       | None => (b, Unavailable, false)
       end.

Definition static_fallback (c : cache) (key : string) (now : Z) : cache * response :=
  if existsb (String.eqb key) api_keys then (cache_store c key true now, Next) else (c, Unauthorized).

(** The response, and whether IAM was called for it. *)
Definition api_key_auth (s : state) (r : request) : state * (response * bool) :=
  match r.(rq_key) with
  | None => (s, (Unauthorized, false))
  | Some key =>
      match cache_lookup s.(st_cache) key r.(rq_lookup) with
      | (c, Some true) => ({| st_cache := c; st_breaker := s.(st_breaker) |}, (Next, false))
      | (c, Some false) => ({| st_cache := c; st_breaker := s.(st_breaker) |}, (Unauthorized, false))
      | (c, None) =>
          let '(b, verdict, called) := consult_iam s.(st_breaker) r.(rq_iam) in
          let action := post_iam_action verdict in
          let c := match cache_verdict_for action with
                   | Some v => cache_store c key v r.(rq_store)
                   | None => c
                   end in
          let '(c, res) := match action with
                           | Allow => (c, Next)
                           | Deny => (c, Unauthorized)
                           | TryStatic => static_fallback c key r.(rq_store)
                           end in
          ({| st_cache := c; st_breaker := b |}, (res, called))
      end
  end.

(** Requests served one after the other. *)
Fixpoint serve (s : state) (rs : list request) : state * list (response * bool) :=
  match rs with
  | [] => (s, [])
  | r :: rs =>
      let '(s, o) := api_key_auth s r in
      let '(s, os) := serve s rs in
      (s, o :: os)
  end.

(** ** Why a request is admitted *)

(** A request at which the key was vouched for: IAM authorized it, or it is one of
    the static keys. *)
Definition vouched (key : string) (r : request) : Prop :=
  r.(rq_key) = Some key /\ (r.(rq_iam) = Some (Ok true) \/ key ∈ api_keys).

(** Every positive entry was written by a vouched request, and expires one
    positive lifetime after it. *)
Definition cache_justified (past : list request) (c : cache) : Prop :=
  forall key e, c !! key = Some e -> e.(valid) = true ->
    exists r, r ∈ past /\ vouched key r /\ e.(expires) = r.(rq_store) + positive_ttl.

Lemma cache_justified_delete past c key : cache_justified past c -> cache_justified past (delete key c).
Proof. intros H k e [_ Hk]%lookup_delete_Some. eauto. Qed.

Lemma cache_justified_more past c r : cache_justified past c -> cache_justified (past ++ [r]) c.
Proof. intros H k e Hk Hv. destruct (H k e Hk Hv) as (r' & ? & ?). exists r'. set_solver. Qed.

Lemma cache_justified_store past c key v r :
  cache_justified past c -> (v = true -> vouched key r) -> r ∈ past ->
  cache_justified past (cache_store c key v r.(rq_store)).
Proof.
  unfold cache_store. intros H Hv Hr k e.
  intros [[<- <-]|[_ [Hk _]%map_lookup_filter_Some]]%lookup_insert_Some; cbn [valid expires]; [|eauto].
  intros ->. exists r. auto.
Qed.

Lemma cache_lookup_outcome c key now c' o :
  cache_lookup c key now = (c', o) ->
  match o with
  | Some v => c' = c /\ exists e, c !! key = Some e /\ e.(valid) = v /\ now < e.(expires)
  | None => c' = c \/ c' = delete key c
  end.
Proof.
  unfold cache_lookup. destruct (c !! key) as [e|]; [|by intros [= <- <-]; auto].
  destruct (e.(expires) >? now) eqn:E; intros [= <- <-]; [|auto].
  split; [done|]. exists e. breflect. auto with lia.
Qed.

Lemma existsb_key key : existsb (String.eqb key) api_keys = true -> key ∈ api_keys.
Proof. intros (k & Hk & <-%String.eqb_eq)%existsb_exists. by apply list_elem_of_In. Qed.

(** One request: the invariant is kept, and an admission is justified. *)
Lemma api_key_auth_justified past s r s' res called :
  cache_justified past s.(st_cache) -> api_key_auth s r = (s', (res, called)) ->
  cache_justified (past ++ [r]) s'.(st_cache) /\
  (res = Next -> exists key r', r.(rq_key) = Some key /\ r' ∈ past ++ [r] /\ vouched key r' /\
     (r' = r \/ r.(rq_lookup) < r'.(rq_store) + positive_ttl)).
Proof.
  intros H. unfold api_key_auth.
  destruct (rq_key r) as [key|] eqn:Ek; [|by intros [= <- <- <-]; split; [apply cache_justified_more|]].
  destruct (cache_lookup (st_cache s) key (rq_lookup r)) as [c o] eqn:El.
  apply cache_lookup_outcome in El. apply (cache_justified_more _ _ r) in H.
  destruct o as [[]|].
  1,2: destruct El as (-> & e & He & Hv & Hx); intros [= <- <- <-]; split; [done|]; try done.
  { intros _. destruct (H _ _ He Hv) as (r' & ? & ? & Hr'). exists key, r'. rewrite Hr' in Hx. auto. }
  assert (Hc : cache_justified (past ++ [r]) c) by (destruct El as [->| ->]; auto using cache_justified_delete).
  destruct (consult_iam (st_breaker s) (rq_iam r)) as [[b verdict] called'] eqn:Ei.
  assert (Hr : r ∈ past ++ [r]) by set_solver.
  destruct verdict; cbn [post_iam_action cache_verdict_for].
  - intros [= <- <- <-]. assert (vouched key r).
    { split; [done|]. left. unfold consult_iam in Ei. destruct (breaker_allows _) as [? []]; [|done].
      by destruct (rq_iam r) as [[[]| |]|]. }
    split; [by apply cache_justified_store|]. intros _. exists key, r. auto.
  - intros [= <- <- <-]. split; [by apply cache_justified_store|done].
  - unfold static_fallback. destruct (existsb _ api_keys) eqn:Es; intros [= <- <- <-]; [|done].
    assert (vouched key r) by (split; auto using existsb_key).
    split; [by apply cache_justified_store|]. intros _. exists key, r. auto.
Qed.

Lemma serve_length s rs s' os : serve s rs = (s', os) -> length os = length rs.
Proof.
  revert s os. induction rs as [|r rs IH]; intros s os; cbn [serve]; [by intros [= <- <-]|].
  destruct (api_key_auth s r) as [s1 o]. destruct (serve s1 rs) as [s2 os2] eqn:E. intros [= <- <-]. cbn. f_equal. by eapply IH.
Qed.

Lemma serve_justified past s rs s' os i r called :
  cache_justified past s.(st_cache) -> serve s rs = (s', os) ->
  rs !! i = Some r -> os !! i = Some (Next, called) ->
  exists key r', r.(rq_key) = Some key /\ r' ∈ past ++ take (S i) rs /\ vouched key r' /\
     (r' = r \/ r.(rq_lookup) < r'.(rq_store) + positive_ttl).
Proof.
  revert past s os i. induction rs as [|r0 rs IH]; intros past s os i H; [done|].
  cbn [serve]. destruct (api_key_auth s r0) as [s1 [res0 called0]] eqn:E0.
  destruct (serve s1 rs) as [s2 os2] eqn:E1. intros [= <- <-].
  destruct (api_key_auth_justified past s r0 s1 res0 called0 H E0) as [H1 Hadm].
  destruct i as [|i]; cbn.
  - intros [= ->] [= -> ->]. rewrite firstn_O. by apply Hadm.
  - intros Hr Ho. destruct (IH (past ++ [r0]) s1 os2 i H1 E1 Hr Ho) as (key & r' & ? & Hin & ?).
    rewrite <- app_assoc in Hin. eauto 10.
Qed.

(** C26: a request is let through only if IAM authorized its key,
    or the key is a configured static key, on this very request or on an earlier
    one less than one positive cache lifetime before; whatever the circuit breaker
    does, and in any sequence of requests. *)
Theorem admission_justified b rs s' os i r called :
  serve {| st_cache := ∅; st_breaker := b |} rs = (s', os) ->
  rs !! i = Some r -> os !! i = Some (Next, called) ->
  exists key r', r.(rq_key) = Some key /\ r' ∈ take (S i) rs /\ vouched key r' /\
    (r' = r \/ r.(rq_lookup) < r'.(rq_store) + positive_ttl).
Proof. apply (serve_justified []). by intros ? ?. Qed.

(** ** One IAM call per key and lifetime *)

(** The key has a verdict that holds until [limit]. *)
Definition decided (c : cache) (key : string) (v : bool) (limit : Z) : Prop :=
  c !! key = Some {| expires := limit; valid := v |}.

Lemma cache_lookup_decided c key v limit now :
  decided c key v limit -> now < limit -> cache_lookup c key now = (c, Some v).
Proof.
  unfold decided, cache_lookup. intros -> ?. cbn [expires valid].
  by rewrite (proj2 (Z.gtb_lt _ _)).
Qed.

Lemma cache_store_decided c key v limit key' v' now :
  decided c key v limit -> now < limit -> key' <> key -> decided (cache_store c key' v' now) key v limit.
Proof.
  intros H ? ?. unfold decided, cache_store. rewrite lookup_insert_ne by done.
  apply map_lookup_filter_Some_2; [done|]. cbn. lia.
Qed.

Lemma cache_lookup_keeps c key v limit key' now c' o :
  decided c key v limit -> key' <> key -> cache_lookup c key' now = (c', o) -> decided c' key v limit.
Proof.
  intros H Hne E%cache_lookup_outcome. destruct o; [by destruct E as [-> _]|].
  destruct E as [->| ->]; [done|]. unfold decided. by rewrite lookup_delete_ne.
Qed.

(** A request for another key, before the limit, leaves the verdict. *)
Lemma api_key_auth_keeps s key v limit r :
  decided s.(st_cache) key v limit -> r.(rq_key) <> Some key -> r.(rq_store) < limit ->
  decided (api_key_auth s r).1.(st_cache) key v limit.
Proof.
  intros H Hne Ht. unfold api_key_auth. destruct (rq_key r) as [key'|]; [|done].
  assert (key' <> key) by congruence.
  destruct (cache_lookup _ key' _) as [c o] eqn:El.
  pose proof (cache_lookup_keeps _ _ _ _ _ _ _ _ H ltac:(done) El) as Hc.
  destruct o as [[]|]; [done..|]. destruct (consult_iam _ _) as [[b verdict] called].
  destruct verdict; cbn; auto using cache_store_decided.
  unfold static_fallback. destruct (existsb _ _); cbn; auto using cache_store_decided.
Qed.

Lemma serve_decided key v limit : forall rs s,
  decided s.(st_cache) key v limit ->
  Forall (fun r => r.(rq_lookup) < limit /\ r.(rq_store) < limit) rs ->
  forall i r, rs !! i = Some r -> r.(rq_key) = Some key ->
  (serve s rs).2 !! i = Some (if v then Next else Unauthorized, false).
Proof.
  induction rs as [|r0 rs IH]; intros s H Ht i r; [done|].
  apply list.Forall_cons in Ht as [[Hl Hs] Ht]. cbn [serve].
  destruct (decide (rq_key r0 = Some key)) as [Ek|Ek].
  - assert (E : api_key_auth s r0 = (s, (if v then Next else Unauthorized, false))).
    { unfold api_key_auth. rewrite Ek, (cache_lookup_decided _ _ _ _ _ H Hl). by destruct s, v. }
    rewrite E. destruct (serve s rs) as [s2 os] eqn:E1. cbn. destruct i as [|i]; cbn; [done|].
    intros Hr Hk. specialize (IH s H Ht i r Hr Hk). by rewrite E1 in IH.
  - pose proof (api_key_auth_keeps s key v limit r0 H Ek Hs) as H1.
    destruct (api_key_auth s r0) as [s1 o]. destruct (serve s1 rs) as [s2 os] eqn:E1. cbn.
    destruct i as [|i]; cbn; [congruence|]. intros Hr Hk. specialize (IH s1 H1 Ht i r Hr Hk). by rewrite E1 in IH.
Qed.

(** Once IAM has answered for a key, every later request with
    that key gets the same answer without another IAM call as long as the verdict's
    lifetime (positive or negative) lasts, whatever other keys are served in
    between; in particular a rejected key stays rejected even if it is a static
    key. *)
Theorem verdict_reused s key r0 v rs i r :
  cache_lookup s.(st_cache) key r0.(rq_lookup) = (s.(st_cache), None) ->
  (breaker_allows s.(st_breaker)).2 = true ->
  r0.(rq_key) = Some key -> r0.(rq_iam) = Some (Ok v) ->
  Forall (fun r => r.(rq_lookup) < r0.(rq_store) + ttl_of v /\ r.(rq_store) < r0.(rq_store) + ttl_of v) rs ->
  rs !! i = Some r -> r.(rq_key) = Some key ->
  (serve s (r0 :: rs)).2 !! 0%nat = Some (if v then Next else Unauthorized, true) /\
  (serve s (r0 :: rs)).2 !! S i = Some (if v then Next else Unauthorized, false).
Proof.
  intros Hmiss Hb Hk Hi Ht Hr Hrk. cbn [serve].
  assert (E : exists b, api_key_auth s r0 =
    ({| st_cache := cache_store s.(st_cache) key v r0.(rq_store); st_breaker := b |},
     (if v then Next else Unauthorized, true))).
  { unfold api_key_auth, consult_iam. rewrite Hk, Hmiss, Hi. destruct (breaker_allows _) as [b ok].
    cbn in Hb. subst ok. destruct v; eexists; reflexivity. }
  destruct E as [b ->]. set (s1 := {| st_cache := _; st_breaker := b |}).
  assert (H1 : decided s1.(st_cache) key v (r0.(rq_store) + ttl_of v)) by (apply lookup_insert_eq).
  pose proof (serve_decided key v _ rs s1 H1 Ht i r Hr Hrk) as Hs.
  destruct (serve s1 rs) as [s2 os]. by cbn.
Qed.

(** A static key admitted while IAM is unreachable is
    remembered as a positive verdict, so IAM is not asked about it again for one
    positive lifetime, even though it is reachable and rejects the key. *)
Theorem static_key_cached s key r0 r :
  cache_lookup s.(st_cache) key r0.(rq_lookup) = (s.(st_cache), None) ->
  r0.(rq_key) = Some key -> r0.(rq_iam) = Some (Err tt) -> key ∈ api_keys ->
  r.(rq_key) = Some key -> r.(rq_iam) = Some (Ok false) ->
  r.(rq_lookup) < r0.(rq_store) + positive_ttl -> r.(rq_store) < r0.(rq_store) + positive_ttl ->
  (serve s [r0; r]).2 !! 1%nat = Some (Next, false).
Proof.
  intros Hmiss Hk Hi Hin Hrk Hri Hl Hs. cbn [serve].
  assert (E : exists b called, api_key_auth s r0 =
    ({| st_cache := cache_store s.(st_cache) key true r0.(rq_store); st_breaker := b |}, (Next, called))).
  { unfold api_key_auth, consult_iam, static_fallback. rewrite Hk, Hmiss, Hi.
    assert (existsb (String.eqb key) api_keys = true) as Ex.
    { apply existsb_exists. exists key. split; [by apply list_elem_of_In|apply String.eqb_refl]. }
    destruct (breaker_allows _) as [b []]; cbn; rewrite Ex; eauto. }
  destruct E as (b & called & ->). set (s1 := {| st_cache := _; st_breaker := b |}).
  assert (H1 : decided s1.(st_cache) key true (r0.(rq_store) + positive_ttl)) by (apply lookup_insert_eq).
  pose proof (serve_decided key true _ [r] s1 H1) as Hd. cbn [serve] in Hd.
  destruct (api_key_auth s1 r) as [s2 o]. cbn in *. apply (Hd ltac:(by repeat constructor) 0%nat r); done.
Qed.
End Auth.

(** ** Sample requests *)

Definition sample_ttl : Z := 60 * SECOND.
Definition sample_neg_ttl : Z := 10 * SECOND.

Definition sample_request (secs : Z) (iam : option (outcome unit bool)) : request := {|
  rq_key := Some "k1"%string; rq_lookup := secs * SECOND; rq_store := secs * SECOND; rq_iam := iam |}.

Abbreviation sample_serve s rs :=
  (serve (fun b : unit => (b, true)) id id sample_ttl sample_neg_ttl ["k1"%string] s rs).

Definition empty_state : state (breaker := unit) := {| st_cache := ∅; st_breaker := None |}.

Lemma admission_justified_witness :
  exists key r', (sample_request 30 None).(rq_key) = Some key /\
    r' ∈ take 2 [sample_request 0 (Some (Ok true)); sample_request 30 None] /\
    vouched [] key r' /\
    (r' = sample_request 30 None \/ (sample_request 30 None).(rq_lookup) < r'.(rq_store) + sample_ttl).
Proof.
  apply (admission_justified (fun b : unit => (b, true)) id id sample_ttl sample_neg_ttl [] None
    [sample_request 0 (Some (Ok true)); sample_request 30 None]
    (serve (fun b : unit => (b, true)) id id sample_ttl sample_neg_ttl [] empty_state
       [sample_request 0 (Some (Ok true)); sample_request 30 None]).1
    [(Next, true); (Next, false)] 1%nat _ false); [vm_compute; reflexivity|reflexivity|reflexivity].
Defined.

Lemma verdict_reused_witness :
  (sample_serve empty_state [sample_request 0 (Some (Ok false)); sample_request 9 (Some (Ok true))]).2 !! 0%nat
    = Some (Unauthorized, true) /\
  (sample_serve empty_state [sample_request 0 (Some (Ok false)); sample_request 9 (Some (Ok true))]).2 !! 1%nat
    = Some (Unauthorized, false).
Proof.
  apply (verdict_reused (fun b : unit => (b, true)) id id sample_ttl sample_neg_ttl ["k1"%string] empty_state
    "k1" (sample_request 0 (Some (Ok false))) false [sample_request 9 (Some (Ok true))] 0%nat
    (sample_request 9 (Some (Ok true)))); [reflexivity..| |reflexivity|reflexivity].
  repeat constructor.
Defined.

Lemma static_key_cached_witness :
  (sample_serve empty_state [sample_request 0 (Some (Err tt)); sample_request 59 (Some (Ok false))]).2 !! 1%nat
    = Some (Next, false).
Proof.
  apply (static_key_cached (fun b : unit => (b, true)) id id sample_ttl sample_neg_ttl ["k1"%string] empty_state
    "k1" (sample_request 0 (Some (Err tt))) (sample_request 59 (Some (Ok false)))); try reflexivity.
  by apply list_elem_of_here.
Defined.
