(* ===== verification/GrpcService.v ===== *)
(** * gRPC ingestion (aggregator-api/src/grpc/service.rs)

    The three RPCs of the unified telemetry service: the decode policy for secure
    DLMS frames, the packed bulk payload, and the handlers themselves.  The
    signature verifier is an interface that the device-key registry implements
    ([registry_verifier]); key lookup and dissemination are arguments.  A handler
    yields the readings it hands to dissemination and its response; [Panic] is a
    panic of the request task. *)

From Stdlib Require Import ZArith Lia Ascii String SpecFloat.
From stdpp Require Import base gmap strings list numbers.
From S2P Require Import Prelude RustStd External Models BinaryDecoder DeviceKeys Dlms Handlers.

Open Scope Z_scope.
Open Scope bridge_scope.

(** ** The signature verifier, as the service sees it *)

Class SignatureVerifier := {
  sv_single : string -> list Z -> string -> outcome key_error bool;
  sv_batch : list string -> list (list Z) -> list (list Z) -> outcome key_error (list bool);
  (** the raw 64-byte signature is valid for the device's registered key *)
  sv_accepts : string -> list Z -> list Z -> bool
}.

(** A batch answer has one verdict per entry, that of the entry alone. *)
Class SignatureVerifierLaws `{SignatureVerifier} : Prop := {
  sv_batch_pointwise ids payloads sigs out : sv_batch ids payloads sigs = Ok out ->
    out = zip_with (fun id ps => sv_accepts id ps.1 ps.2) ids (zip payloads sigs)
}.

(** The environment the service reads. *)
Record grpc_env : Type := {
  ge_environment : option string;
  ge_allow_plaintext_dlms : option string;
  ge_skip_sig_verify : option string;
  ge_gates : config
}.

Definition is_production (e : grpc_env) : bool :=
  String.eqb (default EmptyString e.(ge_environment)) "production".

Definition plaintext_dlms_allowed (allow_plaintext_env secure_mode : bool) : bool :=
  negb secure_mode && allow_plaintext_env.

Definition bulk_skip_verify_allowed (skip_verify_env secure_mode : bool) : bool :=
  negb secure_mode && skip_verify_env.

(** ** The packed bulk payload *)

(** Each round consumes at least the length byte: [length payload] rounds suffice
    ([split_fuel]). *)
Fixpoint split_loop (fuel : nat) (payload : list Z) : list (list Z * list Z) :=
  match fuel, payload with
  | S fuel, len :: rest =>
      let frame_len := Z.to_nat len in
      if (length rest <? frame_len + 64)%nat then []
      else (take frame_len rest, take 64 (drop frame_len rest)) ::
           split_loop fuel (drop (frame_len + 64) rest)
  | _, _ => []
  end.

Definition split_bulk_frames (payload : list Z) : list (list Z * list Z) :=
  split_loop (length payload) payload.

Definition grpc_sign_target (meter_id kwh : string) (timestamp : Z) : string :=
  meter_id +:+ ":" +:+ kwh +:+ ":" +:+ show_Z timestamp.

(** [Vec::with_capacity(n)] for elements of [size] bytes. *)
Definition with_capacity (size n : Z) : outcome Empty_set unit :=
  if size * n >? i64_max then Panic else Ok ().

Inductive connect_error : Type :=
| permission_denied
| unauthenticated
| invalid_argument
| internal.

(** [MeterReading] of oracle.proto, the fields the service reads. *)
Record MeterReading : Type := {
  mr_reading_id : string;
  mr_meter_id : string;
  mr_meter_serial : string;
  mr_zone_code : option string;
  mr_kwh : string;
  mr_energy_generated : option string;
  mr_energy_consumed : option string;
  mr_timestamp : Z;
  mr_raw_payload : list Z;
  mr_signature : option string
}.

Section Service.
Context {J : SerdeJson} {K : Crypto} {C : Chrono} {FT : F64Text} {U : UuidText}.
Context {SV : SignatureVerifier}.
Context (get_device_aes_key : string -> outcome key_error (option (list Z))).

Definition ok_frame (r : outcome frame_error DlmsBinaryFrame) : outcome Empty_set (option DlmsBinaryFrame) :=
  match r with
  | Ok f => Ok (Some f)
  | Err _ => Ok None
  | Panic => Panic
  end.

Definition apply_dlms_key_policy (frame_bytes : list Z) (key : option (list Z))
    (production allow_plaintext : bool) : outcome Empty_set (option DlmsBinaryFrame) :=
  match key with
  | Some k => ok_frame (parse frame_bytes (Some k))
  | None =>
      if production then Ok None
      else if allow_plaintext then ok_frame (parse frame_bytes None)
      else Ok None
  end.

Definition decode_secure_frame (e : grpc_env) (frame_bytes : list Z)
    : outcome Empty_set (option DlmsBinaryFrame) :=
  match parse_header frame_bytes with
  | Panic => Panic
  | Err _ => Ok None
  | Ok h =>
      let allow_plaintext := plaintext_dlms_allowed (env_is_true e.(ge_allow_plaintext_dlms))
                               (secure_mode_enabled e.(ge_gates)) in
      match get_device_aes_key h.(hdr_logical_device_name) with
      | Ok key => apply_dlms_key_policy frame_bytes key (is_production e) allow_plaintext
      | Err _ => Ok None
      | Panic => Panic
      end
  end.

(** ** Bulk *)

Record decoded : Type := { d_bytes : list Z; d_sig : list Z; d_frame : DlmsBinaryFrame }.

Definition d_meter (d : decoded) : string := d.(d_frame).(header).(hdr_logical_device_name).

Fixpoint decode_all (e : grpc_env) (entries : list (list Z * list Z)) : outcome Empty_set (list decoded) :=
  match entries with
  | [] => Ok []
  | (bytes, sig) :: entries =>
      let? f := decode_secure_frame e bytes in
      let? ds := decode_all e entries in
      Ok (match f with
          | Some f => {| d_bytes := bytes; d_sig := sig; d_frame := f |} :: ds
          | None => ds
          end)
  end.

Definition HUNDRED : f64 := F64.of_Z 100.

Definition scaled (unit_f : f64) (x : Z) : Value := value_of_f64 (F64.div (F64.of_Z x) unit_f).

Definition put_opt (k : string) (unit_f : f64) (x : option Z) (m : gmap string Value) : gmap string Value :=
  match x with Some x => <[k := scaled unit_f x]> m | None => m end.

(** The registers both [bulk_raw_ingest] and [ingest] surface. *)
Definition frame_metadata (f : DlmsBinaryFrame) : gmap string Value :=
  <["dlms_manufacturer_id"%string := value_of_str f.(header).(hdr_manufacturer_id)]>
  (put_opt "battery_level_pct" HUNDRED f.(battery_soc_bps)
  (put_opt "current_a" THOUSAND f.(current_ma)
  (put_opt "voltage_v" HUNDRED f.(voltage_cv) ∅))).

Definition kwh_of_wh (wh : Z) : f64 := F64.div (F64.of_Z wh) THOUSAND.

Definition bulk_reading (rid : Uuid) (d : decoded) : DeviceReading :=
  let generated := kwh_of_wh (default 0 d.(d_frame).(active_energy_export_wh)) in
  let consumed := kwh_of_wh (default 0 d.(d_frame).(active_energy_import_wh)) in
  {| reading_id := rid; device_id := d_meter d; device_type := SmartMeter; serial_number := d_meter d;
     zone_code := None; timestamp := d.(d_frame).(header).(hdr_timestamp);
     metrics := Energy generated consumed (F64.sub generated consumed);
     metadata := <["ingest_mode"%string := value_of_str "bulk_raw"]> (frame_metadata d.(d_frame)) |}.

(** Step 3: the verdicts index the frames. *)
Fixpoint process_verified (rids : nat -> Uuid) (i : nat) (verdicts : list bool) (frames : list decoded)
    : outcome connect_error (list DeviceReading) :=
  match verdicts with
  | [] => Ok []
  | v :: verdicts =>
      match frames with
      | [] => Panic
      | f :: frames =>
          let? rest := process_verified rids (S i) verdicts frames in
          Ok (if v then bulk_reading (rids i) f :: rest else rest)
      end
  end.

Definition lift_panic {A : Type} (o : outcome Empty_set A) : outcome connect_error A :=
  match o with Ok a => Ok a | _ => Panic end.

(** The readings disseminated as verified; [processed_count] is their number.
    [meter_count as usize] sign-extends the 32-bit count. *)
Definition bulk_raw_ingest (e : grpc_env) (rids : nat -> Uuid) (payload : list Z) (meter_count : Z)
    : outcome connect_error (list DeviceReading) :=
  let? _ := lift_panic (with_capacity 24 (wrap 64 meter_count)) in
  let? frames := lift_panic (decode_all e (split_bulk_frames payload)) in
  let skip_verify := bulk_skip_verify_allowed (env_is_true e.(ge_skip_sig_verify))
                       (secure_mode_enabled e.(ge_gates)) in
  let? verdicts :=
    (if skip_verify then Ok (replicate (length frames) true)
     else match sv_batch (d_meter <$> frames) (d_bytes <$> frames) (d_sig <$> frames) with
          | Ok out => Ok out
          | Err _ => Err internal
          | Panic => Panic
          end) in
  process_verified rids 0 verdicts frames.

(** ** Single readings *)

Definition is_nil {A : Type} (l : list A) : bool := match l with [] => true | _ => false end.

Definition ingest_candidates (r : MeterReading) : list (list Z) :=
  bytes_of_string (grpc_sign_target r.(mr_meter_id) r.(mr_kwh) r.(mr_timestamp)) ::
  (if is_nil r.(mr_raw_payload) then [] else [r.(mr_raw_payload)]).

(** The signature gate: [sig_verified], or the rejection. *)
Definition ingest_gate (e : grpc_env) (r : MeterReading) : outcome connect_error bool :=
  match r.(mr_signature) with
  | Some signature =>
      match try_candidates sv_single r.(mr_meter_id) signature (ingest_candidates r) with
      | Ok true => Ok true
      | Ok false => Err permission_denied
      | Err _ => Err unauthenticated
      | Panic => Panic
      end
  | None => if signature_enforcement_disabled e.(ge_gates) then Ok false else Err invalid_argument
  end.

(** The energy and the time of a request without, or overlaid with, its frame. *)
Definition frame_or {A : Type} (f : option DlmsBinaryFrame) (get : DlmsBinaryFrame -> option A) (d : A) : A :=
  default d (f ≫= get).

Definition request_reading (rid : Uuid) (now : Z) (meta : DlmsBinaryFrame -> gmap string Value)
    (r : MeterReading) (f : option DlmsBinaryFrame) : DeviceReading :=
  let generated := frame_or f (fun f => kwh_of_wh <$> f.(active_energy_export_wh))
                     (default F64.zero (r.(mr_energy_generated) ≫= f64_parse)) in
  let consumed := frame_or f (fun f => kwh_of_wh <$> f.(active_energy_import_wh))
                    (default F64.zero (r.(mr_energy_consumed) ≫= f64_parse)) in
  {| reading_id := default rid (uuid_parse r.(mr_reading_id));
     device_id := r.(mr_meter_id); device_type := SmartMeter; serial_number := r.(mr_meter_serial);
     zone_code := r.(mr_zone_code);
     timestamp := frame_or f (fun f => Some f.(header).(hdr_timestamp)) (default now (dt_timestamp_opt r.(mr_timestamp)));
     metrics := Energy generated consumed (default (F64.sub generated consumed) (f64_parse r.(mr_kwh)));
     metadata := match f with Some f => meta f | None => ∅ end |}.

(** [decode_secure_frame] when the request carries a frame. *)
Definition request_frame (e : grpc_env) (r : MeterReading) : outcome Empty_set (option DlmsBinaryFrame) :=
  if is_nil r.(mr_raw_payload) then Ok None else decode_secure_frame e r.(mr_raw_payload).

Context (disseminate : DeviceReading -> bool -> bool).

(** The reading handed on with its [verified] flag, when there is one, and the
    response. *)
Definition ingest (e : grpc_env) (rid : Uuid) (now : Z) (r : MeterReading)
    : option (DeviceReading * bool) * outcome connect_error unit :=
  match ingest_gate e r with
  | Err c => (None, Err c)
  | Panic => (None, Panic)
  | Ok sig_verified =>
      match request_frame e r with
      | Ok f =>
          let reading := request_reading rid now frame_metadata r f in
          (Some (reading, sig_verified),
           if disseminate reading sig_verified then Ok () else Err internal)
      | _ => (None, Panic)
      end
  end.

(** ** Batches *)

(** The gate of a batch item: only the canonical target, errors are rejections. *)
Definition batch_gate (e : grpc_env) (r : MeterReading) : option bool :=
  match r.(mr_signature) with
  | Some signature =>
      match sv_single r.(mr_meter_id)
              (bytes_of_string (grpc_sign_target r.(mr_meter_id) r.(mr_kwh) r.(mr_timestamp))) signature with
      | Ok true => Some true
      | _ => None
      end
  | None => if signature_enforcement_disabled e.(ge_gates) then Some false else None
  end.

Definition batch_metadata (f : DlmsBinaryFrame) : gmap string Value :=
  {["dlms_manufacturer_id"%string := value_of_str f.(header).(hdr_manufacturer_id)]}.

Record batch_response : Type := { accepted_count : Z; rejected_count : Z }.

Definition accept1 (b : batch_response) : batch_response :=
  {| accepted_count := b.(accepted_count) + 1; rejected_count := b.(rejected_count) |}.
Definition reject1 (b : batch_response) : batch_response :=
  {| accepted_count := b.(accepted_count); rejected_count := b.(rejected_count) + 1 |}.

Fixpoint batch_loop (e : grpc_env) (rids : nat -> Uuid) (now : Z) (i : nat) (rs : list MeterReading)
    (out : list (DeviceReading * bool)) (b : batch_response)
    : outcome Empty_set (list (DeviceReading * bool) * batch_response) :=
  match rs with
  | [] => Ok (out, b)
  | r :: rs =>
      match batch_gate e r with
      | None => batch_loop e rids now (S i) rs out (reject1 b)
      | Some sig_verified =>
          let? f := request_frame e r in
          let reading := request_reading (rids i) now batch_metadata r f in
          batch_loop e rids now (S i) rs (out ++ [(reading, sig_verified)])
            (if disseminate reading sig_verified then accept1 b else reject1 b)
      end
  end.

Definition ingest_batch (e : grpc_env) (rids : nat -> Uuid) (now : Z) (rs : list MeterReading)
    : outcome Empty_set (list (DeviceReading * bool) * batch_response) :=
  batch_loop e rids now 0 rs [] {| accepted_count := 0; rejected_count := 0 |}.

Definition batch_status (b : batch_response) : string :=
  if b.(rejected_count) =? 0 then "all_accepted" else "partially_accepted".
End Service.
