(* ===== verification/GrpcProps.v ===== *)
(** * Properties of gRPC ingestion

    The packed bulk payload splits exactly as it was packed; a frame is decoded in
    plaintext only in development; bulk and single ingestion disseminate as
    verified only what a registered key signed; the device-key registry implements
    the verifier interface; and what the service does not check. *)

From Stdlib Require Import ZArith Lia Ascii String SpecFloat.
From stdpp Require Import base gmap strings list numbers.
From S2P Require Import Prelude RustStd External Models BinaryDecoder DeviceKeys DeviceKeysProps Dlms Handlers HandlersProps GrpcService.

Open Scope Z_scope.
Open Scope bridge_scope.

(** ** The packed payload *)

(** One packed entry, and what ends the payload: nothing, or an entry cut short. *)
Definition pack_entry (e : list Z * list Z) : list Z := Z.of_nat (length e.1) :: e.1 ++ e.2.
Definition pack (es : list (list Z * list Z)) : list Z := es ≫= pack_entry.

Definition truncated (tail : list Z) : Prop :=
  match tail with
  | [] => True
  | len :: rest => (length rest < Z.to_nat len + 64)%nat
  end.

Lemma split_fuel n : forall payload, (length payload <= n)%nat ->
  split_loop n payload = split_bulk_frames payload.
Proof.
  assert (H : forall n m payload, (length payload <= n)%nat -> (length payload <= m)%nat ->
    split_loop n payload = split_loop m payload).
  { clear. induction n as [|n IH]; intros [|m] [|len rest]; cbn [split_loop length]; intros; try done; try lia.
    destruct (_ <? _)%nat; [done|]. f_equal. apply IH; rewrite length_drop; lia. }
  intros payload Hn. by apply H.
Qed.

Lemma split_entry f s rest : length s = 64%nat ->
  split_bulk_frames (pack_entry (f, s) ++ rest) = (f, s) :: split_bulk_frames rest.
Proof.
  intros Hs. unfold pack_entry, split_bulk_frames at 1. cbn [fst snd length app split_loop].
  rewrite Nat2Z.id, <- app_assoc, !length_app, Hs.
  rewrite (proj2 (Nat.ltb_ge _ _)) by lia.
  rewrite take_app_length, drop_app_length, <- drop_drop, drop_app_length.
  rewrite (take_app_length' s), (drop_app_length' s) by done.
  f_equal. apply split_fuel. lia.
Qed.

Lemma split_truncated tail : truncated tail -> split_bulk_frames tail = [].
Proof.
  destruct tail as [|len rest]; [done|]. unfold truncated, split_bulk_frames. cbn [length split_loop].
  intros H. by rewrite (proj2 (Nat.ltb_lt _ _) H).
Qed.

Lemma split_pack es tail :
  Forall (fun e => length e.2 = 64%nat) es -> truncated tail -> split_bulk_frames (pack es ++ tail) = es.
Proof.
  intros He Ht. induction He as [|[f s] es Hs _ IH]; [by apply split_truncated|].
  change (pack ((f, s) :: es)) with (pack_entry (f, s) ++ pack es).
  by rewrite <- app_assoc, split_entry, IH.
Qed.

(** Any payload is a packing followed by a truncated tail. *)
Lemma packed_form : forall n payload, (length payload <= n)%nat -> bytes_ok payload = true ->
  exists es tail, payload = pack es ++ tail /\ truncated tail /\ Forall (fun e => length e.2 = 64%nat) es.
Proof.
  induction n as [|n IH]; intros [|len rest] Hn Hb; cbn [length] in Hn; try (by exists [], []); [lia|].
  destruct (decide (length rest < Z.to_nat len + 64)%nat) as [Ht|Ht].
  { exists [], (len :: rest). split; [done|]. split; [exact Ht|constructor]. }
  cbn in Hb. apply andb_true_iff in Hb as [Hlen Hrest]. unfold in_width in Hlen.
  assert (Hlen' : 0 <= len) by (breflect; lia).
  set (f := take (Z.to_nat len) rest). set (r1 := drop (Z.to_nat len) rest).
  set (s := take 64 r1). set (r2 := drop 64 r1).
  assert (E : rest = f ++ s ++ r2) by (unfold f, s, r2; rewrite (take_drop 64 r1); symmetry; apply take_drop).
  assert (Hf : length f = Z.to_nat len) by (unfold f; rewrite length_take; lia).
  assert (Hs : length s = 64%nat) by (unfold s, r1; rewrite length_take, length_drop; lia).
  destruct (IH r2) as (es & tail & E2 & Ht2 & Hes).
  - unfold r2, r1. rewrite !length_drop. lia.
  - rewrite E, !bytes_ok_app in Hrest. by apply andb_true_iff in Hrest as [_ [_ ?]%andb_true_iff].
  - exists ((f, s) :: es), tail. split; [|by split; [|constructor]].
    change (pack ((f, s) :: es)) with (pack_entry (f, s) ++ pack es). rewrite <- app_assoc, <- E2.
    unfold pack_entry. cbn [fst snd]. rewrite Hf, Z2Nat.id by done. cbn. by rewrite <- app_assoc, <- E.
Qed.

(** Splitting a bulk payload returns exactly the entries it was
    packed from: the result [es] is characterised by the payload being the packing
    of [es] followed by nothing or by an entry cut short, so no frame is ever
    paired with another entry's signature and a truncated tail is dropped whole. *)
Theorem bulk_split_exact payload es : bytes_ok payload = true ->
  split_bulk_frames payload = es <->
  exists tail, payload = pack es ++ tail /\ truncated tail /\ Forall (fun e => length e.2 = 64%nat) es.
Proof.
  intros Hb. split.
  - destruct (packed_form (length payload) payload) as (es' & tail & -> & Ht & He); [lia|done|].
    rewrite split_pack by done. intros <-. eauto.
  - intros (tail & -> & Ht & He). by apply split_pack.
Qed.

(** ** Decoding and verification *)

Section Props.
Context {J : SerdeJson} {K : Crypto} {C : Chrono} {FT : F64Text} {U : UuidText}.
Context {SV : SignatureVerifier}.
Context (get_device_aes_key : string -> outcome key_error (option (list Z))).

Lemma ok_frame_Some r f : ok_frame r = Ok (Some f) -> r = Ok f.
Proof. destruct r; cbn; congruence. Qed.

Lemma parse_header_of payload key f :
  parse payload key = Ok f -> parse_header payload = Ok f.(header).
Proof.
  unfold parse. destruct (parse_header payload) as [h| |]; cbn [obind]; try done.
  destruct (byte_at payload 1) as [len| |]; cbn [obind]; try done.
  destruct (bytes_at payload 2 5) as [manuf| |]; cbn [obind]; try done.
  destruct (bytes_at payload 13 21) as [ts| |]; cbn [obind]; try done.
  destruct (bytes_at payload 21 _) as [block| |]; cbn [obind]; try done.
  destruct (match key with Some _ => _ | None => _ end) as [data| |]; cbn [obind]; try done.
  intros [= <-]. by rewrite tlv_loop_header.
Qed.

(** A frame the service decodes was opened with the key
    registered for the very device the frame names; without a registered key it is
    read in plaintext only outside production, outside secure mode and with the
    explicit development flag. *)
Theorem plaintext_only_in_dev e bytes f :
  decode_secure_frame get_device_aes_key e bytes = Ok (Some f) ->
  exists key, get_device_aes_key f.(header).(hdr_logical_device_name) = Ok key /\ parse bytes key = Ok f /\
    (key = None -> is_production e = false /\ secure_mode_enabled e.(ge_gates) = false /\
                   env_is_true e.(ge_allow_plaintext_dlms) = true).
Proof.
  unfold decode_secure_frame. destruct (parse_header bytes) as [h| |] eqn:Eh; try done.
  destruct (get_device_aes_key _) as [key| |] eqn:Ek; try done. unfold apply_dlms_key_policy.
  assert (Hp : forall k, parse bytes k = Ok f -> f.(header) = h)
    by (intros k Hk%parse_header_of; congruence).
  destruct key as [k|].
  - intros Hf%ok_frame_Some. rewrite (Hp _ Hf). by exists (Some k).
  - destruct (is_production e); [done|]. unfold plaintext_dlms_allowed.
    destruct (negb _ && _) eqn:Ea; [|done]. intros Hf%ok_frame_Some. rewrite (Hp _ Hf).
    exists None. split; [done|]. split; [done|]. intros _. by apply andb_true_iff in Ea as [->%negb_true_iff ->].
Qed.

Lemma decode_all_elem e entries ds d :
  decode_all get_device_aes_key e entries = Ok ds -> d ∈ ds ->
  (d.(d_bytes), d.(d_sig)) ∈ entries /\
  decode_secure_frame get_device_aes_key e d.(d_bytes) = Ok (Some d.(d_frame)).
Proof.
  revert ds. induction entries as [|[bytes sig] entries IH]; intros ds; cbn; [by intros [= <-] ?%elem_of_nil|].
  destruct (decode_secure_frame _ e bytes) as [f| |] eqn:Ef; cbn; try done.
  destruct (decode_all _ e entries) as [ds'| |]; cbn; try done. intros [= <-] Hd.
  assert (Hin : d ∈ ds' -> (d_bytes d, d_sig d) ∈ (bytes, sig) :: entries /\
    decode_secure_frame get_device_aes_key e (d_bytes d) = Ok (Some (d_frame d)))
    by (intros H; destruct (IH ds' eq_refl H); split; [by apply list_elem_of_further|done]).
  destruct f as [f|]; [|auto]. apply elem_of_cons in Hd as [->|Hd]; [|auto].
  split; [apply list_elem_of_here|done].
Qed.

(** A processed reading is a frame with a positive verdict at its position. *)
Lemma process_verified_elem rids verdicts : forall i frames rs r,
  process_verified rids i verdicts frames = Ok rs -> r ∈ rs ->
  exists j d, verdicts !! j = Some true /\ frames !! j = Some d /\ r = bulk_reading (rids (i + j)%nat) d.
Proof.
  induction verdicts as [|v verdicts IH]; intros i [|f frames] rs r; cbn; try done;
    try (by intros [= <-] ?%elem_of_nil).
  destruct (process_verified _ _ verdicts frames) as [rest| |] eqn:Ep; cbn; try done.
  assert (Hin : r ∈ rest -> exists j d, (v :: verdicts) !! j = Some true /\ (f :: frames) !! j = Some d /\
    r = bulk_reading (rids (i + j)%nat) d).
  { intros H. destruct (IH _ _ _ _ Ep H) as (j & d & ? & ? & ->). exists (S j), d.
    split; [done|]. split; [done|]. by rewrite Nat.add_succ_r. }
  destruct v; intros [= <-]; [|exact Hin]. intros [->|H]%elem_of_cons; [|auto].
  exists 0%nat, f. by rewrite Nat.add_0_r.
Qed.

Lemma zip_verdicts ids payloads sigs j :
  zip_with (fun id ps => sv_accepts id ps.1 ps.2) ids (zip payloads sigs) !! j = Some true ->
  exists id p s, ids !! j = Some id /\ payloads !! j = Some p /\ sigs !! j = Some s /\ sv_accepts id p s = true.
Proof.
  rewrite lookup_zip_with. destruct (ids !! j) as [id|]; [|done]. cbn. rewrite lookup_zip_with.
  destruct (payloads !! j) as [p|]; [|done]. destruct (sigs !! j) as [s|]; [|done]. cbn. intros [= H]. eauto 10.
Qed.

(** C25: in secure mode every reading a bulk request disseminates comes
    from one entry of the payload whose frame was decrypted under the key of the
    device it names and whose own signature that device's registered key accepts;
    the [SKIP_SIG_VERIFY] and plaintext flags have no effect. *)
Theorem bulk_secure `{!SignatureVerifierLaws} e rids payload n rs r :
  secure_mode_enabled e.(ge_gates) = true ->
  bulk_raw_ingest get_device_aes_key e rids payload n = Ok rs -> r ∈ rs ->
  exists d rid k, (d.(d_bytes), d.(d_sig)) ∈ split_bulk_frames payload /\ r = bulk_reading rid d /\
    get_device_aes_key r.(device_id) = Ok (Some k) /\ parse d.(d_bytes) (Some k) = Ok d.(d_frame) /\
    sv_accepts r.(device_id) d.(d_bytes) d.(d_sig) = true.
Proof.
  intros Hsec. unfold bulk_raw_ingest. destruct (lift_panic (with_capacity _ _)) as [[]| |]; cbn [obind]; try done.
  destruct (decode_all _ e _) as [ds| |] eqn:Ed; cbn [lift_panic obind]; try done.
  rewrite Hsec. unfold bulk_skip_verify_allowed. cbn [negb andb].
  destruct (sv_batch _ _ _) as [out| |] eqn:Eb; cbn [obind]; try done. intros Hp Hr.
  destruct (process_verified_elem _ _ _ _ _ _ Hp Hr) as (j & d & Hj & Hd & ->).
  rewrite (sv_batch_pointwise _ _ _ _ Eb) in Hj.
  destruct (zip_verdicts _ _ _ _ Hj) as (id & p & s & Hid & Hpl & Hs & Hacc).
  rewrite list_lookup_fmap, Hd in Hid. rewrite list_lookup_fmap, Hd in Hpl. rewrite list_lookup_fmap, Hd in Hs.
  injection Hid as <-. injection Hpl as <-. injection Hs as <-.
  destruct (decode_all_elem _ _ _ _ Ed (list_elem_of_lookup_2 _ _ _ Hd)) as [Hin Hdec].
  unfold decode_secure_frame in Hdec.
  destruct (parse_header _) as [h| |] eqn:Eh; try done.
  destruct (get_device_aes_key _) as [[k|]| |] eqn:Ek; try done.
  - cbn in Hdec. apply ok_frame_Some in Hdec as Hparse. pose proof (parse_header_of _ _ _ Hparse) as Hh.
    assert (h = header (d_frame d)) by congruence. subst h.
    exists d, (rids (0 + j)%nat), k. auto.
  - cbn in Hdec. rewrite Hsec in Hdec. by destruct (is_production e).
Qed.

(** ** Single and batch requests *)

Lemma try_candidates_true verify id s cs :
  try_candidates verify id s cs = Ok true -> exists c, c ∈ cs /\ verify id c s = Ok true.
Proof.
  induction cs as [|c cs IH]; cbn; [done|]. destruct (verify id c s) as [[]| |] eqn:E; try done.
  - intros _. exists c. split; [apply list_elem_of_here|done].
  - intros (c' & ? & ?)%IH. exists c'. split; [by apply list_elem_of_further|done].
Qed.

(** What a disseminated request was signed over. *)
Definition signed_request (r : MeterReading) : Prop :=
  exists s target, r.(mr_signature) = Some s /\ target ∈ ingest_candidates r /\
    sv_single r.(mr_meter_id) target s = Ok true.

Lemma ingest_gate_signed e r v :
  ingest_gate e r = Ok v -> signature_enforcement_disabled e.(ge_gates) = false -> v = true /\ signed_request r.
Proof.
  unfold ingest_gate. destruct (mr_signature r) as [s|] eqn:Es; [|by case_match].
  destruct (try_candidates _ _ _ _) as [[]| |] eqn:Et; try done. intros [= <-] _. split; [done|].
  apply try_candidates_true in Et as (c & ? & ?). exists s, c. auto.
Qed.

Lemma batch_gate_signed e r v :
  batch_gate e r = Some v -> signature_enforcement_disabled e.(ge_gates) = false -> v = true /\ signed_request r.
Proof.
  unfold batch_gate. destruct (mr_signature r) as [s|] eqn:Es; [|by case_match].
  destruct (sv_single _ _ _) as [[]| |] eqn:Et; try done. intros [= <-] _. split; [done|].
  eexists s, _. split; [done|]. split; [apply list_elem_of_here|exact Et].
Qed.

Context (disseminate : DeviceReading -> bool -> bool).

Lemma batch_loop_signed e rids now : signature_enforcement_disabled e.(ge_gates) = false ->
  forall rs i out b out' b', batch_loop get_device_aes_key disseminate e rids now i rs out b = Ok (out', b') ->
  forall p, p ∈ out' -> p ∈ out \/ exists r, r ∈ rs /\ p.1.(device_id) = r.(mr_meter_id) /\ p.2 = true /\ signed_request r.
Proof.
  intros Hd. induction rs as [|r rs IH]; intros i out b out' b'; cbn [batch_loop].
  { intros [= <- <-]. auto. }
  destruct (batch_gate e r) as [v|] eqn:Eg.
  - destruct (request_frame _ e r) as [f| |]; cbn [obind]; try done. intros H p Hp.
    destruct (IH _ _ _ _ _ H p Hp) as [[?|Hx%list_elem_of_singleton]%elem_of_app|(r' & ? & ?)].
    + auto.
    + right. exists r. subst p. destruct (batch_gate_signed _ _ _ Eg Hd). split; [apply list_elem_of_here|auto].
    + right. exists r'. split; [by apply list_elem_of_further|done].
  - intros H p Hp. destruct (IH _ _ _ _ _ H p Hp) as [?|(r' & ? & ?)]; [auto|].
    right. exists r'. split; [by apply list_elem_of_further|done].
Qed.

(** Unless the unverified-telemetry hatch is open (which secure
    mode forbids), whatever a single or a batch request disseminates is flagged
    verified and carries a signature that the verifier accepted for the request's
    meter, over the canonical target or the raw payload. *)
Theorem grpc_fails_closed e :
  signature_enforcement_disabled e.(ge_gates) = false ->
  (forall rid now r reading v res,
     ingest get_device_aes_key disseminate e rid now r = (Some (reading, v), res) ->
     v = true /\ reading.(device_id) = r.(mr_meter_id) /\ signed_request r) /\
  (forall rids now rs out b, ingest_batch get_device_aes_key disseminate e rids now rs = Ok (out, b) ->
     forall reading v, (reading, v) ∈ out ->
     v = true /\ exists r, r ∈ rs /\ reading.(device_id) = r.(mr_meter_id) /\ signed_request r).
Proof.
  intros Hd. split.
  - intros rid now r reading v res. unfold ingest. destruct (ingest_gate e r) as [v'| |] eqn:Eg; try done.
    destruct (request_frame _ e r); try done. intros [= <- <- <-]. by destruct (ingest_gate_signed _ _ _ Eg Hd).
  - intros rids now rs out b H reading v Hp. unfold ingest_batch in H.
    destruct (batch_loop_signed e rids now Hd _ _ _ _ _ _ H _ Hp) as [?%elem_of_nil|(r & ? & ? & ? & ?)]; [done|].
    eauto.
Qed.

(** A request signed over its declared [kwh] is
    disseminated with the energy and the time of whatever frame it carries, also
    when that frame names another device than the request's meter. *)
Theorem foreign_frame_credited e rid now r s f export import :
  r.(mr_signature) = Some s ->
  sv_single r.(mr_meter_id)
    (bytes_of_string (grpc_sign_target r.(mr_meter_id) r.(mr_kwh) r.(mr_timestamp))) s = Ok true ->
  r.(mr_raw_payload) <> [] ->
  decode_secure_frame get_device_aes_key e r.(mr_raw_payload) = Ok (Some f) ->
  f.(active_energy_export_wh) = Some export -> f.(active_energy_import_wh) = Some import ->
  f.(header).(hdr_logical_device_name) <> r.(mr_meter_id) ->
  exists reading res, ingest get_device_aes_key disseminate e rid now r = (Some (reading, true), res) /\
    reading.(device_id) = r.(mr_meter_id) /\ reading.(timestamp) = f.(header).(hdr_timestamp) /\
    exists net, reading.(metrics) = Energy (kwh_of_wh export) (kwh_of_wh import) net.
Proof.
  intros Hs Hv Hne Hf Hx Hi _. unfold ingest, ingest_gate, request_frame.
  rewrite Hs. cbn [ingest_candidates try_candidates]. unfold ingest_candidates. cbn [try_candidates].
  rewrite Hv. destruct (mr_raw_payload r) as [|b l] eqn:El; [done|]. cbn [is_nil]. rewrite Hf.
  eexists _, _. split; [reflexivity|]. cbn. rewrite Hx, Hi. cbn. eauto.
Qed.

(** A negative [meter_count] makes the handler panic before anything is checked. *)
Lemma negative_count_panics e rids payload n :
  - 2 ^ 31 <= n < 0 -> bulk_raw_ingest get_device_aes_key e rids payload n = Panic.
Proof.
  intros Hn. unfold bulk_raw_ingest, with_capacity.
  replace (wrap 64 n) with (2 ^ 64 + n) by (unfold wrap; rewrite <- (Z.mod_small (2 ^ 64 + n) (2 ^ 64)) at 1 by lia;
    rewrite Z.add_comm, <- (Z.mul_1_l (2 ^ 64)) at 1; apply Z_mod_plus_full).
  by rewrite (proj2 (Z.gtb_lt _ _)) by (unfold i64_max; lia).
Qed.
End Props.

(** ** The device-key registry implements the verifier *)

Section Registry.
Context {K : Crypto} (pos_ttl neg_ttl : Z) (g : registry VerifyingKey) (t : clock).
(** Redis: the keys it stores, and how it answers a [GET] and an [MGET]. *)
Context (store : string -> option string).
Context (get_call : string -> redis_call (option string)).
Context (mget_call : list string -> redis_call (list (option string))).

Definition registry_verifier : SignatureVerifier := {|
  sv_single id payload sig := (verify_telemetry_signature pos_ttl neg_ttl g id payload sig t (get_call id)).2;
  sv_batch ids payloads sigs :=
    (verify_telemetry_signature_batch pos_ttl neg_ttl g ids payloads sigs t
       (mget_call (missed ids (batch_lookup g.(rg_cache) ids t.(ck_get)).2))).2;
  sv_accepts id payload sig := single_verdict g.(rg_cache) store t.(ck_get) id payload sig
|}.

(** An answered [MGET] returns the stored values, in order. *)
Hypothesis mget_answers : forall ids raw, (with_retry g.(rg_link) (mget_call ids)).2 = Ok raw -> raw = store <$> ids.

Lemma registry_verifier_laws : @SignatureVerifierLaws registry_verifier.
Proof.
  constructor. cbn [sv_batch sv_accepts registry_verifier]. intros ids payloads sigs out H.
  destruct (verify_telemetry_signature_batch _ _ _ _ _ _ _ _) as [g' res] eqn:E. cbn in H. subst res.
  by apply batch_verdicts with (store := store) in E; [|auto].
Qed.
End Registry.

(** ** Sample requests *)

Section Witnesses.
#[local] Existing Instance json_ref.
#[local] Existing Instance chrono_ref.
#[local] Existing Instance crypto_ref.
#[local] Existing Instance uuid_ref.

Definition f64_text_ref : F64Text := {|
  f64_show x := show_nonneg (Zpos (countable.encode x));
  f64_parse s := F64.of_Z <$> parse_digits s 0
|}.
#[local] Existing Instance f64_text_ref.

Definition secure_env : grpc_env := {|
  ge_environment := None; ge_allow_plaintext_dlms := Some "true"%string; ge_skip_sig_verify := Some "true"%string;
  ge_gates := {| env_require_secure := Some "true"%string; env_allow_unverified := Some "true"%string |} |}.

(** Redis holds the verification key of [M1]. *)
Definition svc_key : list Z := replicate 32 65.
Definition svc_store (id : string) : option string :=
  if String.eqb id "M1" then Some (string_of_bytes svc_key) else None.
Definition svc_get (id : string) : redis_call (option string) := {|
  rc_connect1 := true; rc_answer1 := Some (svc_store id); rc_connect2 := true; rc_answer2 := None |}.
Definition svc_mget (ids : list string) : redis_call (list (option string)) := {|
  rc_connect1 := true; rc_answer1 := Some (svc_store <$> ids); rc_connect2 := true; rc_answer2 := None |}.
Definition svc_registry : registry VerifyingKey := {|
  rg_link := {| lk_url := true; lk_conn := true |};
  rg_cache := {| pc_map := ∅; pc_last_pruned := 0 |} |}.

#[local] Instance svc_verifier : SignatureVerifier :=
  registry_verifier 60 10 svc_registry {| ck_get := 5; ck_put := 5; ck_prune := 5 |} svc_store svc_get svc_mget.

#[local] Instance svc_verifier_laws : SignatureVerifierLaws.
Proof.
  apply registry_verifier_laws. intros ids raw. cbn. congruence.
Qed.

Definition svc_aes_key (id : string) : outcome key_error (option (list Z)) := Ok (Some sample_key).

Definition svc_frame : list Z := encode_frame (Some sample_key) sample_wire.
Definition svc_sign (m : list Z) : list Z := take 64 (svc_key ++ m ++ replicate 64 0).
Definition svc_payload : list Z := pack [(svc_frame, svc_sign svc_frame)] ++ [9; 1; 2].

Lemma bulk_split_exact_witness :
  split_bulk_frames svc_payload = [(svc_frame, svc_sign svc_frame)].
Proof.
  apply (proj2 (bulk_split_exact svc_payload [(svc_frame, svc_sign svc_frame)] ltac:(vm_compute; reflexivity))).
  exists [9; 1; 2]. split; [reflexivity|]. split; [cbn; lia|]. repeat constructor.
Defined.

Lemma plaintext_only_in_dev_witness :
  exists f key, decode_secure_frame svc_aes_key secure_env svc_frame = Ok (Some f) /\
    svc_aes_key f.(header).(hdr_logical_device_name) = Ok key /\ parse svc_frame key = Ok f.
Proof.
  assert (E : decode_secure_frame svc_aes_key secure_env svc_frame =
    Ok (default None (ok_of (decode_secure_frame svc_aes_key secure_env svc_frame))))
    by (apply ok_is_ok; vm_compute; reflexivity).
  destruct (default None (ok_of (decode_secure_frame svc_aes_key secure_env svc_frame))) as [f|] eqn:Ef;
    [|apply (f_equal is_someb) in Ef; vm_compute in Ef; discriminate Ef].
  destruct (plaintext_only_in_dev svc_aes_key secure_env svc_frame f E) as (key & H1 & H2 & _).
  exists f, key. auto.
Defined.

Definition nil_reading : DeviceReading := {|
  reading_id := uuid_nil; device_id := EmptyString; device_type := SmartMeter; serial_number := EmptyString;
  zone_code := None; timestamp := 0; metrics := Energy F64.zero F64.zero F64.zero; metadata := ∅ |}.

Definition svc_rids (i : nat) : Uuid := uuid_nil.

Abbreviation svc_bulk := (bulk_raw_ingest svc_aes_key secure_env svc_rids svc_payload 1).

Lemma bulk_secure_witness :
  exists r d k, svc_bulk = Ok (default [] (ok_of svc_bulk)) /\ r ∈ default [] (ok_of svc_bulk) /\
    r.(device_id) = "M1"%string /\
    parse d.(d_bytes) (Some k) = Ok d.(d_frame) /\ sv_accepts r.(device_id) d.(d_bytes) d.(d_sig) = true.
Proof.
  assert (E : svc_bulk = Ok (default [] (ok_of svc_bulk))) by (apply ok_is_ok; vm_compute; reflexivity).
  set (r := default nil_reading (head (default [] (ok_of svc_bulk)))).
  assert (Hr : r ∈ default [] (ok_of svc_bulk)) by (apply head_default_elem; vm_compute; reflexivity).
  assert (Hs : secure_mode_enabled secure_env.(ge_gates) = true) by reflexivity.
  destruct (bulk_secure svc_aes_key secure_env svc_rids svc_payload 1 (default [] (ok_of svc_bulk)) r Hs E Hr)
    as (d & rid & k & _ & _ & _ & Hp & Ha).
  exists r, d, k. split; [exact E|]. split; [exact Hr|]. split; [vm_compute; reflexivity|]. auto.
Defined.

Definition svc_request : MeterReading := {|
  mr_reading_id := EmptyString; mr_meter_id := "M1"; mr_meter_serial := "S1"; mr_zone_code := None;
  mr_kwh := "1"; mr_energy_generated := None; mr_energy_consumed := None; mr_timestamp := 1767225600;
  mr_raw_payload := []; 
  mr_signature := Some (string_of_bytes (svc_sign (bytes_of_string (grpc_sign_target "M1" "1" 1767225600)))) |}.

Lemma grpc_fails_closed_witness :
  signature_enforcement_disabled secure_env.(ge_gates) = false /\ signed_request svc_request.
Proof.
  split; [reflexivity|].
  destruct (grpc_fails_closed svc_aes_key (fun _ _ => true) secure_env eq_refl) as [H _].
  destruct (ingest svc_aes_key (fun _ _ => true) secure_env uuid_nil 0 svc_request) as [[[reading v]|] res] eqn:E.
  - exact (proj2 (proj2 (H _ _ _ _ _ _ E))).
  - exfalso. apply (f_equal (fun p => is_someb p.1)) in E. vm_compute in E. discriminate E.
Defined.

(** The frame of another meter, attached to a request of [M1]. *)
Definition foreign_wire : wire := {|
  w_manuf := [71; 84; 88]; w_ldn := [77; 57; 0; 0; 0; 0; 0; 0]; w_ts := 1767225600;
  w_tlvs := [(1, to_be_bytes 8 100); (2, to_be_bytes 8 90000)] |}.

Definition foreign_request : MeterReading := {|
  mr_reading_id := EmptyString; mr_meter_id := "M1"; mr_meter_serial := "S1"; mr_zone_code := None;
  mr_kwh := "1"; mr_energy_generated := None; mr_energy_consumed := None; mr_timestamp := 1767225600;
  mr_raw_payload := encode_frame (Some sample_key) foreign_wire;
  mr_signature := svc_request.(mr_signature) |}.

Lemma foreign_frame_credited_witness :
  exists reading res net, ingest svc_aes_key (fun _ _ => true) secure_env uuid_nil 0 foreign_request =
    (Some (reading, true), res) /\ reading.(device_id) = "M1"%string /\
    reading.(metrics) = Energy (kwh_of_wh 90000) (kwh_of_wh 100) net.
Proof.
  set (f := default (empty_frame {| hdr_version := 0; hdr_manufacturer_id := EmptyString;
                                    hdr_logical_device_name := EmptyString; hdr_timestamp := 0 |})
              (default None (ok_of (decode_secure_frame svc_aes_key secure_env (mr_raw_payload foreign_request))))).
  destruct (foreign_frame_credited svc_aes_key (fun _ _ => true) secure_env uuid_nil 0 foreign_request
    (default EmptyString svc_request.(mr_signature)) f 90000 100) as (reading & res & H1 & H2 & _ & net & H3).
  - reflexivity.
  - vm_compute. reflexivity.
  - vm_compute. discriminate.
  - vm_compute. reflexivity.
  - vm_compute. reflexivity.
  - vm_compute. reflexivity.
  - vm_compute. discriminate.
  - exists reading, res, net. auto.
Defined.
End Witnesses.
