(* ===== verification/Router.v ===== *)
(** * Dissemination (aggregator-logic/src/router.rs, the cipher of
    aggregator-persistence/src/infra/stream_cipher.rs)

    A reading goes to the Redis stream of its zone, to the unified stream of its
    device type, to InfluxDB and to the Postgres mirror.  The zone index, the
    envelope (plain or sealed), the self-healing connection and the retry are
    modelled; a command can fail with or without having been applied. *)

From Stdlib Require Import ZArith Lia Ascii String SpecFloat.
From stdpp Require Import base gmap strings list numbers.
From S2P Require Import Prelude RustStd External Models Aggregator Stores Settlement.

Open Scope Z_scope.
Open Scope bridge_scope.

Definition DEFAULT_MAX_STREAM_LEN : Z := 100000.

(** ** ReconnectCache *)

Section ReconnectCache.
Context {T E : Type}.

(** [built]: what the builder would return. *)
Definition get_or_build (cached : option T) (built : outcome E T) : option T * outcome E T :=
  match cached with
  | Some c => (Some c, Ok c)
  | None => match built with
            | Ok c => (Some c, Ok c)
            | o => (None, o)
            end
  end.

Definition invalidate_cache (cached : option T) : option T := None.
End ReconnectCache.

(** ** Zone index *)

Section Zone.
Context {J : SerdeJson}.

(** [hasher.finish() as usize % num_zones]: [None] is the division by zero. *)
Definition hash_zone (num_zones : Z) (s : string) : option Z :=
  if num_zones =? 0 then None else Some (hash_str s mod num_zones).

Definition calculate_zone_index (num_zones : Z) (reading : DeviceReading) : option Z :=
  match reading.(zone_code) with
  | Some zcode =>
      let suffix := skip_while (fun c => negb (is_ascii_digit c)) zcode in
      match (if is_empty suffix then None else parse_unsigned 64 suffix) with
      | Some idx => if idx <? num_zones then Some idx else hash_zone num_zones zcode
      | None => hash_zone num_zones zcode
      end
  | None => hash_zone num_zones reading.(serial_number)
  end.

Definition zone_stream (idx : Z) : string := "gridtokenx:events:zone_" +:+ show_Z idx.

Definition event_type_name (reading : DeviceReading) : string :=
  match reading.(device_type) with
  | SmartMeter => "SmartMeterReading"
  | EvCharger => "EvCharging"
  | Battery => "BatteryStateUpdate"
  end.

(** ** InfluxDB point and Postgres row *)

(** [format!("{:?}", status)]. *)
Definition ev_status_debug (s : EvStatus) : string :=
  match s with
  | Available => "Available"
  | EvCharging => "Charging"
  | SuspendedEv => "SuspendedEv"
  | SuspendedEvse => "SuspendedEvse"
  | Finishing => "Finishing"
  | Faulted => "Faulted"
  end.

Definition battery_mode_debug (m : BatteryMode) : string :=
  match m with
  | Idle => "Idle"
  | Charging => "Charging"
  | Discharging => "Discharging"
  end.

Definition EXTRA_FIELDS : list string :=
  ["sum_active_power_kw"; "max_demand_import_kw"; "active_tariff"; "active_import_rate1_kwh";
   "active_import_rate2_kwh"; "active_export_rate1_kwh"; "active_export_rate2_kwh";
   "reactive_energy_import_kvarh"; "reactive_energy_export_kvarh"; "voltage_l1_v"; "frequency_hz";
   "power_factor"; "battery_soc_percent"; "battery_dispatch_kw"; "ev_charging_kw"]%string.

Definition meta_f64 (reading : DeviceReading) (name : string) : option f64 :=
  reading.(metadata) !! name ≫= as_f64.

Definition extra_fields (reading : DeviceReading) : list (string * f64) :=
  omap (fun name => pair name <$> meta_f64 reading name) EXTRA_FIELDS.

Definition point_parts (reading : DeviceReading) : string * list (string * string) * list (string * f64) :=
  match reading.(metrics) with
  | Energy generated_kwh consumed_kwh net_kwh =>
      ("energy", [],
       ([("generated_kwh", generated_kwh); ("consumed_kwh", consumed_kwh); ("net_kwh", net_kwh)]
       ++ extra_fields reading)%list)
  | EvSession energy_delivered_kwh session_id connector_id status =>
      ("ev_session", [("session_id", session_id); ("status", ev_status_debug status)],
       [("energy_delivered_kwh", energy_delivered_kwh); ("connector_id", F64.of_Z connector_id)])
  | BatteryState soc_percent power_kw temperature_c mode =>
      ("battery", [("mode", battery_mode_debug mode)],
       [("soc_percent", soc_percent); ("power_kw", power_kw); ("temperature_c", temperature_c)])
  end%string.

Definition device_type_tag (d : DeviceType) : string :=
  match d with
  | SmartMeter => "smart_meter"
  | EvCharger => "ev_charger"
  | Battery => "battery"
  end.

Definition reading_to_point `{Chrono} (reading : DeviceReading) : option TelemetryPoint :=
  ts ← dt_nanos_opt reading.(timestamp);
  let '(measurement, tags, fields) := point_parts reading in
  Some {| tp_measurement := measurement; tp_device_id := reading.(device_id);
          tp_device_type := device_type_tag reading.(device_type);
          tp_serial_number := reading.(serial_number); tp_zone_code := reading.(zone_code);
          tp_extra_tags := tags; tp_fields := fields; tp_timestamp_ns := ts |}.

(** [ReadingRow] of pg_readings.rs. *)
Record ReadingRow : Type := {
  rr_serial_number : string;
  rr_timestamp_ms : Z;
  rr_generated_kwh : f64;
  rr_consumed_kwh : f64;
  rr_surplus_kwh : f64;
  rr_deficit_kwh : f64;
  rr_voltage : option f64;
  rr_power_factor : option f64;
  rr_frequency : option f64
}.

Definition reading_to_row (reading : DeviceReading) : option ReadingRow :=
  match reading.(metrics) with
  | Energy generated_kwh consumed_kwh net_kwh =>
      Some {| rr_serial_number := reading.(serial_number);
              rr_timestamp_ms := timestamp_millis reading.(timestamp);
              rr_generated_kwh := generated_kwh; rr_consumed_kwh := consumed_kwh;
              rr_surplus_kwh := F64.max net_kwh F64.zero;
              rr_deficit_kwh := F64.max (F64.opp net_kwh) F64.zero;
              rr_voltage := meta_f64 reading "voltage_l1_v";
              rr_power_factor := meta_f64 reading "power_factor";
              rr_frequency := meta_f64 reading "frequency_hz" |}
  | _ => None
  end.
End Zone.

(** ** The stream cipher *)

(** Serialization of a reading, and the encoder of the base64 crate. *)
Class StreamSerde `{SerdeJson} := {
  reading_value : DeviceReading -> Value;
  reading_of_value : Value -> option DeviceReading;
  base64_encode : list Z -> string
}.

(** The laws of the text forms.  [json_dom] and [wire_dom] are the values and
    readings JSON text carries exactly (finite numbers). *)
Class StreamLaws `{K : Crypto} `{SS : StreamSerde} (json_dom : Value -> Prop) (wire_dom : DeviceReading -> Prop)
    : Prop := {
  json_text v : json_dom v -> json_parse (json_print v) = Some v;
  json_dom_str s : json_dom (value_of_str s);
  json_dom_object l : Forall (fun kv => json_dom kv.2) l -> json_dom (value_of_object l);
  jget_object k l : NoDup (fst <$> l) ->
    jget k (value_of_object l) = snd <$> List.find (fun kv => String.eqb k kv.1) l;
  as_str_str s : as_str (value_of_str s) = Some s;
  wire_value r : wire_dom r -> json_dom (reading_value r) /\ reading_of_value (reading_value r) = Some r;
  base64_text l : trim (base64_encode l) = base64_encode l /\ base64_decode (base64_encode l) = Some l
}.

Inductive router_error : Type :=
| ConnectFailed
| EncryptFailed
| PublishFailed
| CipherError.

Section Cipher.
Context {K : Crypto} `{StreamSerde}.

(** [nonce]: what the random generator returns. *)
Definition cipher_encrypt (sek : list Z) (nonce : option (list Z)) (plaintext aad : list Z)
    : outcome router_error (string * string) :=
  let? n := ok_or nonce EncryptFailed in
  Ok (base64_encode n, base64_encode (gcm_encrypt sek n aad plaintext)).

Definition cipher_decrypt (sek : list Z) (nonce_b64 ct_b64 : string) (aad : list Z)
    : outcome router_error (list Z) :=
  let? nonce := ok_or (base64_decode (trim nonce_b64)) CipherError in
  let? _ := ensure (length nonce =? 12)%nat CipherError in
  let? ct := ok_or (base64_decode (trim ct_b64)) CipherError in
  ok_or (gcm_decrypt sek nonce aad ct) CipherError.

(** ** The envelope *)

Definition stream_envelope (event_type : string) (payload : Value) : Value :=
  value_of_object [("event_type"%string, value_of_str event_type); ("payload"%string, payload)].

Definition enc_envelope (event_type nonce ciphertext : string) : Value :=
  value_of_object
    [("event_type"%string, value_of_str event_type);
     ("enc"%string, value_of_object [("nonce"%string, value_of_str nonce); ("ciphertext"%string, value_of_str ciphertext)])].

Definition seal_reading (cipher : option (list Z)) (nonce : option (list Z)) (reading : DeviceReading)
    : outcome router_error string :=
  let event_type := event_type_name reading in
  match cipher with
  | Some sek =>
      let payload_bytes := bytes_of_string (json_print (reading_value reading)) in
      let? (n, ct) := cipher_encrypt sek nonce payload_bytes (bytes_of_string event_type) in
      Ok (json_print (enc_envelope event_type n ct))
  | None => Ok (json_print (stream_envelope event_type (reading_value reading)))
  end.

(** ** disseminate *)

Abbreviation streams := (gmap string (list string)).

(** [XADD key MAXLEN ~ n]: Redis may evict down to, but not below, [n] entries;
    [evict] is how many it chooses to. *)
Definition xadd (max_len : Z) (evict : nat) (s : streams) (name entry : string) (o : io) : streams :=
  if io_applies o then
    let l := default [] (s !! name) ++ [entry] in
    <[name := drop (Nat.min evict (length l - Z.to_nat max_len)) l]> s
  else s.

Record Router : Type := {
  rt_cached : option unit;
  rt_max_stream_len : Z;
  rt_num_zones : Z;
  rt_influx : bool;
  rt_cipher : option (list Z);
  rt_pg_readings : bool
}.

Definition set_cached (r : Router) (c : option unit) : Router :=
  {| rt_cached := c; rt_max_stream_len := r.(rt_max_stream_len); rt_num_zones := r.(rt_num_zones);
     rt_influx := r.(rt_influx); rt_cipher := r.(rt_cipher); rt_pg_readings := r.(rt_pg_readings) |}.

(** What the router writes to. *)
Record sinks : Type := {
  sk_streams : streams;
  sk_influx : list TelemetryPoint;
  sk_pg : list ReadingRow
}.

(** One call's environment: connection attempts, the XADD outcomes, evictions. *)
Record dissem_env : Type := {
  de_build1 : outcome router_error unit;
  de_build2 : outcome router_error unit;
  de_xadd1 : io;
  de_xadd2 : io;
  de_unified : io;
  de_evict : nat;
  de_nonce : option (list Z)
}.

(** XADD with one retry on a fresh connection. *)
Definition publish (r : Router) (e : dissem_env) (s : streams) (name json : string)
    : Router * streams * outcome router_error unit :=
  let s1 := xadd r.(rt_max_stream_len) e.(de_evict) s name json e.(de_xadd1) in
  if io_succeeds e.(de_xadd1) then (r, s1, Ok ())
  else
    let '(c, built) := get_or_build (invalidate_cache r.(rt_cached)) e.(de_build2) in
    match built with
    | Ok _ =>
        let s2 := xadd r.(rt_max_stream_len) e.(de_evict) s1 name json e.(de_xadd2) in
        (set_cached r c, s2, if io_succeeds e.(de_xadd2) then Ok () else Err PublishFailed)
    | Err x => (set_cached r c, s1, Err x)
    | Panic => (set_cached r c, s1, Panic)
    end.

(** The fire-and-forget sinks. *)
Definition record_sinks `{Chrono} (r : Router) (k : sinks) (reading : DeviceReading) : sinks :=
  {| sk_streams := k.(sk_streams);
     sk_influx := if r.(rt_influx) then k.(sk_influx) ++ option_list (reading_to_point reading) else k.(sk_influx);
     sk_pg := if r.(rt_pg_readings) then k.(sk_pg) ++ option_list (reading_to_row reading) else k.(sk_pg) |}.

Definition set_streams (k : sinks) (s : streams) : sinks :=
  {| sk_streams := s; sk_influx := k.(sk_influx); sk_pg := k.(sk_pg) |}.

Definition disseminate `{Chrono} (r : Router) (k : sinks) (e : dissem_env) (reading : DeviceReading)
    : Router * sinks * outcome router_error unit :=
  let '(c, built) := get_or_build r.(rt_cached) e.(de_build1) in
  let r := set_cached r c in
  match built with
  | Err x => (r, k, Err x)
  | Panic => (r, k, Panic)
  | Ok _ =>
      match calculate_zone_index r.(rt_num_zones) reading with
      | None => (r, k, Panic)
      | Some idx =>
          let name := zone_stream idx in
          match seal_reading r.(rt_cipher) e.(de_nonce) reading with
          | Err x => (r, k, Err x)
          | Panic => (r, k, Panic)
          | Ok json =>
              match publish r e k.(sk_streams) name json with
              | (r, s, Ok _) =>
                  let unified := target_stream reading.(device_type) in
                  let s := if String.eqb unified name then s
                           else xadd r.(rt_max_stream_len) e.(de_evict) s unified json e.(de_unified) in
                  (r, record_sinks r (set_streams k s) reading, Ok ())
              | (r, s, Err x) => (r, set_streams k s, Err x)
              | (r, s, Panic) => (r, set_streams k s, Panic)
              end
          end
      end
  end.
End Cipher.
