(* ===== verification/WireRef.v ===== *)
(** * A reference serialization of the streams

    JSON text as the numeral of a tree code, readings as JSON trees, and a base64
    that is the numeral of the bytes: a concrete instance of the stream interfaces
    whose laws hold, for evaluating statements on inputs. *)

From Stdlib Require Import ZArith Lia Ascii String SpecFloat.
From stdpp Require Import base gmap strings list numbers countable.
From S2P Require Import Prelude RustStd External Models BinaryDecoder Router.

Open Scope Z_scope.

(** ** Text of a JSON tree *)

Definition jleaf : Type := bool + (Z + (f64 + (string + list string))).

Fixpoint jval_tree (v : jval) : gen_tree jleaf :=
  match v with
  | JNull => GenNode 0 []
  | JBool b => GenLeaf (inl b)
  | JInt z => GenLeaf (inr (inl z))
  | JFloat x => GenLeaf (inr (inr (inl x)))
  | JStr s => GenLeaf (inr (inr (inr (inl s))))
  | JArr l => GenNode 1 (map jval_tree l)
  | JObj l => GenNode 2 (GenLeaf (inr (inr (inr (inr (map fst l))))) :: map (fun kv => jval_tree kv.2) l)
  end.

Fixpoint tree_jval (t : gen_tree jleaf) : jval :=
  match t with
  | GenLeaf (inl b) => JBool b
  | GenLeaf (inr (inl z)) => JInt z
  | GenLeaf (inr (inr (inl x))) => JFloat x
  | GenLeaf (inr (inr (inr (inl s)))) => JStr s
  | GenNode 1 l => JArr (map tree_jval l)
  | GenNode 2 (GenLeaf (inr (inr (inr (inr ks)))) :: l) => JObj (zip ks (map tree_jval l))
  | _ => JNull
  end.

Lemma tree_jval_tree : forall v, tree_jval (jval_tree v) = v.
Proof.
  fix IH 1. intros [| | | | |l|l]; try reflexivity; cbn; f_equal.
  - induction l as [|v l IHl]; cbn; [reflexivity|]. f_equal; [apply IH|exact IHl].
  - induction l as [|[k v] l IHl]; cbn; [reflexivity|]. f_equal; [f_equal; apply IH|exact IHl].
Qed.

Definition json_wire_ref : SerdeJson := {|
  Value := jval;
  jget := jval_get;
  as_f64 := @as_f64 json_ref; as_i64 := @as_i64 json_ref; as_u64 := @as_u64 json_ref;
  as_str := @as_str json_ref; as_array := @as_array json_ref; as_object := @as_object json_ref;
  value_of_f64 := JFloat; value_of_str := JStr; value_of_object := JObj;
  json_parse s := z ← parse_digits s 0; tree_jval <$> countable.decode (Z.to_pos z);
  json_print v := show_nonneg (Zpos (countable.encode (jval_tree v)))
|}.

(** ** Readings *)

Definition ev_status_code (s : EvStatus) : Z :=
  match s with Available => 0 | EvCharging => 1 | SuspendedEv => 2 | SuspendedEvse => 3 | Finishing => 4 | Faulted => 5 end.
Definition ev_status_of (z : Z) : EvStatus :=
  match z with 0 => Available | 1 => EvCharging | 2 => SuspendedEv | 3 => SuspendedEvse | 4 => Finishing | _ => Faulted end.
Definition mode_code (m : BatteryMode) : Z := match m with Idle => 0 | Charging => 1 | Discharging => 2 end.
Definition mode_of (z : Z) : BatteryMode := match z with 0 => Idle | 1 => Charging | _ => Discharging end.
Definition type_code (d : DeviceType) : Z := match d with SmartMeter => 0 | EvCharger => 1 | Battery => 2 end.
Definition type_of (z : Z) : DeviceType := match z with 0 => SmartMeter | 1 => EvCharger | _ => Battery end.

Definition metrics_jval (m : DeviceMetrics) : jval :=
  match m with
  | Energy g c n => JArr [JFloat g; JFloat c; JFloat n]
  | EvSession e s c st => JArr [JFloat e; JStr s; JInt c; JInt (ev_status_code st)]
  | BatteryState s p t m => JArr [JFloat s; JFloat p; JFloat t; JInt (mode_code m)]
  end.

Definition jval_metrics (v : jval) : option DeviceMetrics :=
  match v with
  | JArr [JFloat g; JFloat c; JFloat n] => Some (Energy g c n)
  | JArr [JFloat e; JStr s; JInt c; JInt st] => Some (EvSession e s c (ev_status_of st))
  | JArr [JFloat s; JFloat p; JFloat t; JInt m] => Some (BatteryState s p t (mode_of m))
  | _ => None
  end.

Lemma jval_metrics_jval m : jval_metrics (metrics_jval m) = Some m.
Proof. destruct m as [| ? ? ? []| ? ? ? []]; reflexivity. Qed.

Section Readings.
#[local] Existing Instance json_wire_ref.

Definition reading_jval (r : DeviceReading) : jval :=
  JArr [JInt (Z.of_N r.(reading_id)); JStr r.(device_id); JInt (type_code r.(device_type)); JStr r.(serial_number);
        match r.(zone_code) with Some z => JStr z | None => JNull end; JInt r.(timestamp);
        metrics_jval r.(metrics); JObj (map_to_list (r.(metadata) : gmap string jval))].

Definition jval_reading (v : jval) : option DeviceReading :=
  match v with
  | JArr [JInt i; JStr d; JInt t; JStr s; z; JInt ts; m; JObj md] =>
      m ← jval_metrics m;
      Some {| reading_id := Z.to_N i; device_id := d; device_type := type_of t; serial_number := s;
              zone_code := match z with JStr z => Some z | _ => None end; timestamp := ts; metrics := m;
              metadata := (list_to_map md : gmap string jval) |}
  | _ => None
  end.

Lemma jval_reading_jval r : jval_reading (reading_jval r) = Some r.
Proof.
  destruct r as [i d t s z ts m md]. cbn. rewrite jval_metrics_jval. cbn. do 2 f_equal.
  - apply N2Z.id.
  - by destruct t.
  - by destruct z.
  - apply list_to_map_to_list.
Qed.
End Readings.

(** ** The instance *)

Definition stream_serde_ref : @StreamSerde json_wire_ref :=
  @Build_StreamSerde json_wire_ref reading_jval jval_reading
    (fun l => show_nonneg (Zpos (countable.encode l))).

Definition crypto_wire_ref : Crypto := {|
  crc32 := @crc32 crypto_ref;
  gcm_decrypt := @gcm_decrypt crypto_ref;
  gcm_encrypt := @gcm_encrypt crypto_ref;
  VerifyingKey := list Z;
  vk_from_bytes := @vk_from_bytes crypto_ref;
  ed25519_verify := @ed25519_verify crypto_ref;
  bs58_decode := @bs58_decode crypto_ref;
  hex_decode := @hex_decode crypto_ref;
  base64_decode s := z ← parse_digits s 0; countable.decode (Z.to_pos z)
|}.

Lemma crypto_wire_ref_laws : @CryptoLaws crypto_wire_ref.
Proof.
  destruct crypto_ref_laws as [H1 H2]. constructor; [exact H1|exact H2].
Qed.

Lemma stream_laws_ref : @StreamLaws crypto_wire_ref json_wire_ref stream_serde_ref (fun _ => True) (fun _ => True).
Proof.
  constructor; cbn [json_parse json_print json_wire_ref jget value_of_object as_str value_of_str reading_value
    reading_of_value stream_serde_ref base64_encode base64_decode crypto_wire_ref]; try done.
  - intros v _. rewrite parse_show_nonneg by lia. cbn [mbind option_bind]. change (Z.to_pos (Zpos ?p)) with p.
    rewrite countable.decode_encode. cbn. by rewrite tree_jval_tree.
  - intros r _. split; [done|apply jval_reading_jval].
  - intros l. split.
    + eapply parse_digits_trim, parse_show_nonneg. lia.
    + rewrite parse_show_nonneg by lia. cbn [mbind option_bind]. change (Z.to_pos (Zpos ?p)) with p.
      apply countable.decode_encode.
Qed.
