(* ===== verification/GridStatus.v ===== *)
(** * The grid-frequency window (aggregator-logic/src/grid_status.rs)

    A deque of plausible frequency samples with their arrival instants, evicted
    from the front once older than the window; the mean drives dispatch. *)

From Stdlib Require Import ZArith Lia Ascii String SpecFloat.
From stdpp Require Import base gmap strings list numbers sorting.
From S2P Require Import Prelude RustStd.

Open Scope Z_scope.

Definition MIN_PLAUSIBLE_HZ : f64 := F64.of_Z 40.
Definition MAX_PLAUSIBLE_HZ : f64 := F64.of_Z 70.

Abbreviation samples := (list (Z * f64)).

Definition plausible (hz : f64) : bool :=
  F64.is_finite hz && F64.leb MIN_PLAUSIBLE_HZ hz && F64.leb hz MAX_PLAUSIBLE_HZ.

Section Monitor.
(** [Instant::checked_sub] fails below the platform's first instant. *)
Context (first_instant window : Z).

Definition checked_sub (now : Z) : option Z :=
  if now - window <? first_instant then None else Some (now - window).

Fixpoint pop_while (cutoff : Z) (l : samples) : samples :=
  match l with
  | (t, hz) :: l' => if t <? cutoff then pop_while cutoff l' else l
  | [] => []
  end.

Definition evict (l : samples) (now : Z) : samples :=
  match checked_sub now with
  | None => l
  | Some cutoff => pop_while cutoff l
  end.

(** [now], [now']: the clock at the push and at the eviction. *)
Definition record (l : samples) (hz : f64) (now now' : Z) : samples :=
  if negb (plausible hz) then l else evict (l ++ [(now, hz)]) now'.

Definition mean (l : samples) (now : Z) : samples * option f64 :=
  let l := evict l now in
  (l, match l with
      | [] => None
      | _ => Some (F64.div (F64.sum (snd <$> l) F64.zero) (F64.of_Z (Z.of_nat (length l))))
      end).

(** Samples are plausible and in order of arrival. *)
Definition window_ok (last : Z) (l : samples) : Prop :=
  Forall (fun s => plausible s.2 = true /\ s.1 <= last) l /\ StronglySorted (fun a b => a.1 <= b.1) l.

Lemma pop_while_suffix cutoff l : exists k, pop_while cutoff l = drop k l.
Proof.
  induction l as [|[t hz] l [k IH]]; [by exists 0%nat|]. cbn. destruct (t <? cutoff); [by exists (S k)|by exists 0%nat].
Qed.

Lemma evict_suffix l now : exists k, evict l now = drop k l.
Proof. unfold evict. destruct (checked_sub now); [apply pop_while_suffix|by exists 0%nat]. Qed.

Lemma StronglySorted_drop {A} (R : A -> A -> Prop) k l : StronglySorted R l -> StronglySorted R (drop k l).
Proof. revert l. induction k; intros [|x l]; cbn; auto. intros [H _]%StronglySorted_inv. auto. Qed.

Lemma evict_ok last l now : window_ok last l -> window_ok last (evict l now).
Proof.
  intros [H1 H2]. destruct (evict_suffix l now) as [k ->].
  split; [by apply Forall_drop|by apply StronglySorted_drop].
Qed.

Lemma pop_while_fresh cutoff last l : window_ok last l -> Forall (fun s => cutoff <= s.1) (pop_while cutoff l).
Proof.
  intros [_ H]. induction H as [|[t hz] l Hs IH Hf]; cbn; [constructor|].
  destruct (t <? cutoff) eqn:E; [exact IH|]. breflect. constructor; [exact E|].
  eapply Forall_impl; [exact Hf|]. intros [t' hz'] ?. cbn in *. lia.
Qed.

Lemma record_ok last l hz now now' :
  window_ok last l -> last <= now -> window_ok now (record l hz now now').
Proof.
  intros [H1 H2] Hn. unfold record.
  assert (Hl : window_ok now l).
  { split; [|done]. eapply Forall_impl; [exact H1|]. intros [] [? ?]. cbn in *. split; [done|lia]. }
  destruct (plausible hz) eqn:E; cbn [negb]; [|exact Hl]. apply evict_ok. destruct Hl as [H3 _]. split.
  - apply Forall_app. split; [done|]. repeat constructor; [done|cbn; lia].
  - clear H1. induction H2 as [|x l Hs IH Hf]; cbn; [repeat constructor|].
    apply list.Forall_cons in H3 as [[_ Hx] H3]. constructor; [by apply IH|].
    apply Forall_app. split; [done|]. repeat constructor. exact Hx.
Qed.

(** Recordings in clock order. *)
Fixpoint record_all (l : samples) (rs : list (f64 * Z)) : samples :=
  match rs with
  | [] => l
  | (hz, now) :: rs => record_all (record l hz now now) rs
  end.

Lemma record_all_ok rs : forall last l, window_ok last l -> StronglySorted Z.le (last :: (snd <$> rs)) ->
  window_ok (List.last (snd <$> rs) last) (record_all l rs).
Proof.
  induction rs as [|[hz now] rs IH]; intros last l Hl Hs; [exact Hl|].
  apply StronglySorted_inv in Hs as [Hs Hf]. cbn in Hf. apply list.Forall_cons in Hf as [Hn _].
  replace (List.last (snd <$> (hz, now) :: rs) last) with (List.last (snd <$> rs) now).
  - apply IH; [by eapply record_ok|exact Hs].
  - cbn. generalize (snd <$> rs). clear. intros l. revert now last.
    induction l as [|x l IH]; intros now last; cbn; [done|]. destruct l; [done|apply IH].
Qed.

(** Whatever samples arrive, in clock order, the mean is computed
    over plausible samples (40 to 70 Hz) no older than the window, and is absent
    exactly when no such sample is left. *)
Theorem mean_is_fresh rs now :
  StronglySorted Z.le (first_instant + window :: (snd <$> rs)) ->
  Forall (fun t => t <= now) (first_instant + window :: (snd <$> rs)) ->
  Forall (fun s => plausible s.2 = true /\ now - window <= s.1 <= now) (mean (record_all [] rs) now).1 /\
  ((mean (record_all [] rs) now).2 = None <-> (mean (record_all [] rs) now).1 = []).
Proof.
  intros Hs Ht. assert (Hw : window_ok now (record_all [] rs)).
  { pose proof (record_all_ok rs (first_instant + window) [] ltac:(split; constructor) Hs) as [H1 H2].
    split; [|done]. eapply Forall_impl; [exact H1|]. intros s [? Hl]. split; [done|].
    enough (List.last (snd <$> rs) (first_instant + window) <= now) by lia.
    clear -Ht. apply list.Forall_cons in Ht as [H0 H]. revert H. generalize (snd <$> rs). intros l H.
    induction H as [|x l Hx H IH]; cbn; [done|]. by destruct l. }
  apply list.Forall_cons in Ht as [H0 _]. unfold mean. cbn [fst snd]. split.
  - pose proof (evict_ok _ _ now Hw) as [He _]. apply Forall_forall. intros s Hin.
    rewrite Forall_forall in He. destruct (He s Hin) as [? ?]. split; [done|]. split; [|done].
    unfold evict, checked_sub in Hin. rewrite (proj2 (Z.ltb_ge _ _)) in Hin by lia.
    pose proof (pop_while_fresh (now - window) now _ Hw) as Hf. rewrite Forall_forall in Hf. by apply Hf.
  - by destruct (evict (record_all [] rs) now).
Qed.
End Monitor.

Lemma mean_is_fresh_witness :
  Forall (fun s => plausible s.2 = true /\ 95 - 60 <= s.1 <= 95)
    (mean 0 60 (record_all 0 60 [] [(F64.of_Z 50, 61); (F64.of_Z 90, 62); (F64.of_Z 49, 90)]) 95).1.
Proof.
  apply (mean_is_fresh 0 60 [(F64.of_Z 50, 61); (F64.of_Z 90, 62); (F64.of_Z 49, 90)] 95).
  - cbn. repeat first [lia | constructor].
  - cbn. repeat first [lia | constructor].
Defined.
