(* ===== verification/ZoneIngester.v ===== *)
(** * The zone ingester (aggregator-api/src/ingester: zone_ingester.rs, mod.rs)

    A zone worker reads its Redis stream through a consumer group, opens the
    envelope, decodes the event, bins the reading under the aggregator lock
    together with the send to the durable write-through channel, and acknowledges
    the entry; stale pending entries are reclaimed.  The state is the aggregator,
    the channel, the frequency window and the group's pending entries. *)

From Stdlib Require Import ZArith Lia Ascii String SpecFloat.
From stdpp Require Import base gmap strings list numbers.
From S2P Require Import Prelude RustStd External Models Aggregator Stores Settlement GridStatus Router.

Open Scope Z_scope.
Open Scope bridge_scope.

Section Events.
Context {J : SerdeJson} {K : Crypto} {SS : StreamSerde}.

(** ** mod.rs: the event decoder *)

Inductive Event : Type :=
| EvReading (reading : DeviceReading)   (* SmartMeterReading, EvCharging, BatteryStateUpdate *)
| EvOther.                              (* the other tags, and Unknown *)

Definition reading_tags : list string := ["SmartMeterReading"; "EvCharging"; "BatteryStateUpdate"]%string.
Definition value_tags : list string :=
  ["OrderMatched"; "OrderUpdate"; "SettlementRequested"; "PeakPriceUpdate"; "TriggerExecution"; "OrderCreated"]%string.

(** The derived decoder of the adjacently tagged enum. *)
Definition event_of_value (v : Value) : option Event :=
  tag ← jget "event_type" v ≫= as_str;
  if existsb (String.eqb tag) reading_tags then
    payload ← jget "payload" v;
    EvReading <$> reading_of_value payload
  else if existsb (String.eqb tag) value_tags then
    _ ← jget "payload" v; Some EvOther
  else Some EvOther.

Definition event_from_str (s : string) : option Event := json_parse s ≫= event_of_value.

Definition str_or_empty (v : option Value) : string := default EmptyString (v ≫= as_str).

Definition decode_entry (raw : string) (cipher : option (list Z)) : option string :=
  value ← json_parse raw;
  match jget "enc" value with
  | None => Some raw
  | Some enc =>
      sek ← cipher;
      let event_type := str_or_empty (jget "event_type" value) in
      let nonce := str_or_empty (jget "nonce" enc) in
      let ct := str_or_empty (jget "ciphertext" enc) in
      match cipher_decrypt sek nonce ct (bytes_of_string event_type) with
      | Ok plaintext =>
          payload ← json_parse (string_of_bytes plaintext);
          Some (json_print (stream_envelope event_type payload))
      | _ => None
      end
  end.
End Events.

(** ** The ingester *)

(** A pending entry: its id and its [event] field. *)
Abbreviation pending := (string * option string)%type.

Section Ingester.
Context {J : SerdeJson} {K : Crypto} {SS : StreamSerde} {FT : F64Text}.
Context {C : Chrono} {D : RustDecimal} {U : UuidText}.

(** The first key present decides, also when its value is not a number. *)
Definition extract_frequency (m : gmap string Value) : option f64 :=
  v ← match m !! "frequency"%string with Some v => Some v | None => m !! "frequency_hz"%string end;
  match as_f64 v with
  | Some x => Some x
  | None => as_str v ≫= f64_parse
  end.

(** [t as u8] keeps the low byte. *)
Definition extract_tariff_demand (m : gmap string Value) : option Z * option Dec :=
  (wrap 8 <$> (m !! "active_tariff"%string ≫= as_u64),
   p ← m !! "sum_active_power_kw"%string ≫= as_f64;
   if F64.ltb F64.zero p then dec_from_f64_retain p else None).

(** Generated and consumed energy by kind of device. *)
Definition energy_split (m : DeviceMetrics) : Dec * Dec :=
  match m with
  | Energy generated_kwh consumed_kwh _ => (positive_or_zero generated_kwh, positive_or_zero consumed_kwh)
  | EvSession energy_delivered_kwh _ _ _ => (dec_zero, positive_or_zero energy_delivered_kwh)
  | BatteryState _ power_kw _ mode =>
      match mode with
      | Charging => (dec_zero, positive_or_zero (F64.abs power_kw))
      | Discharging => (positive_or_zero (F64.abs power_kw), dec_zero)
      | Idle => (dec_zero, dec_zero)
      end
  end.

(** [owner]: what the meter registry resolves the serial to. *)
Definition reading_args_of (owner : outcome unit (option Uuid)) (r : DeviceReading) : reading_args :=
  let '(generated, consumed) := energy_split r.(metrics) in
  let '(tariff, demand) := extract_tariff_demand r.(metadata) in
  {| ra_meter_id := uuid_v5_oid r.(serial_number);
     ra_user_id := match owner with Ok (Some uid) => uid | _ => uuid_nil end;
     ra_meter_serial := r.(serial_number);
     ra_generated := generated; ra_consumed := consumed;
     ra_timestamp := r.(timestamp);
     ra_tariff_period := tariff; ra_demand_kw := demand;
     ra_zone_code := r.(zone_code) ≫= fun z => parse_unsigned 16 (trim z) |}.

Record zone_state : Type := {
  zs_agg : Aggregator;
  zs_channel : list BillingBin;      (* sent to the write-through task *)
  zs_freq : samples;
  zs_late : Z;                       (* late readings counted *)
  zs_pel : list pending              (* delivered, not acknowledged *)
}.

(** The ingester's configuration. *)
Record zone_config : Type := {
  zc_cipher : option (list Z);
  zc_durable : bool;                 (* bin_write_tx is Some *)
  zc_monitor : bool;                 (* frequency_monitor is Some *)
  zc_first_instant : Z;
  zc_freq_window : Z
}.

(** What happens around one entry: clocks, the registry's answer, the XACK. *)
Record entry_env : Type := {
  ee_now : Z;
  ee_instant : Z;
  ee_owner : string -> outcome unit (option Uuid);
  ee_ack : io
}.

Definition set_pel (s : zone_state) (p : list pending) : zone_state :=
  {| zs_agg := s.(zs_agg); zs_channel := s.(zs_channel); zs_freq := s.(zs_freq); zs_late := s.(zs_late);
     zs_pel := p |}.

Definition ack_entry (s : zone_state) (id : string) (o : io) : zone_state * outcome redis_error unit :=
  (if io_applies o then set_pel s (List.filter (fun p => negb (String.eqb p.1 id)) s.(zs_pel)) else s,
   io_result o).

Definition feed_monitor (cfg : zone_config) (env : entry_env) (s : zone_state) (r : DeviceReading) : zone_state :=
  if cfg.(zc_monitor) then
    match extract_frequency r.(metadata) with
    | Some hz =>
        {| zs_agg := s.(zs_agg); zs_channel := s.(zs_channel);
           zs_freq := record cfg.(zc_first_instant) cfg.(zc_freq_window) s.(zs_freq) hz env.(ee_instant) env.(ee_instant);
           zs_late := s.(zs_late); zs_pel := s.(zs_pel) |}
    | None => s
    end
  else s.

(** The locked section: bin the reading, send the snapshot. *)
Definition bin_reading (cfg : zone_config) (now : Z) (s : zone_state) (a : reading_args)
    : zone_state * outcome Empty_set unit :=
  let '(agg, res) := handle_reading s.(zs_agg) now a in
  let with_channel ch late :=
    {| zs_agg := agg; zs_channel := ch; zs_freq := s.(zs_freq); zs_late := late; zs_pel := s.(zs_pel) |} in
  match res with
  | Ok (Some b) =>
      (with_channel (if cfg.(zc_durable) then s.(zs_channel) ++ [b] else s.(zs_channel)) s.(zs_late), Ok ())
  | Ok None => (with_channel s.(zs_channel) (s.(zs_late) + 1), Ok ())
  | _ => (with_channel s.(zs_channel) s.(zs_late), Panic)
  end.

Definition handle_iot_reading (cfg : zone_config) (env : entry_env) (s : zone_state) (r : DeviceReading)
    (entry_id : string) : zone_state * outcome redis_error unit :=
  let s := feed_monitor cfg env s r in
  match bin_reading cfg env.(ee_now) s (reading_args_of (env.(ee_owner) r.(serial_number)) r) with
  | (s, Ok _) => ack_entry s entry_id env.(ee_ack)
  | (s, _) => (s, Panic)
  end.

(** The decoded entry of either path; errors are only logged. *)
Definition process_json (cfg : zone_config) (env : entry_env) (s : zone_state) (id json : string) : zone_state :=
  match event_from_str json with
  | Some (EvReading r) => (handle_iot_reading cfg env s r id).1
  | Some EvOther => (ack_entry s id env.(ee_ack)).1
  | None => s
  end.

(** The task [process_zone_stream] spawns for an entry the group delivered. *)
Definition process_delivered (cfg : zone_config) (env : entry_env) (s : zone_state) (p : pending) : zone_state :=
  match p.2 with
  | None => s
  | Some raw =>
      match decode_entry raw cfg.(zc_cipher) with
      | Some json => process_json cfg env s p.1 json
      | None => (ack_entry s p.1 env.(ee_ack)).1
      end
  end.

(** Delivery, which makes the entry pending, and its task. *)
Definition process_entry (cfg : zone_config) (env : entry_env) (s : zone_state) (p : pending) : zone_state :=
  process_delivered cfg env (set_pel s (s.(zs_pel) ++ [p])) p.

(** ** Reclaiming *)

Definition RECLAIM_BATCH : nat := 50.
Definition STALE_MS : Z := 30000.

(** [idle]: how long each entry has been pending. *)
Definition ids_to_claim (idle : string -> Z) (s : zone_state) : list pending :=
  List.filter (fun p => STALE_MS <=? idle p.1) (take RECLAIM_BATCH s.(zs_pel)).

Definition reclaim_entry (cfg : zone_config) (env : entry_env) (s : zone_state) (p : pending) : zone_state :=
  match p.2 ≫= fun raw => decode_entry raw cfg.(zc_cipher) with
  | Some json => process_json cfg env s p.1 json
  | None => (ack_entry s p.1 env.(ee_ack)).1
  end.

Definition reclaim_stale_messages (cfg : zone_config) (env : entry_env) (idle : string -> Z) (s : zone_state)
    : zone_state :=
  fold_left (reclaim_entry cfg env) (ids_to_claim idle s) s.
End Ingester.
