(* ===== verification/SweepTick.v ===== *)
(** * One tick of the settlement loop (src/src/main.rs: settlement sink;
      aggregator-logic/src/zone_balance.rs: zone_balances, log_zone_balances)

    A tick drains the completed bins from the aggregator, logs the energy balance of
    every zone, then settles the bins one by one.  The balances are compared with a
    direct definition, and a tick on the bins of any run of the ingester settles every
    bin it drained. *)

From Stdlib Require Import ZArith Lia Ascii String SpecFloat.
From stdpp Require Import base gmap strings list numbers sorting.
From S2P Require Import Prelude RustStd External Models Aggregator AggregatorProps SettledWindows Stores Mint Settlement SettlementSafety ZoneIngester.

Open Scope string_scope.
Open Scope Z_scope.
Open Scope bridge_scope.

(** ** The log of a sweep *)

Record zone_line : Type := {
  zl_zone : string;
  zl_bins : Z;
  zl_generated_kwh : f64;
  zl_consumed_kwh : f64;
  zl_net_kwh : f64;
  zl_imbalance_ratio : f64
}.

Record zone_log : Type := { zg_lines : list zone_line; zg_zones : nat; zg_system_net_kwh : f64 }.

Definition zone_line_of (z : ZoneBalance) : zone_line := {|
  zl_zone := match z.(zb_zone_code) with Some c => show_Z c | None => "none" end;
  zl_bins := z.(zb_bin_count); zl_generated_kwh := z.(zb_generated_kwh);
  zl_consumed_kwh := z.(zb_consumed_kwh); zl_net_kwh := z.(zb_net_kwh);
  zl_imbalance_ratio := default F64.zero (imbalance_ratio z) |}.

Section Tick.
Context {C : Chrono} {D : RustDecimal} {U : UuidText} {K : Crypto} {BC : Codec BillingBin} {PC : Codec PendingMint}.

Definition log_zone_balances (bins : list BillingBin) : outcome Empty_set zone_log :=
  let? balances := zone_balances bins in
  Ok {| zg_lines := zone_line_of <$> balances; zg_zones := length balances;
        zg_system_net_kwh := system_net_kwh balances |}.

(** [continue] when nothing is complete; [envs] gives what the services answer while
    each bin is settled. *)
Definition settlement_tick (agg : Aggregator) (r : Redis) (now grace : Z) (envs : BillingBin -> sweep_env)
    : Aggregator * outcome Empty_set (option zone_log * Redis * list sweep_result) :=
  match peek_completed_bins_at agg now grace with
  | Ok [] => (agg, Ok (None, r, []))
  | Ok bins =>
      match remove_bins agg (key <$> bins) with
      | (agg, Ok _) =>
          (agg, let? log := log_zone_balances bins in
                let? (r, results) := settle_bins r ((fun b => (b, envs b)) <$> bins) in
                Ok (Some log, r, results))
      | (agg, _) => (agg, Panic)
      end
  | Err e => (agg, Err e)
  | Panic => (agg, Panic)
  end.
End Tick.

(** ** The balances, directly *)

Section Balances.
Context {D : RustDecimal}.

Definition zone_lt (a b : option Z) : Prop := zone_ltb a b = true.

Lemma zone_lt_irrefl a : ~ zone_lt a a.
Proof. unfold zone_lt, zone_ltb. destruct a; breflect; [lia|done]. Qed.

Lemma zone_lt_trans a b c : zone_lt a b -> zone_lt b c -> zone_lt a c.
Proof. unfold zone_lt, zone_ltb. destruct a, b, c; breflect; try done; lia. Qed.

Lemma zone_lt_total a b : a <> b -> zone_ltb a b = false -> zone_lt b a.
Proof.
  unfold zone_lt, zone_ltb. destruct a as [x|], b as [y|]; intros Hne H; try done.
  apply Z.ltb_lt. apply Z.ltb_ge in H. assert (x <> y) by congruence. lia.
Qed.

(** The net energy of a bin, when it can be computed. *)
Definition net_of (b : BillingBin) : option f64 := ok_of (net_energy_kwh b).

(** The total of zone [c]: its own bins, in their order, and no others. *)
Definition zone_total (bins : list BillingBin) (c : option Z) : ZoneBalance :=
  fold_left (fun z b => zone_add z b (default F64.zero (net_of b)))
    (List.filter (fun b => bool_decide (b.(bin_zone_code) = c)) bins) (zone_empty c).

Definition codes (l : list ZoneBalance) : list (option Z) := zb_zone_code <$> l.

Lemma fold_zone_code bs : forall z,
  (fold_left (fun z b => zone_add z b (default F64.zero (net_of b))) bs z).(zb_zone_code) = z.(zb_zone_code).
Proof. induction bs as [|b bs IH]; intros z; [done|]. cbn [fold_left]. by rewrite IH. Qed.

Lemma zone_total_code bins c : (zone_total bins c).(zb_zone_code) = c.
Proof. apply fold_zone_code. Qed.

Lemma zone_total_snoc bins b c :
  zone_total (bins ++ [b]) c =
  if bool_decide (b.(bin_zone_code) = c) then zone_add (zone_total bins c) b (default F64.zero (net_of b))
  else zone_total bins c.
Proof.
  unfold zone_total. rewrite List.filter_app, fold_left_app. cbn [List.filter].
  by destruct (bool_decide (bin_zone_code b = c)).
Qed.

(** What the loop has after the bins [bins]. *)
Definition balances_ok (bins : list BillingBin) (l : list ZoneBalance) : Prop :=
  StronglySorted zone_lt (codes l) /\ l = zone_total bins <$> codes l /\
  forall c, c ∈ codes l <-> c ∈ (bin_zone_code <$> bins).

Lemma zone_entry_codes l c f : (forall z, (f z).(zb_zone_code) = z.(zb_zone_code)) ->
  StronglySorted zone_lt (codes l) ->
  StronglySorted zone_lt (codes (zone_entry l c f)) /\
  forall c', c' ∈ codes (zone_entry l c f) <-> c' = c \/ c' ∈ codes l.
Proof.
  intros Hf. induction l as [|z l IH]; intros Hs; cbn [zone_entry].
  { unfold codes. cbn. rewrite Hf. cbn. split; [repeat constructor|]. intros c'. by rewrite elem_of_cons. }
  unfold codes in *. cbn [fmap list_fmap] in Hs. apply StronglySorted_inv in Hs as [Hs Hall].
  case_bool_decide as E; [|destruct (zone_ltb c (zb_zone_code z)) eqn:El]; cbn [fmap list_fmap].
  - rewrite Hf. split; [by constructor|]. intros c'. rewrite !elem_of_cons, E. tauto.
  - rewrite Hf. cbn [zone_empty zb_zone_code]. split; [|intros c'; by rewrite !elem_of_cons].
    constructor; [by constructor|]. constructor; [done|].
    eapply Forall_impl; [exact Hall|]. intros c' Hc'. by eapply zone_lt_trans.
  - destruct (IH Hs) as [Hs' He]. split; [|intros c'; rewrite !elem_of_cons, He; tauto]. constructor; [done|].
    apply Forall_forall. intros c' [->|Hc']%He.
    + apply zone_lt_total; [congruence|done].
    + rewrite Forall_forall in Hall. by apply Hall.
Qed.

Lemma zone_entry_total (g : option Z -> ZoneBalance) l c f :
  (forall c, (g c).(zb_zone_code) = c) -> (forall z, (f z).(zb_zone_code) = z.(zb_zone_code)) ->
  StronglySorted zone_lt (codes l) -> l = g <$> codes l -> (c ∉ codes l -> g c = zone_empty c) ->
  zone_entry l c f = (fun c' => if bool_decide (c = c') then f (g c) else g c') <$> codes (zone_entry l c f).
Proof.
  intros Hg Hf. unfold codes. induction l as [|z l IH]; intros Hs Hl Hc; cbn [zone_entry fmap list_fmap] in *.
  { rewrite Hf, Hc by apply not_elem_of_nil. cbn. by rewrite bool_decide_eq_true_2. }
  injection Hl as Hz Hl. apply StronglySorted_inv in Hs as [Hs Hall].
  assert (Hrest : forall l' : list ZoneBalance, l' = g <$> (zb_zone_code <$> l') -> c ∉ (zb_zone_code <$> l') ->
      l' = (fun c' => if bool_decide (c = c') then f (g c) else g c') <$> (zb_zone_code <$> l')).
  { intros l' Hl' Hn. rewrite Hl' at 1. apply list_fmap_ext. intros i c' Hi. rewrite bool_decide_eq_false_2; [done|].
    intros ->. apply Hn. by eapply list_elem_of_lookup_2. }
  assert (Hbelow : zone_lt c (zb_zone_code z) \/ zb_zone_code z = c -> c ∉ (zb_zone_code <$> l)).
  { intros Hd Hin. rewrite Forall_forall in Hall. apply Hall in Hin.
    destruct Hd as [Hd| <-]; [apply (zone_lt_irrefl c); by eapply zone_lt_trans|by eapply zone_lt_irrefl]. }
  case_bool_decide as E; [|destruct (zone_ltb c (zb_zone_code z)) eqn:El]; cbn [fmap list_fmap].
  - rewrite Hf, bool_decide_eq_true_2 by done. f_equal; [congruence|]. apply Hrest; [done|]. apply Hbelow. by right.
  - rewrite Hf. cbn [zone_empty zb_zone_code]. rewrite bool_decide_eq_true_2, bool_decide_eq_false_2 by done.
    assert (Hn : c ∉ (zb_zone_code <$> l)) by (apply Hbelow; by left).
    f_equal; [|f_equal; [done|by apply Hrest]]. rewrite Hc; [done|]. rewrite elem_of_cons. intros [?|?]; [congruence|done].
  - rewrite bool_decide_eq_false_2 by done. f_equal; [done|]. apply IH; [done|done|]. intros Hn. apply Hc.
    rewrite elem_of_cons. intros [?|?]; [congruence|done].
Qed.

Lemma none_kept {A} (P : A -> bool) l : (forall x, x ∈ l -> P x = false) -> List.filter P l = [].
Proof. induction l as [|x l IH]; intros H; [done|]. cbn. rewrite H by left. apply IH. intros y Hy. apply H. by right. Qed.

Lemma balances_step bins l b net :
  net_energy_kwh b = Ok net -> balances_ok bins l ->
  balances_ok (bins ++ [b]) (zone_entry l b.(bin_zone_code) (fun z => zone_add z b net)).
Proof.
  intros Hnet (Hs & Hl & Hin).
  assert (Hno : bin_zone_code b ∉ codes l -> zone_total bins (bin_zone_code b) = zone_empty (bin_zone_code b)).
  { intros Hn. unfold zone_total. replace (List.filter _ bins) with (@nil BillingBin); [done|].
    symmetry. apply none_kept. intros x Hx. apply bool_decide_eq_false. intros Hz. apply Hn, Hin.
    rewrite <- Hz. by apply list_elem_of_fmap_2. }
  destruct (zone_entry_codes l (bin_zone_code b) (fun z => zone_add z b net) (fun _ => eq_refl) Hs) as [Hs' Hc].
  split; [done|]. split.
  - rewrite (zone_entry_total (zone_total bins)) at 1; [|apply zone_total_code|done..].
    apply list_fmap_ext. intros _ c _. rewrite zone_total_snoc. unfold net_of. rewrite Hnet. cbn [ok_of default].
    case_bool_decide as E; [by rewrite E|done].
  - intros c. rewrite Hc, fmap_app, Hin, elem_of_app. cbn. rewrite list_elem_of_singleton. tauto.
Qed.

Lemma zone_balances_from_ok bins : forall l prev,
  balances_ok prev l ->
  match zone_balances_from l bins with
  | Ok l' => balances_ok (prev ++ bins)%list l' /\ Forall (fun b => is_Some (net_of b)) bins
  | _ => Exists (fun b => net_of b = None) bins
  end.
Proof.
  induction bins as [|b bins IH]; intros l prev Hl; cbn [zone_balances_from]; [by rewrite app_nil_r|].
  destruct (net_energy_kwh b) as [net|[]|] eqn:E; cbn [obind].
  - specialize (IH _ _ (balances_step _ _ _ _ E Hl)). rewrite <- app_assoc in IH. cbn [app] in IH.
    destruct (zone_balances_from _ bins); [destruct IH as [? ?]|by apply Exists_cons_tl..].
    split; [done|]. constructor; [|done]. unfold net_of. rewrite E. by eexists.
  - apply Exists_cons_hd. unfold net_of. by rewrite E.
Qed.

(** The balances of a sweep are one entry per zone that occurs, in increasing order
    with the unzoned bins first, and each entry totals exactly the bins of its own zone
    in their order: no energy of an unzoned bin reaches a zone, none is left out. *)
Theorem balances_by_zone bins l :
  zone_balances bins = Ok l ->
  StronglySorted zone_lt (codes l) /\ (forall c, c ∈ codes l <-> c ∈ (bin_zone_code <$> bins)) /\
  l = zone_total bins <$> codes l.
Proof.
  intros H. pose proof (zone_balances_from_ok bins [] []) as Hb. unfold zone_balances in H. rewrite H in Hb.
  destruct Hb as [(? & ? & ?) _]; [|by split_and!]. split_and!; [constructor|done|done].
Qed.
End Balances.

(** ** What a tick settles *)

Section TickProps.
Context {C : Chrono} {D : RustDecimal} {U : UuidText} {K : Crypto} {BC : Codec BillingBin} {PC : Codec PendingMint}.

Lemma settle_bins_total envs bins : forall r,
  Forall (fun b => is_Some (net_of b)) bins ->
  exists r' srs, settle_bins r ((fun b => (b, envs b)) <$> bins) = Ok (r', srs) /\ length srs = length bins.
Proof.
  induction bins as [|b bins IH]; intros r Hn; [by eexists _, []|].
  apply Forall_cons_1 in Hn as [Hb Hn]. cbn [fmap list_fmap settle_bins].
  assert (exists sr, settle_bin (envs b) r b = Ok sr) as [sr Hsr].
  { assert (exists d, plan_mint b (is_enabled (se_gateway (envs b))) = Ok d) as [d Hd].
    { unfold plan_mint, net_surplus_kwh. unfold net_of, net_energy_kwh in Hb. destruct (is_enabled _); [|by eexists].
      destruct (unwrap (dec_sub (energy_generated b) (energy_consumed b))); cbn in *; [by eexists|by destruct Hb..]. }
    unfold settle_bin. rewrite Hd. cbn [obind].
    match goal with |- context [let '(_, _) := ?x in _] => destruct x as [[r1 h] sp] end. by eexists. }
  rewrite Hsr. cbn [obind]. destruct (IH sr.(sr_redis) Hn) as (r' & srs & -> & Hl). cbn [obind].
  eexists _, _. split; [done|]. cbn. by rewrite Hl.
Qed.

(** Decimals of both signs have the same range: a sum of non-negative ones is not
    negative, and two non-negative sums that did not overflow can be subtracted. *)
Definition nonneg (d : Dec) : Prop := dec_ltb d dec_zero = false.

Class DecimalRange : Prop := {
  dec_zero_nonneg : nonneg dec_zero;
  dec_add_nonneg a b c : nonneg a -> nonneg b -> dec_add a b = Some c -> nonneg c;
  dec_sub_nonneg x d a y e b :
    dec_add x d = Some a -> dec_add y e = Some b -> nonneg a -> nonneg b -> is_Some (dec_sub a b)
}.
Context {DR : DecimalRange}.

Definition nonneg_args (a : reading_args) : Prop := nonneg a.(ra_generated) /\ nonneg a.(ra_consumed).
Definition nonneg_op (op : agg_op) : Prop := match op with OpReading _ a => nonneg_args a | OpDrain _ _ => True end.

(** What the zone ingester bins has no negative energy. *)
Lemma ingested_nonneg `{!DecimalLaws} {J : SerdeJson} owner r : nonneg_args (reading_args_of owner r).
Proof.
  unfold reading_args_of, nonneg_args, nonneg. destruct (energy_split (metrics r)) as [g c] eqn:E.
  destruct (extract_tariff_demand _). cbn [ra_generated ra_consumed].
  unfold energy_split in E. destruct (metrics r) as [| |? ? ? []]; injection E as <- <-;
    split; auto using positive_or_zero_nonneg, dec_lt_irrefl.
Qed.

Lemma dec_sum_nonneg l d : Forall nonneg l -> dec_sum l = Some d -> l <> [] ->
  nonneg d /\ exists x y, dec_add x y = Some d.
Proof.
  revert d. induction l as [|e l IH] using rev_ind; intros d Hl Hd Hne; [done|].
  rewrite dec_sum_snoc in Hd. apply bind_Some in Hd as (a & Ha & Hd). apply Forall_app in Hl as [Hl [He _]%Forall_cons_1].
  split; [|by eauto]. eapply dec_add_nonneg; [|exact He|exact Hd].
  destruct l as [|e' l]; [cbn in Ha; injection Ha as <-; apply dec_zero_nonneg|]. by apply IH.
Qed.

Lemma accounted_net l b : Forall nonneg_args l -> bin_accounts l b -> is_Some (net_of b).
Proof.
  intros Hl Hb. assert (l <> []) as Hne by (intros ->; by pose proof (acc_owner _ _ Hb)).
  assert (Forall nonneg (ra_generated <$> l) /\ Forall nonneg (ra_consumed <$> l)) as [Hg Hc]
    by (split; apply Forall_fmap; eapply Forall_impl; [exact Hl| |exact Hl|]; intros ? [? ?]; done).
  destruct (dec_sum_nonneg _ _ Hg (acc_generated _ _ Hb)) as (Hg' & ? & ? & Hga); [by destruct l|].
  destruct (dec_sum_nonneg _ _ Hc (acc_consumed _ _ Hb)) as (Hc' & ? & ? & Hca); [by destruct l|].
  destruct (dec_sub_nonneg _ _ _ _ _ _ Hga Hca Hg' Hc') as [net Hn].
  unfold net_of, net_energy_kwh. rewrite Hn. by eexists.
Qed.

Lemma binned_nonneg ops s : Forall nonneg_op ops -> run_trace trace_init ops = Some s -> Forall nonneg_args s.(ts_binned).
Proof.
  assert (forall s0, Forall nonneg_args s0.(ts_binned) -> Forall nonneg_op ops -> run_trace s0 ops = Some s ->
            Forall nonneg_args s.(ts_binned)) as H; [|intros; by apply (H trace_init)].
  induction ops as [|op ops IH]; intros s0 H0 Hops; cbn [run_trace]; [by intros [= <-]|].
  apply Forall_cons_1 in Hops as [Hop Hops]. intros (s1 & H1 & H)%bind_Some. apply (IH s1); [|done|done].
  destruct op as [now a|now grace]; cbn [trace_step] in H1; repeat case_match; simplify_eq; cbn; [|done..].
  apply Forall_app. split; [done|]. by apply Forall_singleton.
Qed.

Lemma drained_net ops s now grace bs :
  Forall nonneg_op ops -> run_trace trace_init ops = Some s ->
  peek_completed_bins_at s.(ts_agg) now grace = Ok bs -> Forall (fun b => is_Some (net_of b)) bs.
Proof.
  intros Hops Hrun Hp. apply Forall_forall. intros b Hb. apply peek_filter in Hp as ->.
  apply list_elem_of_In, List.filter_In in Hb as [Hb%list_elem_of_In _].
  destruct (trace_accounted ops s (key b) Hrun) as [Hk (groups & cur & Hbin & _ & Hcur)].
  apply elem_of_bin_values in Hb; [|done]. rewrite Hb in Hcur. apply (accounted_net cur b); [|done].
  pose proof (binned_nonneg ops s Hops Hrun) as Hn. apply Forall_forall. intros a Ha.
  rewrite Forall_forall in Hn. apply Hn.
  assert (a ∈ List.filter (in_key (key b)) s.(ts_binned)) as Hin by (rewrite Hbin; apply elem_of_app; by right).
  by apply list_elem_of_In, List.filter_In in Hin as [Hin%list_elem_of_In _].
Qed.

(** C17: after any run of the aggregator on readings without negative energy, a tick
    settles every bin it drains, one result each, whatever the services answer: the
    zone log in between computes and changes nothing, and the result is that of
    settling the drained bins alone. *)
Theorem tick_settles_all ops s r now grace envs agg' bs :
  Forall nonneg_op ops -> run_trace trace_init ops = Some s ->
  drain_completed s.(ts_agg) now grace = (agg', Ok bs) ->
  exists log r' srs,
    settlement_tick s.(ts_agg) r now grace envs = (agg', Ok (log, r', srs)) /\
    settle_bins r ((fun b => (b, envs b)) <$> bs) = Ok (r', srs) /\
    length srs = length bs /\ (log = None <-> bs = []).
Proof.
  intros Hops Hrun [Hp Hr]%drain_completed_inv. pose proof (drained_net _ _ _ _ _ Hops Hrun Hp) as Hn.
  destruct (settle_bins_total envs bs r Hn) as (r' & srs & Hs & Hl).
  unfold settlement_tick. rewrite Hp. destruct bs as [|b bs].
  { cbn in Hr, Hs. injection Hr as <-. injection Hs as <- <-. by exists None, r, []. }
  rewrite Hr. unfold log_zone_balances, zone_balances.
  pose proof (zone_balances_from_ok (b :: bs) [] []) as Hz. destruct (zone_balances_from [] (b :: bs)) as [l|[]|].
  - cbn [obind]. rewrite Hs. cbn [obind]. eexists _, _, _. by split_and!.
  - exfalso. apply Exists_exists in Hz as (x & Hx & Hnx); [|split_and!; [constructor|done|done]].
    rewrite Forall_forall in Hn. destruct (Hn x Hx). congruence.
Qed.
End TickProps.

(** ** A sample *)

Module TickRun.
#[local] Existing Instances chrono_ref decimal_ref uuid_ref crypto_ref bin_codec_ref pending_codec_ref.

Lemma decimal_ref_range : DecimalRange.
Proof.
  constructor; unfold nonneg; cbn; unfold dec_check; [done|intros a b c|intros x d a y e b]; intros; repeat case_match;
    breflect; simplify_eq; [|eexists; reflexivity|].
  - apply Z.ltb_ge. lia.
  - lia.
Qed.
#[local] Existing Instance decimal_ref_range.

(** The three readings of the morning, swept twenty minutes in. *)
Lemma tick_settles_all_witness :
  exists log r' srs,
    settlement_tick morning.(ts_agg) empty_redis (at_min 20) NS_PER_MIN (fun _ => good_env) =
      (morning_drain.1, Ok (log, r', srs)) /\
    settle_bins empty_redis ((fun b => (b, good_env)) <$> morning_bins) = Ok (r', srs) /\
    length srs = 1%nat /\ (log = None <-> morning_bins = []).
Proof.
  apply (tick_settles_all (take 3 day_ops) morning empty_redis (at_min 20) NS_PER_MIN (fun _ => good_env)
           morning_drain.1 morning_bins).
  - repeat constructor.
  - apply default_is_some. vm_compute. reflexivity.
  - apply morning_drains.
Defined.

(** An unzoned bin between two bins of zones 3 and 1. *)
Definition zoned_bins : list BillingBin :=
  [morning_bin; set_bin_zone_code morning_bin None; set_bin_zone_code morning_bin (Some 1)].

Lemma balances_by_zone_witness :
  exists l, zone_balances zoned_bins = Ok l /\ codes l = [None; Some 1; Some 3] /\
    l = zone_total zoned_bins <$> codes l.
Proof.
  assert (H : exists l, zone_balances zoned_bins = Ok l /\ codes l = [None; Some 1; Some 3])
    by (eexists; split; [vm_compute; reflexivity|reflexivity]).
  destruct H as (l & Hl & Hc). exists l. split; [exact Hl|]. split; [exact Hc|].
  apply (balances_by_zone zoned_bins l Hl).
Defined.
End TickRun.
