(* ===== verification/ZoneIngesterProps.v ===== *)
(** * Properties of dissemination and zone ingestion

    Zone indices stay in range; what the router seals, the ingester opens to the
    same reading; the write-through channel mirrors the open bins, so a restart
    rebuilds them; and what redelivery does when an acknowledgement is lost or an
    entry cannot be decoded. *)

From Stdlib Require Import ZArith Lia Ascii String SpecFloat.
From stdpp Require Import base gmap strings list numbers.
From S2P Require Import Prelude RustStd External Models Aggregator AggregatorProps BinaryDecoder Stores Settlement GridStatus Router WireRef ZoneIngester.

Open Scope Z_scope.
Open Scope bridge_scope.

(** ** Zones *)

Section Zones.
Context {J : SerdeJson}.

(** With at least one zone, every reading is routed to an existing
    zone stream, so a zone worker reads it; a number in the zone code that names an
    existing zone is that zone, and readings of one zone code share a stream. *)
Theorem zone_in_range num_zones r : 0 < num_zones ->
  exists idx, calculate_zone_index num_zones r = Some idx /\ 0 <= idx < num_zones /\
    (forall z n, r.(zone_code) = Some z ->
       parse_unsigned 64 (skip_while (fun c => negb (is_ascii_digit c)) z) = Some n ->
       n < num_zones -> idx = n) /\
    (forall r', is_Some r.(zone_code) -> r'.(zone_code) = r.(zone_code) ->
       calculate_zone_index num_zones r' = Some idx).
Proof.
  intros Hn. assert (Hh : forall s, exists i, hash_zone num_zones s = Some i /\ 0 <= i < num_zones).
  { intros s. unfold hash_zone. rewrite (proj2 (Z.eqb_neq _ _)) by lia. eexists. split; [done|].
    by apply Z.mod_pos_bound. }
  assert (Hp : forall s n, parse_unsigned 64 s = Some n -> is_empty s = false /\ 0 <= n).
  { intros s n [? ?]%parse_unsigned_bounds. auto with lia. }
  unfold calculate_zone_index. destruct (zone_code r) as [z|] eqn:Ez.
  - set (suffix := skip_while _ z).
    destruct (if is_empty suffix then None else parse_unsigned 64 suffix) as [n|] eqn:Es.
    + assert (Hs : parse_unsigned 64 suffix = Some n) by (by destruct (is_empty suffix)).
      destruct (n <? num_zones) eqn:El.
      * breflect. exists n. split; [done|]. split; [destruct (Hp _ _ Hs); lia|]. split.
        -- intros ? ? [= <-]. fold suffix. congruence.
        -- intros r' _ ->. fold suffix. rewrite Es. by rewrite (proj2 (Z.ltb_lt _ _)).
      * destruct (Hh z) as (i & Hi & ?). exists i. split; [done|]. split; [done|]. split.
        -- intros ? ? [= <-]. fold suffix. rewrite Hs. intros [= <-] ?. breflect. lia.
        -- intros r' _ ->. fold suffix. by rewrite Es, El.
    + destruct (Hh z) as (i & Hi & ?). exists i. split; [done|]. split; [done|]. split.
      * intros ? m [= <-]. fold suffix. intros Hs. destruct (Hp _ _ Hs) as [He _]. rewrite He, Hs in Es. done.
      * intros r' _ ->. fold suffix. by rewrite Es.
  - destruct (Hh (serial_number r)) as (i & Hi & ?). exists i. split; [done|]. split; [done|].
    split; [done|]. by intros r' [? ?].
Qed.
End Zones.

(** ** Publication *)

Section Publication.
Context {J : SerdeJson} {K : Crypto} {SS : StreamSerde} {C : Chrono}.

(** A bounded stream keeps what was appended last. *)
Lemma xadd_last max_len evict s name json o :
  0 < max_len -> io_applies o = true ->
  exists l, xadd max_len evict s name json o !! name = Some (l ++ [json]) /\
    (Nat.min (length (default [] (s !! name))) (Z.to_nat max_len - 1) <= length l)%nat.
Proof.
  intros Hm Ho. unfold xadd. rewrite Ho, lookup_insert_eq. set (old := default [] (s !! name)).
  rewrite length_app. cbn [length]. set (n := Nat.min evict _).
  assert (Hn : (n <= length old + 1 - Z.to_nat max_len)%nat) by (unfold n; lia).
  exists (drop n old). rewrite drop_app_le by lia. split; [done|]. rewrite length_drop. lia.
Qed.

Lemma xadd_other max_len evict s name name' json o :
  name' <> name -> xadd max_len evict s name' json o !! name = s !! name.
Proof. intros Hn. unfold xadd. destruct (io_applies o); [|done]. by rewrite lookup_insert_ne. Qed.

Lemma publish_last r e s name json r' s' :
  0 < r.(rt_max_stream_len) -> publish r e s name json = (r', s', Ok ()) ->
  r'.(rt_influx) = r.(rt_influx) /\ r'.(rt_pg_readings) = r.(rt_pg_readings) /\
  exists l, s' !! name = Some (l ++ [json]).
Proof.
  intros Hm. unfold publish. destruct (io_succeeds (de_xadd1 e)) eqn:E1.
  - intros [= <- <-]. split; [done|]. split; [done|].
    destruct (xadd_last (rt_max_stream_len r) (de_evict e) s name json (de_xadd1 e) Hm) as (l & Hl & _);
      [by destruct (de_xadd1 e)|eauto].
  - cbn [invalidate_cache get_or_build]. destruct (de_build2 e) as [[]| |]; try done.
    destruct (io_succeeds (de_xadd2 e)) eqn:E2; [|done]. intros [= <- <-]. split; [done|]. split; [done|].
    edestruct (xadd_last (rt_max_stream_len r) (de_evict e)) as (l & Hl & _); [done| |by exists l].
    by destruct (de_xadd2 e).
Qed.

(** A dissemination that succeeds leaves the sealed reading
    as the newest entry of its zone's stream, whatever retry it took and whatever
    became of the unified stream, and then (only then) records it in the InfluxDB
    and Postgres sinks; one that fails records it in neither. *)
Theorem disseminate_publishes r k e reading r' k' res idx json :
  0 < r.(rt_max_stream_len) ->
  calculate_zone_index r.(rt_num_zones) reading = Some idx ->
  seal_reading r.(rt_cipher) e.(de_nonce) reading = Ok json ->
  disseminate r k e reading = (r', k', res) ->
  match res with
  | Ok _ =>
      (exists l, k'.(sk_streams) !! zone_stream idx = Some (l ++ [json])) /\
      k'.(sk_influx) = (if r.(rt_influx) then k.(sk_influx) ++ option_list (reading_to_point reading) else k.(sk_influx)) /\
      k'.(sk_pg) = (if r.(rt_pg_readings) then k.(sk_pg) ++ option_list (reading_to_row reading) else k.(sk_pg))
  | _ => k'.(sk_influx) = k.(sk_influx) /\ k'.(sk_pg) = k.(sk_pg)
  end.
Proof.
  intros Hm Hz Hj. unfold disseminate.
  destruct (get_or_build (rt_cached r) (de_build1 e)) as [c [[]| |]]; try (by intros [= <- <- <-]).
  cbn [set_cached rt_num_zones rt_cipher]. rewrite Hz, Hj.
  destruct (publish _ e (sk_streams k) _ json) as [[r1 s1] [[]| |]] eqn:Ep; try (by intros [= <- <- <-]).
  apply publish_last in Ep as (Hi & Hp & l & Hl); [|exact Hm]. cbn [rt_influx rt_pg_readings set_cached] in Hi, Hp.
  intros [= <- <- <-]. cbn [record_sinks set_streams sk_streams sk_influx sk_pg]. rewrite Hi, Hp.
  split; [|done]. exists l. destruct (String.eqb_spec (target_stream (device_type reading)) (zone_stream idx)); [done|].
  by rewrite xadd_other.
Qed.

(** When it succeeds: connection, zone, envelope and publication do. *)
Lemma disseminate_succeeds r k e reading idx json :
  get_or_build r.(rt_cached) e.(de_build1) = (Some (), Ok ()) ->
  calculate_zone_index r.(rt_num_zones) reading = Some idx ->
  seal_reading r.(rt_cipher) e.(de_nonce) reading = Ok json ->
  (publish (set_cached r (Some ())) e k.(sk_streams) (zone_stream idx) json).2 = Ok () ->
  (disseminate r k e reading).2 = Ok ().
Proof.
  intros Hb Hz Hj Hp. unfold disseminate. rewrite Hb. cbn [set_cached rt_num_zones rt_cipher] in *. rewrite Hz, Hj.
  destruct (publish _ e (sk_streams k) _ json) as [[r1 s1] res]. cbn [snd] in Hp. by subst res.
Qed.
End Publication.

(** ** Sealing and opening *)

Lemma string_of_bytes_of_string s : string_of_bytes (bytes_of_string s) = s.
Proof.
  induction s as [|c s IH]; [done|]. cbn. f_equal; [|exact IH].
  unfold code. by rewrite N2Z.id, ascii_N_embedding.
Qed.

Section RoundTrip.
Context {J : SerdeJson} {K : Crypto} {SS : StreamSerde} {CL : CryptoLaws}.
Context {json_dom : Value -> Prop} {wire_dom : DeviceReading -> Prop} {SL : StreamLaws json_dom wire_dom}.

Lemma envelope_fields t p :
  jget "event_type" (stream_envelope t p) = Some (value_of_str t) /\
  jget "payload" (stream_envelope t p) = Some p /\ jget "enc" (stream_envelope t p) = None.
Proof.
  unfold stream_envelope. rewrite !jget_object; [done|..]; cbn; repeat constructor; set_solver.
Qed.

Lemma enc_fields t n c :
  exists enc, jget "event_type" (enc_envelope t n c) = Some (value_of_str t) /\
  jget "enc" (enc_envelope t n c) = Some enc /\
  jget "nonce" enc = Some (value_of_str n) /\ jget "ciphertext" enc = Some (value_of_str c).
Proof.
  unfold enc_envelope.
  exists (value_of_object [("nonce"%string, value_of_str n); ("ciphertext"%string, value_of_str c)]).
  rewrite !jget_object; [done|..]; cbn; repeat constructor; set_solver.
Qed.

Lemma cipher_roundtrip sek n m aad p :
  length sek = 32%nat -> length n = 12%nat ->
  cipher_encrypt sek (Some n) m aad = Ok p -> cipher_decrypt sek p.1 p.2 aad = Ok m.
Proof.
  intros Hs Hn [= <-]. unfold cipher_decrypt. cbn [fst snd].
  destruct (base64_text n) as [-> ->]. cbn [ok_or obind]. rewrite Hn. cbn [ensure Nat.eqb obind].
  destruct (base64_text (gcm_encrypt sek n aad m)) as [-> ->]. cbn [ok_or obind].
  by rewrite gcm_open_seal.
Qed.

Lemma event_of_envelope r :
  wire_dom r -> event_of_value (stream_envelope (event_type_name r) (reading_value r)) = Some (EvReading r).
Proof.
  intros Hr. unfold event_of_value.
  destruct (envelope_fields (event_type_name r) (reading_value r)) as (-> & -> & _).
  cbn [mbind option_bind]. rewrite as_str_str. cbn [mbind option_bind].
  replace (existsb (String.eqb (event_type_name r)) reading_tags) with true
    by (unfold event_type_name; by destruct (device_type r)).
  cbn. by destruct (wire_value r Hr) as [_ ->].
Qed.

Lemma envelope_dom t p : json_dom p -> json_dom (stream_envelope t p).
Proof. intros Hp. apply json_dom_object. repeat constructor; [apply json_dom_str|exact Hp]. Qed.

Lemma open_plain r cipher :
  wire_dom r ->
  decode_entry (json_print (stream_envelope (event_type_name r) (reading_value r))) cipher
    = Some (json_print (stream_envelope (event_type_name r) (reading_value r))) /\
  event_from_str (json_print (stream_envelope (event_type_name r) (reading_value r))) = Some (EvReading r).
Proof.
  intros Hr. destruct (wire_value r Hr) as [Hd _].
  unfold decode_entry, event_from_str. rewrite (json_text _ (envelope_dom (event_type_name r) _ Hd)).
  cbn [mbind option_bind]. destruct (envelope_fields (event_type_name r) (reading_value r)) as (_ & _ & ->).
  split; [done|]. by apply event_of_envelope.
Qed.

(** The text a sealed reading opens to, and its event. *)
Lemma decode_sealed r cipher nonce json :
  wire_dom r -> (forall sek, cipher = Some sek -> length sek = 32%nat) ->
  (forall n, nonce = Some n -> length n = 12%nat) ->
  seal_reading cipher nonce r = Ok json ->
  exists text, decode_entry json cipher = Some text /\ event_from_str text = Some (EvReading r).
Proof.
  intros Hr Hsek Hn. destruct (open_plain r cipher Hr) as [Hplain Hev]. unfold seal_reading.
  destruct cipher as [sek|]; [|intros [= <-]; by eexists].
  destruct nonce as [n|]; [|done]. cbv zeta. destruct (wire_value r Hr) as [Hd _].
  destruct (cipher_encrypt sek (Some n) _ _) as [[n64 c64]| |] eqn:Ee; [|done|done]. cbn [obind].
  intros [= <-]. apply (cipher_roundtrip _ _ _ _ _ (Hsek sek eq_refl) (Hn n eq_refl)) in Ee. cbn [fst snd] in Ee.
  unfold decode_entry.
  rewrite (json_text (enc_envelope _ _ _)) by (repeat (apply json_dom_object || apply json_dom_str || constructor)).
  cbn [mbind option_bind].
  destruct (enc_fields (event_type_name r) n64 c64) as (enc & He & -> & Hnn & Hcc).
  assert (Hstr : forall s, str_or_empty (Some (value_of_str s)) = s)
    by (intros; unfold str_or_empty; cbn; by rewrite as_str_str).
  rewrite He, Hnn, Hcc, !Hstr, Ee, string_of_bytes_of_string, json_text by done.
  cbn [mbind option_bind]. by eexists.
Qed.

End RoundTrip.

(** ** The write-through channel *)

Section WriteThrough.
Context {J : SerdeJson} {K : Crypto} {SS : StreamSerde} {FT : F64Text}.
Context {C : Chrono} {D : RustDecimal} {U : UuidText}.
Context (cfg : zone_config).

(** Binning the reading of an entry does not panic (no decimal overflow, a
    representable window). *)
Definition binnable (env : entry_env) (s : zone_state) (json : string) : Prop :=
  forall r, event_from_str json = Some (EvReading r) ->
    (handle_reading s.(zs_agg) env.(ee_now) (reading_args_of (env.(ee_owner) r.(serial_number)) r)).2 <> Panic.

Definition no_overflow (env : entry_env) (s : zone_state) (p : string * option string) : Prop :=
  forall json, p.2 ≫= (fun raw => decode_entry raw cfg.(zc_cipher)) = Some json -> binnable env s json.

Lemma no_overflow_intro env s id raw json r :
  decode_entry raw cfg.(zc_cipher) = Some json -> event_from_str json = Some (EvReading r) ->
  is_panic (handle_reading s.(zs_agg) env.(ee_now) (reading_args_of (env.(ee_owner) r.(serial_number)) r)).2 = false ->
  no_overflow env s (id, Some raw).
Proof.
  intros Hd He Hp json'. cbn [snd mbind option_bind]. rewrite Hd. intros [= <-] r'. rewrite He. intros [= <-] E.
  by rewrite E in Hp.
Qed.

(** The worker's steps: an entry delivered for the first time, or reclaimed. *)
Inductive zone_step : zone_state -> zone_state -> Prop :=
| zone_deliver s env p : no_overflow env s p -> zone_step s (process_entry cfg env s p)
| zone_reclaim s env p : p ∈ s.(zs_pel) -> no_overflow env s p -> zone_step s (reclaim_entry cfg env s p).

Definition zone_init : zone_state :=
  {| zs_agg := new; zs_channel := []; zs_freq := []; zs_late := 0; zs_pel := [] |}.

(** The bins the channel leaves in the store, when every write is applied. *)
Definition channel_bins (ch : list BillingBin) : gmap BinKey BillingBin :=
  fold_left store_spec ((fun b => SWrite b IoOk) <$> ch) ∅.

Record mirrored (s : zone_state) : Prop := {
  mi_bins : channel_bins s.(zs_channel) = s.(zs_agg).(active_bins);
  mi_keys : map_Forall (fun k b => key b = k) s.(zs_agg).(active_bins)
}.

Lemma channel_bins_snoc ch b : channel_bins (ch ++ [b]) = <[key b := b]> (channel_bins ch).
Proof. unfold channel_bins. by rewrite fmap_app, fold_left_app. Qed.

(** A state that differs only in the pending entries and the monitor. *)
Lemma mirrored_same s s' :
  mirrored s -> s'.(zs_agg) = s.(zs_agg) -> s'.(zs_channel) = s.(zs_channel) -> mirrored s'.
Proof. intros [H1 H2] Ha Hc. constructor; by rewrite ?Ha, ?Hc. Qed.

Lemma ack_entry_same s id o :
  (ack_entry s id o).1.(zs_agg) = s.(zs_agg) /\ (ack_entry s id o).1.(zs_channel) = s.(zs_channel).
Proof. unfold ack_entry. by destruct (io_applies o). Qed.

Lemma bin_reading_mirrored now s a s' :
  cfg.(zc_durable) = true -> mirrored s -> bin_reading cfg now s a = (s', Ok ()) -> mirrored s'.
Proof.
  intros Hd [H1 H2]. unfold bin_reading. rewrite Hd.
  destruct (handle_reading _ now a) as [agg [[b|]|[]|]] eqn:E; try done; intros [= <-].
  - apply handle_reading_binned in E as (w & e & _ & _ & _ & Ha & _ & _ & Hb).
    assert (Hk : key b = (ra_meter_id a, w)).
    { rewrite (bin_step_key _ _ _ Hb). destruct (_ !! _) as [b0|] eqn:E0; [by apply H2|done]. }
    constructor; cbn [zs_channel zs_agg]; rewrite Ha.
    + by rewrite channel_bins_snoc, Hk, H1.
    + by apply map_Forall_insert_2.
  - apply handle_reading_late in E as [-> _]. by constructor.
Qed.

Lemma bin_reading_ok now s a :
  (handle_reading s.(zs_agg) now a).2 <> Panic -> (bin_reading cfg now s a).2 = Ok ().
Proof. unfold bin_reading. by destruct (handle_reading _ now a) as [agg [[b|]|[]|]]. Qed.

Lemma feed_monitor_same env s r :
  (feed_monitor cfg env s r).(zs_agg) = s.(zs_agg) /\ (feed_monitor cfg env s r).(zs_channel) = s.(zs_channel).
Proof. unfold feed_monitor. destruct (zc_monitor cfg); [|done]. by destruct (extract_frequency _). Qed.

Lemma process_json_mirrored env s id json :
  cfg.(zc_durable) = true -> mirrored s ->
  binnable env s json -> mirrored (process_json cfg env s id json).
Proof.
  intros Hd Hm Hok. unfold process_json, binnable in *.
  destruct (event_from_str json) as [[r|]|]; [|by eapply mirrored_same; [|apply ack_entry_same..]|done].
  unfold handle_iot_reading. destruct (feed_monitor_same env s r) as [Ha Hc].
  set (s1 := feed_monitor cfg env s r) in *. specialize (Hok r). rewrite <- Ha in Hok.
  pose proof (bin_reading_ok _ s1 _ (Hok eq_refl)) as Hb.
  destruct (bin_reading _ _ s1 _) as [s2 res] eqn:E. cbn in Hb. subst res.
  apply bin_reading_mirrored in E; [|done|by eapply mirrored_same].
  eapply mirrored_same; [exact E|apply ack_entry_same..].
Qed.

Lemma mirrored_step s s' : cfg.(zc_durable) = true -> mirrored s -> zone_step s s' -> mirrored s'.
Proof.
  intros Hd Hm Hs. destruct Hs as [s0 env p Hok|s0 env p _ Hok].
  - unfold process_entry, process_delivered. assert (Hm1 : mirrored (set_pel s0 (zs_pel s0 ++ [p]))) by (by apply (mirrored_same s0)).
    unfold no_overflow in Hok. destruct p as [id [raw|]]; [|done]. cbn [snd fst mbind option_bind] in *.
    destruct (decode_entry raw _) as [json|] eqn:E.
    + apply process_json_mirrored; [done..|]. by apply (Hok json).
    + eapply mirrored_same; [exact Hm1|apply ack_entry_same..].
  - unfold reclaim_entry. unfold no_overflow in Hok.
    destruct (p.2 ≫= _) as [json|]; [|by eapply mirrored_same; [|apply ack_entry_same..]].
    apply process_json_mirrored; [done..|]. by apply Hok.
Qed.

Lemma mirrored_run s : cfg.(zc_durable) = true -> steps zone_step zone_init s -> mirrored s.
Proof.
  intros Hd Hs. eapply (steps_invariant zone_step mirrored); [| |exact Hs].
  - intros ? ? ? ?. by eapply mirrored_step.
  - constructor; [done|]. apply map_Forall_empty.
Qed.

Context {BC : Codec BillingBin} {BL : CodecLaws BillingBin} {UL : UuidLaws}.

(** C12: while readings are ingested, in any interleaving of
    deliveries and reclaims, the channel to the durable store holds the open bins'
    history in mutation order: once its writes have been applied, a restart that
    loads the store rebuilds exactly the bins that were in memory. *)
Theorem writethrough_recovers s bs :
  cfg.(zc_durable) = true -> steps zone_step zone_init s ->
  Forall (fun b => key_storable (key b) /\ codec_dom b) s.(zs_channel) ->
  bin_load_all (fold_left store_exec ((fun b => SWrite b IoOk) <$> s.(zs_channel))
                  {| bins_h := ∅; outbox_h := ∅; parked_h := ∅ |}) IoOk = Ok bs ->
  (restore_bins new bs).(active_bins) = s.(zs_agg).(active_bins).
Proof.
  intros Hd Hs Hok [= <-]. destruct (mirrored_run s Hd Hs) as [Hm Hk].
  rewrite <- Hm. apply restore_values.
  - apply bins_repr_load. apply store_run_repr; [apply bins_repr_empty|].
    apply Forall_fmap. exact Hok.
  - by rewrite Hm.
Qed.
End WriteThrough.

(** ** Redelivery *)

Section Redelivery.
Context {J : SerdeJson} {K : Crypto} {SS : StreamSerde} {FT : F64Text}.
Context {C : Chrono} {D : RustDecimal} {U : UuidText}.
Context (cfg : zone_config).

(** A reading entry, once opened, is binned whatever the state of the monitor. *)
Lemma reading_binned env s id json r agg b :
  event_from_str json = Some (EvReading r) ->
  handle_reading s.(zs_agg) env.(ee_now) (reading_args_of (env.(ee_owner) r.(serial_number)) r) = (agg, Ok (Some b)) ->
  (process_json cfg env s id json).(zs_agg) = agg /\
  (env.(ee_ack) = IoErrLost -> (process_json cfg env s id json).(zs_pel) = s.(zs_pel)).
Proof.
  intros He Hh. unfold process_json. rewrite He. unfold handle_iot_reading, bin_reading.
  destruct (feed_monitor_same cfg env s r) as [Ha _]. rewrite Ha, Hh. split.
  - unfold ack_entry. by destruct (io_applies _).
  - intros ->. cbn. unfold feed_monitor. destruct (zc_monitor cfg); [|done]. by destruct (extract_frequency _).
Qed.

(** A reading whose acknowledgement is lost stays pending
    although it has been binned; when it is reclaimed it is binned again, so its
    energy and its count enter the bin twice. *)
Theorem redelivery_counts_twice env1 env2 s id raw json r agg1 b1 agg2 b2 :
  decode_entry raw cfg.(zc_cipher) = Some json -> event_from_str json = Some (EvReading r) ->
  env1.(ee_owner) = env2.(ee_owner) -> env1.(ee_ack) = IoErrLost ->
  let a := reading_args_of (env1.(ee_owner) r.(serial_number)) r in
  handle_reading s.(zs_agg) env1.(ee_now) a = (agg1, Ok (Some b1)) ->
  handle_reading agg1 env2.(ee_now) a = (agg2, Ok (Some b2)) ->
  let s1 := process_entry cfg env1 s (id, Some raw) in
  let s2 := reclaim_entry cfg env2 s1 (id, Some raw) in
  (id, Some raw) ∈ s1.(zs_pel) /\ s2.(zs_agg) = agg2 /\
  (exists w, s1.(zs_agg).(active_bins) !! (a.(ra_meter_id), w) = Some b1 /\
             s2.(zs_agg).(active_bins) !! (a.(ra_meter_id), w) = Some b2) /\
  b2.(reading_count) = wrap 64 (b1.(reading_count) + 1) /\
  dec_add b1.(energy_generated) a.(ra_generated) = Some b2.(energy_generated) /\
  dec_add b1.(energy_consumed) a.(ra_consumed) = Some b2.(energy_consumed).
Proof.
  intros Hd He Ho Hack a H1 H2 s1 s2.
  assert (Hs1 : s1.(zs_agg) = agg1 /\ s1.(zs_pel) = s.(zs_pel) ++ [(id, Some raw)]).
  { subst s1. unfold process_entry, process_delivered. cbn [snd fst]. rewrite Hd.
    destruct (reading_binned env1 (set_pel s (zs_pel s ++ [(id, Some raw)])) id json r agg1 b1 He H1) as [Ha Hp].
    rewrite Ha, Hp by done. done. }
  destruct Hs1 as [Ha1 Hp1].
  assert (Hs2 : s2.(zs_agg) = agg2).
  { subst s2. unfold reclaim_entry. cbn [snd fst mbind option_bind]. rewrite Hd.
    destruct (reading_binned env2 s1 id json r agg2 b2 He) as [Ha _]; [|exact Ha].
    rewrite Ha1, <- Ho. exact H2. }
  rewrite Hp1, Hs2. split; [set_solver|]. split; [done|].
  apply handle_reading_binned in H1 as (w & e & Hw & _ & _ & Hm1 & _ & _ & Hb1).
  apply handle_reading_binned in H2 as (w' & e' & Hw' & _ & _ & Hm2 & _ & _ & Hb2).
  assert (w' = w) by congruence. subst w'. rewrite Hm1, lookup_insert_eq in Hb2.
  split; [|by destruct Hb2]. exists w. rewrite Ha1, Hm2, Hm1. by rewrite !lookup_insert_eq.
Qed.

(** An entry that opens but is no event. *)
Definition poison (p : string * option string) : Prop :=
  exists raw json, p.2 = Some raw /\ decode_entry raw cfg.(zc_cipher) = Some json /\ event_from_str json = None.

Lemma reclaim_poison env s p : poison p -> reclaim_entry cfg env s p = s.
Proof.
  intros (raw & json & Hp & Hd & He). unfold reclaim_entry, process_json. rewrite Hp. cbn. by rewrite Hd, He.
Qed.

(** An entry that decodes to JSON but not to an event is
    never acknowledged, and once fifty of them lead the pending list no reclaim
    round ever changes anything again: every entry pending behind them is stuck. *)
Theorem poison_blocks_redelivery s rounds :
  Forall poison (take RECLAIM_BATCH s.(zs_pel)) ->
  fold_left (fun s er => reclaim_stale_messages cfg er.1 er.2 s) rounds s = s.
Proof.
  intros Hp. induction rounds as [|[env idle] rounds IH]; [done|]. cbn [fold_left fst snd].
  enough (E : reclaim_stale_messages cfg env idle s = s) by (by rewrite E).
  unfold reclaim_stale_messages, ids_to_claim. clear IH rounds.
  induction Hp as [|p l Hp _ IH]; [done|]. cbn. destruct (_ <=? _); [|exact IH].
  cbn [fold_left]. by rewrite reclaim_poison.
Qed.
End Redelivery.

(** ** Sample streams *)

Section Witnesses.
#[local] Existing Instance json_wire_ref.
#[local] Existing Instance stream_serde_ref.
#[local] Existing Instance crypto_wire_ref.
#[local] Existing Instance crypto_wire_ref_laws.
#[local] Existing Instance stream_laws_ref.
#[local] Existing Instance chrono_ref.
#[local] Existing Instance decimal_ref.
#[local] Existing Instance uuid_ref.
#[local] Existing Instance uuid_ref_laws.
#[local] Existing Instance bin_codec_ref.
#[local] Existing Instance bin_codec_ref_laws.

#[local] Instance no_float_text : F64Text := {| f64_show _ := EmptyString; f64_parse _ := None |}.

Definition zone_reading : DeviceReading := {|
  reading_id := 7%N; device_id := "M1"; device_type := SmartMeter; serial_number := "M1";
  zone_code := Some "ZONE5"%string; timestamp := 600 * NS_PER_SEC;
  metrics := Energy (F64.of_Z 5) (F64.of_Z 2) (F64.of_Z 3); metadata := ∅ |}.

Definition zone_cipher : option (list Z) := Some (replicate 32 1).
Definition zone_nonce : list Z := replicate 12 3.

Definition sealed_entry : string :=
  default EmptyString (ok_of (seal_reading zone_cipher (Some zone_nonce) zone_reading)).

Lemma zone_in_range_witness :
  exists idx, calculate_zone_index 10 zone_reading = Some idx /\ 0 <= idx < 10 /\ idx = 5.
Proof.
  destruct (zone_in_range 10 zone_reading ltac:(lia)) as (idx & H1 & H2 & H3 & _).
  exists idx. split; [exact H1|]. split; [exact H2|].
  apply (H3 "ZONE5"%string); [reflexivity|vm_compute; reflexivity|lia].
Defined.


(** A first XADD that fails with effect, then a retry on a new connection. *)
Definition retry_env : dissem_env := {|
  de_build1 := Ok (); de_build2 := Ok (); de_xadd1 := IoErrApplied; de_xadd2 := IoOk; de_unified := IoErrLost;
  de_evict := 5; de_nonce := Some zone_nonce |}.

Definition sample_router : Router := {|
  rt_cached := None; rt_max_stream_len := 1; rt_num_zones := 10; rt_influx := true;
  rt_cipher := zone_cipher; rt_pg_readings := true |}.

Definition no_sinks : sinks := {| sk_streams := ∅; sk_influx := []; sk_pg := [] |}.

Lemma disseminate_publishes_witness :
  exists l, (disseminate sample_router no_sinks retry_env zone_reading).1.2.(sk_streams) !! zone_stream 5
    = Some (l ++ [sealed_entry]).
Proof.
  assert (Hseal : seal_reading zone_cipher (Some zone_nonce) zone_reading = Ok sealed_entry)
    by (apply ok_is_ok; reflexivity).
  assert (Hz : calculate_zone_index 10 zone_reading = Some 5) by (vm_compute; reflexivity).
  destruct (disseminate sample_router no_sinks retry_env zone_reading) as [[r' k'] res] eqn:E.
  pose proof (disseminate_publishes sample_router no_sinks retry_env zone_reading r' k' res 5 sealed_entry
    eq_refl Hz Hseal E) as H.
  pose proof (disseminate_succeeds sample_router no_sinks retry_env zone_reading 5 sealed_entry
    eq_refl Hz Hseal eq_refl) as Hok.
  rewrite E in Hok. cbn [snd] in Hok. subst res. exact (proj1 H).
Defined.

(** An unsealed stream, for evaluation. *)
Definition zone_cfg : zone_config := {|
  zc_cipher := None; zc_durable := true; zc_monitor := true; zc_first_instant := 0; zc_freq_window := 60 |}.

Definition plain_entry : string :=
  json_print (stream_envelope (event_type_name zone_reading) (reading_value zone_reading)).

Definition zone_env (ack : io) : entry_env := {|
  ee_now := 700 * NS_PER_SEC; ee_instant := 100; ee_owner := fun _ => Ok None; ee_ack := ack |}.

Definition zone_args : reading_args := reading_args_of (Ok None) zone_reading.

Lemma plain_entry_decodes :
  decode_entry plain_entry zone_cfg.(zc_cipher) = Some plain_entry /\
  event_from_str plain_entry = Some (EvReading zone_reading).
Proof. exact (open_plain (json_dom := fun _ => True) (wire_dom := fun _ => True) zone_reading (zc_cipher zone_cfg) I). Qed.

Definition zone_first : zone_state := process_entry zone_cfg (zone_env IoErrLost) zone_init ("1-0"%string, Some plain_entry).

Lemma zone_first_step : steps (zone_step zone_cfg) zone_init zone_first.
Proof.
  eapply steps_next; [apply steps_refl|]. apply zone_deliver.
  destruct plain_entry_decodes as [Hd He]. apply (no_overflow_intro zone_cfg (zone_env IoErrLost) zone_init "1-0" plain_entry plain_entry zone_reading Hd He).
  vm_compute. reflexivity.
Qed.

Lemma channel_storable (ch : list BillingBin) :
  forallb (fun b => ((key b).2 mod 1000000 =? 0) && in_i64 (timestamp_millis (key b).2)) ch = true ->
  Forall (fun b => key_storable (key b) /\ codec_dom b) ch.
Proof.
  intros H. apply Forall_forall. intros b Hb. rewrite forallb_forall in H.
  specialize (H b Hb). apply andb_true_iff in H as [H1 H2]. split; [|exact I]. split; [by apply Z.eqb_eq|exact H2].
Qed.

Lemma writethrough_recovers_witness :
  exists bs, bin_load_all (fold_left store_exec ((fun b => SWrite b IoOk) <$> zone_first.(zs_channel))
       {| bins_h := ∅; outbox_h := ∅; parked_h := ∅ |}) IoOk = Ok bs /\
    length zone_first.(zs_channel) = 1%nat /\ (restore_bins new bs).(active_bins) = zone_first.(zs_agg).(active_bins).
Proof.
  exists (parse_redis_hash (fold_left store_exec ((fun b => SWrite b IoOk) <$> zone_first.(zs_channel))
       {| bins_h := ∅; outbox_h := ∅; parked_h := ∅ |}).(bins_h)).
  split; [reflexivity|]. split; [vm_compute; reflexivity|].
  apply (writethrough_recovers zone_cfg zone_first _ eq_refl zone_first_step); [|reflexivity].
  apply channel_storable. vm_compute. reflexivity.
Defined.

Definition first_agg := handle_reading zone_init.(zs_agg) (700 * NS_PER_SEC) zone_args.
Definition second_agg := handle_reading first_agg.1 (760 * NS_PER_SEC) zone_args.

Definition zone_env2 : entry_env := {|
  ee_now := 760 * NS_PER_SEC; ee_instant := 100; ee_owner := fun _ => Ok None; ee_ack := IoOk |}.

Definition first_bin : BillingBin := default (fresh_bin zone_args 0 0) (default None (ok_of first_agg.2)).
Definition second_bin : BillingBin := default (fresh_bin zone_args 0 0) (default None (ok_of second_agg.2)).

Lemma ok_some_pair {E A B} (d : B) (p : A * outcome E (option B)) :
  is_someb (default None (ok_of p.2)) = true -> p = (p.1, Ok (Some (default d (default None (ok_of p.2))))).
Proof. by destruct p as [a [[b|]| |]]. Qed.

Lemma redelivery_counts_twice_witness :
  (reclaim_entry zone_cfg zone_env2 zone_first ("1-0"%string, Some plain_entry)).(zs_agg) = second_agg.1 /\
  second_bin.(energy_generated) = 10 /\ second_bin.(reading_count) = 2.
Proof.
  destruct plain_entry_decodes as [Hd He].
  assert (H1 : is_someb (default None (ok_of first_agg.2)) = true) by (vm_compute; reflexivity).
  assert (H2 : is_someb (default None (ok_of second_agg.2)) = true) by (vm_compute; reflexivity).
  destruct (redelivery_counts_twice zone_cfg (zone_env IoErrLost) zone_env2 zone_init "1-0" plain_entry plain_entry
    zone_reading first_agg.1 first_bin second_agg.1 second_bin Hd He eq_refl eq_refl
    (ok_some_pair (fresh_bin zone_args 0 0) first_agg H1) (ok_some_pair (fresh_bin zone_args 0 0) second_agg H2))
    as (_ & H & _ & _).
  split; [exact H|]. split; vm_compute; reflexivity.
Defined.

(** A known event without its payload. *)
Definition poison_entry : string := json_print (value_of_object [("event_type"%string, value_of_str "EvCharging")]).

Definition stuck_state : zone_state :=
  set_pel zone_init (replicate 50 ("0-1"%string, Some poison_entry) ++ [("9-0"%string, Some plain_entry)]).

Lemma poison_blocks_redelivery_witness :
  fold_left (fun s er => reclaim_stale_messages zone_cfg er.1 er.2 s)
    [(zone_env IoOk, fun _ => 40000); (zone_env IoOk, fun _ => 100000)] stuck_state = stuck_state.
Proof.
  apply (poison_blocks_redelivery zone_cfg stuck_state). 
  change (take RECLAIM_BATCH _) with (replicate 50 ("0-1"%string, Some poison_entry)).
  apply Forall_replicate. exists poison_entry, poison_entry. split; [reflexivity|].
  split; [vm_compute; reflexivity|]. apply is_someb_false. vm_compute. reflexivity.
Defined.
End Witnesses.
