(* ===== verification/Delivery.v ===== *)
(** * From the router to the bin (router.rs, zone_ingester.rs: setup_consumer_groups,
      process_zone_stream, reclaim_stale_messages, run, and the ordered bin writer)

    One zone's stream, end to end: the router appends to it and trims it, the
    consumer group delivers its entries once and remembers them as pending, a task
    per entry bins and acknowledges, the redelivery loop claims what stays pending,
    the bin writer drains its channel, and the process may die between any two of
    these.  A run is a trace of the observable events and the state it reaches. *)

From Stdlib Require Import ZArith Lia Ascii String SpecFloat.
From stdpp Require Import base gmap strings list numbers pretty.
From S2P Require Import Prelude RustStd External Models Aggregator AggregatorProps Stores Settlement GridStatus Router WireRef ZoneIngester ZoneIngesterProps.

Open Scope Z_scope.
Open Scope bridge_scope.

(** ** The ingester's streams and connections *)

Section Streams.
Context {J : SerdeJson}.

(** The streams [new] lists, one worker each. *)
Definition zone_streams (num_zones : Z) : list string := zone_stream <$> seqZ 0 num_zones.

(** The ingester's own partition, by hash alone. *)
Definition get_zone_index (num_zones : Z) (zone_code : option string) (meter_serial : string) : option Z :=
  match zone_code with
  | Some zcode => hash_zone num_zones zcode
  | None => hash_zone num_zones meter_serial
  end.
End Streams.

Inductive conn_attempt : Type :=
| Connected
| ConnFailed
| TimedOut.

Definition CONNECT_ATTEMPTS : nat := 5.

(** [n] attempts left, the next one answered by [answers k]; with the seconds slept. *)
Fixpoint connect_from (answers : nat -> conn_attempt) (k n : nat) : outcome redis_error unit * nat :=
  match n with
  | O => (Err RedisError, 0%nat)
  | S n =>
      match answers k with
      | Connected => (Ok (), 0%nat)
      | ConnFailed | TimedOut => let '(res, slept) := connect_from answers (S k) n in (res, S slept)
      end
  end.

Definition create_connection_manager (answers : nat -> conn_attempt) : outcome redis_error unit * nat :=
  connect_from answers 0 CONNECT_ATTEMPTS.

(** ** The state *)

(** [XREADGROUP ... COUNT 25] *)
Definition READ_COUNT : nat := 25.

Section State.
Context {J : SerdeJson} {D : RustDecimal}.

Record delivery : Type := {
  dl_router : Router;
  dl_sinks : sinks;
  dl_log : list DeviceReading;       (* history: every reading appended to the zone's stream *)
  dl_group : option nat;             (* the consumer group and how far it has delivered *)
  dl_tasks : list pending;           (* read, their tasks not run yet *)
  dl_claims : list pending;          (* claimed by the redelivery loop, not handled yet *)
  dl_zone : zone_state;
  dl_store : Redis;
  dl_written : nat                   (* snapshots the bin writer has taken off the channel *)
}.

(** What a run shows: a dissemination that returned, the creation of the group, a
    reading handled (put into its bin, or counted as late when its window has
    settled). *)
Inductive obs : Type :=
| Published (i : nat) (r : DeviceReading)
| GroupAt (n : nat)
| Handled (id : string) (r : DeviceReading).
End State.

Section Delivery.
Context {J : SerdeJson} {K : Crypto} {SS : StreamSerde} {FT : F64Text}.
Context {C : Chrono} {D : RustDecimal} {U : UuidText} {BC : Codec BillingBin}.
Context (cfg : zone_config) (zone : Z).
(** Redis names the entries of a stream in order; only that the names differ matters. *)
Context (entry_id : nat -> string).

Definition stream_of (d : delivery) : list string :=
  default [] (d.(dl_sinks).(sk_streams) !! zone_stream zone).

(** How many entries have been trimmed away. *)
Definition trimmed (d : delivery) : nat := (length d.(dl_log) - length (stream_of d))%nat.

(** ** The router's side *)

(** How often one dissemination appends its entry to this zone's stream: an XADD
    whose reply is lost may have been applied, and is retried. *)
Definition copies (r : Router) (e : dissem_env) (reading : DeviceReading) : nat :=
  let applied o := if io_applies o then 1%nat else 0%nat in
  match (get_or_build r.(rt_cached) e.(de_build1)).2, calculate_zone_index r.(rt_num_zones) reading,
        seal_reading r.(rt_cipher) e.(de_nonce) reading with
  | Ok _, Some idx, Ok _ =>
      if idx =? zone then
        (applied e.(de_xadd1) +
         if io_succeeds e.(de_xadd1) then 0
         else match e.(de_build2) with Ok _ => applied e.(de_xadd2) | _ => 0 end)%nat
      else 0%nat
  | _, _, _ => 0%nat
  end.

Definition in_zone (r : Router) (reading : DeviceReading) : bool :=
  match calculate_zone_index r.(rt_num_zones) reading with Some idx => idx =? zone | None => false end.

Definition dl_disseminate (e : dissem_env) (reading : DeviceReading) (d : delivery) : delivery * list obs :=
  let '(r, k, res) := disseminate d.(dl_router) d.(dl_sinks) e reading in
  let log := d.(dl_log) ++ replicate (copies d.(dl_router) e reading) reading in
  ({| dl_router := r; dl_sinks := k; dl_log := log; dl_group := d.(dl_group); dl_tasks := d.(dl_tasks);
      dl_claims := d.(dl_claims); dl_zone := d.(dl_zone); dl_store := d.(dl_store); dl_written := d.(dl_written) |},
   match res with
   | Ok _ => if in_zone d.(dl_router) reading then [Published (length log - 1) reading] else []
   | _ => []
   end).

(** ** The ingester's side *)

Definition with_zone (d : delivery) (g : option nat) (tasks claims : list pending) (s : zone_state) : delivery :=
  {| dl_router := d.(dl_router); dl_sinks := d.(dl_sinks); dl_log := d.(dl_log); dl_group := g; dl_tasks := tasks;
     dl_claims := claims; dl_zone := s; dl_store := d.(dl_store); dl_written := d.(dl_written) |}.

(** [XGROUP CREATE ... $ MKSTREAM]: an existing group is left alone (BUSYGROUP), a
    new one starts after the last entry; an error is logged and start-up goes on. *)
Definition setup_group (o : io) (d : delivery) : delivery * list obs :=
  match d.(dl_group) with
  | Some _ => (d, [])
  | None =>
      if io_applies o then
        (with_zone d (Some (length d.(dl_log))) d.(dl_tasks) d.(dl_claims) d.(dl_zone), [GroupAt (length d.(dl_log))])
      else (d, [])
  end.

(** The entries [XREADGROUP ... >] delivers: those after the group's position that
    are still in the stream. *)
Definition next_from (d : delivery) (c : nat) : nat := Nat.max c (trimmed d).
Definition next_batch (d : delivery) (c : nat) : list pending :=
  take READ_COUNT (imap (fun j raw => (entry_id (next_from d c + j), Some raw))
                        (drop (next_from d c - trimmed d) (stream_of d))).

(** One turn of the worker loop.  Without the group the command fails (NOGROUP) and
    the loop only waits; a reply that is lost leaves the entries pending with no
    task. *)
Definition read_group (o : io) (d : delivery) : delivery :=
  match d.(dl_group) with
  | Some c =>
      if io_applies o then
        let batch := next_batch d c in
        with_zone d (Some (match batch with [] => c | _ => next_from d c + length batch end)%nat)
          (if io_succeeds o then d.(dl_tasks) ++ batch else d.(dl_tasks)) d.(dl_claims)
          (set_pel d.(dl_zone) (d.(dl_zone).(zs_pel) ++ batch))
      else d
  | None => d
  end.

(** The reading a task or a claim handles, when it does not panic. *)
Definition binned (env : entry_env) (s : zone_state) (p : pending) : list obs :=
  match (p.2 ≫= fun raw => decode_entry raw cfg.(zc_cipher)) ≫= event_from_str with
  | Some (EvReading r) =>
      match (handle_reading s.(zs_agg) env.(ee_now) (reading_args_of (env.(ee_owner) r.(serial_number)) r)).2 with
      | Ok _ => [Handled p.1 r]
      | _ => []
      end
  | _ => []
  end.

Definition in_stream (d : delivery) (p : pending) : bool :=
  existsb (fun i => String.eqb (entry_id i) p.1) (seq (trimmed d) (length (stream_of d))).

(** An entry asked for that is no longer in the stream. *)
Definition gone (d : delivery) (ids : list pending) (p : pending) : bool :=
  existsb (fun q => String.eqb q.1 p.1) ids && negb (in_stream d p).

(** XPENDING and XCLAIM: entries trimmed from the stream leave the pending list, the
    others are returned to be handled. *)
Definition claim_stale (idle : string -> Z) (o : io) (d : delivery) : delivery :=
  if io_applies o then
    let ids := ids_to_claim idle d.(dl_zone) in
    with_zone d d.(dl_group) d.(dl_tasks)
      (if io_succeeds o then d.(dl_claims) ++ List.filter (in_stream d) ids else d.(dl_claims))
      (set_pel d.(dl_zone) (List.filter (fun p => negb (gone d ids p)) d.(dl_zone).(zs_pel)))
  else d.

(** The ordered bin writer takes the next snapshot off the channel. *)
Definition write_next (o : io) (d : delivery) : delivery :=
  match d.(dl_zone).(zs_channel) !! d.(dl_written) with
  | Some b =>
      {| dl_router := d.(dl_router); dl_sinks := d.(dl_sinks); dl_log := d.(dl_log); dl_group := d.(dl_group);
         dl_tasks := d.(dl_tasks); dl_claims := d.(dl_claims); dl_zone := d.(dl_zone);
         dl_store := store_exec d.(dl_store) (SWrite b o); dl_written := S d.(dl_written) |}
  | None => d
  end.

(** The process dies and starts again: what was in memory is gone, the bins are
    loaded from the store, the stream, its group and the pending list are Redis's. *)
Definition restart (o : io) (d : delivery) : delivery :=
  let agg := if cfg.(zc_durable) then match bin_load_all d.(dl_store) o with Ok bs => restore_bins new bs | _ => new end
             else new in
  {| dl_router := set_cached d.(dl_router) None; dl_sinks := d.(dl_sinks); dl_log := d.(dl_log);
     dl_group := d.(dl_group); dl_tasks := []; dl_claims := [];
     dl_zone := {| zs_agg := agg; zs_channel := []; zs_freq := []; zs_late := 0; zs_pel := d.(dl_zone).(zs_pel) |};
     dl_store := d.(dl_store); dl_written := 0 |}.

(** ** Runs *)

Context (wire_dom : DeviceReading -> Prop) (r0 : Router).

Inductive dl_step : delivery -> list obs -> delivery -> Prop :=
| dl_publish d e reading : wire_dom reading -> (forall n, e.(de_nonce) = Some n -> length n = 12%nat) ->
    dl_step d (dl_disseminate e reading d).2 (dl_disseminate e reading d).1
| dl_setup d o : dl_step d (setup_group o d).2 (setup_group o d).1
| dl_read d o : dl_step d [] (read_group o d)
| dl_task d env l p l' : d.(dl_tasks) = l ++ p :: l' ->
    dl_step d (binned env d.(dl_zone) p)
      (with_zone d d.(dl_group) (l ++ l') d.(dl_claims) (process_delivered cfg env d.(dl_zone) p))
| dl_claim d idle o : dl_step d [] (claim_stale idle o d)
| dl_redeliver d env l p l' : d.(dl_claims) = l ++ p :: l' ->
    dl_step d (binned env d.(dl_zone) p)
      (with_zone d d.(dl_group) d.(dl_tasks) (l ++ l') (reclaim_entry cfg env d.(dl_zone) p))
| dl_write d o : dl_step d [] (write_next o d)
| dl_restart d o : dl_step d [] (restart o d).

Definition dl_boot : delivery :=
  {| dl_router := r0; dl_sinks := {| sk_streams := ∅; sk_influx := []; sk_pg := [] |}; dl_log := [];
     dl_group := None; dl_tasks := []; dl_claims := []; dl_zone := zone_init;
     dl_store := {| bins_h := ∅; outbox_h := ∅; parked_h := ∅ |}; dl_written := 0 |}.

Inductive dl_run : list obs -> delivery -> Prop :=
| dl_start : dl_run [] dl_boot
| dl_next tr d os d' : dl_run tr d -> dl_step d os d' -> dl_run (tr ++ os) d'.

(** The envelope opens to the reading under the ingester's key. *)
Definition opens (raw : string) (r : DeviceReading) : Prop :=
  exists text, decode_entry raw cfg.(zc_cipher) = Some text /\ event_from_str text = Some (EvReading r).
End Delivery.
