(* ===== verification/DeliveryProps.v ===== *)
(** * Properties of end-to-end delivery

    Every reading whose dissemination succeeded is binned, pending, still to be
    delivered, or was trimmed behind a full stream; what is binned was published;
    a reading that waits can always be binned; and what a crash between the
    acknowledgement and the durable write loses. *)

From Stdlib Require Import ZArith Lia Ascii String SpecFloat.
From stdpp Require Import base gmap strings list numbers pretty.
From S2P Require Import Prelude RustStd External Models Aggregator AggregatorProps BinaryDecoder Stores Settlement GridStatus Router WireRef ZoneIngester ZoneIngesterProps Delivery.

Open Scope Z_scope.
Open Scope bridge_scope.

(** ** Stream names *)

Lemma zone_stream_inj a b : in_i64 a = true -> in_i64 b = true -> zone_stream a = zone_stream b -> a = b.
Proof. intros Ha Hb. unfold zone_stream. cbn [String.append]. intros [= H]. by apply show_Z_inj. Qed.

Lemma target_not_zone t idx : target_stream t <> zone_stream idx.
Proof. unfold zone_stream. by destruct t; cbn [String.append]. Qed.

(** Every stream the router can choose has a worker, and the streams differ, so no
    entry is read by two workers. *)
Theorem workers_cover {J : SerdeJson} num_zones r idx :
  0 < num_zones <= 2 ^ 63 -> calculate_zone_index num_zones r = Some idx ->
  zone_stream idx ∈ zone_streams num_zones /\ NoDup (zone_streams num_zones).
Proof.
  intros Hn Hc. destruct (zone_in_range num_zones r) as (i & Hi & Hr & _); [lia|].
  assert (i = idx) by congruence. subst i. unfold zone_streams. split.
  - apply list_elem_of_fmap_2. apply elem_of_seqZ. lia.
  - apply NoDup_fmap_2_strong; [|apply NoDup_seqZ]. intros a b Ha%elem_of_seqZ Hb%elem_of_seqZ.
    apply zone_stream_inj; unfold in_i64, i64_min, i64_max; rewrite andb_true_iff, !Z.leb_le; lia.
Qed.

Lemma connect_from_spec answers k n :
  ((connect_from answers k n).1 = Ok () <-> exists i, (i < n)%nat /\ answers (k + i)%nat = Connected) /\
  ((connect_from answers k n).2 <= n)%nat.
Proof.
  revert k. induction n as [|n IH]; intros k; cbn [connect_from].
  - split; [|done]. split; [done|]. intros (i & ? & _). lia.
  - destruct (IH (S k)) as [IH1 IH2].
    assert (Hk : answers k <> Connected ->
      (exists i, (i < n)%nat /\ answers (S k + i)%nat = Connected) <-> (exists i, (i < S n)%nat /\ answers (k + i)%nat = Connected)).
    { intros Hne. split.
      - intros (i & ? & Hi). exists (S i). rewrite <- plus_n_Sm. split; [lia|done].
      - intros ([|i] & ? & Hi); [by rewrite Nat.add_0_r in Hi|]. exists i. rewrite <- plus_n_Sm in Hi. split; [lia|done]. }
    destruct (answers k) eqn:E.
    + split; [|cbn; lia]. split; [|done]. intros _. exists 0%nat. rewrite Nat.add_0_r. split; [lia|done].
    + destruct (connect_from answers (S k) n) as [res slept]. cbn [fst snd] in *. rewrite IH1, Hk by done. split; [done|lia].
    + destruct (connect_from answers (S k) n) as [res slept]. cbn [fst snd] in *. rewrite IH1, Hk by done. split; [done|lia].
Qed.

(** Connecting ends after at most five attempts and five seconds of waiting between
    them, and fails only when none of the five was answered. *)
Theorem connect_bounded answers :
  ((create_connection_manager answers).1 = Ok () <-> exists i, (i < 5)%nat /\ answers i = Connected) /\
  ((create_connection_manager answers).2 <= 5)%nat.
Proof. exact (connect_from_spec answers 0 5). Qed.

Section Delivery.
Context {J : SerdeJson} {K : Crypto} {SS : StreamSerde} {FT : F64Text}.
Context {C : Chrono} {D : RustDecimal} {U : UuidText} {BC : Codec BillingBin} {CL : CryptoLaws}.
Context {json_dom : Value -> Prop} {wire_dom : DeviceReading -> Prop} {SL : StreamLaws json_dom wire_dom}.
Context (cfg : zone_config) (zone : Z) (entry_id : nat -> string) (r0 : Router).

(** A deployment: a bounded stream per zone, an existing zone, one stream key, and
    entry ids that differ. *)
Record deployed : Prop := {
  dp_max : 0 < r0.(rt_max_stream_len);
  dp_zones : r0.(rt_num_zones) <= 2 ^ 63;
  dp_zone : 0 <= zone < r0.(rt_num_zones);
  dp_cipher : r0.(rt_cipher) = cfg.(zc_cipher);
  dp_key sek : cfg.(zc_cipher) = Some sek -> length sek = 32%nat;
  dp_ids i j : entry_id i = entry_id j -> i = j
}.
Hypothesis DP : deployed.

Abbreviation opens := (opens cfg).
Abbreviation stream_of := (stream_of zone).
Abbreviation trimmed := (trimmed zone).
Abbreviation run := (dl_run cfg zone entry_id wire_dom r0).
Abbreviation step := (dl_step cfg zone entry_id wire_dom).

(** ** The stream holds the end of the log *)

Abbreviation bound := (Z.to_nat r0.(rt_max_stream_len)).

Definition tracks (log : list DeviceReading) (raws : list string) : Prop :=
  exists old recent, log = old ++ recent /\ Forall2 opens raws recent /\ (old <> [] -> (bound <= length raws)%nat).

Lemma tracks_trimmed log raws : tracks log raws ->
  (length raws <= length log)%nat /\ ((length raws < length log)%nat -> (bound <= length raws)%nat).
Proof.
  intros (old & recent & -> & Hf & Ho). apply Forall2_length in Hf. rewrite length_app. split; [lia|].
  intros Hl. apply Ho. intros ->. cbn in Hl. lia.
Qed.

Lemma tracks_lookup log raws i r : tracks log raws -> log !! i = Some r ->
  (length log - length raws <= i)%nat ->
  exists raw, raws !! (i - (length log - length raws))%nat = Some raw /\ opens raw r.
Proof.
  intros (old & recent & -> & Hf & _) Hi. pose proof (Forall2_length _ _ _ Hf) as Hl.
  rewrite length_app. replace (length old + length recent - length raws)%nat with (length old) by lia.
  intros Ho. rewrite lookup_app_r in Hi by done. by eapply Forall2_lookup_r in Hi as (raw & ? & ?); [|exact Hf]; eauto.
Qed.

Lemma tracks_xadd log s evict json o r :
  opens json r -> tracks log (default [] (s !! zone_stream zone)) ->
  tracks (log ++ replicate (if io_applies o then 1 else 0) r)
    (default [] (xadd r0.(rt_max_stream_len) evict s (zone_stream zone) json o !! zone_stream zone)).
Proof.
  intros Hj (old & recent & -> & Hf & Ho). unfold xadd. destruct (io_applies o); cbn [replicate].
  2:{ rewrite app_nil_r. by exists old, recent. }
  rewrite lookup_insert_eq. cbn [from_option id]. set (raws := default [] _) in *.
  set (l := raws ++ [json]). set (n := Nat.min evict _).
  assert (Hl : Forall2 opens l (recent ++ [r])) by (apply Forall2_app; auto).
  exists (old ++ take n (recent ++ [r])), (drop n (recent ++ [r])). split; [|split].
  - by rewrite <- !app_assoc, take_drop.
  - by apply Forall2_drop.
  - rewrite length_drop. destruct n as [|n'] eqn:En.
    + rewrite app_nil_r. intros Hold. unfold l. rewrite length_app. cbn. specialize (Ho Hold). lia.
    + intros _. lia.
Qed.

Lemma xadd_grows s evict json o :
  (length (default [] (xadd r0.(rt_max_stream_len) evict s (zone_stream zone) json o !! zone_stream zone))
   <= length (default [] (s !! zone_stream zone)) + (if io_applies o then 1 else 0))%nat.
Proof.
  unfold xadd. destruct (io_applies o); [|lia]. rewrite lookup_insert_eq. cbn [from_option id].
  rewrite length_drop, length_app. cbn. lia.
Qed.

Lemma tracks_publish log c e s json r r' s' res :
  opens json r -> tracks log (default [] (s !! zone_stream zone)) ->
  publish (set_cached r0 c) e s (zone_stream zone) json = (r', s', res) ->
  let n := ((if io_applies e.(de_xadd1) then 1 else 0) +
            if io_succeeds e.(de_xadd1) then 0
            else match e.(de_build2) with Ok _ => if io_applies e.(de_xadd2) then 1 else 0 | _ => 0 end)%nat in
  tracks (log ++ replicate n r) (default [] (s' !! zone_stream zone)) /\
  (length (default [] (s' !! zone_stream zone)) <= length (default [] (s !! zone_stream zone)) + n)%nat /\
  (exists c', r' = set_cached r0 c') /\ (res = Ok () -> (0 < n)%nat).
Proof.
  intros Hj Ht Hp n. subst n. pose proof (tracks_xadd log s e.(de_evict) json e.(de_xadd1) r Hj Ht) as H1.
  pose proof (xadd_grows s e.(de_evict) json e.(de_xadd1)) as G1.
  unfold publish in Hp. cbn [set_cached rt_max_stream_len invalidate_cache get_or_build] in Hp.
  destruct (io_succeeds (de_xadd1 e)) eqn:E1.
  { injection Hp as <- <- <-. rewrite Nat.add_0_r. split; [done|]. split; [done|]. split; [by eexists|].
    destruct (de_xadd1 e); cbn; [lia|done|done]. }
  destruct (de_build2 e) as [[]|x|] eqn:E2; injection Hp as <- <- <-.
  2,3: rewrite Nat.add_0_r; split; [done|]; split; [done|]; split; [by eexists|done].
  split; [|split; [|split; [by eexists|]]].
  - rewrite replicate_add, app_assoc. by apply tracks_xadd.
  - etrans; [apply xadd_grows|]. lia.
  - destruct (io_succeeds (de_xadd2 e)) eqn:E3; [|done]. destruct (de_xadd2 e); cbn; [lia|done|done].
Qed.
Lemma publish_other c e s name json r' s' res :
  name <> zone_stream zone -> publish (set_cached r0 c) e s name json = (r', s', res) ->
  s' !! zone_stream zone = s !! zone_stream zone /\ exists c', r' = set_cached r0 c'.
Proof.
  intros Hn. unfold publish. cbn [set_cached rt_max_stream_len invalidate_cache get_or_build].
  destruct (io_succeeds _); [|destruct (de_build2 e)]; intros [= <- <- _];
    (split; [by rewrite !xadd_other|by eexists]).
Qed.

Lemma other_zone reading idx :
  calculate_zone_index r0.(rt_num_zones) reading = Some idx -> idx <> zone -> zone_stream idx <> zone_stream zone.
Proof.
  intros Hi Hne Heq. apply Hne. destruct DP as [_ Hz [H0 H1] _ _ _].
  destruct (zone_in_range r0.(rt_num_zones) reading) as (idx' & Hi' & Hr & _); [lia|].
  assert (idx' = idx) by congruence. subst idx'.
  apply zone_stream_inj; [unfold in_i64, i64_min, i64_max; rewrite andb_true_iff, !Z.leb_le; lia..|done].
Qed.

Lemma sealed_opens e reading json :
  wire_dom reading -> (forall n, e.(de_nonce) = Some n -> length n = 12%nat) ->
  seal_reading r0.(rt_cipher) e.(de_nonce) reading = Ok json -> opens json reading.
Proof.
  intros Hw Hn Hs. rewrite (dp_cipher DP) in Hs. eapply decode_sealed in Hs; [exact Hs|done| |done].
  exact (dp_key DP).
Qed.

(** One dissemination: the log grows by the copies of the reading, the stream stays
    its end, and a success is the last entry. *)
Lemma disseminate_step d c e reading :
  d.(dl_router) = set_cached r0 c -> wire_dom reading -> (forall n, e.(de_nonce) = Some n -> length n = 12%nat) ->
  tracks d.(dl_log) (stream_of d) ->
  let d' := (dl_disseminate zone e reading d).1 in
  tracks d'.(dl_log) (stream_of d') /\ (trimmed d <= trimmed d')%nat /\
  (exists c', d'.(dl_router) = set_cached r0 c') /\
  (exists n, d'.(dl_log) = d.(dl_log) ++ replicate n reading) /\
  (forall o, o ∈ (dl_disseminate zone e reading d).2 ->
     exists i, o = Published i reading /\ d'.(dl_log) !! i = Some reading).
Proof.
  intros Hr Hw Hn Ht. unfold dl_disseminate, disseminate, copies, in_zone, Delivery.trimmed, Delivery.stream_of.
  rewrite Hr. fold (stream_of d).
  destruct (get_or_build _ (de_build1 e)) as [c1 built]. cbn [set_cached rt_num_zones rt_cipher snd].
  assert (Hno : forall c', tracks (dl_log d ++ replicate 0 reading) (stream_of d) /\
     (length (dl_log d) - length (stream_of d) <=
      length (dl_log d ++ replicate 0 reading) - length (stream_of d))%nat /\
     (exists c'', set_cached r0 c' = set_cached r0 c'') /\
     (exists n, dl_log d ++ replicate 0 reading = dl_log d ++ replicate n reading) /\
     (forall o, o ∈ [] -> exists i, o = Published i reading /\ (dl_log d ++ replicate 0 reading) !! i = Some reading)).
  { intros c'. rewrite app_nil_r. split; [done|]. split; [lia|]. split; [by eexists|]. split; [by exists 0%nat; rewrite app_nil_r|]. by intros o ?%elem_of_nil. }
  destruct built as [[]|x|]; try (apply (Hno c1)).
  destruct (calculate_zone_index _ reading) as [idx|] eqn:Ez; [|apply (Hno c1)].
  destruct (seal_reading _ _ reading) as [json|x|] eqn:Es; [|apply (Hno c1)..].
  apply (sealed_opens e) in Es; [|done..].
  destruct (Z.eqb_spec idx zone) as [->|Hne].
  - destruct (publish _ e _ _ json) as [[r1 s1] res] eqn:Ep.
    apply (tracks_publish (dl_log d) _ _ _ _ reading) in Ep as (Hs1 & Hg & Hc & Hp); [|done|exact Ht].
    fold (stream_of d) in Hg. set (n := ((if io_applies _ then _ else _) + _)%nat) in *.
    destruct res as [[]|x|]; cbn [fst snd dl_log dl_router dl_sinks sk_streams set_streams];
      rewrite !length_app, !length_replicate.
    2,3: split; [done|]; split; [lia|]; split; [done|]; split; [by eexists|]; by intros o ?%elem_of_nil.
    rewrite (proj2 (String.eqb_neq _ _) (target_not_zone _ _)). cbn [record_sinks set_streams sk_streams].
    rewrite xadd_other by apply target_not_zone. split; [done|]. split; [lia|]. split; [done|]. split; [by eexists|].
    intros o ->%list_elem_of_singleton. eexists. split; [done|].
    specialize (Hp eq_refl). rewrite lookup_app_r by lia.
    apply lookup_replicate. split; [done|lia].
  - apply other_zone in Ez; [|done].
    destruct (publish _ e _ _ json) as [[r1 s1] res] eqn:Ep. apply publish_other in Ep as (Hs1 & c2 & ->); [|exact Ez].
    destruct res as [[]|x|]; cbn [fst snd dl_log dl_router dl_sinks sk_streams set_streams record_sinks].
    + rewrite (proj2 (String.eqb_neq _ _) (target_not_zone _ _)), xadd_other by apply target_not_zone.
      rewrite Hs1. fold (stream_of d). apply (Hno c2).
    + rewrite Hs1. fold (stream_of d). apply (Hno c2).
    + rewrite Hs1. fold (stream_of d). apply (Hno c2).
Qed.
(** ** Handling an entry *)

(** A task and a claim treat an entry of the router alike: it leaves the pending
    list only when its reading has been binned. *)
Lemma process_opened env s id raw r :
  opens raw r ->
  reclaim_entry cfg env s (id, Some raw) = process_delivered cfg env s (id, Some raw) /\
  let s' := process_delivered cfg env s (id, Some raw) in
  (binned cfg env s (id, Some raw) = [Handled id r] /\
   s'.(zs_agg) = (handle_reading s.(zs_agg) env.(ee_now) (reading_args_of (env.(ee_owner) r.(serial_number)) r)).1 /\
   (s'.(zs_pel) = s.(zs_pel) \/ s'.(zs_pel) = List.filter (fun p => negb (String.eqb p.1 id)) s.(zs_pel))) \/
  (binned cfg env s (id, Some raw) = [] /\ s'.(zs_pel) = s.(zs_pel)).
Proof.
  intros (text & Hd & He). unfold reclaim_entry, process_delivered, binned. cbn [fst snd mbind option_bind].
  rewrite Hd. cbn [mbind option_bind]. split; [done|]. rewrite He. unfold process_json. rewrite He.
  unfold handle_iot_reading, bin_reading. destruct (feed_monitor_same cfg env s r) as [Ha Hc].
  assert (Hp : zs_pel (feed_monitor cfg env s r) = zs_pel s)
    by (unfold feed_monitor; destruct (zc_monitor cfg); [by destruct (extract_frequency _)|done]).
  rewrite Ha. destruct (handle_reading _ _ _) as [agg [[b|]|[]|]]; cbn [fst snd];
    try (left; split; [done|]; unfold ack_entry; destruct (io_applies _); cbn; rewrite Hp; auto);
    right; cbn; auto.
Qed.

(** ** The invariant of a run *)

(** A pending entry, or one being handled, is an entry of the log, delivered by the
    group. *)
Definition genuine (tr : list obs) (log : list DeviceReading) (p : pending) : Prop :=
  exists i r raw, p = (entry_id i, Some raw) /\ log !! i = Some r /\ opens raw r /\
    forall n, GroupAt n ∈ tr -> (n <= i)%nat.

Definition covered (tr : list obs) (d : delivery) (i : nat) (r : DeviceReading) : Prop :=
  Handled (entry_id i) r ∈ tr \/ (exists raw, (entry_id i, Some raw) ∈ d.(dl_zone).(zs_pel)) \/
  (exists c, d.(dl_group) = Some c /\ (c <= i)%nat) \/ (i < trimmed d)%nat.

Definition at_hand (d : delivery) : list pending := d.(dl_zone).(zs_pel) ++ d.(dl_tasks) ++ d.(dl_claims).

Record inv (tr : list obs) (d : delivery) : Prop := {
  iv_router : exists c, d.(dl_router) = set_cached r0 c;
  iv_stream : tracks d.(dl_log) (stream_of d);
  iv_none : d.(dl_group) = None -> at_hand d = [] /\ forall o, o ∈ tr -> exists i r, o = Published i r;
  iv_group c : d.(dl_group) = Some c -> (c <= length d.(dl_log))%nat /\ forall n, GroupAt n ∈ tr -> (n <= c)%nat;
  iv_genuine p : p ∈ at_hand d -> genuine tr d.(dl_log) p;
  iv_cover n i r : GroupAt n ∈ tr -> (n <= i)%nat -> d.(dl_log) !! i = Some r -> covered tr d i r;
  iv_pub i r : Published i r ∈ tr -> d.(dl_log) !! i = Some r;
  iv_handled id r : Handled id r ∈ tr ->
    exists i, id = entry_id i /\ d.(dl_log) !! i = Some r /\ forall n, GroupAt n ∈ tr -> (n <= i)%nat
}.

Lemma inv_boot : inv [] (dl_boot r0).
Proof.
  constructor; cbn [dl_boot dl_router dl_group dl_log dl_zone]; try done; try (by intros; set_solver).
  - exists r0.(rt_cached). by destruct r0.
  - exists [], []. split; [done|]. split; [constructor|done].
Qed.

(** Steps that touch neither the stream, the group nor the pending list. *)
Lemma inv_frame tr d d' :
  inv tr d -> (exists c, d'.(dl_router) = set_cached r0 c) -> d'.(dl_sinks) = d.(dl_sinks) ->
  d'.(dl_log) = d.(dl_log) -> d'.(dl_group) = d.(dl_group) -> d'.(dl_zone).(zs_pel) = d.(dl_zone).(zs_pel) ->
  (forall p, p ∈ at_hand d' -> p ∈ at_hand d) -> inv tr d'.
Proof.
  intros [Hr Hs Hn Hg Hge Hc Hp Hh] Hr' Es El Eg Ep Hsub.
  assert (E : stream_of d' = stream_of d) by (unfold Delivery.stream_of; by rewrite Es).
  constructor; rewrite ?E, ?El, ?Eg; auto.
  - intros [Ha Ho]%Hn. split; [|done]. apply elem_of_nil_inv. intros p ?%Hsub. rewrite Ha in *. set_solver.
  - intros n i r Hn1 Hn2 Hi. unfold covered, Delivery.trimmed. rewrite E, El, Eg, Ep. by apply (Hc n).
Qed.

Lemma step_publish tr d e reading :
  inv tr d -> wire_dom reading -> (forall n, e.(de_nonce) = Some n -> length n = 12%nat) ->
  inv (tr ++ (dl_disseminate zone e reading d).2) (dl_disseminate zone e reading d).1.
Proof.
  intros [[c Hr] Hs Hn Hg Hge Hc Hp Hh] Hw Hnn.
  destruct (disseminate_step d c e reading Hr Hw Hnn Hs) as (Hs' & Ht & Hr' & [m El] & Ho).
  assert (Hz : forall d' os, dl_disseminate zone e reading d = (d', os) ->
    d'.(dl_group) = d.(dl_group) /\ at_hand d' = at_hand d /\ d'.(dl_zone) = d.(dl_zone)).
  { unfold dl_disseminate. destruct (disseminate _ _ e reading) as [[r k] res]. by intros ? ? [= <- _]. }
  destruct (dl_disseminate zone e reading d) as [d' os]. cbn [fst snd] in *.
  destruct (Hz d' os eq_refl) as (Eg & Ea & Ez).
  assert (HG : forall n, GroupAt n ∈ tr ++ os -> GroupAt n ∈ tr).
  { intros n [?|(? & ? & _)%Ho]%elem_of_app; [done|congruence]. }
  assert (HL : forall i r, dl_log d !! i = Some r -> dl_log d' !! i = Some r)
    by (intros; rewrite El; by apply lookup_app_l_Some).
  constructor; rewrite ?Eg, ?Ea; auto.
  - intros [Ha Hos]%Hn. split; [done|]. intros o [?|(i & -> & _)%Ho]%elem_of_app; eauto.
  - intros c' [Hl Hb]%Hg. rewrite El, length_app. split; [lia|auto].
  - intros p (i & r & raw & ? & ? & ? & ?)%Hge. exists i, r, raw. auto 6.
  - intros n i r Hgn%HG Hni Hi. unfold covered. rewrite Eg, Ez.
    destruct (decide (i < length (dl_log d))%nat) as [Hlt|Hge'].
    + rewrite El, lookup_app_l in Hi by done.
      destruct (Hc n i r Hgn Hni Hi) as [?|[?|[?|?]]]; [left; set_solver|auto..|]. right. right. right. lia.
    + right. right. left. destruct (dl_group d) as [c'|] eqn:E.
      * exists c'. destruct (Hg c' eq_refl). split; [done|lia].
      * destruct (Hn eq_refl) as [_ Hx]. by destruct (Hx _ Hgn) as (? & ? & ?).
  - intros i r [?|(? & [= -> ->] & ?)%Ho]%elem_of_app; auto.
  - intros id r [(i & ? & ? & ?)%Hh|(? & ? & _)%Ho]%elem_of_app; [|done]. exists i. auto 6.
Qed.
Lemma step_setup tr d o : inv tr d -> inv (tr ++ (setup_group o d).2) (setup_group o d).1.
Proof.
  intros Hi. unfold setup_group. destruct (dl_group d) as [c|] eqn:Eg; cbn [fst snd]; [by rewrite app_nil_r|].
  destruct (io_applies o); cbn [fst snd]; [|by rewrite app_nil_r].
  destruct Hi as [Hr Hs Hn Hg Hge Hc Hp Hh]. destruct (Hn Eg) as [Ha Ho].
  constructor; cbn [with_zone dl_router dl_log dl_group]; auto.
  - done.
  - intros c [= <-]. split; [lia|]. intros n [(? & ? & ?)%Ho|[= ->]%list_elem_of_singleton]%elem_of_app; [done|lia].
  - change (at_hand _) with (at_hand d). rewrite Ha. set_solver.
  - intros n i r [(? & ? & ?)%Ho|[= ->]%list_elem_of_singleton]%elem_of_app Hni Hi; [done|].
    apply lookup_lt_Some in Hi. lia.
  - intros i r [?|?%list_elem_of_singleton]%elem_of_app; [auto|done].
  - intros id r [(? & ? & ?)%Ho|?%list_elem_of_singleton]%elem_of_app; done.
Qed.

(** The batch: the next entries of the stream, in order. *)
Lemma next_batch_lookup d c j p :
  next_batch zone entry_id d c !! j = Some p <->
  (j < READ_COUNT)%nat /\ exists raw, p = (entry_id (next_from zone d c + j)%nat, Some raw) /\
    stream_of d !! (next_from zone d c + j - trimmed d)%nat = Some raw.
Proof.
  unfold next_batch. rewrite lookup_take_Some, list_lookup_imap, fmap_Some, lookup_drop.
  assert (E : (next_from zone d c - trimmed d + j = next_from zone d c + j - trimmed d)%nat)
    by (unfold next_from; lia).
  rewrite E. naive_solver.
Qed.

Lemma tracks_lookup_l log raws j raw : tracks log raws -> raws !! j = Some raw ->
  exists r, log !! (length log - length raws + j)%nat = Some r /\ opens raw r.
Proof.
  intros (old & recent & -> & Hf & _) Hj. pose proof (Forall2_length _ _ _ Hf) as Hl.
  rewrite length_app. replace (length old + length recent - length raws)%nat with (length old) by lia.
  eapply Forall2_lookup_l in Hj as (r & Hr & ?); [|exact Hf]. exists r. split; [|done].
  rewrite lookup_app_r by lia. by replace (length old + j - length old)%nat with j by lia.
Qed.

Lemma step_read tr d o : inv tr d -> inv tr (read_group zone entry_id o d).
Proof.
  intros Hi. unfold read_group. destruct (dl_group d) as [c|] eqn:Eg; [|done].
  destruct (io_applies o); [|done]. pose proof Hi as [Hr Hs Hn Hg Hge Hc Hp Hh].
  destruct (Hg c Eg) as [Hcl Hcn]. set (batch := next_batch zone entry_id d c).
  assert (Hb : forall p, p ∈ batch -> genuine tr (dl_log d) p).
  { intros p [j (_ & raw & -> & Hraw)%next_batch_lookup]%list_elem_of_lookup.
    destruct (tracks_lookup_l _ _ _ _ Hs Hraw) as (r & Hl & Ho). exists (next_from zone d c + j)%nat, r, raw.
    fold (trimmed d) in Hl. unfold next_from in *.
    replace (trimmed d + (Nat.max c (trimmed d) + j - trimmed d))%nat with (Nat.max c (trimmed d) + j)%nat in Hl by lia.
    split; [done|]. split; [done|]. split; [done|]. intros n Hgn%Hcn. lia. }
  constructor; cbn [with_zone dl_router dl_log dl_group]; auto.
  - done.
  - intros c' [= <-]. destruct batch as [|p l] eqn:Eb; [done|]. rewrite <- Eb.
    assert (Hlast : is_Some (batch !! (length batch - 1)%nat)).
    { apply lookup_lt_is_Some. rewrite Eb. cbn. lia. }
    destruct Hlast as [q (_ & raw & _ & Hraw)%next_batch_lookup].
    apply lookup_lt_Some in Hraw. destruct (tracks_trimmed _ _ Hs) as [Hle _].
    unfold next_from, Delivery.trimmed in *. split; [rewrite Eb in *; cbn in *; lia|].
    intros n Hgn%Hcn. lia.
  - intros p Hin. destruct (decide (p ∈ batch)) as [|Hnb]; [auto|]. apply Hge.
    unfold at_hand in *. cbn in Hin. destruct (io_succeeds o); set_solver.
  - intros n i r Hgn Hni Hl. destruct (Hc n i r Hgn Hni Hl) as [?|[[raw ?]|[(c' & E & Hle)|?]]]; [by left| | |].
    + right. left. exists raw. cbn. set_solver.
    + assert (c' = c) by congruence. subst c'.
      destruct (decide (i < trimmed d)%nat) as [|Ht]; [by right; right; right|].
      destruct (decide (i < next_from zone d c + length batch)%nat) as [Hlt|Hge'].
      * right. left. assert (Hx : is_Some (batch !! (i - next_from zone d c)%nat)).
        { apply lookup_lt_is_Some. unfold next_from in *. lia. }
        destruct Hx as [p Hx]. pose proof Hx as (_ & raw & -> & _)%next_batch_lookup. exists raw.
        replace (next_from zone d c + (i - next_from zone d c))%nat with i in Hx by (unfold next_from in *; lia).
        apply list_elem_of_lookup_2 in Hx. cbn. set_solver.
      * right. right. left. cbn [with_zone dl_group]. eexists. split; [done|]. destruct batch; lia.
    + by right; right; right.
Qed.
(** A task or a claim runs: its entry is dropped from the pending list only with its
    reading binned. *)
Lemma step_handle tr d env p tasks claims :
  inv tr d -> p ∈ dl_tasks d ++ dl_claims d ->
  (forall q, q ∈ tasks ++ claims -> q ∈ dl_tasks d ++ dl_claims d) ->
  inv (tr ++ binned cfg env d.(dl_zone) p)
    (with_zone d d.(dl_group) tasks claims (process_delivered cfg env d.(dl_zone) p)) /\
  reclaim_entry cfg env d.(dl_zone) p = process_delivered cfg env d.(dl_zone) p.
Proof.
  intros [Hr Hs Hn Hg Hge Hc Hp Hh] Hin Hsub.
  assert (Hat : p ∈ at_hand d) by (unfold at_hand; set_solver).
  destruct (Hge p Hat) as (i & r & raw & -> & Hl & Ho & Hgi).
  destruct (process_opened env d.(dl_zone) (entry_id i) raw r Ho) as [Hre Hcase]. split; [|done].
  set (s' := process_delivered _ _ _ _) in *. set (os := binned _ _ _ _) in *.
  assert (Hos : forall o, o ∈ os -> o = Handled (entry_id i) r).
  { destruct Hcase as [[-> _]|[-> _]]; set_solver. }
  assert (HG : forall n, GroupAt n ∈ tr ++ os -> GroupAt n ∈ tr) by (intros n [?|?%Hos]%elem_of_app; done).
  assert (Hpel : forall q, q ∈ zs_pel s' -> q ∈ zs_pel (dl_zone d)).
  { intros q. destruct Hcase as [(_ & _ & [->| ->])|[_ ->]]; [done| |done].
    rewrite !list_elem_of_In, filter_In. tauto. }
  constructor; cbn [with_zone dl_router dl_log dl_group]; auto.
  - intros [Ha _]%Hn. rewrite Ha in Hat. set_solver.
  - intros c [? ?]%Hg. auto.
  - intros q Hq. destruct (Hge q) as (j & r' & raw' & ? & ? & ? & ?).
    { unfold at_hand in *. cbn in Hq. apply elem_of_app in Hq as [?|?]; set_solver. }
    exists j, r', raw'. auto 6.
  - intros n j r' Hgn%HG Hnj Hj. destruct (Hc n j r' Hgn Hnj Hj) as [?|[[raw' Hpj]|[?|?]]].
    + left. set_solver.
    + destruct Hcase as [(Eos & _ & Hpl)|[_ Hpl]].
      2:{ right. left. exists raw'. cbn [with_zone dl_zone]. by rewrite Hpl. }
      destruct (decide (j = i)) as [->|Hne].
      * left. assert (r' = r) by congruence. subst r'. rewrite Eos. set_solver.
      * right. left. exists raw'. cbn [with_zone dl_zone]. destruct Hpl as [->| ->]; [done|].
        apply list_elem_of_In, filter_In. split; [by apply list_elem_of_In|]. cbn.
        apply negb_true_iff, String.eqb_neq. intros ?%(dp_ids DP). done.
    + right. right. by left.
    + by right; right; right.
  - intros j r' [?|?%Hos]%elem_of_app; [auto|done].
  - intros id r' [(j & ? & ? & ?)%Hh|[= -> ->]%Hos]%elem_of_app; [exists j|exists i]; auto 6.
Qed.

Lemma in_stream_false d i raw :
  in_stream zone entry_id d (entry_id i, raw) = false -> (i < length (dl_log d))%nat ->
  (length (stream_of d) <= length (dl_log d))%nat -> (i < trimmed d)%nat.
Proof.
  intros Hf Hi Hle. destruct (decide (i < trimmed d)%nat) as [|Ht]; [done|exfalso].
  enough (in_stream zone entry_id d (entry_id i, raw) = true) by congruence.
  apply existsb_exists. exists i. split; [|apply String.eqb_refl]. apply in_seq. unfold Delivery.trimmed in *. lia.
Qed.

Lemma step_claim tr d idle o : inv tr d -> inv tr (claim_stale zone entry_id idle o d).
Proof.
  intros Hi. unfold claim_stale. destruct (io_applies o); [|done].
  destruct Hi as [Hr Hs Hn Hg Hge Hc Hp Hh]. set (ids := ids_to_claim idle (dl_zone d)).
  assert (Hids : forall p, p ∈ ids -> p ∈ zs_pel (dl_zone d)).
  { intros p. unfold ids, ids_to_claim. rewrite !list_elem_of_In, filter_In.
    intros [Hp' _]. rewrite <- (take_drop RECLAIM_BATCH). apply in_or_app. by left. }
  set (gone := gone zone entry_id d ids).
  assert (Hsub : forall p, p ∈ at_hand (with_zone d (dl_group d) (dl_tasks d)
     (if io_succeeds o then dl_claims d ++ List.filter (in_stream zone entry_id d) ids else dl_claims d)
     (set_pel (dl_zone d) (List.filter (fun p => negb (gone p)) (zs_pel (dl_zone d))))) -> p ∈ at_hand d).
  { intros p. unfold at_hand. cbn [with_zone dl_zone dl_tasks dl_claims set_pel zs_pel].
    rewrite !elem_of_app. intros [Hf|[?|Hcl]]; [|auto|].
    - rewrite list_elem_of_In, filter_In, <- list_elem_of_In in Hf. tauto.
    - destruct (io_succeeds o); [|auto]. apply elem_of_app in Hcl as [?|Hf]; [auto|].
      rewrite list_elem_of_In, filter_In, <- list_elem_of_In in Hf. destruct Hf as [?%Hids _]. auto. }
  constructor; cbn [with_zone dl_router dl_log dl_group]; auto.
  - intros [Ha ?]%Hn. split; [|done]. apply elem_of_nil_inv. intros p ?%Hsub. rewrite Ha in *. set_solver.
  - intros n i r Hgn Hni Hl. destruct (Hc n i r Hgn Hni Hl) as [?|[[raw Hraw]|[?|?]]]; [by left| | |].
    + destruct (gone (entry_id i, Some raw)) eqn:Eg.
      * right. right. right. apply andb_true_iff in Eg as [_ Eg%negb_true_iff].
        eapply in_stream_false; [exact Eg|by eapply lookup_lt_Some|by apply tracks_trimmed].
      * right. left. exists raw. cbn [with_zone dl_zone set_pel zs_pel].
        apply list_elem_of_In, filter_In. rewrite Eg. split; [by apply list_elem_of_In|done].
    + right. right. by left.
    + by right; right; right.
Qed.

Lemma delivery_inv_step tr d os d' : inv tr d -> step d os d' -> inv (tr ++ os) d'.
Proof.
  intros Hi Hs. destruct Hs as [d e reading Hw Hn|d o|d o|d env l p l' El|d idle o|d env l p l' El|d o|d o];
    rewrite ?app_nil_r.
  - by apply step_publish.
  - by apply step_setup.
  - by apply step_read.
  - eapply step_handle; [done|rewrite El; set_solver|]. rewrite El. set_solver.
  - by apply step_claim.
  - destruct (step_handle tr d env p (dl_tasks d) (l ++ l') Hi) as [H1 ->]; [rewrite El; set_solver| |done].
    rewrite El. set_solver.
  - unfold write_next. destruct (_ !! _); [|done]. apply (inv_frame tr d); try done. apply Hi.
  - apply (inv_frame tr d); try done.
    + destruct (iv_router _ _ Hi) as [c Hr]. exists None. cbn. by rewrite Hr.
    + unfold at_hand. cbn. set_solver.
Qed.

Lemma delivery_inv_run tr d : run tr d -> inv tr d.
Proof. induction 1 as [|tr d os d' _ IH Hs]; [apply inv_boot|]. by eapply delivery_inv_step. Qed.
(** ** At least once *)

Lemma inv_delivers tr d n i r :
  inv tr d -> Published i r ∈ tr -> GroupAt n ∈ tr -> (n <= i)%nat ->
  Handled (entry_id i) r ∈ tr \/
  (exists raw, (entry_id i, Some raw) ∈ d.(dl_zone).(zs_pel) /\ opens raw r) \/
  (exists c raw, d.(dl_group) = Some c /\ (c <= i)%nat /\ stream_of d !! (i - trimmed d)%nat = Some raw /\ opens raw r) \/
  (i + bound < length d.(dl_log))%nat.
Proof.
  intros Hi Hp Hg Hn. pose proof (iv_pub _ _ Hi i r Hp) as Hl.
  destruct (tracks_trimmed _ _ (iv_stream _ _ Hi)) as [Hle Hb].
  destruct (iv_cover _ _ Hi n i r Hg Hn Hl) as [?|[[raw Hraw]|[(c & Hc & Hci)|Ht]]]; [by left| | |].
  - right. left. exists raw. split; [done|].
    destruct (iv_genuine _ _ Hi (entry_id i, Some raw)) as (j & r' & raw' & [= Hij <-] & Hj & Ho & _);
      [unfold at_hand; set_solver|]. apply (dp_ids DP) in Hij. subst j. by replace r with r' by congruence.
  - destruct (decide (i < trimmed d)%nat) as [Ht|Ht].
    + right. right. right. unfold Delivery.trimmed in Ht. lia.
    + right. right. left. destruct (tracks_lookup _ _ i r (iv_stream _ _ Hi) Hl) as (raw & Hr & Ho);
        [unfold Delivery.trimmed in Ht; lia|]. by exists c, raw.
  - right. right. right. unfold Delivery.trimmed in Ht. lia.
Qed.

(** C4: a reading whose dissemination succeeded while the consumer group exists is
    delivered at least once: whatever replies are lost, tasks panic or processes die
    in between, it has been handled (binned, or counted as late), or its entry is pending (and opens to it), or it
    is still in the stream ahead of the group, or the bounded stream took in its whole
    length of newer entries first. *)
Theorem delivered_at_least_once tr d n i r :
  run tr d -> Published i r ∈ tr -> GroupAt n ∈ tr -> (n <= i)%nat ->
  Handled (entry_id i) r ∈ tr \/
  (exists raw, (entry_id i, Some raw) ∈ d.(dl_zone).(zs_pel) /\ opens raw r) \/
  (exists c raw, d.(dl_group) = Some c /\ (c <= i)%nat /\ stream_of d !! (i - trimmed d)%nat = Some raw /\ opens raw r) \/
  (i + bound < length d.(dl_log))%nat.
Proof. intros Hi%delivery_inv_run. by apply inv_delivers. Qed.

(** What is binned was appended by the router after the group was created. *)
Theorem only_published_handled tr d id r :
  run tr d -> Handled id r ∈ tr ->
  exists i, id = entry_id i /\ d.(dl_log) !! i = Some r /\ forall n, GroupAt n ∈ tr -> (n <= i)%nat.
Proof. intros Hi%delivery_inv_run. apply (iv_handled _ _ Hi). Qed.

(** The group starts at the end of the stream ("$"): a reading published before it
    exists (the first start of a zone, or a start whose XGROUP failed and was only
    logged) is acknowledged to the meter and never reaches a worker. *)
Theorem before_group_skipped tr d n i r :
  run tr d -> GroupAt n ∈ tr -> Published i r ∈ tr -> (i < n)%nat ->
  Handled (entry_id i) r ∉ tr /\ forall raw, (entry_id i, raw) ∉ at_hand d.
Proof.
  intros Hi%delivery_inv_run Hg _ Hlt. split.
  - intros (j & Hij%(dp_ids DP) & _ & Hj)%(iv_handled _ _ Hi). apply Hj in Hg. lia.
  - intros raw (j & r' & raw' & [= Hij%(dp_ids DP) _] & _ & _ & Hj)%(iv_genuine _ _ Hi). apply Hj in Hg. lia.
Qed.

(** ** Progress *)

Lemma binned_handled env s id raw r :
  opens raw r ->
  (handle_reading s.(zs_agg) env.(ee_now) (reading_args_of (env.(ee_owner) r.(serial_number)) r)).2 <> Panic ->
  binned cfg env s (id, Some raw) = [Handled id r].
Proof.
  intros (text & Hd & He) Hok. unfold binned. cbn [fst snd mbind option_bind]. rewrite Hd.
  cbn [mbind option_bind]. rewrite He. by destruct (handle_reading _ _ _) as [? [?|[]|]].
Qed.

(** Enough reads put the entry in front of a task. *)
Lemma reads_reach tr d c i :
  run tr d -> d.(dl_group) = Some c -> (c <= i)%nat -> (trimmed d <= i < length d.(dl_log))%nat ->
  exists d' raw, run tr d' /\ (entry_id i, Some raw) ∈ d'.(dl_tasks) /\ d'.(dl_log) = d.(dl_log) /\
    d'.(dl_zone).(zs_agg) = d.(dl_zone).(zs_agg).
Proof.
  remember (i - c)%nat as m eqn:Em. revert d c Em. induction (lt_wf m) as [m _ IH]. intros d c -> Hrun Hg Hc Hi.
  assert (Hr1 : run tr (read_group zone entry_id IoOk d)) by (rewrite <- (app_nil_r tr); by eapply dl_next; [|constructor]).
  assert (Hb : is_Some (next_batch zone entry_id d c !! 0%nat)).
  { assert (is_Some (stream_of d !! (next_from zone d c + 0 - trimmed d)%nat)) as [raw Hraw].
    { apply lookup_lt_is_Some. unfold next_from, Delivery.trimmed in *. lia. }
    eexists. apply next_batch_lookup. split; [unfold READ_COUNT; lia|eauto]. }
  unfold read_group in Hr1. rewrite Hg in Hr1. cbn [io_applies io_succeeds] in Hr1.
  set (batch := next_batch zone entry_id d c) in *.
  assert (Hne : (0 < length batch)%nat) by (destruct batch; [by destruct Hb|cbn; lia]).
  destruct (decide (i - next_from zone d c < length batch)%nat) as [Hlt|Hge].
  - apply lookup_lt_is_Some in Hlt as [p Hp]. pose proof Hp as (_ & raw & -> & _)%next_batch_lookup.
    replace (next_from zone d c + (i - next_from zone d c))%nat with i in Hp by (unfold next_from in *; lia).
    eexists _, raw. split; [exact Hr1|]. split; [|done]. cbn [with_zone dl_tasks]. apply list_elem_of_lookup_2 in Hp. set_solver.
  - edestruct (IH (i - (next_from zone d c + length batch))%nat) as (d' & raw & H1 & H2 & H3 & H4);
      [unfold next_from in *; lia|reflexivity|exact Hr1| | | |].
    + cbn [with_zone dl_group]. f_equal. destruct batch; [cbn in Hne; lia|done].
    + unfold next_from in *. lia.
    + exact Hi.
    + by exists d', raw.
Qed.
(** A task in front of the entry, run. *)
Lemma task_handles tr d env i raw r :
  run tr d -> (entry_id i, Some raw) ∈ d.(dl_tasks) -> d.(dl_log) !! i = Some r ->
  (handle_reading d.(dl_zone).(zs_agg) env.(ee_now) (reading_args_of (env.(ee_owner) r.(serial_number)) r)).2 <> Panic ->
  exists d', run (tr ++ [Handled (entry_id i) r]) d'.
Proof.
  intros Hrun Hin Hl Hok. pose proof (delivery_inv_run _ _ Hrun) as Hi.
  destruct (iv_genuine _ _ Hi (entry_id i, Some raw)) as (j & r' & raw' & [= Hij%(dp_ids DP) <-] & Hj & Ho & _);
    [unfold at_hand; set_solver|]. subst j. assert (r' = r) by congruence. subst r'.
  apply list_elem_of_split in Hin as (l & l' & El). eexists.
  rewrite <- (binned_handled env d.(dl_zone) (entry_id i) raw r Ho Hok).
  eapply dl_next; [exact Hrun|]. by eapply dl_task.
Qed.

(** A pending entry among the first fifty, claimed and handled. *)
Lemma claim_handles tr d env i raw r :
  run tr d -> (entry_id i, Some raw) ∈ take RECLAIM_BATCH d.(dl_zone).(zs_pel) -> d.(dl_log) !! i = Some r ->
  (trimmed d <= i)%nat ->
  (handle_reading d.(dl_zone).(zs_agg) env.(ee_now) (reading_args_of (env.(ee_owner) r.(serial_number)) r)).2 <> Panic ->
  exists d', run (tr ++ [Handled (entry_id i) r]) d'.
Proof.
  intros Hrun Hin Hl Ht Hok. pose proof (delivery_inv_run _ _ Hrun) as Hi.
  assert (Hpel : (entry_id i, Some raw) ∈ zs_pel (dl_zone d))
    by (rewrite <- (take_drop RECLAIM_BATCH (zs_pel (dl_zone d))); set_solver).
  destruct (iv_genuine _ _ Hi (entry_id i, Some raw)) as (j & r' & raw' & [= Hij%(dp_ids DP) <-] & Hj & Ho & _);
    [unfold at_hand; set_solver|]. subst j. assert (r' = r) by congruence. subst r'.
  set (d1 := claim_stale zone entry_id (fun _ => STALE_MS) IoOk d).
  assert (Hrun1 : run tr d1) by (rewrite <- (app_nil_r tr); by eapply dl_next; [|constructor]).
  assert (Hcl : (entry_id i, Some raw) ∈ dl_claims d1).
  { unfold d1, claim_stale. cbn [io_applies io_succeeds with_zone dl_claims]. apply elem_of_app. right.
    apply list_elem_of_In, filter_In. split.
    - apply filter_In. split; [by apply list_elem_of_In|done].
    - destruct (in_stream _ _ _ _) eqn:E; [done|]. apply in_stream_false in E; [lia|by eapply lookup_lt_Some|].
      apply (tracks_trimmed _ _ (iv_stream _ _ Hi)). }
  apply list_elem_of_split in Hcl as (l & l' & El). eexists.
  rewrite <- (binned_handled env d1.(dl_zone) (entry_id i) raw r Ho) by exact Hok.
  eapply dl_next; [exact Hrun1|]. by eapply dl_redeliver.
Qed.

(** ** What a crash loses *)

Lemma process_acked env s id raw r :
  opens raw r -> env.(ee_ack) = IoOk -> binned cfg env s (id, Some raw) = [Handled id r] ->
  forall x, (id, x) ∉ (process_delivered cfg env s (id, Some raw)).(zs_pel).
Proof.
  intros (text & Hd & He) Hack Hb x. unfold binned in Hb. unfold process_delivered. cbn [fst snd mbind option_bind] in *.
  rewrite Hd in *. cbn [mbind option_bind] in Hb. rewrite He in Hb. unfold process_json. rewrite He.
  unfold handle_iot_reading, bin_reading. destruct (feed_monitor_same cfg env s r) as [Ha _]. rewrite Ha.
  destruct (handle_reading _ _ _) as [agg [[b|]|[]|]]; cbn [snd] in Hb; [| |done];
    unfold ack_entry; rewrite Hack; cbn [fst io_applies set_pel zs_pel];
    rewrite list_elem_of_In, filter_In; cbn [fst]; rewrite String.eqb_refl; intros [_ ?]; done.
Qed.

(** The entry is acknowledged when its reading is in memory; the bin's snapshot is
    written later by another task.  A crash in between leaves exactly the bins that a
    crash before handling would have left, and nothing that redelivers the reading:
    its energy is lost although the stream still holds it. *)
Theorem acked_before_durable tr d env i raw r l l' :
  run tr d -> d.(dl_tasks) = l ++ (entry_id i, Some raw) :: l' -> d.(dl_log) !! i = Some r ->
  (handle_reading d.(dl_zone).(zs_agg) env.(ee_now) (reading_args_of (env.(ee_owner) r.(serial_number)) r)).2 <> Panic ->
  env.(ee_ack) = IoOk ->
  exists d', run (tr ++ [Handled (entry_id i) r]) d' /\ (forall x, (entry_id i, x) ∉ at_hand d') /\
    d'.(dl_zone).(zs_agg) = (restart cfg IoOk d).(dl_zone).(zs_agg).
Proof.
  intros Hrun El Hl Hok Hack. pose proof (delivery_inv_run _ _ Hrun) as Hi.
  destruct (iv_genuine _ _ Hi (entry_id i, Some raw)) as (j & r' & raw' & [= Hij%(dp_ids DP) <-] & Hj & Ho & _);
    [unfold at_hand; rewrite El; set_solver|]. subst j. assert (r' = r) by congruence. subst r'.
  pose proof (binned_handled env d.(dl_zone) (entry_id i) raw r Ho Hok) as Hb.
  eexists. split; [|split].
  - rewrite <- Hb, <- (app_nil_r (tr ++ _)). eapply dl_next; [|apply (dl_restart _ _ _ _ _ IoOk)].
    eapply dl_next; [exact Hrun|]. by eapply dl_task.
  - intros x. unfold at_hand. cbn [restart with_zone dl_zone dl_tasks dl_claims zs_pel]. rewrite !app_nil_r.
    by apply process_acked with r.
  - done.
Qed.
End Delivery.

(** ** A sample zone *)

Section Witnesses.
#[local] Existing Instance json_wire_ref.
#[local] Existing Instance stream_serde_ref.
#[local] Existing Instance crypto_wire_ref.
#[local] Existing Instance crypto_wire_ref_laws.
#[local] Existing Instance stream_laws_ref.
#[local] Existing Instance chrono_ref.
#[local] Existing Instance decimal_ref.
#[local] Existing Instance uuid_ref.
#[local] Existing Instance bin_codec_ref.
#[local] Existing Instance no_float_text.

Definition plain_router : Router := {|
  rt_cached := None; rt_max_stream_len := 100; rt_num_zones := 10; rt_influx := false;
  rt_cipher := None; rt_pg_readings := false |}.

Definition sample_id (i : nat) : string := pretty i.

Lemma sample_deployed : deployed zone_cfg 5 sample_id plain_router.
Proof. constructor; cbn; try done; try lia. intros i j. apply (inj pretty). Qed.

Abbreviation sample_run := (dl_run zone_cfg 5 sample_id (fun _ => True) plain_router).

(** The group is created, a reading is appended twice by a retried XADD, and the
    reply that delivers both is lost. *)
Definition w1 : delivery := (setup_group IoOk (dl_boot plain_router)).1.
Definition w2 : delivery := (dl_disseminate 5 retry_env zone_reading w1).1.
Definition w3 : delivery := read_group 5 sample_id IoErrApplied w2.
Definition sample_trace : list obs := [GroupAt 0; Published 1 zone_reading].

Lemma sample_nonce n : retry_env.(de_nonce) = Some n -> length n = 12%nat.
Proof. intros [= <-]. reflexivity. Qed.

Lemma sample_reached : sample_run sample_trace w3.
Proof.
  replace sample_trace with ((([] ++ (setup_group IoOk (dl_boot plain_router)).2)
    ++ (dl_disseminate 5 retry_env zone_reading w1).2) ++ []) by reflexivity.
  eapply dl_next; [|apply dl_read]. eapply dl_next; [|by apply dl_publish; [|apply sample_nonce]].
  eapply dl_next; [apply dl_start|apply dl_setup].
Qed.

Lemma sample_stream : trimmed 5 w2 = 0%nat /\ length (stream_of 5 w2) = 2%nat.
Proof.
  pose proof (iv_stream _ _ _ _ _ _ (delivery_inv_run (json_dom := fun _ => True) _ _ _ _ sample_deployed _ _ sample_reached)) as Ht.
  apply tracks_trimmed in Ht as [H1 H2]. unfold trimmed. change (stream_of 5 w3) with (stream_of 5 w2) in *.
  change (length (dl_log w3)) with 2%nat in *. change (length (dl_log w2)) with 2%nat.
  change (Z.to_nat (rt_max_stream_len plain_router)) with 100%nat in H2.
  set (m := length (stream_of 5 w2)) in *. lia.
Qed.

Lemma sample_no_panic :
  (handle_reading new (ee_now (zone_env IoOk))
     (reading_args_of (ee_owner (zone_env IoOk) (serial_number zone_reading)) zone_reading)).2 <> Panic.
Proof.
  intros E. assert (Hn : is_panic (handle_reading new (ee_now (zone_env IoOk))
    (reading_args_of (ee_owner (zone_env IoOk) (serial_number zone_reading)) zone_reading)).2 = false)
    by (vm_compute; reflexivity). rewrite E in Hn. discriminate Hn.
Qed.

Lemma sample_untrimmed : (trimmed 5 w3 <= 1)%nat.
Proof. change (trimmed 5 w3) with (trimmed 5 w2). rewrite (proj1 sample_stream). lia. Qed.

Lemma sample_pending : (length (zs_pel (dl_zone w3)) <= RECLAIM_BATCH)%nat.
Proof.
  change (zs_pel (dl_zone w3)) with (next_batch 5 sample_id w2 0). unfold next_batch, RECLAIM_BATCH, READ_COUNT.
  rewrite length_take. lia.
Qed.

Lemma delivered_at_least_once_witness :
  w3.(dl_tasks) = [] /\
  (Handled (sample_id 1) zone_reading ∈ sample_trace \/
   (exists raw, (sample_id 1, Some raw) ∈ w3.(dl_zone).(zs_pel) /\ opens zone_cfg raw zone_reading) \/
   (exists c raw, w3.(dl_group) = Some c /\ (c <= 1)%nat /\
      stream_of 5 w3 !! (1 - trimmed 5 w3)%nat = Some raw /\ opens zone_cfg raw zone_reading) \/
   (1 + 100 < length w3.(dl_log))%nat).
Proof.
  split; [reflexivity|].
  apply (delivered_at_least_once (json_dom := fun _ => True) (wire_dom := fun _ => True)
    zone_cfg 5 sample_id plain_router sample_deployed sample_trace w3 0 1 zone_reading sample_reached);
    [apply list_elem_of_In; right; left; reflexivity|apply list_elem_of_In; left; reflexivity|lia].
Defined.


(** The same deliveries with a reply, so that tasks are spawned. *)
Definition w3ok : delivery := read_group 5 sample_id IoOk w2.

Lemma acked_before_durable_witness :
  exists d', sample_run (sample_trace ++ [Handled (sample_id 1) zone_reading]) d' /\
    (sample_id 1, None) ∉ at_hand d' /\ d'.(dl_zone).(zs_agg).(active_bins) = ∅.
Proof.
  assert (Hrun : sample_run sample_trace w3ok).
  { rewrite <- (app_nil_r sample_trace). unfold w3ok. eapply dl_next; [|apply dl_read].
    replace sample_trace with (([] ++ (setup_group IoOk (dl_boot plain_router)).2)
      ++ (dl_disseminate 5 retry_env zone_reading w1).2) by reflexivity.
    eapply dl_next; [|by apply dl_publish; [|apply sample_nonce]]. eapply dl_next; [apply dl_start|apply dl_setup]. }
  destruct sample_stream as [Ht Hl]. destruct (lookup_lt_is_Some_2 (stream_of 5 w2) 1) as [raw Hraw]; [lia|].
  assert (Ep : next_batch 5 sample_id w2 0 !! 1%nat = Some (sample_id 1, Some raw)).
  { apply next_batch_lookup. unfold next_from. rewrite Ht. split; [unfold READ_COUNT; lia|].
    exists raw. split; [reflexivity|exact Hraw]. }
  apply list_elem_of_lookup_2, list_elem_of_split in Ep as (l & l' & El).
  destruct (acked_before_durable (json_dom := fun _ => True) (wire_dom := fun _ => True)
    zone_cfg 5 sample_id plain_router sample_deployed sample_trace w3ok (zone_env IoOk) 1 raw zone_reading l l' Hrun El
    eq_refl sample_no_panic eq_refl) as (d' & H1 & H2 & H3).
  exists d'. split; [exact H1|]. split; [apply H2|]. rewrite H3. reflexivity.
Defined.

(** A reading published before the group exists. *)
Definition early : delivery := (dl_disseminate 5 retry_env zone_reading (dl_boot plain_router)).1.
Definition late_group : delivery := (setup_group IoOk early).1.

Lemma before_group_skipped_witness :
  Handled (sample_id 1) zone_reading ∉ [Published 1 zone_reading; GroupAt 2] /\
  (sample_id 1, None) ∉ at_hand late_group.
Proof.
  assert (Hrun : sample_run [Published 1 zone_reading; GroupAt 2] late_group).
  { replace [Published 1 zone_reading; GroupAt 2] with (([] ++ (dl_disseminate 5 retry_env zone_reading (dl_boot plain_router)).2)
      ++ (setup_group IoOk early).2) by reflexivity.
    eapply dl_next; [|apply dl_setup]. eapply dl_next; [apply dl_start|].
    by apply dl_publish; [|apply sample_nonce]. }
  destruct (before_group_skipped (json_dom := fun _ => True) (wire_dom := fun _ => True)
    zone_cfg 5 sample_id plain_router sample_deployed _ late_group 2 1 zone_reading Hrun) as [H1 H2];
    [apply list_elem_of_In; right; left; reflexivity|apply list_elem_of_In; left; reflexivity|lia|].
  split; [exact H1|apply H2].
Defined.
End Witnesses.
