(* ===== verification/Fleet.v ===== *)
(** * Several bridges on one zone (router.rs, zone_ingester.rs)

    Bridges that share a Redis share the streams, the consumer group with its pending
    list and the durable bins; each has its own connections, tasks, aggregator and
    channel, and a consumer name of its own.  A fleet is the shared part and its
    members; a step of the fleet is a step of one member, as [Delivery] defines it, on
    the shared part and its own memory. *)

From Stdlib Require Import ZArith Lia Ascii String SpecFloat.
From stdpp Require Import base gmap strings list numbers pretty.
From S2P Require Import Prelude RustStd External Models Aggregator AggregatorProps Stores Settlement GridStatus Router WireRef ZoneIngester ZoneIngesterProps Delivery DeliveryProps.

Open Scope Z_scope.
Open Scope bridge_scope.

(** ** The fleet *)

Section State.
Context {J : SerdeJson} {D : RustDecimal}.

(** What Redis holds. *)
Record shared : Type := {
  sh_sinks : sinks;
  sh_log : list DeviceReading;
  sh_group : option nat;
  sh_pel : list pending;
  sh_store : Redis
}.

(** What a process holds; the pending list inside [mb_memory] is not used. *)
Record member : Type := {
  mb_router : Router;
  mb_tasks : list pending;
  mb_claims : list pending;
  mb_memory : zone_state;
  mb_written : nat
}.

Record fleet : Type := { fl_shared : shared; fl_members : list member }.

(** One bridge as [Delivery] sees it, and back. *)
Definition view (s : shared) (m : member) : delivery := {|
  dl_router := m.(mb_router); dl_sinks := s.(sh_sinks); dl_log := s.(sh_log); dl_group := s.(sh_group);
  dl_tasks := m.(mb_tasks); dl_claims := m.(mb_claims); dl_zone := set_pel m.(mb_memory) s.(sh_pel);
  dl_store := s.(sh_store); dl_written := m.(mb_written) |}.

Definition shared_of (d : delivery) : shared := {|
  sh_sinks := d.(dl_sinks); sh_log := d.(dl_log); sh_group := d.(dl_group); sh_pel := d.(dl_zone).(zs_pel);
  sh_store := d.(dl_store) |}.

Definition member_of (d : delivery) : member := {|
  mb_router := d.(dl_router); mb_tasks := d.(dl_tasks); mb_claims := d.(dl_claims);
  mb_memory := set_pel d.(dl_zone) []; mb_written := d.(dl_written) |}.

Lemma view_split d : view (shared_of d) (member_of d) = d.
Proof. by destruct d as [? ? ? ? ? ? []]. Qed.

(** The other members see the shared part change. *)
Definition fleet_put (f : fleet) (i : nat) (d : delivery) : fleet :=
  {| fl_shared := shared_of d; fl_members := <[i := member_of d]> f.(fl_members) |}.
End State.

Section Runs.
Context {J : SerdeJson} {K : Crypto} {SS : StreamSerde} {FT : F64Text}.
Context {C : Chrono} {D : RustDecimal} {U : UuidText} {BC : Codec BillingBin}.
Context (cfg : zone_config) (zone : Z) (entry_id : nat -> string) (wire_dom : DeviceReading -> Prop) (r0 : Router).

Inductive fleet_step : fleet -> list obs -> fleet -> Prop :=
| fs_member f i m os d' :
    f.(fl_members) !! i = Some m -> dl_step cfg zone entry_id wire_dom (view f.(fl_shared) m) os d' ->
    fleet_step f os (fleet_put f i d').

(** [n] bridges that have just started on an empty Redis. *)
Definition fleet_boot (n : nat) : fleet :=
  {| fl_shared := shared_of (dl_boot r0); fl_members := replicate n (member_of (dl_boot r0)) |}.

Inductive fleet_run (n : nat) : list obs -> fleet -> Prop :=
| fr_start : fleet_run n [] (fleet_boot n)
| fr_next tr f os f' : fleet_run n tr f -> fleet_step f os f' -> fleet_run n (tr ++ os) f'.

(** A run in which nothing has stayed pending long enough to be claimed. *)
Definition calm (f : fleet) : Prop := Forall (fun m => m.(mb_claims) = []) f.(fl_members).

Inductive calm_run (n : nat) : list obs -> fleet -> Prop :=
| cr_start : calm_run n [] (fleet_boot n)
| cr_next tr f os f' : calm_run n tr f -> fleet_step f os f' -> calm f' -> calm_run n (tr ++ os) f'.
End Runs.
