(* ===== verification/FleetProps.v ===== *)
(** * Properties of a fleet of bridges

    At-least-once delivery holds for the fleet as a whole, whichever member reads,
    fails, dies or claims; without claims no entry is handled twice anywhere in the
    fleet; one bridge is a fleet of one; and the readings of one meter's window end up
    in different bridges' bins. *)

From Stdlib Require Import ZArith Lia Ascii String SpecFloat.
From stdpp Require Import base gmap strings list numbers pretty.
From S2P Require Import Prelude RustStd External Models Aggregator AggregatorProps BinaryDecoder Stores Settlement GridStatus Router WireRef ZoneIngester ZoneIngesterProps Delivery DeliveryProps Fleet.

Open Scope Z_scope.
Open Scope bridge_scope.

Section Fleet.
Context {J : SerdeJson} {K : Crypto} {SS : StreamSerde} {FT : F64Text}.
Context {C : Chrono} {D : RustDecimal} {U : UuidText} {BC : Codec BillingBin} {CL : CryptoLaws}.
Context {json_dom : Value -> Prop} {wire_dom : DeviceReading -> Prop} {SL : StreamLaws json_dom wire_dom}.
Context (cfg : zone_config) (zone : Z) (entry_id : nat -> string) (r0 : Router).
Hypothesis DP : deployed cfg zone entry_id r0.

#[local] Abbreviation step := (dl_step cfg zone entry_id wire_dom).
#[local] Abbreviation fstep := (fleet_step cfg zone entry_id wire_dom).
#[local] Abbreviation frun := (fleet_run cfg zone entry_id wire_dom r0).
#[local] Abbreviation inv := (inv cfg zone entry_id r0).
#[local] Abbreviation genuine := (genuine cfg entry_id).

(** ** What a step of one member changes for the others *)

Lemma step_grows d os d' :
  step d os d' ->
  (exists l, d'.(dl_log) = d.(dl_log) ++ l) /\ (forall n, GroupAt n ∈ os -> d.(dl_group) = None) /\
  (forall c, d.(dl_group) = Some c -> exists c', d'.(dl_group) = Some c' /\ (c <= c')%nat).
Proof.
  intros Hs. destruct Hs as [d e reading Hw Hn|d o|d o|d env l p l' El|d idle o|d env l p l' El|d o|d o].
  - unfold dl_disseminate. destruct (disseminate _ _ _ _) as [[r k] res]. cbn [fst snd dl_log dl_group].
    split; [by eexists|]. split; [|by eauto]. intros n. repeat case_match; set_solver.
  - unfold setup_group. destruct (dl_group d) as [c|] eqn:E; cbn [fst snd].
    + rewrite E. split; [by exists []; rewrite app_nil_r|]. split; [set_solver|by eauto].
    + split; [|split; [done|done]]. destruct (io_applies o); exists []; by rewrite app_nil_r.
  - unfold read_group. split; [exists []; rewrite app_nil_r; by repeat case_match|]. split; [set_solver|].
    intros c E. rewrite E. destruct (io_applies o); [|by eauto]. cbn [with_zone dl_group].
    eexists. split; [done|]. unfold next_from. case_match; lia.
  - split; [by exists []; rewrite app_nil_r|]. split; [|by eauto]. intros n. unfold binned. repeat case_match; set_solver.
  - split; [exists []; rewrite app_nil_r; unfold claim_stale; by case_match|]. split; [set_solver|].
    intros c E. exists c. split; [unfold claim_stale; by case_match|lia].
  - split; [by exists []; rewrite app_nil_r|]. split; [|by eauto]. intros n. unfold binned. repeat case_match; set_solver.
  - split; [exists []; rewrite app_nil_r; unfold write_next; by case_match|]. split; [set_solver|].
    intros c E. exists c. split; [unfold write_next; by case_match|lia].
  - split; [by exists []; rewrite app_nil_r|]. split; [set_solver|]. eauto.
Qed.

(** The invariant for a member that did not step. *)
Lemma inv_other tr os d d' m :
  inv tr d -> inv tr (view (shared_of d) m) -> inv (tr ++ os) d' -> step d os d' ->
  inv (tr ++ os) (view (shared_of d') m).
Proof.
  intros Hd Hm Hd' Hs. destruct (step_grows d os d' Hs) as ([l El] & Hg & Hc).
  pose proof Hd' as [Hr' Hs' Hn' Hg' Hge' Hc' Hp' Hh'].
  assert (Hhand : forall p, p ∈ m.(mb_tasks) ++ m.(mb_claims) -> genuine (tr ++ os) d'.(dl_log) p).
  { intros p Hp. destruct (iv_genuine _ _ _ _ _ _ Hm p) as (i & r & raw & -> & Hi & Ho & Hgr).
    { unfold at_hand. apply elem_of_app. by right. }
    exists i, r, raw. rewrite El. split; [done|]. split; [by apply lookup_app_l_Some|]. split; [done|].
    intros n [Hn|Hn]%elem_of_app; [by apply Hgr|]. apply Hg in Hn.
    destruct (iv_none _ _ _ _ _ _ Hm Hn) as [Ha _]. unfold at_hand in Ha. apply app_nil in Ha as [_ Ha].
    cbn [view dl_tasks dl_claims] in Ha. rewrite Ha in Hp. set_solver. }
  constructor; cbn [view shared_of dl_router dl_log dl_group sh_log sh_group]; auto.
  - exact (iv_router _ _ _ _ _ _ Hm).
  - intros E. destruct (Hn' E) as [Ha Ho]. split; [|done].
    assert (dl_group d = None) as En by (destruct (dl_group d) as [c|] eqn:Eg; [|done];
      destruct (Hc c eq_refl) as (? & ? & _); congruence).
    destruct (iv_none _ _ _ _ _ _ Hm En) as [Hz _]. unfold at_hand in *.
    apply app_nil in Ha as [Hpel _]. apply app_nil in Hz as [_ Hz]. cbn in *. by rewrite Hpel, Hz.
  - intros p Hp. unfold at_hand in Hp. apply elem_of_app in Hp as [Hp|Hp]; [|by apply Hhand].
    apply Hge'. unfold at_hand. apply elem_of_app. by left.
Qed.

(** ** The fleet's invariant *)

Definition fleet_inv (tr : list obs) (f : fleet) : Prop :=
  forall i m, f.(fl_members) !! i = Some m -> inv tr (view f.(fl_shared) m).

Lemma fleet_inv_boot n : fleet_inv [] (fleet_boot r0 n).
Proof.
  intros i m Hm. apply lookup_replicate in Hm as [-> _]. cbn [fleet_boot fl_shared].
  rewrite view_split. by apply inv_boot.
Qed.

Lemma members_inv_step tr f os f' : fleet_inv tr f -> fstep f os f' -> fleet_inv (tr ++ os) f'.
Proof.
  intros Hf Hs. destruct Hs as [f i m os d' Hm Hs]. pose proof (Hf i m Hm) as Hi.
  pose proof (delivery_inv_step cfg zone entry_id r0 DP _ _ _ _ Hi Hs) as Hi'.
  intros j m' Hj. cbn [fleet_put fl_shared fl_members] in *. destruct (decide (i = j)) as [<-|Hne].
  - rewrite list_lookup_insert_eq in Hj by (by eapply lookup_lt_Some). injection Hj as <-. by rewrite view_split.
  - rewrite list_lookup_insert_ne in Hj by done. eapply (inv_other tr os (view f.(fl_shared) m)); [done| |done|done].
    exact (Hf j m' Hj).
Qed.

Lemma fleet_inv_run n tr f : frun n tr f -> fleet_inv tr f.
Proof. induction 1 as [|tr f os f' _ IH Hs]; [apply fleet_inv_boot|]. by eapply members_inv_step. Qed.

Lemma fleet_size n tr f : frun n tr f -> length f.(fl_members) = n.
Proof.
  induction 1 as [|tr f os f' _ IH Hs]; [apply length_replicate|]. destruct Hs. cbn. by rewrite length_insert.
Qed.

(** C6: a fleet delivers at least once: a reading any member has published while the group
    exists has been handled by some member, or is pending for the whole group, or is
    still ahead of it, or a whole stream of newer entries has displaced it, whichever
    members have read, lost replies, panicked, died or claimed in between. *)
Theorem fleet_at_least_once n tr f k i r :
  frun n tr f -> Published i r ∈ tr -> GroupAt k ∈ tr -> (k <= i)%nat ->
  Handled (entry_id i) r ∈ tr \/
  (exists raw, (entry_id i, Some raw) ∈ f.(fl_shared).(sh_pel) /\ opens cfg raw r) \/
  (exists c raw, f.(fl_shared).(sh_group) = Some c /\ (c <= i)%nat /\
     default [] (f.(fl_shared).(sh_sinks).(sk_streams) !! zone_stream zone)
       !! (i - (length f.(fl_shared).(sh_log) -
                length (default [] (f.(fl_shared).(sh_sinks).(sk_streams) !! zone_stream zone))))%nat = Some raw /\
     opens cfg raw r) \/
  (i + Z.to_nat r0.(rt_max_stream_len) < length f.(fl_shared).(sh_log))%nat.
Proof.
  intros Hrun Hp Hk Hki. pose proof (fleet_inv_run n tr f Hrun) as Hf.
  destruct (fl_members f) as [|m ms] eqn:Em.
  { exfalso. assert (n = 0%nat) as -> by (rewrite <- (fleet_size n tr f Hrun), Em; done).
    clear Hf Em. induction Hrun as [|tr f os f' Hrun IH Hs]; [set_solver|].
    destruct Hs as [f j m os d' Hm _]. apply lookup_lt_Some in Hm. rewrite (fleet_size 0 tr f Hrun) in Hm. lia. }
  assert (Hi : inv tr (view f.(fl_shared) m)) by (apply (Hf 0%nat); by rewrite Em).
  exact (inv_delivers cfg zone entry_id r0 DP tr (view f.(fl_shared) m) k i r Hi Hp Hk Hki).
Qed.

(** ** At most once, while nothing is claimed *)

Definition handled_ids (tr : list obs) : list string :=
  omap (fun o => match o with Handled id _ => Some id | _ => None end) tr.

Definition task_ids (f : fleet) : list string := concat ((fun m => m.(mb_tasks).*1) <$> f.(fl_members)).

(** The ids a step adds to the tasks: those of entries between two positions of the
    group. *)
Definition between (d d' : delivery) (id : string) : Prop :=
  exists i c c', id = entry_id i /\ d.(dl_group) = Some c /\ d'.(dl_group) = Some c' /\ (c <= i < c')%nat.

Lemma batch_between d c c' :
  d.(dl_group) = Some c -> c' = (next_from zone d c + length (next_batch zone entry_id d c))%nat ->
  NoDup (next_batch zone entry_id d c).*1 /\
  forall id, id ∈ (next_batch zone entry_id d c).*1 -> exists i, id = entry_id i /\ (c <= i < c')%nat.
Proof.
  intros _ ->. split.
  - apply NoDup_alt. intros j k id Hj Hk. apply list_lookup_fmap_Some in Hj as (p & -> & Hj).
    apply list_lookup_fmap_Some in Hk as (q & E & Hk).
    apply next_batch_lookup in Hj as (_ & raw & -> & _). apply next_batch_lookup in Hk as (_ & raw' & -> & _).
    cbn in E. apply (dp_ids _ _ _ _ DP) in E. lia.
  - intros id [p [-> Hp]]%list_elem_of_fmap. apply list_elem_of_lookup in Hp as [j Hp].
    pose proof (lookup_lt_Some _ _ _ Hp) as Hlt. apply next_batch_lookup in Hp as (_ & raw & -> & _).
    eexists. split; [done|]. unfold next_from in *. lia.
Qed.

Lemma handled_binned env s p : handled_ids (binned cfg env s p) = [] \/ handled_ids (binned cfg env s p) = [p.1].
Proof. unfold binned. repeat case_match; auto. Qed.

(** A step that spawns nothing. *)
Lemma no_fresh d os d' : handled_ids os ++ d'.(dl_tasks).*1 ⊆+ d.(dl_tasks).*1 ->
  exists fresh, NoDup fresh /\ Forall (between d d') fresh /\
    handled_ids os ++ d'.(dl_tasks).*1 ⊆+ d.(dl_tasks).*1 ++ fresh.
Proof. intros H. exists []. split; [constructor|]. split; [constructor|]. by rewrite app_nil_r. Qed.

Lemma step_ids d os d' :
  d.(dl_claims) = [] -> step d os d' ->
  exists fresh, NoDup fresh /\ Forall (between d d') fresh /\
    handled_ids os ++ d'.(dl_tasks).*1 ⊆+ d.(dl_tasks).*1 ++ fresh.
Proof.
  intros Hcl Hs. destruct Hs as [d e reading Hw Hn|d o|d o|d env l p l' El|d idle o|d env l p l' El|d o|d o].
  - apply no_fresh. unfold dl_disseminate. destruct (disseminate _ _ _ _) as [[r k] res]. cbn [fst snd dl_tasks].
    by repeat case_match.
  - apply no_fresh. unfold setup_group. by repeat case_match.
  - unfold read_group. destruct (dl_group d) as [c|] eqn:Eg; [|by apply no_fresh].
    destruct (io_applies o); [|by apply no_fresh].
    destruct (batch_between d c _ Eg eq_refl) as [Hnd Hb]. set (batch := next_batch zone entry_id d c) in *.
    exists batch.*1. split; [done|]. split.
    + apply Forall_forall. intros id Hid. destruct (Hb id Hid) as (i & -> & Hi).
      exists i, c, (next_from zone d c + length batch)%nat. split_and!; [done|done| |lia|lia].
      cbn [with_zone dl_group]. destruct batch; [|done]. by apply not_elem_of_nil in Hid.
    + cbn [handled_ids omap list_omap app with_zone dl_tasks]. destruct (io_succeeds o).
      * by rewrite fmap_app.
      * by apply submseteq_inserts_r.
  - apply no_fresh. cbn [with_zone dl_tasks]. rewrite El, !fmap_app. cbn [fmap list_fmap].
    destruct (handled_binned env (dl_zone d) p) as [-> | ->]; cbn [app].
    + apply submseteq_app; [done|]. by apply submseteq_cons.
    + by rewrite Permutation_middle.
  - apply no_fresh. unfold claim_stale. by repeat case_match.
  - rewrite Hcl in El. by destruct l.
  - apply no_fresh. unfold write_next. by repeat case_match.
  - apply no_fresh. cbn. apply submseteq_nil_l.
Qed.

Lemma task_ids_put f i m d' : f.(fl_members) !! i = Some m ->
  exists rest, task_ids f ≡ₚ m.(mb_tasks).*1 ++ rest /\ task_ids (fleet_put f i d') ≡ₚ d'.(dl_tasks).*1 ++ rest.
Proof.
  intros Hm. unfold task_ids. cbn [fleet_put fl_members]. apply take_drop_middle in Hm as Hms.
  pose proof (lookup_lt_Some _ _ _ Hm) as Hlt.
  exists (concat ((fun m => m.(mb_tasks).*1) <$> (take i f.(fl_members) ++ drop (S i) f.(fl_members)))).
  rewrite insert_take_drop by done. rewrite <- Hms at 1. rewrite !fmap_app, !concat_app. cbn [fmap list_fmap concat].
  split; by rewrite Permutation_app_swap_app.
Qed.

Definition calm_inv (tr : list obs) (f : fleet) : Prop :=
  calm f /\ NoDup (handled_ids tr ++ task_ids f) /\
  forall id, id ∈ handled_ids tr ++ task_ids f ->
    exists i c, id = entry_id i /\ f.(fl_shared).(sh_group) = Some c /\ (i < c)%nat.

Lemma calm_inv_step tr f os f' : calm_inv tr f -> fstep f os f' -> calm f' -> calm_inv (tr ++ os) f'.
Proof.
  intros (Hcalm & Hnd & Hids) Hs Hcalm'. split; [done|]. destruct Hs as [f i m os d' Hm Hs].
  assert (Hcl : (view f.(fl_shared) m).(dl_claims) = []).
  { unfold calm in Hcalm. rewrite Forall_forall in Hcalm. apply Hcalm. by eapply list_elem_of_lookup_2. }
  destruct (step_ids _ _ _ Hcl Hs) as (fresh & Hfnd & Hfb & Hsub). rewrite Forall_forall in Hfb.
  destruct (step_grows _ _ _ Hs) as (_ & _ & Hgrow). destruct (task_ids_put f i m d' Hm) as (rest & Hold & Hnew).
  cbn [view dl_tasks dl_group] in *.
  assert (Hle : handled_ids (tr ++ os) ++ task_ids (fleet_put f i d') ⊆+ (handled_ids tr ++ task_ids f) ++ fresh).
  { unfold handled_ids. rewrite omap_app, Hnew, Hold. fold (handled_ids tr) (handled_ids os).
    rewrite <- !app_assoc. apply submseteq_skips_l. rewrite app_assoc.
    etransitivity; [apply submseteq_skips_r, Hsub|]. rewrite <- app_assoc. apply submseteq_skips_l.
    by rewrite (Permutation_app_comm fresh rest). }
  assert (Hall : NoDup ((handled_ids tr ++ task_ids f) ++ fresh)).
  { apply NoDup_app. split_and!; [done| |done]. intros id Hid Hf. destruct (Hids id Hid) as (j & c & -> & Hc & Hj).
    destruct (Hfb _ Hf) as (k & c1 & c2 & E & Hc1 & _ & Hk). apply (dp_ids _ _ _ _ DP) in E. cbn in Hc1. simplify_eq. lia. }
  split.
  - apply submseteq_Permutation in Hle as [l Hl]. rewrite Hl in Hall. by apply NoDup_app in Hall as [? _].
  - intros id Hid. eapply elem_of_submseteq in Hid; [|exact Hle]. cbn [fleet_put fl_shared shared_of sh_group].
    apply elem_of_app in Hid as [Hid|Hid].
    + destruct (Hids id Hid) as (j & c & -> & Hc & Hj). destruct (Hgrow c Hc) as (c' & -> & Hcc). exists j, c'. split_and!; [done..|lia].
    + destruct (Hfb id Hid) as (j & c & c' & -> & _ & Hc' & Hj). exists j, c'. split_and!; [done..|lia].
Qed.

Lemma calm_inv_run n tr f : calm_run cfg zone entry_id wire_dom r0 n tr f -> calm_inv tr f.
Proof.
  induction 1 as [|tr f os f' _ IH Hs Hc]; [|by eapply calm_inv_step].
  assert (Ht : task_ids (fleet_boot r0 n) = []).
  { unfold task_ids. cbn [fleet_boot fl_members]. rewrite fmap_replicate. cbn. induction n; [done|]. done. }
  unfold calm_inv. rewrite Ht. split_and!; [|constructor|set_solver].
  apply Forall_replicate. done.
Qed.

Lemma calm_is_run n tr f : calm_run cfg zone entry_id wire_dom r0 n tr f -> frun n tr f.
Proof. induction 1; [constructor|]. by eapply fr_next. Qed.

(** C7: while nothing has to be claimed, no entry is handled twice anywhere in the fleet:
    with [fleet_at_least_once], an entry that is read and acknowledged is counted by
    exactly one bridge. *)
Theorem handled_at_most_once n tr f :
  calm_run cfg zone entry_id wire_dom r0 n tr f -> NoDup (handled_ids tr).
Proof. intros (_ & Hnd & _)%calm_inv_run. by apply NoDup_app in Hnd as [? _]. Qed.

(** ** One bridge among idle ones *)

Definition among (n : nat) (d : delivery) : fleet :=
  {| fl_shared := shared_of d; fl_members := member_of d :: replicate n (member_of (dl_boot r0)) |}.

Lemma among_step n d os d' : step d os d' -> fstep (among n d) os (among n d').
Proof.
  intros Hs. change (among n d') with (fleet_put (among n d) 0 d').
  eapply fs_member; [reflexivity|]. cbn [among fl_shared]. by rewrite view_split.
Qed.

Lemma among_calm n tr d os d' :
  calm_run cfg zone entry_id wire_dom r0 (S n) tr (among n d) -> step d os d' -> d'.(dl_claims) = [] ->
  calm_run cfg zone entry_id wire_dom r0 (S n) (tr ++ os) (among n d').
Proof.
  intros Hr Hs Hc. eapply cr_next; [exact Hr|by apply among_step|].
  unfold calm. constructor; [done|]. by apply Forall_replicate.
Qed.

(** The runs of one bridge are the runs of a fleet of one. *)
Theorem lone_bridge tr d : frun 1 tr (among 0 d) <-> dl_run cfg zone entry_id wire_dom r0 tr d.
Proof.
  assert (Hinj : forall d d', among 0 d = among 0 d' -> d = d').
  { intros d1 d2 H. pose proof (f_equal fl_shared H) as Hs.
    pose proof (f_equal (fun f => default (member_of d1) (head f.(fl_members))) H) as Hm.
    cbn [among fl_shared fl_members head default id replicate] in Hs, Hm.
    by rewrite <- (view_split d1), <- (view_split d2), Hs, Hm. }
  split.
  - intros H. remember (among 0 d) as f eqn:Ef.
    assert (exists d', f = among 0 d' /\ dl_run cfg zone entry_id wire_dom r0 tr d') as (d' & E & Hd');
      [|rewrite E in Ef; by apply Hinj in Ef as <-].
    clear Ef. induction H as [|tr f os f' _ (d' & -> & Hd') Hs].
    { exists (dl_boot r0). split; [done|constructor]. }
    inversion Hs as [f0 i m os' d1 Hm Hs1]; subst. cbn [among fl_members fl_shared] in *.
    destruct i as [|i]; [|done]. injection Hm as <-. rewrite view_split in Hs1. exists d1. split; [done|].
    by eapply dl_next.
  - induction 1 as [|tr d os d' _ IH Hs]; [exact (fr_start _ _ _ _ _ 1)|].
    eapply fr_next; [exact IH|by apply among_step].
Qed.

(** ** A window in two bridges *)

(** A task of member [a] runs and bins its reading. *)
Lemma member_bins n tr f a m env i raw r agg b :
  frun n tr f -> f.(fl_members) !! a = Some m -> (entry_id i, Some raw) ∈ m.(mb_tasks) ->
  f.(fl_shared).(sh_log) !! i = Some r ->
  handle_reading m.(mb_memory).(zs_agg) env.(ee_now) (reading_args_of (env.(ee_owner) r.(serial_number)) r) = (agg, Ok (Some b)) ->
  exists f' m', frun n (tr ++ [Handled (entry_id i) r]) f' /\ f'.(fl_members) = <[a := m']> f.(fl_members) /\
    m'.(mb_memory).(zs_agg) = agg /\ f'.(fl_shared).(sh_log) = f.(fl_shared).(sh_log).
Proof.
  intros Hrun Hm Hin Hl Hh. pose proof (fleet_inv_run n tr f Hrun a m Hm) as Hi.
  destruct (iv_genuine _ _ _ _ _ _ Hi (entry_id i, Some raw)) as (j & r' & raw' & [= Hij%(dp_ids _ _ _ _ DP) <-] & Hj & Ho & _).
  { unfold at_hand. apply elem_of_app. right. apply elem_of_app. by left. }
  subst j. cbn [view dl_log] in Hj. assert (r' = r) by congruence. subst r'.
  set (d := view f.(fl_shared) m). change (mb_tasks m) with (dl_tasks d) in Hin.
  apply list_elem_of_split in Hin as (l & l' & El).
  assert (Hok : (handle_reading d.(dl_zone).(zs_agg) env.(ee_now)
                   (reading_args_of (env.(ee_owner) r.(serial_number)) r)) = (agg, Ok (Some b))) by exact Hh.
  assert (Hb : binned cfg env d.(dl_zone) (entry_id i, Some raw) = [Handled (entry_id i) r])
    by (apply binned_handled; [done|by rewrite Hok]).
  destruct (process_opened cfg env d.(dl_zone) (entry_id i) raw r Ho) as [_ [(_ & Ha & _)|[Hno _]]]; [|congruence].
  eexists _, _. split_and!.
  - rewrite <- Hb. eapply fr_next; [exact Hrun|]. eapply fs_member; [exact Hm|]. by eapply dl_task.
  - reflexivity.
  - cbn [member_of with_zone dl_zone mb_memory set_pel zs_agg]. by rewrite Ha, Hok.
  - reflexivity.
Qed.

(** Bridges do not share a window: when two of them hold readings of one meter and one
    window, both open a bin of their own under the same key.  The durable store and the
    outbox have one field per meter and window, so of the two bins the one stored or
    queued last replaces the other. *)
Lemma fleet_splits_window n tr f a1 a2 m1 m2 env i1 i2 raw1 raw2 r1 r2 agg1 agg2 b1 b2 w :
  frun n tr f -> f.(fl_members) !! a1 = Some m1 -> f.(fl_members) !! a2 = Some m2 -> a1 <> a2 ->
  (entry_id i1, Some raw1) ∈ m1.(mb_tasks) -> (entry_id i2, Some raw2) ∈ m2.(mb_tasks) ->
  f.(fl_shared).(sh_log) !! i1 = Some r1 -> f.(fl_shared).(sh_log) !! i2 = Some r2 ->
  r1.(serial_number) = r2.(serial_number) ->
  get_window_start r1.(timestamp) = Some w -> get_window_start r2.(timestamp) = Some w ->
  handle_reading m1.(mb_memory).(zs_agg) env.(ee_now) (reading_args_of (env.(ee_owner) r1.(serial_number)) r1) = (agg1, Ok (Some b1)) ->
  handle_reading m2.(mb_memory).(zs_agg) env.(ee_now) (reading_args_of (env.(ee_owner) r2.(serial_number)) r2) = (agg2, Ok (Some b2)) ->
  let k := (uuid_v5_oid r1.(serial_number), w) in
  exists f' m1' m2', frun n ((tr ++ [Handled (entry_id i1) r1]) ++ [Handled (entry_id i2) r2]) f' /\
    f'.(fl_members) !! a1 = Some m1' /\ f'.(fl_members) !! a2 = Some m2' /\
    m1'.(mb_memory).(zs_agg).(active_bins) !! k = Some b1 /\ m2'.(mb_memory).(zs_agg).(active_bins) !! k = Some b2.
Proof.
  intros Hrun Hm1 Hm2 Hne Ht1 Ht2 Hl1 Hl2 Hser Hw1 Hw2 Hh1 Hh2 k.
  destruct (member_bins n tr f a1 m1 env i1 raw1 r1 agg1 b1 Hrun Hm1 Ht1 Hl1 Hh1) as (f1 & m1' & Hr1 & Hms & Ha1 & Hlog).
  assert (Hm2' : f1.(fl_members) !! a2 = Some m2) by (rewrite Hms; by rewrite list_lookup_insert_ne).
  rewrite <- Hlog in Hl2.
  destruct (member_bins n _ f1 a2 m2 env i2 raw2 r2 agg2 b2 Hr1 Hm2' Ht2 Hl2 Hh2) as (f2 & m2' & Hr2 & Hms2 & Ha2 & _).
  exists f2, m1', m2'.
  assert (Hbin : forall agg now (r : DeviceReading) owner agg' b, r.(serial_number) = r1.(serial_number) ->
      get_window_start r.(timestamp) = Some w -> handle_reading agg now (reading_args_of owner r) = (agg', Ok (Some b)) ->
      agg'.(active_bins) !! k = Some b).
  { intros agg now r owner agg' b Es Ew (w' & e & Hw' & _ & _ & -> & _)%handle_reading_binned.
    unfold k. rewrite <- Es. unfold reading_args_of in *. destruct (energy_split (metrics r)), (extract_tariff_demand (metadata r)).
    cbn [ra_timestamp ra_meter_id] in *. rewrite Ew in Hw'. injection Hw' as <-. apply lookup_insert_eq. }
  split_and!; [done| | | |].
  - rewrite Hms2, list_lookup_insert_ne, Hms by done. apply list_lookup_insert_eq. by eapply lookup_lt_Some.
  - rewrite Hms2. apply list_lookup_insert_eq. by eapply lookup_lt_Some.
  - rewrite Ha1. exact (Hbin _ _ _ _ _ _ eq_refl Hw1 Hh1).
  - rewrite Ha2. exact (Hbin _ _ _ _ _ _ (eq_sym Hser) Hw2 Hh2).
Qed.
End Fleet.

(** ** Two bridges, one of them at work *)

Section Witnesses.
#[local] Existing Instances json_wire_ref stream_serde_ref crypto_wire_ref crypto_wire_ref_laws stream_laws_ref.
#[local] Existing Instances chrono_ref decimal_ref uuid_ref bin_codec_ref no_float_text.
#[local] Abbreviation sample_calm := (calm_run zone_cfg 5 sample_id (fun _ => True) plain_router).

(** The group, a reading appended twice, and its delivery to the first bridge. *)
Lemma delivered_calm : sample_calm 2 sample_trace (among plain_router 1 w3ok).
Proof.
  rewrite <- (app_nil_r sample_trace). apply among_calm with w2; [|apply dl_read|done].
  replace sample_trace with (([] ++ (setup_group IoOk (dl_boot plain_router)).2)
    ++ (dl_disseminate 5 retry_env zone_reading w1).2) by reflexivity.
  apply among_calm with w1; [|by apply dl_publish; [|apply sample_nonce]|reflexivity].
  apply among_calm with (dl_boot plain_router); [exact (cr_start _ _ _ _ _ 2)|apply dl_setup|done].
Qed.

Lemma fleet_at_least_once_witness :
  Handled (sample_id 1) zone_reading ∈ sample_trace \/
  (exists raw, (sample_id 1, Some raw) ∈ w3ok.(dl_zone).(zs_pel) /\ opens zone_cfg raw zone_reading) \/
  (exists c raw, w3ok.(dl_group) = Some c /\ (c <= 1)%nat /\
     stream_of 5 w3ok !! (1 - trimmed 5 w3ok)%nat = Some raw /\ opens zone_cfg raw zone_reading) \/
  (1 + 100 < length w3ok.(dl_log))%nat.
Proof.
  apply (fleet_at_least_once (json_dom := fun _ => True) (wire_dom := fun _ => True) zone_cfg 5 sample_id plain_router
    sample_deployed 2 sample_trace (among plain_router 1 w3ok) 0 1 zone_reading (calm_is_run _ _ _ _ _ _ _ delivered_calm));
    [apply list_elem_of_In; right; left; reflexivity|apply list_elem_of_In; left; reflexivity|lia].
Defined.

Lemma handled_at_most_once_witness :
  exists f, sample_calm 2 (sample_trace ++ [Handled (sample_id 1) zone_reading]) f /\
    NoDup (handled_ids (sample_trace ++ [Handled (sample_id 1) zone_reading])).
Proof.
  destruct sample_stream as [Ht Hl]. destruct (lookup_lt_is_Some_2 (stream_of 5 w2) 1) as [raw Hraw]; [lia|].
  assert (Ep : next_batch 5 sample_id w2 0 !! 1%nat = Some (sample_id 1, Some raw)).
  { apply next_batch_lookup. unfold next_from. rewrite Ht. split; [unfold READ_COUNT; lia|].
    exists raw. split; [reflexivity|exact Hraw]. }
  apply list_elem_of_lookup_2 in Ep.
  pose proof (fleet_inv_run (json_dom := fun _ => True) (wire_dom := fun _ => True) zone_cfg 5 sample_id plain_router
    sample_deployed 2 _ _ (calm_is_run _ _ _ _ _ _ _ delivered_calm) 0%nat _ eq_refl) as Hi.
  destruct (iv_genuine _ _ _ _ _ _ Hi (sample_id 1, Some raw)) as (j & r & raw' & [= Hij%(inj pretty) <-] & Hj & Ho & _).
  { unfold at_hand. apply elem_of_app. left. exact Ep. }
  subst j. injection Hj as <-. apply list_elem_of_split in Ep as (l & l' & El).
  assert (Hrun : exists f, sample_calm 2 (sample_trace ++ [Handled (sample_id 1) zone_reading]) f).
  { eexists. rewrite <- (binned_handled zone_cfg (zone_env IoOk) w3ok.(dl_zone) (sample_id 1) raw zone_reading Ho sample_no_panic).
    apply among_calm with w3ok; [exact delivered_calm|by eapply dl_task|done]. }
  destruct Hrun as [f Hrun]. exists f. split; [exact Hrun|].
  apply (handled_at_most_once (json_dom := fun _ => True) (wire_dom := fun _ => True) zone_cfg 5 sample_id plain_router
    sample_deployed 2 _ f Hrun).
Defined.
End Witnesses.
