(* ===== verification/Billed.v ===== *)
(** * From an accepted reading to its bill (router.rs, zone_ingester.rs, aggregator.rs,
      src/src/main.rs: settlement sink)

    One zone of a running bridge: the router publishes, the worker reads and bins, the
    settlement sweep drains the completed bins, and the workers of the other zones bin
    into the same aggregator.  A ledger records every reading the bridge has handled
    and whether it was binned or late.  The theorem joins at-least-once delivery, the
    absence of duplicates and the exact sums of the bins. *)

From Stdlib Require Import ZArith Lia Ascii String SpecFloat.
From stdpp Require Import base gmap strings list numbers pretty.
From S2P Require Import Prelude RustStd External Models Aggregator AggregatorProps SettledWindows BinaryDecoder Stores Settlement GridStatus Router WireRef ZoneIngester ZoneIngesterProps Delivery DeliveryProps Fleet FleetProps.

Open Scope Z_scope.
Open Scope bridge_scope.

(** ** A bridge with its ledger *)

Section State.
Context {J : SerdeJson} {D : RustDecimal}.

(** A handled reading: its entry when it came through this zone, what was binned, and
    whether its window was still open. *)
Record entry : Type := {
  en_source : option (string * DeviceReading);
  en_args : reading_args;
  en_binned : bool
}.

Record billing : Type := {
  bl_zone : delivery;
  bl_ledger : list entry;
  bl_drained : list BillingBin        (* handed to settlement *)
}.

Definition binned_args (l : list entry) : list reading_args :=
  en_args <$> List.filter en_binned l.

(** The aggregator with its history, as [energy_conserved] sees it. *)
Definition books (b : billing) : trace_state := {|
  ts_agg := b.(bl_zone).(dl_zone).(zs_agg); ts_binned := binned_args b.(bl_ledger); ts_drained := b.(bl_drained) |}.

Definition set_zone (d : delivery) (s : zone_state) : delivery :=
  with_zone d d.(dl_group) d.(dl_tasks) d.(dl_claims) s.

Definition set_agg (s : zone_state) (agg : Aggregator) : zone_state :=
  {| zs_agg := agg; zs_channel := s.(zs_channel); zs_freq := s.(zs_freq); zs_late := s.(zs_late); zs_pel := s.(zs_pel) |}.
End State.

Section Runs.
Context {J : SerdeJson} {K : Crypto} {SS : StreamSerde} {FT : F64Text}.
Context {C : Chrono} {D : RustDecimal} {U : UuidText} {BC : Codec BillingBin}.
Context (cfg : zone_config) (zone : Z) (entry_id : nat -> string) (wire_dom : DeviceReading -> Prop) (r0 : Router).

(** The reading an entry of the stream opens to. *)
Definition opened (p : pending) : option DeviceReading :=
  match (p.2 ≫= fun raw => decode_entry raw cfg.(zc_cipher)) ≫= event_from_str with
  | Some (EvReading r) => Some r
  | _ => None
  end.

Definition args_of (env : entry_env) (r : DeviceReading) : reading_args :=
  reading_args_of (env.(ee_owner) r.(serial_number)) r.

(** Steps of a bridge that stays up and bins without overflow. *)
Inductive bill_step : billing -> list obs -> billing -> Prop :=
| bs_publish b e reading : wire_dom reading -> (forall n, e.(de_nonce) = Some n -> length n = 12%nat) ->
    bill_step b (dl_disseminate zone e reading b.(bl_zone)).2
      {| bl_zone := (dl_disseminate zone e reading b.(bl_zone)).1; bl_ledger := b.(bl_ledger); bl_drained := b.(bl_drained) |}
| bs_setup b o :
    bill_step b (setup_group o b.(bl_zone)).2
      {| bl_zone := (setup_group o b.(bl_zone)).1; bl_ledger := b.(bl_ledger); bl_drained := b.(bl_drained) |}
| bs_read b o :
    bill_step b [] {| bl_zone := read_group zone entry_id o b.(bl_zone); bl_ledger := b.(bl_ledger); bl_drained := b.(bl_drained) |}
| bs_task b env l p l' r agg res :                (* the worker's task for one entry *)
    b.(bl_zone).(dl_tasks) = l ++ p :: l' -> opened p = Some r ->
    handle_reading b.(bl_zone).(dl_zone).(zs_agg) env.(ee_now) (args_of env r) = (agg, Ok res) ->
    bill_step b (binned cfg env b.(bl_zone).(dl_zone) p)
      {| bl_zone := with_zone b.(bl_zone) b.(bl_zone).(dl_group) (l ++ l') b.(bl_zone).(dl_claims)
                      (process_delivered cfg env b.(bl_zone).(dl_zone) p);
         bl_ledger := b.(bl_ledger) ++ [{| en_source := Some (p.1, r); en_args := args_of env r; en_binned := is_someb res |}];
         bl_drained := b.(bl_drained) |}
| bs_write b o :
    bill_step b [] {| bl_zone := write_next o b.(bl_zone); bl_ledger := b.(bl_ledger); bl_drained := b.(bl_drained) |}
| bs_elsewhere b now a z :                        (* a worker of another zone *)
    bin_reading cfg now b.(bl_zone).(dl_zone) a = (z, Ok ()) ->
    bill_step b []
      {| bl_zone := set_zone b.(bl_zone) z;
         bl_ledger := b.(bl_ledger) ++ [{| en_source := None; en_args := a;
           en_binned := match (handle_reading b.(bl_zone).(dl_zone).(zs_agg) now a).2 with Ok (Some _) => true | _ => false end |}];
         bl_drained := b.(bl_drained) |}
| bs_sweep b now grace agg bs :                   (* the settlement loop drains *)
    drain_completed b.(bl_zone).(dl_zone).(zs_agg) now grace = (agg, Ok bs) ->
    bill_step b []
      {| bl_zone := set_zone b.(bl_zone) (set_agg b.(bl_zone).(dl_zone) agg); bl_ledger := b.(bl_ledger);
         bl_drained := b.(bl_drained) ++ bs |}.

Definition bill_boot : billing := {| bl_zone := dl_boot r0; bl_ledger := []; bl_drained := [] |}.

Inductive bill_run : list obs -> billing -> Prop :=
| br_start : bill_run [] bill_boot
| br_next tr b os b' : bill_run tr b -> bill_step b os b' -> bill_run (tr ++ os) b'.
End Runs.

(** ** The books balance *)

Section Books.
Context {J : SerdeJson} {K : Crypto} {SS : StreamSerde} {FT : F64Text}.
Context {C : Chrono} {D : RustDecimal} {U : UuidText} {BC : Codec BillingBin} {CL : CryptoLaws}.
Context {json_dom : Value -> Prop} {wire_dom : DeviceReading -> Prop} {SL : StreamLaws json_dom wire_dom}.
Context (cfg : zone_config) (zone : Z) (entry_id : nat -> string) (r0 : Router).
Hypothesis DP : deployed cfg zone entry_id r0.

#[local] Abbreviation inv := (inv cfg zone entry_id r0).
#[local] Abbreviation bstep := (bill_step cfg zone entry_id wire_dom).
#[local] Abbreviation brun := (bill_run cfg zone entry_id wire_dom r0).

Definition handled (tr : list obs) : list (string * DeviceReading) :=
  omap (fun o => match o with Handled id r => Some (id, r) | _ => None end) tr.

Lemma handled_fst tr : (handled tr).*1 = handled_ids tr.
Proof. induction tr as [|[] tr IH]; [done|exact IH|exact IH|]. by apply (f_equal (cons id)). Qed.

Lemma elem_of_handled tr id r : Handled id r ∈ tr <-> (id, r) ∈ handled tr.
Proof.
  unfold handled. rewrite list_elem_of_omap. split; [by eauto|]. intros ([] & Hin & [= <- <-]). done.
Qed.

Definition sources (l : list entry) : list (string * DeviceReading) := omap en_source l.

Record binv (tr : list obs) (b : billing) : Prop := {
  bi_inv : inv tr b.(bl_zone);
  bi_calm : calm_inv entry_id tr (among r0 0 b.(bl_zone));
  bi_keys : keys_ok b.(bl_zone).(dl_zone).(zs_agg);
  bi_books k : accounted k (books b);
  bi_sources : handled tr = sources b.(bl_ledger);
  bi_args e id r : e ∈ b.(bl_ledger) -> e.(en_source) = Some (id, r) -> exists owner, e.(en_args) = reading_args_of owner r
}.

Lemma calm_inv_same tr d d' :
  d'.(dl_tasks) = d.(dl_tasks) -> d'.(dl_claims) = d.(dl_claims) -> d'.(dl_group) = d.(dl_group) ->
  calm_inv entry_id tr (among r0 0 d) -> calm_inv entry_id tr (among r0 0 d').
Proof.
  intros Et Ec Eg (Hc & Hn & Hi). unfold calm_inv, task_ids, calm in *. cbn in *. rewrite Et, Eg. split_and!; [|done|done].
  apply Forall_cons_1 in Hc as [Hc _]. constructor; [|constructor]. by rewrite <- Hc.
Qed.

(** A step that handles nothing. *)
Lemma binv_quiet tr b os d' :
  binv tr b -> dl_step cfg zone entry_id wire_dom b.(bl_zone) os d' -> d'.(dl_claims) = b.(bl_zone).(dl_claims) ->
  d'.(dl_zone).(zs_agg) = b.(bl_zone).(dl_zone).(zs_agg) -> handled os = [] ->
  binv (tr ++ os) {| bl_zone := d'; bl_ledger := b.(bl_ledger); bl_drained := b.(bl_drained) |}.
Proof.
  intros [Hi Hc Hk Hb Hs Ha] Hstep Ecl Eagg Eh.
  pose proof (delivery_inv_step cfg zone entry_id r0 DP _ _ _ _ Hi Hstep) as Hi'.
  constructor; cbn [bl_zone bl_ledger]; [done| | | | |done].
  - eapply (calm_inv_step cfg zone entry_id r0 DP); [exact Hc|by apply among_step|].
    destruct Hc as [Hc _]. unfold calm in *. cbn in *. apply Forall_cons_1 in Hc as [Hc _]. constructor; [|constructor].
    cbn in *. congruence.
  - by rewrite Eagg.
  - intros k. unfold books. cbn [bl_zone bl_ledger bl_drained]. rewrite Eagg. apply (Hb k).
  - unfold handled. rewrite omap_app. fold (handled os) (handled tr). by rewrite Eh, app_nil_r.
Qed.

Lemma binned_args_snoc l e : binned_args (l ++ [e]) = binned_args l ++ (if e.(en_binned) then [e.(en_args)] else []).
Proof. unfold binned_args. rewrite List.filter_app, fmap_app. cbn. by destruct (en_binned e). Qed.

(** Binning a reading keeps the books. *)
Lemma books_reading b now a agg res d' src :
  keys_ok b.(bl_zone).(dl_zone).(zs_agg) -> (forall k, accounted k (books b)) ->
  handle_reading b.(bl_zone).(dl_zone).(zs_agg) now a = (agg, Ok res) -> d'.(dl_zone).(zs_agg) = agg ->
  let b' := {| bl_zone := d'; bl_drained := b.(bl_drained);
               bl_ledger := b.(bl_ledger) ++ [{| en_source := src; en_args := a; en_binned := is_someb res |}] |} in
  keys_ok agg /\ forall k, accounted k (books b').
Proof.
  intros Hk Hb Hh Eagg b'. assert (Hstep : trace_step (books b) (OpReading now a) = Some (books b')).
  { unfold b', books. cbn [trace_step ts_agg bl_zone bl_ledger bl_drained]. rewrite Hh, Eagg, binned_args_snoc.
    cbn [en_binned en_args]. destruct res; cbn; [done|]. by rewrite app_nil_r. }
  split; [|intros k; eapply (accounted_step k (books b)); [exact Hk|apply Hb|exact Hstep]].
  pose proof (keys_ok_step (books b) _ _ Hk Hstep) as Hk'. unfold books, b' in Hk'. cbn in Hk'. by rewrite Eagg in Hk'.
Qed.

Lemma opened_opens raw r : opens cfg raw r -> forall id, opened cfg (id, Some raw) = Some r.
Proof. intros (text & Hd & He) id. unfold opened. cbn [snd mbind option_bind]. rewrite Hd. cbn [mbind option_bind]. by rewrite He. Qed.

Lemma binv_task tr b env l p l' r agg res :
  binv tr b -> b.(bl_zone).(dl_tasks) = l ++ p :: l' -> opened cfg p = Some r ->
  handle_reading b.(bl_zone).(dl_zone).(zs_agg) env.(ee_now) (args_of env r) = (agg, Ok res) ->
  binv (tr ++ binned cfg env b.(bl_zone).(dl_zone) p)
    {| bl_zone := with_zone b.(bl_zone) b.(bl_zone).(dl_group) (l ++ l') b.(bl_zone).(dl_claims)
                    (process_delivered cfg env b.(bl_zone).(dl_zone) p);
       bl_ledger := b.(bl_ledger) ++ [{| en_source := Some (p.1, r); en_args := args_of env r; en_binned := is_someb res |}];
       bl_drained := b.(bl_drained) |}.
Proof.
  intros [Hi Hc Hk Hb Hs Ha] El Hop Hh.
  destruct (iv_genuine _ _ _ _ _ _ Hi p) as (i & r' & raw & -> & _ & Ho & _).
  { unfold at_hand. rewrite El. set_solver. }
  assert (r' = r) as -> by (pose proof (opened_opens raw r' Ho (entry_id i)); congruence).
  assert (Hbin : binned cfg env b.(bl_zone).(dl_zone) (entry_id i, Some raw) = [Handled (entry_id i) r]).
  { apply binned_handled; [done|]. unfold args_of in Hh. by rewrite Hh. }
  destruct (process_opened cfg env b.(bl_zone).(dl_zone) (entry_id i) raw r Ho) as [_ [(_ & Hagg & _)|[Hno _]]]; [|congruence].
  unfold args_of in Hh. rewrite Hh in Hagg. cbn [fst] in Hagg.
  pose proof (dl_task cfg zone entry_id wire_dom b.(bl_zone) env l (entry_id i, Some raw) l' El) as Hstep.
  pose proof (delivery_inv_step cfg zone entry_id r0 DP _ _ _ _ Hi Hstep) as Hi'.
  edestruct (books_reading b env.(ee_now) (args_of env r) agg res) as [Hk' Hb']; [exact Hk|exact Hb|exact Hh| |].
  2: { constructor; cbn [bl_zone bl_ledger with_zone dl_zone]; [exact Hi'| |by rewrite Hagg|exact Hb'| |].
    - eapply (calm_inv_step cfg zone entry_id r0 DP); [exact Hc|by apply among_step|].
      destruct Hc as [Hc _]. unfold calm in *. cbn in *. apply Forall_cons_1 in Hc as [Hc _]. by constructor.
    - unfold handled, sources. rewrite !omap_app. fold (handled tr) (sources (bl_ledger b)).
      rewrite Hs, Hbin. done.
    - intros e id r1 [He|[= ->]%list_elem_of_singleton]%elem_of_app Hsrc; [by eapply Ha|].
      cbn in Hsrc. injection Hsrc as _ <-. by eexists. }
  exact Hagg.
Qed.

Lemma bin_reading_agg now s a z : bin_reading cfg now s a = (z, Ok ()) ->
  exists res, handle_reading s.(zs_agg) now a = (z.(zs_agg), Ok res) /\ z.(zs_pel) = s.(zs_pel).
Proof. unfold bin_reading. destruct (handle_reading _ _ _) as [agg [[]|[]|]]; intros; simplify_eq; by eexists. Qed.

(** The zone's memory changes, its stream and tasks do not. *)
Lemma inv_memory tr d z : inv tr d -> z.(zs_pel) = d.(dl_zone).(zs_pel) -> inv tr (set_zone d z).
Proof.
  intros Hi Ep. apply (inv_frame cfg zone entry_id r0 DP tr d); try done; [apply Hi|].
  unfold at_hand. cbn. by rewrite Ep.
Qed.

Lemma binv_step tr b os b' : binv tr b -> bstep b os b' -> binv (tr ++ os) b'.
Proof.
  intros Hb Hs. destruct Hs as [b e reading Hw Hn|b o|b o|b env l p l' r agg res El Hop Hh|b o|b now a z Hz|b now grace agg bs Hd];
    rewrite ?app_nil_r.
  - apply binv_quiet; [done|by apply dl_publish|..];
      unfold dl_disseminate; destruct (disseminate _ _ _ _) as [[r k] res]; cbn [fst snd]; [done|done|by repeat case_match].
  - apply binv_quiet; [done|by apply dl_setup|..]; unfold setup_group; by repeat case_match.
  - rewrite <- (app_nil_r tr). apply binv_quiet; [done|by apply dl_read|..]; unfold read_group; by repeat case_match.
  - by eapply binv_task.
  - rewrite <- (app_nil_r tr). apply binv_quiet; [done|by apply dl_write|..]; unfold write_next; by repeat case_match.
  - destruct Hb as [Hi Hc Hk Hb Hs Ha]. destruct (bin_reading_agg _ _ _ _ Hz) as (res & Hh & Ep).
    destruct (books_reading b now a _ res (set_zone b.(bl_zone) z) None Hk Hb Hh eq_refl) as [Hk' Hb'].
    assert (E : match (handle_reading b.(bl_zone).(dl_zone).(zs_agg) now a).2 with Ok (Some _) => true | _ => false end = is_someb res)
      by (rewrite Hh; by destruct res).
    rewrite E. constructor; cbn [bl_zone bl_ledger]; [by apply inv_memory|by apply (calm_inv_same tr b.(bl_zone))|exact Hk'|exact Hb'| |].
    + unfold sources. rewrite omap_app. cbn. by rewrite app_nil_r.
    + intros e id r [He|[= ->]%list_elem_of_singleton]%elem_of_app Hsrc; [by eapply Ha|done].
  - destruct Hb as [Hi Hc Hk Hb Hs Ha].
    assert (Hstep : trace_step (books b) (OpDrain now grace) = Some (books
      {| bl_zone := set_zone b.(bl_zone) (set_agg b.(bl_zone).(dl_zone) agg); bl_ledger := b.(bl_ledger);
         bl_drained := b.(bl_drained) ++ bs |})) by (cbn [trace_step books ts_agg]; by rewrite Hd).
    constructor; cbn [bl_zone bl_ledger]; [by apply inv_memory|by apply (calm_inv_same tr b.(bl_zone))| | |done|done].
    + exact (keys_ok_step (books b) _ _ Hk Hstep).
    + intros k. eapply (accounted_step k (books b)); [exact Hk|apply Hb|exact Hstep].
Qed.

Lemma binv_run tr b : brun tr b -> binv tr b.
Proof.
  induction 1 as [|tr b os b' _ IH Hs]; [|by eapply binv_step].
  constructor; [by apply inv_boot| |done|by exists [], []|done|set_solver].
  exact (calm_inv_run cfg zone entry_id r0 DP 1 [] _ (cr_start cfg zone entry_id wire_dom r0 1)).
Qed.

(** C5: the entry of an accepted reading is accounted for exactly once.  In every run of a
    bridge that stays up and claims nothing: when the group has passed an entry, the
    entry is no longer pending and the stream has not trimmed it away, the reading
    published there is in the ledger exactly once under that entry, with the energy of
    the reading itself; and at every meter and window the drained bins and the open one
    hold exactly the ledger's readings of that window that were not late, each bin with
    their exact sums. *)
Theorem entry_billed_once tr b n i r c :
  brun tr b -> Published i r ∈ tr -> GroupAt n ∈ tr -> (n <= i)%nat ->
  b.(bl_zone).(dl_group) = Some c -> (i < c)%nat ->
  (forall raw, (entry_id i, raw) ∉ b.(bl_zone).(dl_zone).(zs_pel)) ->
  (trimmed zone b.(bl_zone) <= i)%nat ->
  (exists l e l' owner, b.(bl_ledger) = l ++ e :: l' /\ e.(en_source) = Some (entry_id i, r) /\
     e.(en_args) = reading_args_of owner r /\
     forall e', e' ∈ l ++ l' -> fst <$> e'.(en_source) <> Some (entry_id i)) /\
  forall k, accounted k {| ts_agg := b.(bl_zone).(dl_zone).(zs_agg); ts_binned := binned_args b.(bl_ledger);
                           ts_drained := b.(bl_drained) |}.
Proof.
  intros [Hi Hc Hk Hb Hs Ha]%binv_run Hp Hg Hn Hgr Hic Hpel Ht. split; [|exact Hb].
  pose proof (iv_pub _ _ _ _ _ _ Hi i r Hp) as Hl.
  assert (Hh : Handled (entry_id i) r ∈ tr).
  { destruct (iv_cover _ _ _ _ _ _ Hi n i r Hg Hn Hl) as [?|[[raw Hraw]|[(c' & Hc' & Hci)|?]]]; [done| | |lia].
    - by destruct (Hpel _ Hraw).
    - rewrite Hgr in Hc'. injection Hc' as <-. lia. }
  apply elem_of_handled in Hh. rewrite Hs in Hh. apply list_elem_of_omap in Hh as (e & He & Hsrc).
  apply list_elem_of_split in He as (l & l' & El). destruct (Ha e (entry_id i) r) as [owner Hargs]; [rewrite El; set_solver|done|].
  exists l, e, l', owner. split_and!; [done|done|done|]. intros e' He' Hsrc'.
  destruct Hc as (_ & Hnd & _). apply NoDup_app in Hnd as [Hnd _]. rewrite <- handled_fst, Hs, El in Hnd.
  unfold sources in Hnd. rewrite omap_app in Hnd. cbn [omap list_omap] in Hnd. rewrite Hsrc, fmap_app in Hnd. cbn in Hnd.
  rewrite <- Permutation_middle in Hnd. apply NoDup_cons in Hnd as [Hnot _]. apply Hnot.
  rewrite <- fmap_app, <- omap_app. destruct (en_source e') as [[id' r']|] eqn:E'; [|done]. injection Hsrc' as ->.
  apply list_elem_of_fmap. exists (entry_id i, r'). split; [done|]. apply list_elem_of_omap. by exists e'.
Qed.

(** An acknowledged task takes its entry off the pending list. *)
Lemma task_acks env s id raw r agg res :
  opens cfg raw r -> handle_reading s.(zs_agg) env.(ee_now) (args_of env r) = (agg, Ok res) -> io_applies env.(ee_ack) = true ->
  forall x, (id, x) ∉ (process_delivered cfg env s (id, Some raw)).(zs_pel).
Proof.
  intros (text & Hd & He) Hh Hack x. unfold process_delivered. cbn [fst snd]. rewrite Hd. unfold process_json. rewrite He.
  unfold handle_iot_reading, bin_reading. destruct (feed_monitor_same cfg env s r) as [Ha _]. rewrite Ha.
  unfold args_of in Hh. rewrite Hh. destruct res; cbn [fst snd]; unfold ack_entry; rewrite Hack; cbn [fst set_pel zs_pel];
    intros [_ Hin]%list_elem_of_In%List.filter_In; cbn in Hin; by rewrite String.eqb_refl in Hin.
Qed.
End Books.

(** ** One published reading *)

Section Witnesses.
#[local] Existing Instances json_wire_ref stream_serde_ref crypto_wire_ref crypto_wire_ref_laws stream_laws_ref.
#[local] Existing Instances chrono_ref decimal_ref uuid_ref bin_codec_ref no_float_text.
#[local] Abbreviation sample_books := (bill_run zone_cfg 5 sample_id (fun _ => True) plain_router).
#[local] Abbreviation at_zone d := {| bl_zone := d; bl_ledger := []; bl_drained := [] |}.

Lemma read_books : sample_books sample_trace (at_zone w3ok).
Proof.
  rewrite <- (app_nil_r sample_trace). apply br_next with (at_zone w2); [|exact (bs_read _ _ _ _ (at_zone w2) IoOk)].
  replace sample_trace with (([] ++ (setup_group IoOk (dl_boot plain_router)).2)
    ++ (dl_disseminate 5 retry_env zone_reading w1).2) by reflexivity.
  apply br_next with (at_zone w1); [|by apply (bs_publish _ _ _ _ (at_zone w1)); [|apply sample_nonce]].
  apply br_next with (at_zone (dl_boot plain_router)); [apply br_start|exact (bs_setup _ _ _ _ (at_zone (dl_boot plain_router)) IoOk)].
Qed.

Lemma sample_group : w3ok.(dl_group) = Some 2%nat.
Proof.
  destruct sample_stream as [Ht Hl]. unfold w3ok, read_group. change (dl_group w2) with (Some 0%nat). cbn [io_applies with_zone dl_group].
  assert (length (next_batch 5 sample_id w2 0) = 2%nat) as E.
  { unfold next_batch, next_from. rewrite length_take, length_imap, length_drop, Ht, Hl. reflexivity. }
  rewrite E. unfold next_from. rewrite Ht. by destruct (next_batch 5 sample_id w2 0).
Qed.

(** The sample reading, binned into an empty aggregator and once more. *)
#[local] Abbreviation sample_args := (args_of (zone_env IoOk) zone_reading).
#[local] Abbreviation sample_bin agg := (handle_reading agg (zone_env IoOk).(ee_now) sample_args).

Definition bins_it (r : Aggregator * outcome Empty_set (option BillingBin)) : bool :=
  match r.2 with Ok (Some _) => true | _ => false end.

Lemma bins_it_spec r : bins_it r = true -> exists b, r = (r.1, Ok (Some b)).
Proof. destruct r as [agg [[b|]| |]]; cbn; try done. by exists b. Qed.

Lemma sample_binned : exists b, sample_bin new = ((sample_bin new).1, Ok (Some b)).
Proof. apply bins_it_spec. vm_compute. reflexivity. Qed.

Lemma sample_binned_again : exists b,
  sample_bin (sample_bin new).1 = ((sample_bin (sample_bin new).1).1, Ok (Some b)).
Proof. apply bins_it_spec. vm_compute. reflexivity. Qed.

Lemma two_entries {A} (l : list A) : length l = 2%nat -> exists a b, l = [a; b].
Proof. destruct l as [|a [|b [|]]]; try done. by exists a, b. Qed.

(** The two entries the retried XADD left. *)
Lemma sample_batch : exists raw0 raw1,
  w3ok.(dl_tasks) = [(sample_id 0, Some raw0); (sample_id 1, Some raw1)] /\
  opens zone_cfg raw0 zone_reading /\ opens zone_cfg raw1 zone_reading.
Proof.
  destruct sample_stream as [Ht Hl]. destruct (two_entries _ Hl) as (raw0 & raw1 & Es).
  assert (E : w3ok.(dl_tasks) = [(sample_id 0, Some raw0); (sample_id 1, Some raw1)]).
  { change (w3ok.(dl_tasks)) with (next_batch 5 sample_id w2 0). unfold next_batch, next_from. rewrite Ht, Es. reflexivity. }
  exists raw0, raw1. split; [exact E|].
  pose proof (bi_inv _ _ _ _ _ _ (binv_run (json_dom := fun _ => True) (wire_dom := fun _ => True) zone_cfg 5 sample_id plain_router
    sample_deployed _ _ read_books)) as Hi.
  assert (Hop : forall n raw, (sample_id n, Some raw) ∈ w3ok.(dl_tasks) -> (n < 2)%nat -> opens zone_cfg raw zone_reading).
  { intros n raw Hin Hn.
    destruct (iv_genuine _ _ _ _ _ _ Hi (sample_id n, Some raw)) as (j & r & raw' & [= Hij%(inj pretty) <-] & Hj & Ho & _).
    { unfold at_hand. apply elem_of_app. right. apply elem_of_app. by left. }
    subst j. destruct n as [|[|n]]; [injection Hj as <-; exact Ho..|lia]. }
  split; [apply (Hop 0%nat)|apply (Hop 1%nat)]; rewrite ?E; [by left|lia|right; by left|lia].
Qed.

Lemma entry_billed_once_witness :
  exists tr b, sample_books tr b /\ Published 1 zone_reading ∈ tr /\ binned_args b.(bl_ledger) <> [] /\
    ((exists l e l' owner, b.(bl_ledger) = l ++ e :: l' /\ e.(en_source) = Some (sample_id 1, zone_reading) /\
       e.(en_args) = reading_args_of owner zone_reading /\
       forall e', e' ∈ l ++ l' -> fst <$> e'.(en_source) <> Some (sample_id 1)) /\
     forall k, accounted k {| ts_agg := b.(bl_zone).(dl_zone).(zs_agg); ts_binned := binned_args b.(bl_ledger);
                              ts_drained := b.(bl_drained) |}).
Proof.
  destruct sample_batch as (raw0 & raw & El & _ & Ho). destruct sample_binned as (bin & Hh).
  pose proof (bs_task zone_cfg 5 sample_id (fun _ => True) (at_zone w3ok) (zone_env IoOk) [_] (sample_id 1, Some raw) [] zone_reading
    _ (Some bin) El (opened_opens zone_cfg raw zone_reading Ho (sample_id 1)) Hh) as Hstep.
  eexists _, _. split; [exact (br_next _ _ _ _ _ _ _ _ _ read_books Hstep)|].
  split; [apply list_elem_of_In; right; left; reflexivity|]. split; [done|].
  eapply (entry_billed_once (json_dom := fun _ => True) (wire_dom := fun _ => True) zone_cfg 5 sample_id plain_router
    sample_deployed _ _ 0 1 zone_reading 2 (br_next _ _ _ _ _ _ _ _ _ read_books Hstep)).
  - apply list_elem_of_In. right. left. reflexivity.
  - apply list_elem_of_In. left. reflexivity.
  - lia.
  - exact sample_group.
  - lia.
  - intros x. exact (task_acks zone_cfg (zone_env IoOk) w3ok.(dl_zone) _ _ _ _ _ Ho Hh eq_refl x).
  - change (trimmed 5 w2 <= 1)%nat. rewrite (proj1 sample_stream). lia.
Defined.

(** A publication whose first XADD was applied but not answered is retried: one accepted
    reading is then two entries of the stream, and both are binned. *)
Lemma retried_reading_billed_twice :
  exists tr b, sample_books tr b /\ List.filter (fun o => match o with Published _ _ => true | _ => false end) tr =
      [Published 1 zone_reading] /\
    binned_args b.(bl_ledger) = [sample_args; sample_args].
Proof.
  destruct sample_batch as (raw0 & raw1 & El & Ho0 & Ho1).
  destruct sample_binned as (bin0 & Hh0). destruct sample_binned_again as (bin1 & Hh1).
  pose proof (bs_task zone_cfg 5 sample_id (fun _ => True) (at_zone w3ok) (zone_env IoOk) [] (sample_id 0, Some raw0) _ zone_reading
    _ (Some bin0) El (opened_opens zone_cfg raw0 zone_reading Ho0 (sample_id 0)) Hh0) as Hs0.
  pose proof (br_next _ _ _ _ _ _ _ _ _ read_books Hs0) as Hr0.
  assert (Hb0 : binned zone_cfg (zone_env IoOk) w3ok.(dl_zone) (sample_id 0, Some raw0) = [Handled (sample_id 0) zone_reading])
    by (apply binned_handled; [exact Ho0|exact sample_no_panic]).
  destruct (process_opened zone_cfg (zone_env IoOk) w3ok.(dl_zone) (sample_id 0) raw0 zone_reading Ho0)
    as [_ [(_ & Ha & _)|[Hno _]]]; [|rewrite Hb0 in Hno; discriminate Hno].
  change (zs_agg (dl_zone w3ok)) with new in Ha.
  match type of Hr0 with bill_run _ _ _ _ _ _ ?b => set (b0 := b) in Hr0 end.
  assert (Hh : handle_reading b0.(bl_zone).(dl_zone).(zs_agg) (zone_env IoOk).(ee_now) sample_args =
    ((sample_bin (sample_bin new).1).1, Ok (Some bin1))).
  { cbn [b0 bl_zone with_zone dl_zone]. unfold args_of at 1. unfold args_of in Hh1. rewrite Ha. exact Hh1. }
  pose proof (bs_task zone_cfg 5 sample_id (fun _ => True) b0 (zone_env IoOk) [] (sample_id 1, Some raw1) [] zone_reading
    _ (Some bin1) eq_refl (opened_opens zone_cfg raw1 zone_reading Ho1 (sample_id 1)) Hh) as Hs1.
  eexists _, _. split; [exact (br_next _ _ _ _ _ _ _ _ _ Hr0 Hs1)|]. cbn [bl_zone]. split; [|reflexivity].
  rewrite Hb0. unfold binned. cbn [snd mbind option_bind]. by repeat case_match.
Qed.
End Witnesses.
