(* ===== verification/Dispatch.v ===== *)
(** * The dispatch engine (aggregator-logic/src/dispatch)

    [engine.rs]: selection of the fan-out targets from the configuration, the
    per-(action, adapter) cooldown, the capacity check against the aggregator and
    the concurrent fan-out with its partial-failure policy.  [grpc_client.rs]: the
    retry loop of the gRPC adapter.  [mod.rs]: the adapter trait, as a class.

    An [Instant] is a [Z] in nanoseconds.  The tasks of a fan-out run concurrently:
    their results and the order and instants at which they are joined are arguments
    of the model, and the theorems quantify over them. *)

From Stdlib Require Import ZArith Lia Ascii String SpecFloat.
From stdpp Require Import base gmap strings list numbers sorting.
From S2P Require Import Prelude RustStd External Aggregator.

Open Scope Z_scope.
Open Scope bridge_scope.

Inductive DispatchType : Type := FLEX_UP | FLEX_DOWN.

#[export] Instance DispatchType_eq_dec : EqDecision DispatchType.
Proof. solve_decision. Defined.

(** The derived [Debug] text, used as a metric label. *)
Definition action_label (a : DispatchType) : string :=
  match a with FLEX_UP => "FLEX_UP" | FLEX_DOWN => "FLEX_DOWN" end.

(** ** The outside world of an adapter and the adapter trait *)

Class World (W : Type) := {
  wall_clock : W -> Z;
  sleep_ms : Z -> W -> W
}.

(** [execute_dispatch] takes [&self]: the adapter's interior state is returned. *)
Class DispatchAdapter (W A : Type) := {
  execute_dispatch : A -> DispatchType -> f64 -> W -> A * W * outcome string unit;
  is_simulation : A -> bool
}.

(** ** grpc_client.rs *)

Record FlexCommand : Type := {
  cluster_id : string;
  dispatch_type : DispatchType;
  command_capacity_kw : f64;
  command_timestamp : Z
}.

(** The remote controller: a transport error, or a response with its [success]
    flag and message. *)
Class DispatchController (W : Type) := {
  execute_flex_dispatch : FlexCommand -> W -> W * outcome string (bool * string)
}.

Section GrpcClient.
Context {W : Type} `{World W} `{DispatchController W}.

Definition flex_command (action : DispatchType) (capacity_kw : f64) (w : W) : FlexCommand := {|
  cluster_id := "default-cluster";
  dispatch_type := action;
  command_capacity_kw := capacity_kw;
  command_timestamp := wall_clock w / NS_PER_SEC
|}.

(** The [while retries > 0] loop; [None] is exhausted fuel. *)
Fixpoint retry_loop (fuel : nat) (retries : Z) (request : FlexCommand) (w : W)
    : option (W * outcome string unit) :=
  match fuel with
  | O => None
  | S fuel =>
      if 0 <? retries then
        match execute_flex_dispatch request w with
        | (w, Ok (success, message)) =>
            Some (w, if success : bool then Ok ()
                     else Err ("Dispatch failed: " +:+ message))
        | (w, Err e) =>
            let retries := retries - 1 in
            if retries =? 0 then Some (w, Err ("gRPC error: " +:+ e))
            else retry_loop fuel retries request (sleep_ms 500 w)
        | (w, Panic) => Some (w, Panic)
        end
      else Some (w, Ok ())
  end.

Definition grpc_execute_dispatch (fuel : nat) (action : DispatchType) (capacity_kw : f64) (w : W)
    : option (W * outcome string unit) :=
  retry_loop fuel 3 (flex_command action capacity_kw w) w.

(** The world after [n] transport errors in a row, each followed by the pause. *)
Fixpoint transport_failures (n : nat) (request : FlexCommand) (w : W) : option W :=
  match n with
  | O => Some w
  | S n =>
      match execute_flex_dispatch request w with
      | (w, Err _) => transport_failures n request (sleep_ms 500 w)
      | _ => None
      end
  end.

(** What one final call decides: the response's flag, or the transport error. *)
Definition final_call (request : FlexCommand) (w : W) : W * outcome string unit :=
  match execute_flex_dispatch request w with
  | (w, Ok (success, message)) =>
      (w, if success : bool then Ok () else Err ("Dispatch failed: " +:+ message))
  | (w, Err e) => (w, Err ("gRPC error: " +:+ e))
  | (w, Panic) => (w, Panic)
  end.

Definition is_transport_error (request : FlexCommand) (w : W) : bool :=
  match (execute_flex_dispatch request w).2 with Err _ => true | _ => false end.

Lemma retry_loop_step fuel r request w :
  0 < r -> (Z.to_nat r <= fuel)%nat ->
  exists n wn, (n < Z.to_nat r)%nat /\ transport_failures n request w = Some wn /\
    (is_transport_error request wn = true -> n = Nat.pred (Z.to_nat r)) /\
    retry_loop fuel r request w = Some (final_call request wn).
Proof.
  revert r w. induction fuel as [|fuel IH]; intros r w Hr Hf; [lia|].
  cbn [retry_loop]. rewrite (proj2 (Z.ltb_lt 0 r)) by done.
  destruct (execute_flex_dispatch request w) as [w1 [[s m]|e|]] eqn:He.
  - exists 0%nat, w. split; [lia|]. unfold is_transport_error, final_call. by rewrite He.
  - destruct (r - 1 =? 0) eqn:E; breflect.
    + exists 0%nat, w. split; [lia|]. unfold is_transport_error, final_call. rewrite He.
      repeat split. intros _. lia.
    + destruct (IH (r - 1) (sleep_ms 500 w1)) as (n & wn & Hn & Ht & Hl & Hres); [lia..|].
      exists (S n), wn. split; [lia|]. cbn [transport_failures]. rewrite He.
      repeat split; [done| |done]. intros Hx. specialize (Hl Hx). lia.
  - exists 0%nat, w. split; [lia|]. unfold is_transport_error, final_call. by rewrite He.
Qed.
End GrpcClient.

(** ** engine.rs *)

(** The process environment, [std::env::var(..).ok()]. *)
Abbreviation Env := (string -> option string).

(** One sample of [aggregator_dispatch_total]: action label, adapter, outcome. *)
Abbreviation metric := (string * string * string)%type.

Section Engine.
Context {C : Chrono} {D : RustDecimal} {T : F64Text} {Adp : Type}.

Record DispatchEngine : Type := {
  adapters : gmap string Adp;
  active_adapters : list string;
  freq_low_hz : f64;
  freq_high_hz : f64;
  capacity_kw : f64;
  cooldown : Z;
  last_dispatch : list (DispatchType * string * Z)
}.

Definition set_last_dispatch (e : DispatchEngine) (l : list (DispatchType * string * Z))
    : DispatchEngine := {|
  adapters := e.(adapters);
  active_adapters := e.(active_adapters);
  freq_low_hz := e.(freq_low_hz);
  freq_high_hz := e.(freq_high_hz);
  capacity_kw := e.(capacity_kw);
  cooldown := e.(cooldown);
  last_dispatch := l
|}.

Definition env_f64 (env : Env) (var : string) (dflt : f64) : f64 :=
  default dflt (env var ≫= f64_parse).

(** [Instant::elapsed] saturates at zero. *)
Definition elapsed (at_ now : Z) : Z := Z.max 0 (now - at_).

Definition cooldown_allows (last_same_action : option Z) (now cooldown : Z) : bool :=
  match last_same_action with
  | Some at_ => cooldown <=? elapsed at_ now
  | None => true
  end.

Definition default_adapter_name (adapters : gmap string Adp) : string :=
  if is_someb (adapters !! "openleadr") then "openleadr" else "ieee".

Definition mem (l : list string) (name : string) : bool := existsb (String.eqb name) l.

(** The loop over the trimmed, non-empty pieces of the configuration. *)
Fixpoint select_loop (adapters : gmap string Adp) (names selected : list string) : list string :=
  match names with
  | [] => selected
  | name :: names =>
      if is_someb (adapters !! name) then
        select_loop adapters names
          (if mem selected name then selected else selected ++ [name])
      else select_loop adapters names selected
  end.

Definition config_names (raw : string) : list string :=
  List.filter (fun s => negb (is_empty s)) (trim <$> split_char ","%char raw).

Definition select_adapters_from (raw : string) (adapters : gmap string Adp) : list string :=
  match select_loop adapters (config_names raw) [] with
  | [] => [default_adapter_name adapters]
  | selected => selected
  end.

Definition select_adapters (env : Env) (adapters : gmap string Adp) : list string :=
  let raw :=
    match env "DISPATCH_ADAPTERS" with
    | Some csv => if is_empty (trim csv) then default EmptyString (env "DISPATCH_ADAPTER") else csv
    | None => default EmptyString (env "DISPATCH_ADAPTER")
    end in
  select_adapters_from raw adapters.

(** [openleadr] is the result of [OpenLeadrAdapter::from_env]. *)
Definition new (env : Env) (grpc ieee : Adp) (openleadr : outcome string (option Adp))
    : DispatchEngine :=
  let adapters := <["ieee" := ieee]> (<["grpc" := grpc]> ∅) in
  let adapters :=
    match openleadr with
    | Ok (Some adapter) => <["openleadr" := adapter]> adapters
    | _ => adapters
    end in
  {| adapters := adapters;
     active_adapters := select_adapters env adapters;
     freq_low_hz := env_f64 env "DISPATCH_FREQ_LOW_HZ" (F64.of_decimal 498 1);
     freq_high_hz := env_f64 env "DISPATCH_FREQ_HIGH_HZ" (F64.of_decimal 502 1);
     capacity_kw := env_f64 env "DISPATCH_CAPACITY_KW" (F64.of_Z 100);
     cooldown := default 900 (env "DISPATCH_COOLDOWN_SECS" ≫= parse_unsigned 64) * NS_PER_SEC;
     last_dispatch := [] |}.

Definition same_pair (action : DispatchType) (adapter : string)
    (x : DispatchType * string * Z) : bool :=
  bool_decide (x.1.1 = action) && String.eqb x.1.2 adapter.

Definition last_dispatch_of (e : DispatchEngine) (action : DispatchType) (adapter : string)
    : option Z :=
  snd <$> List.find (same_pair action adapter) e.(last_dispatch).

Definition record_dispatch (e : DispatchEngine) (action : DispatchType) (adapter : string) (now : Z)
    : DispatchEngine :=
  set_last_dispatch e
    (List.filter (fun x => negb (same_pair action adapter x)) e.(last_dispatch)
     ++ [(action, adapter, now)]).

Fixpoint dec_sum (l : list Dec) (acc : Dec) : option Dec :=
  match l with
  | [] => Some acc
  | x :: l => dec_add acc x ≫= dec_sum l
  end.

(** The sum is over the completed windows at zero grace; a [Decimal] overflow
    panics. *)
Definition has_dispatch_capacity (agg : Aggregator) (now : Z) : outcome Empty_set bool :=
  let? bins := peek_completed_bins_at agg now 0 in
  let? total := unwrap (dec_sum (energy_generated <$> bins) dec_zero) in
  Ok (dec_ltb dec_zero total).

Definition decide_action (e : DispatchEngine) (frequency : f64) : option DispatchType :=
  if F64.ltb frequency e.(freq_low_hz) then Some FLEX_UP
  else if F64.ltb e.(freq_high_hz) frequency then Some FLEX_DOWN
  else None.

(** One evaluation's surroundings: the instant at which each target's cooldown is
    read, the wall clock, what each task returns ([Panic] when the task panicked),
    and the order and instants at which the tasks are joined. *)
Record tick : Type := {
  check_at : string -> Z;
  tick_now : Z;
  exec : Adp -> DispatchType -> f64 -> outcome string unit;
  join_order : list (string * Adp) -> list (string * Adp * Z);
  join_error : string
}.

(** The eligibility loop: targets outside their cooldown, and the samples of the
    suppressed ones. *)
Fixpoint eligible_loop (e : DispatchEngine) (tk : tick) (action : DispatchType)
    (targets : list string) : list (string * Adp) * list metric :=
  match targets with
  | [] => ([], [])
  | name :: targets =>
      let '(el, ms) := eligible_loop e tk action targets in
      match e.(adapters) !! name with
      | None => (el, ms)
      | Some adapter =>
          if cooldown_allows (last_dispatch_of e action name) (tk.(check_at) name) e.(cooldown)
          then ((name, adapter) :: el, ms)
          else (el, (action_label action, name, "suppressed") :: ms)
      end
  end.

Record join_state : Type := {
  js_engine : DispatchEngine;
  js_metrics : list metric;
  js_fired : nat;
  js_errors : list string
}.

(** The body of [while let Some(joined) = tasks.join_next().await]. *)
Definition join_one (tk : tick) (action : DispatchType) (s : join_state)
    (j : string * Adp * Z) : join_state :=
  let '(name, adapter, at_) := j in
  let e := s.(js_engine) in
  match tk.(exec) adapter action e.(capacity_kw) with
  | Ok () =>
      {| js_engine := record_dispatch e action name at_;
         js_metrics := s.(js_metrics) ++ [(action_label action, name, "fired")];
         js_fired := S s.(js_fired);
         js_errors := s.(js_errors) |}
  | Err m =>
      {| js_engine := e;
         js_metrics := s.(js_metrics) ++ [(action_label action, name, "failed")];
         js_fired := s.(js_fired);
         js_errors := s.(js_errors) ++ [name +:+ ": " +:+ m] |}
  | Panic =>
      {| js_engine := e;
         js_metrics := s.(js_metrics);
         js_fired := s.(js_fired);
         js_errors := s.(js_errors) ++ ["task panicked: " +:+ tk.(join_error)] |}
  end.

Fixpoint join_strings (sep : string) (l : list string) : string :=
  match l with
  | [] => EmptyString
  | [s] => s
  | s :: l => s +:+ sep +:+ join_strings sep l
  end.

(** The engine after the call, the metric samples, the tasks spawned and the
    result. *)
Record dispatch_result : Type := {
  r_engine : DispatchEngine;
  r_metrics : list metric;
  r_spawned : list (string * Adp);
  r_result : outcome string unit
}.

Definition evaluate_and_dispatch (e : DispatchEngine) (agg : Aggregator) (tk : tick)
    (frequency : f64) : dispatch_result :=
  match decide_action e frequency with
  | None => {| r_engine := e; r_metrics := []; r_spawned := []; r_result := Ok () |}
  | Some action =>
      let '(eligible, ms) := eligible_loop e tk action e.(active_adapters) in
      match eligible with
      | [] => {| r_engine := e; r_metrics := ms; r_spawned := []; r_result := Ok () |}
      | _ =>
          match has_dispatch_capacity agg tk.(tick_now) with
          | Ok true =>
              let s := fold_left (join_one tk action) (tk.(join_order) eligible)
                         {| js_engine := e; js_metrics := ms; js_fired := 0; js_errors := [] |} in
              {| r_engine := s.(js_engine);
                 r_metrics := s.(js_metrics);
                 r_spawned := eligible;
                 r_result :=
                   match s.(js_errors), s.(js_fired) with
                   | _ :: _, O =>
                       Err ("all dispatch adapters failed: " +:+ join_strings "; " s.(js_errors))
                   | _, _ => Ok ()
                   end |}
          | Ok false =>
              {| r_engine := e;
                 r_metrics := ms ++ ((fun x => (action_label action, x.1, "failed")) <$> eligible);
                 r_spawned := [];
                 r_result := Err "No available capacity for dispatch" |}
          | Err _ | Panic =>
              {| r_engine := e; r_metrics := ms; r_spawned := []; r_result := Panic |}
          end
      end
  end.
End Engine.
