(* ===== verification/DispatchProps.v ===== *)
(** * Properties of the dispatch engine

    The selected targets are well formed, the cooldown separates any two
    dispatches of one (action, adapter) pair whatever the interleaving of the
    fan-out, a failing target never holds back another, nothing is sent without a
    cause, and the retry loop of the gRPC adapter ends after at most three calls. *)

From Stdlib Require Import ZArith Lia Ascii String SpecFloat.
From stdpp Require Import base gmap strings list numbers sorting.
From S2P Require Import Prelude RustStd External Aggregator Dispatch.

Open Scope Z_scope.
Open Scope bridge_scope.

(** ** Target selection *)

Lemma mem_spec l n : mem l n = true <-> n ∈ l.
Proof.
  unfold mem. rewrite existsb_exists. setoid_rewrite String.eqb_eq.
  rewrite list_elem_of_In. naive_solver.
Qed.

Lemma is_someb_is_Some {A} (o : option A) : is_someb o = true <-> is_Some o.
Proof. destruct o; split; [by eexists|done|done|by intros [? ?]]. Qed.

Section Select.
Context {Adp : Type} (ad : gmap string Adp).

Definition registered (n : string) : Prop := is_Some (ad !! n).

Lemma select_loop_spec names sel :
  NoDup sel ->
  NoDup (select_loop ad names sel) /\
  (forall n, n ∈ select_loop ad names sel <-> n ∈ sel \/ (n ∈ names /\ registered n)).
Proof.
  revert sel. induction names as [|x names IH]; intros sel Hnd; cbn [select_loop].
  { split; [done|]. set_solver. }
  destruct (is_someb (ad !! x)) eqn:Hx.
  - apply is_someb_is_Some in Hx.
    destruct (mem sel x) eqn:Hm.
    + apply mem_spec in Hm. destruct (IH sel Hnd) as [H1 H2]. split; [done|].
      intros n. rewrite H2, elem_of_cons. naive_solver.
    + assert (x ∉ sel) by (rewrite <- mem_spec; congruence).
      destruct (IH (sel ++ [x])) as [H1 H2].
      { apply NoDup_app. split_and!; [done|set_solver|apply NoDup_singleton]. }
      split; [done|]. intros n. rewrite H2, elem_of_cons, elem_of_app, list_elem_of_singleton.
      unfold registered in *. naive_solver.
  - assert (~ registered x) by (unfold registered; rewrite <- is_someb_is_Some; congruence).
    destruct (IH sel Hnd) as [H1 H2]. split; [done|].
    intros n. rewrite H2, elem_of_cons. naive_solver.
Qed.

Lemma default_registered : registered "ieee" -> registered (default_adapter_name ad).
Proof.
  unfold default_adapter_name. case_match eqn:H; [|done]. intros _. by apply is_someb_is_Some.
Qed.

Lemma select_from_cases raw :
  let sel := select_adapters_from raw ad in
  let known := fun n => n ∈ config_names raw /\ registered n in
  NoDup sel /\ sel <> [] /\
  ((exists n, known n) -> forall n, n ∈ sel <-> known n) /\
  ((~ exists n, known n) -> sel = [default_adapter_name ad]).
Proof.
  cbv zeta. unfold select_adapters_from.
  destruct (select_loop_spec (config_names raw) [] NoDup_nil_2) as [Hnd Hin].
  destruct (select_loop ad (config_names raw) []) as [|s sel]; split_and!.
  - apply NoDup_singleton.
  - done.
  - intros [n Hn]. exfalso. apply (not_elem_of_nil n), Hin. by right.
  - done.
  - done.
  - done.
  - intros _ n. rewrite Hin. set_solver.
  - intros Hno. exfalso. apply Hno. exists s.
    destruct (proj1 (Hin s)) as [Hs|Hs]; [left|set_solver|done].
Qed.
End Select.

Lemma new_has_ieee {T : F64Text} {Adp} env (g i : Adp) ol :
  is_Some ((new env g i ol).(adapters) !! "ieee").
Proof.
  unfold new. cbn [adapters]. destruct ol as [[a|]| |]; cbn.
  all: rewrite ?lookup_insert_ne by done; rewrite lookup_insert_eq; by eexists.
Qed.


(** ** The cooldown ledger *)

Lemma same_pair_spec a n x : same_pair a n x = true <-> x.1 = (a, n).
Proof.
  unfold same_pair. rewrite andb_true_iff, bool_decide_eq_true, String.eqb_eq.
  destruct x as [[a' n'] t]; cbn. naive_solver.
Qed.

Lemma find_filter_keep {A} (p q : A -> bool) l :
  (forall x, p x = true -> q x = true) -> List.find p (List.filter q l) = List.find p l.
Proof.
  intros Hpq. induction l as [|x l IH]; [done|]. cbn.
  destruct (q x) eqn:Hq; cbn; destruct (p x) eqn:Hp; try done.
  by rewrite Hpq in Hq.
Qed.

Lemma find_filter_none {A} (p : A -> bool) l :
  List.find p (List.filter (fun x => negb (p x)) l) = None.
Proof.
  induction l as [|x l IH]; [done|]. cbn.
  destruct (p x) eqn:Hp; cbn; [done|]. by rewrite Hp.
Qed.

Lemma find_app {A} (p : A -> bool) l1 l2 :
  List.find p (l1 ++ l2) =
  match List.find p l1 with Some x => Some x | None => List.find p l2 end.
Proof. induction l1 as [|x l1 IH]; [done|]. cbn. by destruct (p x). Qed.

Section Ledger.
Context {C : Chrono} {D : RustDecimal} {T : F64Text} {Adp : Type}.
Implicit Types (e : @DispatchEngine Adp) (tk : @tick Adp).

Lemma last_dispatch_record e a n t a' n' :
  last_dispatch_of (record_dispatch e a n t) a' n' =
  if bool_decide ((a', n') = (a, n)) then Some t else last_dispatch_of e a' n'.
Proof.
  unfold last_dispatch_of, record_dispatch. cbn [last_dispatch set_last_dispatch].
  rewrite find_app. case_bool_decide as Heq.
  - injection Heq as -> ->. rewrite find_filter_none. cbn.
    by rewrite (proj2 (same_pair_spec a n (a, n, t)) eq_refl).
  - rewrite find_filter_keep.
    + destruct (List.find _ _); [done|]. cbn.
      destruct (same_pair a' n' (a, n, t)) eqn:Hp; [|done].
      apply same_pair_spec in Hp. cbn in Hp. congruence.
    + intros x Hx. destruct (same_pair a n x) eqn:Hy; [|done].
      apply same_pair_spec in Hx, Hy. congruence.
Qed.

Lemma eligible_spec e tk a targets :
  (forall n adp, (n, adp) ∈ (eligible_loop e tk a targets).1 <->
     n ∈ targets /\ e.(adapters) !! n = Some adp /\
     cooldown_allows (last_dispatch_of e a n) (tk.(check_at) n) e.(cooldown) = true) /\
  (NoDup targets -> NoDup (eligible_loop e tk a targets).1.*1).
Proof.
  induction targets as [|x targets [IH1 IH2]].
  { split; [set_solver|]. intros _. constructor. }
  cbn [eligible_loop]. destruct (eligible_loop e tk a targets) as [el ms]. cbn [fst] in *.
  destruct (adapters e !! x) as [adp|] eqn:Hx;
    [destruct (cooldown_allows _ _ _) eqn:Hc|]; cbn [fst].
  - split.
    + intros n b. rewrite !elem_of_cons, IH1. naive_solver.
    + intros [Hx' Hnd]%NoDup_cons. cbn. apply NoDup_cons. split; [|by apply IH2].
      intros ((n & b) & -> & Hin)%list_elem_of_fmap. apply IH1 in Hin. naive_solver.
  - split; [|intros [_ Hnd]%NoDup_cons; by apply IH2].
    intros n b. rewrite IH1, elem_of_cons. naive_solver congruence.
  - split; [|intros [_ Hnd]%NoDup_cons; by apply IH2].
    intros n b. rewrite IH1, elem_of_cons. naive_solver congruence.
Qed.

(** *** The join loop *)

Definition succeeds tk a (kw : f64) (adp : Adp) : bool := is_ok (tk.(exec) adp a kw).

Lemma join_one_frame tk a s j :
  let s' := join_one tk a s j in
  s'.(js_engine).(capacity_kw) = s.(js_engine).(capacity_kw) /\
  s'.(js_engine).(adapters) = s.(js_engine).(adapters) /\
  s'.(js_engine).(active_adapters) = s.(js_engine).(active_adapters) /\
  s'.(js_engine).(cooldown) = s.(js_engine).(cooldown).
Proof. destruct j as [[n adp] t]. cbn. by destruct (exec _ _ _ _) as [[]| |]. Qed.

Lemma join_frame tk a js s :
  let s' := fold_left (join_one tk a) js s in
  s'.(js_engine).(capacity_kw) = s.(js_engine).(capacity_kw) /\
  s'.(js_engine).(adapters) = s.(js_engine).(adapters) /\
  s'.(js_engine).(active_adapters) = s.(js_engine).(active_adapters) /\
  s'.(js_engine).(cooldown) = s.(js_engine).(cooldown).
Proof.
  cbv zeta. revert s. induction js as [|j js IH]; intros s; [done|]. cbn [fold_left].
  pose proof (IH (join_one tk a s j)) as (-> & -> & -> & ->). apply join_one_frame.
Qed.

(** The ledger after the joins: the instant of the success, where there was one. *)
Lemma join_ledger tk a js s a' n' :
  NoDup js.*1.*1 ->
  (forall adp t, (n', adp, t) ∈ js -> a' = a ->
     succeeds tk a s.(js_engine).(capacity_kw) adp = true ->
     last_dispatch_of (fold_left (join_one tk a) js s).(js_engine) a' n' = Some t) /\
  ((a' = a -> forall adp t, (n', adp, t) ∈ js ->
      succeeds tk a s.(js_engine).(capacity_kw) adp = false) ->
   last_dispatch_of (fold_left (join_one tk a) js s).(js_engine) a' n' =
   last_dispatch_of s.(js_engine) a' n').
Proof.
  induction js as [|[[x xa] xt] js IH] using rev_ind; intros Hnd; [split; set_solver|].
  rewrite !fmap_app in Hnd. apply NoDup_app in Hnd as (Hnd & Hx & _).
  destruct (IH Hnd) as [IHs IHn]. rewrite fold_left_app. cbn [fold_left].
  destruct (join_frame tk a js s) as (Hkw & _).
  unfold join_one at 1 3. rewrite Hkw.
  assert (Hfresh : forall adp t, (x, adp, t) ∉ js).
  { intros adp t Hin. apply (Hx x); [|set_solver].
    apply list_elem_of_fmap. exists (x, adp). split; [done|].
    apply list_elem_of_fmap. by exists (x, adp, t). }
  unfold succeeds in *.
  destruct (exec tk xa a (capacity_kw (js_engine s))) as [[]|m|] eqn:He; cbn [js_engine].
  - rewrite last_dispatch_record. split.
    + intros adp t [Hin|[= -> -> ->]%list_elem_of_singleton]%elem_of_app -> Hok.
      * rewrite bool_decide_false by naive_solver. eauto.
      * by rewrite bool_decide_true.
    + intros Hno. rewrite bool_decide_false; [|intros [= -> ->]].
      * apply IHn. intros -> adp t Hin. apply (Hno eq_refl adp t). set_solver.
      * specialize (Hno eq_refl xa xt ltac:(set_solver)). by rewrite He in Hno.
  - split.
    + intros adp t [Hin|[= -> -> ->]%list_elem_of_singleton]%elem_of_app -> Hok; [by eauto|].
      by rewrite He in Hok.
    + intros Hno. apply IHn. intros -> adp t Hin. apply (Hno eq_refl adp t). set_solver.
  - split.
    + intros adp t [Hin|[= -> -> ->]%list_elem_of_singleton]%elem_of_app -> Hok; [by eauto|].
      by rewrite He in Hok.
    + intros Hno. apply IHn. intros -> adp t Hin. apply (Hno eq_refl adp t). set_solver.
Qed.

(** The counters decide the result: something fired, or nothing erred. *)
Lemma join_counts tk a js s :
  let s' := fold_left (join_one tk a) js s in
  let ok := fun j => succeeds tk a s.(js_engine).(capacity_kw) j.1.2 in
  (s'.(js_fired) = 0%nat <-> s.(js_fired) = 0%nat /\ forall j, j ∈ js -> ok j = false) /\
  (s'.(js_errors) = [] <-> s.(js_errors) = [] /\ forall j, j ∈ js -> ok j = true).
Proof.
  cbv zeta. induction js as [|[[x xa] xt] js [IH1 IH2]] using rev_ind.
  { cbn. split; set_solver. }
  rewrite fold_left_app. cbn [fold_left].
  destruct (join_frame tk a js s) as (Hkw & _).
  unfold join_one at 1 3. rewrite Hkw.
  setoid_rewrite elem_of_app. setoid_rewrite list_elem_of_singleton.
  unfold succeeds in *.
  destruct (exec tk xa a (capacity_kw (js_engine s))) as [[]|m|] eqn:He;
    cbn [js_fired js_errors]; split.
  - split; [done|]. intros [_ Hno]. specialize (Hno _ (or_intror eq_refl)).
    cbn in Hno. by rewrite He in Hno.
  - rewrite IH2. split; [|naive_solver].
    intros [? Hall]. split; [done|]. intros j [?| ->]; [by auto|]. cbn. by rewrite He.
  - rewrite IH1. split; [|naive_solver].
    intros [? Hall]. split; [done|]. intros j [?| ->]; [by auto|]. cbn. by rewrite He.
  - split; [by intros [_ ?]%app_nil|]. intros [_ Hno]. specialize (Hno _ (or_intror eq_refl)).
    cbn in Hno. by rewrite He in Hno.
  - rewrite IH1. split; [|naive_solver].
    intros [? Hall]. split; [done|]. intros j [?| ->]; [by auto|]. cbn. by rewrite He.
  - split; [by intros [_ ?]%app_nil|]. intros [_ Hno]. specialize (Hno _ (or_intror eq_refl)).
    cbn in Hno. by rewrite He in Hno.
Qed.
End Ledger.

Section FanOut.
Context {C : Chrono} {D : RustDecimal} {T : F64Text} {Adp : Type}.
Implicit Types (e : @DispatchEngine Adp) (tk : @tick Adp) (agg : Aggregator).

(** Every spawned task is joined once, in some order. *)
Definition join_ok tk (el : list (string * Adp)) : Prop := (tk.(join_order) el).*1 ≡ₚ el.

Definition eligible e tk a : list (string * Adp) := (eligible_loop e tk a e.(active_adapters)).1.

Definition fan_out e tk a (ms : list metric) : join_state :=
  fold_left (join_one tk a) (tk.(join_order) (eligible e tk a))
    {| js_engine := e; js_metrics := ms; js_fired := 0; js_errors := [] |}.

Definition join_result (s : @join_state Adp) : outcome string unit :=
  match s.(js_errors), s.(js_fired) with
  | _ :: _, O => Err ("all dispatch adapters failed: " +:+ join_strings "; " s.(js_errors))
  | _, _ => Ok ()
  end.

(** The cases of an evaluation. *)
Lemma evaluate_cases e agg tk f :
  let r := evaluate_and_dispatch e agg tk f in
  (r.(r_engine) = e /\ r.(r_spawned) = []) \/
  exists a, decide_action e f = Some a /\ eligible e tk a <> [] /\
    has_dispatch_capacity agg tk.(tick_now) = Ok true /\
    r.(r_spawned) = eligible e tk a /\
    exists ms, r.(r_engine) = (fan_out e tk a ms).(js_engine) /\
      r.(r_result) = join_result (fan_out e tk a ms).
Proof.
  cbv zeta. unfold evaluate_and_dispatch. destruct (decide_action e f) as [a|] eqn:Ha; [|by left].
  unfold fan_out, eligible. destruct (eligible_loop e tk a (active_adapters e)) as [el ms] eqn:Hel.
  destruct el as [|x el]; [by left|].
  destruct (has_dispatch_capacity agg (tick_now tk)) as [[]| |] eqn:Hc; [|by left..].
  right. exists a. rewrite Hel. cbn [fst]. split_and!; [done..|]. by exists ms.
Qed.

Lemma fan_out_nodup e tk a :
  NoDup e.(active_adapters) -> join_ok tk (eligible e tk a) ->
  NoDup (tk.(join_order) (eligible e tk a)).*1.*1.
Proof.
  intros Hnd Hj. unfold join_ok in Hj. rewrite Hj.
  by apply eligible_spec.
Qed.

Lemma join_elem tk el n adp :
  join_ok tk el -> (n, adp) ∈ el <-> exists t, (n, adp, t) ∈ tk.(join_order) el.
Proof.
  unfold join_ok. intros Hj. rewrite <- Hj at 1. rewrite list_elem_of_fmap. split.
  - intros (((n' & adp') & t) & [= -> ->] & Hin). eauto.
  - intros [t Hin]. by exists (n, adp, t).
Qed.

Lemma fan_out_result e tk a ms :
  join_ok tk (eligible e tk a) -> eligible e tk a <> [] ->
  join_result (fan_out e tk a ms) = Ok () <->
  exists n adp, (n, adp) ∈ eligible e tk a /\ succeeds tk a e.(capacity_kw) adp = true.
Proof.
  intros Hj Hne. unfold fan_out.
  destruct (join_counts tk a (join_order tk (eligible e tk a))
    {| js_engine := e; js_metrics := ms; js_fired := 0; js_errors := [] |}) as [Hf Her].
  cbn [js_engine js_fired js_errors] in Hf, Her.
  set (s := fold_left _ _ _) in *. unfold join_result. split.
  - intros Hok. destruct (decide (Exists (fun x => succeeds tk a (capacity_kw e) x.2 = true)
                                   (eligible e tk a))) as [Hx|Hx].
    { apply Exists_exists in Hx as ([n adp] & ? & ?). eauto. }
    assert (Hall : forall j, j ∈ join_order tk (eligible e tk a) ->
                   succeeds tk a (capacity_kw e) j.1.2 = false).
    { intros [[n adp] t] Hin. apply not_true_iff_false. intros Hs. apply Hx, Exists_exists.
      exists (n, adp). split; [|done]. apply (join_elem tk _ n adp Hj). by exists t. }
    rewrite (proj2 Hf (conj eq_refl Hall)) in Hok.
    destruct (js_errors s) as [|m l] eqn:Hm; [|done].
    destruct (eligible e tk a) as [|[n adp] el] eqn:Hel; [done|].
    destruct (proj1 (join_elem tk _ n adp Hj)) as [t Ht]; [set_solver|].
    specialize (Hall _ Ht). cbn in Hall.
    pose proof (proj2 (proj1 Her eq_refl) _ Ht) as Ht'. cbn in Ht'. congruence.
  - intros (n & adp & Hin & Hs). apply (join_elem tk _ n adp Hj) in Hin as [t Ht].
    destruct (js_errors s); [done|]. destruct (js_fired s) eqn:Hz; [|done].
    destruct (proj1 Hf eq_refl) as [_ Hno]. specialize (Hno _ Ht). cbn in Hno. congruence.
Qed.

Lemma fan_out_ledger e tk a ms :
  NoDup e.(active_adapters) -> join_ok tk (eligible e tk a) ->
  (forall n adp, (n, adp) ∈ eligible e tk a ->
     if succeeds tk a e.(capacity_kw) adp
     then exists t, (n, adp, t) ∈ tk.(join_order) (eligible e tk a) /\
            last_dispatch_of (fan_out e tk a ms).(js_engine) a n = Some t
     else last_dispatch_of (fan_out e tk a ms).(js_engine) a n = last_dispatch_of e a n) /\
  (forall a' n, a' <> a \/ n ∉ (eligible e tk a).*1 ->
     last_dispatch_of (fan_out e tk a ms).(js_engine) a' n = last_dispatch_of e a' n).
Proof.
  intros Hnd Hj. pose proof (fan_out_nodup e tk a Hnd Hj) as Hnd'. unfold fan_out.
  assert (Hled := fun a' n => join_ledger tk a (join_order tk (eligible e tk a))
    {| js_engine := e; js_metrics := ms; js_fired := 0; js_errors := [] |} a' n Hnd').
  cbn [js_engine] in Hled. split.
  - intros n adp Hin. pose proof (proj1 (join_elem tk _ n adp Hj) Hin) as [t Ht].
    destruct (succeeds _ _ _ _) eqn:Hs.
    + exists t. split; [done|]. by apply (proj1 (Hled a n) adp t).
    + apply (proj2 (Hled a n)). intros _ adp' t' Ht'.
      assert (adp' = adp) as ->; [|done].
      assert ((n, adp') ∈ eligible e tk a) as Hin' by (apply (join_elem tk _ n adp' Hj); eauto).
      apply eligible_spec in Hin, Hin'. naive_solver congruence.
  - intros a' n Hno. apply (proj2 (Hled a' n)). intros -> adp t Ht.
    destruct Hno as [Hno|Hno]; [done|]. exfalso. apply Hno, list_elem_of_fmap.
    exists (n, adp). split; [done|]. apply (join_elem tk _ n adp Hj). eauto.
Qed.

End FanOut.

(** ** Runs of the engine *)

(** A successful dispatch: the pair, the instant at which its cooldown was read and
    the instant at which it was recorded. *)
Record firing : Type := {
  f_action : DispatchType;
  f_name : string;
  f_check : Z;
  f_at : Z
}.

Definition spaced (cooldown : Z) (f g : firing) : Prop :=
  (f.(f_action), f.(f_name)) = (g.(f_action), g.(f_name)) -> f.(f_at) + cooldown <= g.(f_check).

Section Runs.
Context {C : Chrono} {D : RustDecimal} {T : F64Text} {Adp : Type}.
Implicit Types (e : @DispatchEngine Adp) (tk : @tick Adp) (agg : Aggregator).

Definition firing_of tk a (kw : f64) (j : string * Adp * Z) : option firing :=
  if succeeds tk a kw j.1.2
  then Some {| f_action := a; f_name := j.1.1; f_check := tk.(check_at) j.1.1; f_at := j.2 |}
  else None.

(** The successful dispatches of one evaluation, in join order. *)
Definition firings_of e agg tk (frequency : f64) : list firing :=
  match decide_action e frequency with
  | Some a =>
      match (evaluate_and_dispatch e agg tk frequency).(r_spawned) with
      | [] => []
      | el => omap (firing_of tk a e.(capacity_kw)) (tk.(join_order) el)
      end
  | None => []
  end.

(** The clock of an evaluation that starts at [t] and ends at [t']. *)
Definition tick_ok (t : Z) tk (el : list (string * Adp)) (t' : Z) : Prop :=
  join_ok tk el /\ t <= t' /\ (forall n, t <= tk.(check_at) n) /\
  (forall n adp at_, (n, adp, at_) ∈ tk.(join_order) el -> tk.(check_at) n <= at_ <= t').

Inductive engine_step : @DispatchEngine Adp * list firing * Z ->
                        @DispatchEngine Adp * list firing * Z -> Prop :=
| evaluation e log t agg tk frequency t' :
    tick_ok t tk (evaluate_and_dispatch e agg tk frequency).(r_spawned) t' ->
    engine_step (e, log, t)
      ((evaluate_and_dispatch e agg tk frequency).(r_engine),
       log ++ firings_of e agg tk frequency, t').

Definition ledger_inv (c : Z) (s : @DispatchEngine Adp * list firing * Z) : Prop :=
  let '(e, log, t) := s in
  e.(cooldown) = c /\ NoDup e.(active_adapters) /\
  (forall f, f ∈ log -> exists u, last_dispatch_of e f.(f_action) f.(f_name) = Some u /\ f.(f_at) <= u) /\
  (forall a n u, last_dispatch_of e a n = Some u -> u <= t) /\
  StronglySorted (spaced c) log.

Lemma firings_spec e agg tk freq f :
  f ∈ firings_of e agg tk freq ->
  exists a adp, decide_action e freq = Some a /\
    (evaluate_and_dispatch e agg tk freq).(r_spawned) = eligible e tk a /\
    f = {| f_action := a; f_name := f.(f_name); f_check := tk.(check_at) f.(f_name); f_at := f.(f_at) |} /\
    (f.(f_name), adp, f.(f_at)) ∈ tk.(join_order) (eligible e tk a) /\
    succeeds tk a e.(capacity_kw) adp = true.
Proof.
  unfold firings_of. intros Hf.
  destruct (evaluate_cases e agg tk freq) as [[_ Hs]|(a & Ha & Hne & _ & Hs & _)].
  - rewrite Hs in Hf. destruct (decide_action e freq); set_solver.
  - rewrite Ha, Hs in Hf.
    destruct (eligible e tk a) as [|x el] eqn:Hel; [done|]. rewrite <- Hel in *.
    apply list_elem_of_omap in Hf as ([[n adp] at_] & Hin & Hfo).
    unfold firing_of in Hfo. cbn in Hfo. destruct (succeeds _ _ _ _) eqn:Hok; [|done].
    injection Hfo as <-. cbn. exists a, adp. by rewrite Hs.
Qed.

(** Within one evaluation a pair fires at most once. *)
Lemma firings_spaced c e agg tk freq :
  NoDup e.(active_adapters) ->
  join_ok tk (evaluate_and_dispatch e agg tk freq).(r_spawned) ->
  StronglySorted (spaced c) (firings_of e agg tk freq).
Proof.
  intros Hnd Hj. unfold firings_of.
  destruct (evaluate_cases e agg tk freq) as [[_ Hs]|(a & Ha & Hne & _ & Hs & _)].
  { rewrite Hs. destruct (decide_action e freq); constructor. }
  rewrite Ha, Hs in *. pose proof (fan_out_nodup e tk a Hnd Hj) as Hn.
  destruct (eligible e tk a) as [|x el]; [done|]. clear -Hn.
  induction (join_order tk (x :: el)) as [|[[n adp] t] js IH]; [constructor|].
  apply NoDup_cons in Hn as [Hx Hn]. specialize (IH Hn). cbn.
  unfold firing_of at 1. cbn. destruct (succeeds _ _ _ _); [|done].
  constructor; [done|]. apply Forall_forall. intros g Hg.
  apply list_elem_of_omap in Hg as ([[m b] u] & Hin & Hg). intros [= Ha Hnm].
  exfalso. apply Hx. unfold firing_of in Hg. cbn in *.
  destruct (succeeds _ _ _ _); [|done]. injection Hg as <-. cbn in Hnm. subst n.
  apply list_elem_of_fmap. exists (m, b). split; [done|].
  apply list_elem_of_fmap. by exists (m, b, u).
Qed.

Lemma evaluate_frame e agg tk freq :
  let e' := (evaluate_and_dispatch e agg tk freq).(r_engine) in
  e'.(cooldown) = e.(cooldown) /\ e'.(active_adapters) = e.(active_adapters).
Proof.
  cbv zeta. destruct (evaluate_cases e agg tk freq) as [[-> _]|(a & _ & _ & _ & _ & ms & -> & _)]; [done|].
  destruct (join_frame tk a (join_order tk (eligible e tk a))
    {| js_engine := e; js_metrics := ms; js_fired := 0; js_errors := [] |}) as (_ & _ & Hact & Hcd).
  exact (conj Hcd Hact).
Qed.

(** The ledger after an evaluation: unchanged for a pair, or the instant of a join
    of this evaluation, whose cooldown had expired. *)
Lemma evaluate_ledger e agg tk freq a n :
  NoDup e.(active_adapters) ->
  join_ok tk (evaluate_and_dispatch e agg tk freq).(r_spawned) ->
  let r := evaluate_and_dispatch e agg tk freq in
  last_dispatch_of r.(r_engine) a n = last_dispatch_of e a n \/
  exists adp t, (n, adp, t) ∈ tk.(join_order) r.(r_spawned) /\
    last_dispatch_of r.(r_engine) a n = Some t.
Proof.
  cbv zeta. intros Hnd Hj.
  destruct (evaluate_cases e agg tk freq) as [[-> _]|(a' & _ & _ & _ & Hs & ms & He & _)]; [by left|].
  rewrite He, Hs in *. destruct (fan_out_ledger e tk a' ms Hnd Hj) as [H1 H2].
  destruct (decide (a = a')) as [->|]; [|by left; apply H2; left].
  destruct (decide (n ∈ (eligible e tk a').*1)) as [Hin|]; [|by left; apply H2; right].
  apply list_elem_of_fmap in Hin as ([n' adp] & -> & Hin). specialize (H1 _ _ Hin). cbn.
  destruct (succeeds _ _ _ _); [|by left]. destruct H1 as (t & ? & ?). right. eauto.
Qed.

Lemma fired_after_cooldown c e log t agg tk freq t' f g :
  0 <= c -> ledger_inv c (e, log, t) ->
  tick_ok t tk (evaluate_and_dispatch e agg tk freq).(r_spawned) t' ->
  f ∈ log -> g ∈ firings_of e agg tk freq -> spaced c f g.
Proof.
  intros Hc (Hcd & Hnd & Hlog & Hle & _) (Hj & _ & Hchk & _) Hf Hg [= Ha Hn].
  apply firings_spec in Hg as (a & adp & _ & Hs & Hg & Hin & _).
  destruct (Hlog f Hf) as (u & Hu & Hfu). rewrite Ha, Hn in Hu. rewrite Hg in *. cbn in *.
  rewrite Hs in Hj.
  assert (Hel : (f_name g, adp) ∈ eligible e tk a) by (apply (join_elem tk _ _ _ Hj); eauto).
  apply eligible_spec in Hel as (_ & _ & Hal). rewrite Hu in Hal. cbn in Hal. rewrite Hcd in Hal.
  unfold elapsed in Hal. breflect. specialize (Hle _ _ _ Hu). specialize (Hchk (f_name g)). lia.
Qed.

Lemma ledger_inv_step c s s' : 0 <= c -> ledger_inv c s -> engine_step s s' -> ledger_inv c s'.
Proof.
  intros Hc Hinv Hs. destruct Hs as [e log t agg tk freq t' Htk].
  pose proof (fun f g => fired_after_cooldown c e log t agg tk freq t' f g Hc Hinv Htk) as Hcross.
  destruct Hinv as (Hcd & Hnd & Hlog & Hle & Hsp). destruct Htk as (Hj & Ht & Hchk & Hjoin).
  destruct (evaluate_frame e agg tk freq) as [Hcd' Hact].
  pose proof (fun a n => evaluate_ledger e agg tk freq a n Hnd Hj) as Hled. cbv zeta in Hled.
  split_and!; [congruence|by rewrite Hact| | |].
  - intros f [Hf|Hf]%elem_of_app.
    + destruct (Hlog f Hf) as (u & Hu & Hfu).
      destruct (Hled f.(f_action) f.(f_name)) as [->|(adp & t1 & Hin & ->)]; [eauto|].
      exists t1. split; [done|]. specialize (Hle _ _ _ Hu).
      specialize (Hjoin _ _ _ Hin). specialize (Hchk f.(f_name)). lia.
    + pose proof Hf as Hf'. apply firings_spec in Hf' as (a & adp & Ha & Hs & Hfe & Hin & Hok).
      exists f.(f_at). split; [|lia]. rewrite Hfe. cbn.
      destruct (evaluate_cases e agg tk freq) as [[_ Hs']|(a' & Ha' & _ & _ & _ & ms & He & _)].
      { unfold firings_of in Hf. rewrite Hs' in Hf. destruct (decide_action e freq); set_solver. }
      assert (a' = a) as -> by congruence. rewrite He. rewrite Hs in Hj.
      destruct (join_ledger tk a (join_order tk (eligible e tk a))
        {| js_engine := e; js_metrics := ms; js_fired := 0; js_errors := [] |} a (f_name f))
        as [Hyes _]; [by apply fan_out_nodup|]. by apply (Hyes adp).
  - intros a n u Hu. destruct (Hled a n) as [Heq|(adp & t1 & Hin & Heq)].
    + rewrite Heq in Hu. specialize (Hle _ _ _ Hu). lia.
    + specialize (Hjoin _ _ _ Hin). rewrite Heq in Hu. simplify_eq. lia.
  - apply StronglySorted_app. split_and!; [eauto|done|]. by apply firings_spaced.
Qed.

End Runs.

Lemma new_cooldown_nonneg {T : F64Text} {Adp} env (g i : Adp) ol : 0 <= (new env g i ol).(cooldown).
Proof.
  unfold new. cbn [cooldown]. apply Z.mul_nonneg_nonneg; [|by vm_compute].
  destruct (env "DISPATCH_COOLDOWN_SECS") as [s|]; cbn; [|lia].
  destruct (parse_unsigned 64 s) eqn:H; cbn; [|lia].
  apply parse_unsigned_bounds in H. lia.
Qed.

Section Claims.
Context {C : Chrono} {D : RustDecimal} {T : F64Text} {Adp : Type}.

(** C20: in every run of an engine built from the environment, whatever the
    frequencies, the aggregator's contents, the results of the adapters and the
    order in which the concurrent tasks finish, two successful dispatches of the
    same action to the same adapter are separated by the cooldown: the later one was
    not even started before the earlier one's record plus the cooldown. *)
Theorem cooldown_spacing env (g i : Adp) ol t0 e log t :
  steps engine_step (new env g i ol, [], t0) (e, log, t) ->
  StronglySorted (spaced (new env g i ol).(cooldown)) log.
Proof.
  intros Hs. pose proof (new_cooldown_nonneg env g i ol) as Hc.
  assert (ledger_inv (new env g i ol).(cooldown) (e, log, t)) as (_ & _ & _ & _ & ?); [|done].
  eapply steps_invariant; [|  |exact Hs].
  - intros a b Ha Hab. by eapply ledger_inv_step.
  - split_and!; [done| | | |constructor].
    + change (active_adapters (new env g i ol)) with (select_adapters env (new env g i ol).(adapters)).
      apply select_from_cases.
    + set_solver.
    + done.
Qed.

(** A command is sent only for a real excursion (never for a NaN
    frequency), in the direction of the excursion, to a registered target outside
    its cooldown, and only if the completed windows carry positive generation. *)
Theorem dispatch_has_cause (e : @DispatchEngine Adp) agg tk f n adp :
  (n, adp) ∈ (evaluate_and_dispatch e agg tk f).(r_spawned) ->
  exists a bins total,
    match a with
    | FLEX_UP => F64.ltb f e.(freq_low_hz) = true
    | FLEX_DOWN => F64.ltb e.(freq_high_hz) f = true
    end /\
    F64.is_nan f = false /\
    n ∈ e.(active_adapters) /\ e.(adapters) !! n = Some adp /\
    cooldown_allows (last_dispatch_of e a n) (tk.(check_at) n) e.(cooldown) = true /\
    peek_completed_bins_at agg tk.(tick_now) 0 = Ok bins /\
    dec_sum (energy_generated <$> bins) dec_zero = Some total /\ dec_ltb dec_zero total = true.
Proof.
  intros Hin. destruct (evaluate_cases e agg tk f) as [[_ Hs]|(a & Ha & _ & Hcap & Hs & _)];
    rewrite Hs in Hin; [set_solver|].
  apply eligible_spec in Hin as (Hact & Hreg & Hall).
  unfold has_dispatch_capacity in Hcap.
  destruct (peek_completed_bins_at agg (tick_now tk) 0) as [bins| |] eqn:Hp; [|done..].
  cbn [obind] in Hcap. destruct (dec_sum _ _) as [total|] eqn:Ht; [|done].
  cbn [obind unwrap] in Hcap. injection Hcap as Hcap.
  exists a, bins, total. unfold decide_action in Ha.
  destruct (F64.ltb f (freq_low_hz e)) eqn:Hlo; [|destruct (F64.ltb (freq_high_hz e) f) eqn:Hhi; [|done]];
    injection Ha as <-; split_and!; try done; destruct f; try done.
  by destruct (freq_high_hz e).
Qed.

(** With zero grace the wall clock never completes the window of a meter that has
    reported since start-up: only a later reading of the same meter does. *)
Lemma capacity_ignores_clock (agg : Aggregator) now now' :
  (forall b, b ∈ bin_values agg -> is_Some (agg.(progress) !! b.(meter_id))) ->
  has_dispatch_capacity agg now = has_dispatch_capacity agg now'.
Proof.
  intros Hp. unfold has_dispatch_capacity, peek_completed_bins_at.
  enough (filter_completed agg now 0 (bin_values agg) = filter_completed agg now' 0 (bin_values agg))
    as -> by done.
  induction (bin_values agg) as [|b bs IH]; [done|]. cbn [filter_completed].
  rewrite IH by set_solver. unfold bin_completed.
  destruct (Hp b) as [p ->]; [set_solver|done].
Qed.
End Claims.

(** For every controller and every state of the network, one
    dispatch over gRPC returns within three calls: it makes [n] failed calls, [n]
    at most two, and then a call whose answer is the result; that last call is a
    transport error only if it is the third.  The trailing [Ok(())] of the loop is
    never reached. *)
Theorem grpc_retry_terminates {W} `{World W} `{DispatchController W} (fuel : nat) action kw (w : W) :
  (3 <= fuel)%nat ->
  let request := flex_command action kw w in
  exists n wn, (n <= 2)%nat /\ transport_failures n request w = Some wn /\
    (is_transport_error request wn = true -> n = 2%nat) /\
    grpc_execute_dispatch fuel action kw w = Some (final_call request wn).
Proof.
  intros Hf. cbv zeta. unfold grpc_execute_dispatch.
  destruct (retry_loop_step fuel 3 (flex_command action kw w) w) as (n & wn & Hn & Ht & Hl & Hr);
    [lia|done|].
  exists n, wn. split_and!; [|done|done|done]. change (Z.to_nat 3) with 3%nat in Hn. lia.
Qed.

(** ** Concrete runs *)

Module DispatchRun.
#[local] Existing Instances chrono_ref decimal_ref.

Definition no_float_text : F64Text := {| f64_show _ := EmptyString; f64_parse _ := None |}.
#[local] Existing Instance no_float_text.

(** Two targets: the gRPC controller is down, the simulated one answers. *)
Definition env (v : string) : option string :=
  if String.eqb v "DISPATCH_ADAPTERS" then Some "grpc, nope,, ieee,grpc"
  else if String.eqb v "DISPATCH_COOLDOWN_SECS" then Some "10" else None.

Definition engine : @DispatchEngine bool := new env false true (Ok None).

Definition reading (gen t : Z) : reading_args := {|
  ra_meter_id := 7%N; ra_user_id := 8%N; ra_meter_serial := "m-7";
  ra_generated := gen; ra_consumed := 0; ra_timestamp := t * NS_PER_SEC;
  ra_tariff_period := None; ra_demand_kw := None; ra_zone_code := None |}.

Definition agg : Aggregator :=
  (handle_reading (handle_reading Aggregator.new (60 * NS_PER_SEC) (reading 10 60)).1
     (2000 * NS_PER_SEC) (reading 0 2000)).1.

(** Cooldowns are read at [t] seconds and all joins happen one second later. *)
Definition tick_at (t : Z) : @tick bool := {|
  check_at _ := t * NS_PER_SEC;
  tick_now := 2000 * NS_PER_SEC;
  exec adp _ _ := if adp : bool then Ok () else Err "down";
  join_order el := (fun x => (x, (t + 1) * NS_PER_SEC)) <$> rev el;
  join_error := "cancelled" |}.

Lemma tick_at_ok t0 t el : t0 <= t * NS_PER_SEC ->
  tick_ok t0 (tick_at t) el ((t + 1) * NS_PER_SEC).
Proof.
  intros H. unfold tick_ok, join_ok, tick_at. cbn [join_order check_at].
  assert (t * NS_PER_SEC <= (t + 1) * NS_PER_SEC) by (unfold NS_PER_SEC; lia).
  split_and!; [|lia|by auto|].
  - rewrite <- list_fmap_compose. unfold compose. cbn. rewrite list_fmap_id.
    symmetry. apply Permutation_rev.
  - intros n adp at_ (x & [= _ ->] & _)%list_elem_of_fmap. lia.
Qed.

Definition low : f64 := F64.of_Z 49.

Example targets : engine.(active_adapters) = ["grpc"; "ieee"].
Proof. vm_compute. reflexivity. Qed.

Definition after (e : DispatchEngine) (t : Z) := (evaluate_and_dispatch e agg (tick_at t) low).(r_engine).

(** Fires at 100 s, is held back at 105 s and fires again at 120 s. *)
Definition e1 := after engine 100.
Definition e2 := after e1 105.
Definition log3 : list firing :=
  (([] ++ firings_of engine agg (tick_at 100) low)
   ++ firings_of e1 agg (tick_at 105) low) ++ firings_of e2 agg (tick_at 120) low.

Lemma run3 : steps engine_step (engine, [], 0)
  (after e2 120, log3, 121 * NS_PER_SEC).
Proof.
  assert (H1 : engine_step (engine, [], 0) (e1, [] ++ firings_of engine agg (tick_at 100) low, 101 * NS_PER_SEC))
    by (apply evaluation, tick_at_ok; by vm_compute).
  pose proof (steps_next _ _ _ _ (steps_refl _ _) H1) as Hs.
  refine (steps_next _ _ _ _ (steps_next _ _ _ _ Hs _) _).
  - exact (evaluation e1 _ _ agg (tick_at 105) low (106 * NS_PER_SEC) (tick_at_ok (101 * NS_PER_SEC) 105 _ ltac:(by vm_compute))).
  - exact (evaluation e2 _ _ agg (tick_at 120) low (121 * NS_PER_SEC) (tick_at_ok (106 * NS_PER_SEC) 120 _ ltac:(by vm_compute))).
Qed.

Lemma cooldown_spacing_witness :
  (f_at <$> log3) = [101 * NS_PER_SEC; 121 * NS_PER_SEC] /\ StronglySorted (spaced engine.(cooldown)) log3.
Proof.
  split; [vm_compute; reflexivity|].
  exact (cooldown_spacing env false true (Ok None) 0 (after e2 120) log3 (121 * NS_PER_SEC) run3).
Defined.


Lemma dispatch_has_cause_witness : F64.is_nan low = false /\ "ieee" ∈ engine.(active_adapters).
Proof.
  destruct (dispatch_has_cause engine agg (tick_at 100) low "ieee" true)
    as (a & bins & total & _ & Hn & Ha & _); [|by split].
  apply list_elem_of_In. vm_compute. tauto.
Defined.

(** A network that drops the first two calls. *)
#[local] Instance net_world : World (Z * Z) := {| wall_clock w := w.1; sleep_ms ms w := (w.1 + ms * 1000000, w.2) |}.
#[local] Instance net_controller : DispatchController (Z * Z) := {|
  execute_flex_dispatch _ w :=
    ((w.1, w.2 + 1), if w.2 <? 2 then Err "unavailable" else Ok (true, EmptyString)) |}.

Lemma grpc_retry_terminates_witness :
  exists w', grpc_execute_dispatch 3 FLEX_UP (F64.of_Z 100) (0, 0) = Some (w', Ok ()) /\ w'.2 = 3.
Proof.
  destruct (grpc_retry_terminates 3 FLEX_UP (F64.of_Z 100) (0, 0)) as (n & wn & Hn & Ht & Hl & Hr); [lia|].
  destruct n as [|[|[|n]]]; [| | |lia].
  - vm_compute in Ht. injection Ht as <-. by specialize (Hl eq_refl).
  - vm_compute in Ht. injection Ht as <-. by specialize (Hl eq_refl).
  - vm_compute in Ht. injection Ht as <-. rewrite Hr. eexists. split; [vm_compute; reflexivity|done].
Defined.
End DispatchRun.
