(* ===== verification/OpenLeadr.v ===== *)
(** * Dispatch adapters of aggregator-logic/src/standards

    [ieee2030_5.rs]: the simulated IEEE 2030.5 adapter.  [openleadr.rs]: the OpenADR
    business-logic adapter, with its cached program handle.  The OpenADR client and
    its wire types are outside the repository: the requests the adapter makes are
    the operations of [VtnClient]. *)

From Stdlib Require Import ZArith Lia Ascii String SpecFloat.
From stdpp Require Import base gmap strings list numbers.
From S2P Require Import Prelude RustStd External Dispatch.

Open Scope Z_scope.
Open Scope bridge_scope.

(** ** ieee2030_5.rs *)

Record DerControlPayload : Type := {
  control_type : string;
  der_capacity_kw : f64;
  der_timestamp : Z
}.

Definition der_control_type (action : DispatchType) : string :=
  match action with
  | FLEX_UP => "DERControl_ReducePower"
  | FLEX_DOWN => "DERControl_IncreasePower"
  end.

Inductive Ieee2030_5Adapter : Type := Ieee.

(** The payload that is logged; nothing is transmitted. *)
Definition ieee_payload (action : DispatchType) (capacity_kw : f64) (now : Z) : DerControlPayload := {|
  control_type := der_control_type action;
  der_capacity_kw := capacity_kw;
  der_timestamp := now / NS_PER_SEC
|}.

#[export] Instance ieee_adapter {W : Type} : DispatchAdapter W Ieee2030_5Adapter := {|
  execute_dispatch a _ _ w := (a, w, Ok ());
  is_simulation _ := true
|}.

(** ** openleadr.rs *)

Definition dispatch_name (action : DispatchType) : string :=
  match action with FLEX_UP => "flex-up" | FLEX_DOWN => "flex-down" end.

(** The fields the adapter sets on the event it creates. *)
Record new_event : Type := {
  ev_name : string;
  ev_start : Z;
  ev_duration_hours : spec_float;
  ev_priority : Z;
  ev_setpoint : f64;
  ev_targets : list string
}.

(** The VTN client in the business-logic role. *)
Class VtnClient (W Program : Type) := {
  program_name_of : Program -> string;
  get_program_by_id : string -> W -> W * outcome string Program;
  get_program_list : W -> W * outcome string (list Program);
  create_program : string -> W -> W * outcome string Program;
  create_event : Program -> new_event -> W -> W * outcome string unit
}.

(** Validation of configuration values and the text of a float with three
    decimals. *)
Class VtnConfig := {
  url_parses : string -> bool;
  program_id_parses : string -> bool;
  target_parses : string -> bool;
  f32_parse : string -> option spec_float;
  fmt_3 : f64 -> string
}.

Section OpenLeadr.
Context {W Program : Type} `{World W} `{VtnClient W Program} {K : VtnConfig}.

Record OpenLeadrAdapter : Type := {
  configured_program_id : option string;
  program : option Program;
  program_name : string;
  target : option string;
  event_duration_hours : spec_float
}.

Definition set_program (a : OpenLeadrAdapter) (p : option Program) : OpenLeadrAdapter := {|
  configured_program_id := a.(configured_program_id);
  program := p;
  program_name := a.(program_name);
  target := a.(target);
  event_duration_hours := a.(event_duration_hours)
|}.

(** [OpenLeadrAdapter::new]; the credentials only reach the client. *)
Definition openleadr_new (vtn_url : string) (program_id : option string) (program_name : string)
    (target : option string) (event_duration_hours : spec_float)
    : outcome string OpenLeadrAdapter :=
  let? _ := ensure (url_parses vtn_url) ("invalid OPENLEADR_VTN_URL: " +:+ vtn_url) in
  let? _ := match program_id with
            | Some id => ensure (program_id_parses id) ("invalid OPENLEADR_PROGRAM_ID: " +:+ id)
            | None => Ok ()
            end in
  let? _ := match target with
            | Some t => ensure (target_parses t) ("invalid OPENLEADR_TARGET: " +:+ t)
            | None => Ok ()
            end in
  Ok {| configured_program_id := program_id; program := None; program_name := program_name;
        target := target; event_duration_hours := event_duration_hours |}.

Definition openleadr_from_env (env : Env) : outcome string (option OpenLeadrAdapter) :=
  match env "OPENLEADR_VTN_URL" with
  | None => Ok None
  | Some vtn_url =>
      let? a := openleadr_new vtn_url (env "OPENLEADR_PROGRAM_ID")
                  (default "gridtokenx-flex-dispatch" (env "OPENLEADR_PROGRAM_NAME"))
                  (env "OPENLEADR_TARGET")
                  (default (F64.of_Z 1) (env "OPENLEADR_EVENT_DURATION_HOURS" ≫= f32_parse)) in
      Ok (Some a)
  end.

Definition resolve_program (a : OpenLeadrAdapter) (w : W) : W * outcome string Program :=
  match a.(configured_program_id) with
  | Some id =>
      match get_program_by_id id w with
      | (w, Err e) => (w, Err ("OpenADR program lookup failed: " +:+ e))
      | r => r
      end
  | None =>
      match get_program_list w with
      | (w, Err e) => (w, Err ("OpenADR program list failed: " +:+ e))
      | (w, Panic) => (w, Panic)
      | (w, Ok ps) =>
          match List.find (fun p => String.eqb (program_name_of p) a.(program_name)) ps with
          | Some p => (w, Ok p)
          | None =>
              match create_program a.(program_name) w with
              | (w, Err e) => (w, Err ("OpenADR program creation failed: " +:+ e))
              | r => r
              end
          end
      end
  end.

Definition setpoint_of (action : DispatchType) (capacity_kw : f64) : f64 :=
  match action with FLEX_UP => capacity_kw | FLEX_DOWN => F64.opp capacity_kw end.

Definition event_of (a : OpenLeadrAdapter) (action : DispatchType) (capacity_kw : f64) (now : Z)
    : new_event := {|
  ev_name := "gridtokenx-" +:+ dispatch_name action +:+ "-" +:+ fmt_3 capacity_kw +:+ "kw";
  ev_start := now;
  ev_duration_hours := a.(event_duration_hours);
  ev_priority := 10;
  ev_setpoint := setpoint_of action capacity_kw;
  ev_targets := match a.(target) with Some t => [t] | None => [] end
|}.

Definition dispatch_event (a : OpenLeadrAdapter) (action : DispatchType) (capacity_kw : f64) (w : W)
    : OpenLeadrAdapter * W * outcome string unit :=
  let '(w, res) := match a.(program) with
                   | Some p => (w, Ok p)
                   | None => resolve_program a w
                   end in
  match res with
  | Err e => (a, w, Err e)
  | Panic => (a, w, Panic)
  | Ok p =>
      match create_event p (event_of a action capacity_kw (wall_clock w)) w with
      | (w, Ok _) => (set_program a (Some p), w, Ok ())
      | (w, Err e) => (set_program a None, w, Err ("OpenADR event creation failed: " +:+ e))
      | (w, Panic) => (set_program a (Some p), w, Panic)
      end
  end.

#[export] Instance openleadr_adapter : DispatchAdapter W OpenLeadrAdapter := {|
  execute_dispatch := dispatch_event;
  is_simulation _ := false
|}.

(** ** The cached handle *)

Lemma dispatch_cached a p action kw w :
  a.(program) = Some p ->
  dispatch_event a action kw w =
  match create_event p (event_of a action kw (wall_clock w)) w with
  | (w', Ok _) => (set_program a (Some p), w', Ok ())
  | (w', Err e) => (set_program a None, w', Err ("OpenADR event creation failed: " +:+ e))
  | (w', Panic) => (set_program a (Some p), w', Panic)
  end.
Proof. unfold dispatch_event. by intros ->. Qed.

(** A dispatch against a program the VTN has dropped
    fails once: the failed event creation clears the cached handle, so the next
    dispatch asks the VTN again and succeeds as soon as the resolution and the event
    creation do; and when the VTN lists a program under the configured name, that
    one is used and none is created. *)
Theorem stale_program_recovers a p action kw w w1 e w2 ps q w3 :
  a.(program) = Some p -> a.(configured_program_id) = None ->
  create_event p (event_of a action kw (wall_clock w)) w = (w1, Err e) ->
  get_program_list w1 = (w2, Ok ps) ->
  List.find (fun r => String.eqb (program_name_of r) a.(program_name)) ps = Some q ->
  create_event q (event_of a action kw (wall_clock w2)) w2 = (w3, Ok ()) ->
  exists a', dispatch_event a action kw w = (a', w1, Err ("OpenADR event creation failed: " +:+ e)) /\
    a'.(program) = None /\
    dispatch_event a' action kw w1 = (set_program a (Some q), w3, Ok ()).
Proof.
  intros Hp Hc He Hl Hf Hq. exists (set_program a None).
  rewrite (dispatch_cached a p) by done. rewrite He. split; [done|]. split; [done|].
  unfold dispatch_event, resolve_program. cbn [program set_program configured_program_id program_name].
  rewrite Hc, Hl, Hf.
  change (event_of (set_program a None)) with (event_of a). by rewrite Hq.
Qed.
End OpenLeadr.

Arguments OpenLeadrAdapter : clear implicits.
