(* ===== verification/Ven.v ===== *)
(** * The OpenADR VEN listener (aggregator-logic/src/standards/openleadr_ven.rs)

    Polls a VTN, decides per event which setpoint interval is due, executes it
    through a dispatch adapter, and remembers executed event versions in memory and
    in a Redis hash.  The wire types of openleadr are outside the repository: the
    fields the listener reads are the accessors of [OpenAdr]. *)

From Stdlib Require Import ZArith Lia Ascii String SpecFloat.
From stdpp Require Import base gmap strings list numbers.
From S2P Require Import Prelude RustStd External Stores Dispatch OpenLeadr.

Open Scope Z_scope.
Open Scope bridge_scope.

(** ** Text of an [i32] *)

Definition in_i32 (z : Z) : bool := (- 2 ^ 31 <=? z) && (z <? 2 ^ 31).

Definition parse_i32 (s : string) : option Z :=
  z ← parse_i64 s; if in_i32 z then Some z else None.

(** ** openleadr_wire *)

Class OpenAdr := {
  EventRequest : Type;
  EventInterval : Type;
  IntervalPeriod : Type;
  WireDuration : Type;
  EventType : Type;
  EventValuesMap : Type;
  WireValue : Type;
  event_intervals : EventRequest -> option (list EventInterval);
  event_period : EventRequest -> option IntervalPeriod;
  event_duration : EventRequest -> option WireDuration;
  interval_id : EventInterval -> Z;
  interval_period : EventInterval -> option IntervalPeriod;
  interval_payloads : EventInterval -> list EventValuesMap;
  payload_type : EventValuesMap -> EventType;
  payload_values : EventValuesMap -> list WireValue;
  period_start : IntervalPeriod -> Z;
  period_duration : IntervalPeriod -> option WireDuration;
  (** [Duration::to_chrono_at_datetime] *)
  to_chrono_at : WireDuration -> Z -> Z;
  (** the payload of [Value::Number] *)
  value_number : WireValue -> option f64;
  (** which of the two setpoint types, if any *)
  is_dispatch_setpoint : EventType -> bool;
  is_dispatch_setpoint_relative : EventType -> bool
}.

Section Ven.
Context {O : OpenAdr} {C : Chrono} {K : VtnConfig}.
(** [DateTime::to_rfc3339]. *)
Context (to_rfc3339 : Z -> string).

(** ** Setpoints and decisions *)

Record Setpoint : Type := {
  sp_interval_id : Z;
  sp_value_kw : f64;
  sp_relative : bool;
  sp_period : option IntervalPeriod
}.

Definition setpoint_kind (t : EventType) : option bool :=
  if is_dispatch_setpoint t then Some false
  else if is_dispatch_setpoint_relative t then Some true
  else None.

Fixpoint find_map {A B : Type} (f : A -> option B) (l : list A) : option B :=
  match l with
  | [] => None
  | x :: l => match f x with Some y => Some y | None => find_map f l end
  end.

Definition interval_setpoint (interval : EventInterval) : option Setpoint :=
  find_map (fun payload =>
    relative ← setpoint_kind (payload_type payload);
    find_map (fun v =>
      n ← value_number v;
      Some {| sp_interval_id := interval_id interval;
              sp_value_kw := n;
              sp_relative := relative;
              sp_period := interval_period interval |}) (payload_values payload))
    (interval_payloads interval).

Definition find_setpoints (event : EventRequest) : list Setpoint :=
  omap interval_setpoint (default [] (event_intervals event)).

Inductive EventDecision : Type :=
| Execute (setpoint_kw : f64) (iv : Z) (more_pending relative : bool)
| NotYetActive
| Expired
| NotDispatch.

(** The window of a setpoint: the interval's period wins over the event's. *)
Definition setpoint_period (event : EventRequest) (sp : Setpoint) : option IntervalPeriod :=
  match sp.(sp_period) with Some p => Some p | None => event_period event end.

(** The end of a started period; [None] is open-ended, a date out of range
    panics. *)
Definition period_end (event : EventRequest) (p : IntervalPeriod) : outcome Empty_set (option Z) :=
  match match period_duration p with Some d => Some d | None => event_duration event end with
  | Some d =>
      let? e := unwrap (dt_checked_add (period_start p) (to_chrono_at d (period_start p))) in
      Ok (Some e)
  | None => Ok None
  end.

Inductive window_state : Type := WFuture | WActive | WPast.

Definition setpoint_window (event : EventRequest) (now : Z) (sp : Setpoint)
    : outcome Empty_set window_state :=
  match setpoint_period event sp with
  | None => Ok WActive
  | Some p =>
      if now <? period_start p then Ok WFuture
      else let? e := period_end event p in
           Ok (match e with
               | Some e => if now <? e then WActive else WPast
               | None => WActive
               end)
  end.

(** The loop of [decide]: whether some interval is in the future, and the active
    setpoints that were not executed. *)
Fixpoint decide_loop (event : EventRequest) (now : Z) (executed : list Z) (sps : list Setpoint)
    : outcome Empty_set (bool * list Setpoint) :=
  match sps with
  | [] => Ok (false, [])
  | sp :: sps =>
      let? ws := setpoint_window event now sp in
      let? (fut, act) := decide_loop event now executed sps in
      Ok (match ws with
          | WFuture => (true, act)
          | WActive => if bool_decide (sp.(sp_interval_id) ∈ executed) then (fut, act)
                       else (fut, sp :: act)
          | WPast => (fut, act)
          end)
  end.

Definition decide_event (event : EventRequest) (now : Z) (executed : list Z)
    : outcome Empty_set EventDecision :=
  match find_setpoints event with
  | [] => Ok NotDispatch
  | sps =>
      let? (any_future, active_unexecuted) := decide_loop event now executed sps in
      Ok (match active_unexecuted with
          | sp :: rest =>
              Execute sp.(sp_value_kw) sp.(sp_interval_id)
                (any_future || (1 <? Z.of_nat (length active_unexecuted))) sp.(sp_relative)
          | [] => if any_future then NotYetActive else Expired
          end)
  end.

Definition max_list (l : list Z) : option Z :=
  match l with
  | [] => None
  | x :: l => Some (fold_left Z.max l x)
  end.

Fixpoint window_ends (event : EventRequest) (fallback : Z) (sps : list Setpoint)
    : outcome Empty_set (list Z) :=
  match sps with
  | [] => Ok []
  | sp :: sps =>
      let? e := match setpoint_period event sp with
                | Some p => period_end event p
                | None => Ok None
                end in
      let? es := window_ends event fallback sps in
      Ok (default fallback e :: es)
  end.

Definition active_window_end (event : EventRequest) (now : Z) : outcome Empty_set Z :=
  let? fallback := unwrap (dt_checked_add now (dur_hours 24)) in
  let? es := window_ends event fallback (find_setpoints event) in
  Ok (default fallback (max_list es)).

Definition setpoint_to_dispatch (setpoint_kw : f64) : DispatchType * f64 :=
  if F64.leb F64.zero setpoint_kw then (FLEX_UP, setpoint_kw) else (FLEX_DOWN, F64.opp setpoint_kw).

Definition resolve_reports_enabled (reports_override : option bool) (simulated : bool) : bool :=
  match reports_override with Some explicit => explicit | None => negb simulated end.

(** ** RedisSeenStore *)

(** One command with its single rebuild-and-retry: two connection attempts and the
    fates of the two commands. *)
Record store_call : Type := {
  sc_connect1 : bool; sc_io1 : io;
  sc_connect2 : bool; sc_io2 : io
}.

(** [conn]: whether a connection is cached. *)
Definition store_conn (conn connects : bool) : bool := conn || connects.

Definition store_retry (cmd : rhash -> io -> rhash * outcome redis_error unit)
    (conn : bool) (h : rhash) (sc : store_call) : bool * rhash * outcome redis_error unit :=
  if store_conn conn sc.(sc_connect1) then
    let '(h1, r1) := cmd h sc.(sc_io1) in
    if is_ok r1 then (true, h1, Ok ())
    else if store_conn false sc.(sc_connect2) then
      let '(h2, r2) := cmd h1 sc.(sc_io2) in (true, h2, r2)
    else (false, h1, Err RedisError)
  else (false, h, Err RedisError).

Definition persist (conn : bool) (h : rhash) (id : string) (modified : Z) (sc : store_call) :=
  store_retry (fun h o => hset h id (to_rfc3339 modified) o) conn h sc.

Definition remove (conn : bool) (h : rhash) (id : string) (sc : store_call) :=
  store_retry (fun h o => hdel h [id] o) conn h sc.

(** Unparseable values are dropped. *)
Definition load (conn : bool) (h : rhash) (connects reads : bool)
    : bool * outcome redis_error (gmap string Z) :=
  if store_conn conn connects then
    (true, if reads then Ok (omap dt_parse_rfc3339 h) else Err RedisError)
  else (false, Err RedisError).

(** ** The listener *)

Record OpenLeadrVenListener : Type := {
  ven_program_id : option string;
  ven_target : option string;
  poll_interval_secs : Z;
  seen : gmap string Z;
  executed_active : gmap string Z;
  redis : option bool;
  seen_loaded : bool;
  reports_enabled : bool;
  client_name : string;
  register : bool
}.

Definition upd (l : OpenLeadrVenListener) (s ex : gmap string Z) (r : option bool) (ld : bool)
    : OpenLeadrVenListener := {|
  ven_program_id := l.(ven_program_id); ven_target := l.(ven_target);
  poll_interval_secs := l.(poll_interval_secs);
  seen := s; executed_active := ex; redis := r; seen_loaded := ld;
  reports_enabled := l.(reports_enabled); client_name := l.(client_name); register := l.(register)
|}.

Definition ven_new (vtn_url : string) (program_id target : option string) (poll_secs : Z)
    (redis_url : option string) : outcome string OpenLeadrVenListener :=
  let? _ := ensure (url_parses vtn_url) ("invalid OPENLEADR_VEN_VTN_URL: " +:+ vtn_url) in
  let? _ := match program_id with
            | Some id => ensure (program_id_parses id) ("invalid OPENLEADR_VEN_PROGRAM_ID: " +:+ id)
            | None => Ok ()
            end in
  let? _ := match target with
            | Some t => ensure (target_parses t) ("invalid OPENLEADR_VEN_TARGET: " +:+ t)
            | None => Ok ()
            end in
  Ok {| ven_program_id := program_id; ven_target := target;
        poll_interval_secs := Z.max poll_secs 1;
        seen := ∅; executed_active := ∅;
        redis := match redis_url with Some _ => Some false | None => None end;
        seen_loaded := false; reports_enabled := true;
        client_name := "gridtokenx-aggregator-bridge"; register := true |}.

Definition ven_from_env (env : Env) (simulated : bool)
    : outcome string (option OpenLeadrVenListener) :=
  match env "OPENLEADR_VEN_VTN_URL" with
  | None => Ok None
  | Some vtn_url =>
      let poll_secs := default 30 (env "OPENLEADR_VEN_POLL_SECS" ≫= parse_unsigned 64) in
      let reports_override :=
        (fun v => negb (String.eqb (to_lowercase v) "false")) <$> env "OPENLEADR_VEN_REPORTS" in
      let? l := ven_new vtn_url (env "OPENLEADR_VEN_PROGRAM_ID") (env "OPENLEADR_VEN_TARGET")
                  poll_secs (env "REDIS_URL") in
      Ok (Some {| ven_program_id := l.(ven_program_id); ven_target := l.(ven_target);
                  poll_interval_secs := l.(poll_interval_secs);
                  seen := l.(seen); executed_active := l.(executed_active); redis := l.(redis);
                  seen_loaded := l.(seen_loaded);
                  reports_enabled := resolve_reports_enabled reports_override simulated;
                  client_name := default l.(client_name) (env "OPENLEADR_VEN_CLIENT_NAME");
                  register := match env "OPENLEADR_VEN_REGISTER" with
                              | Some v => negb (String.eqb (to_lowercase v) "false")
                              | None => true
                              end |})
  end.

(** ** poll_once *)

(** The parts of an [EventClient] the listener reads. *)
Record VtnEvent : Type := {
  event_id : string;
  modification_date_time : Z;
  content : EventRequest
}.

(** What happens around one listed event: the adapter's answer, the fate of the
    dedup write and whether the report is accepted. *)
Record event_io : Type := {
  ei_exec : DispatchType -> f64 -> outcome string unit;
  ei_store : store_call;
  ei_report : bool
}.

(** Around one poll: the load of the persisted marks, the answer of the VTN to the
    query for [ven_program_id] and [ven_target], the clock, and the fate of each
    removal. *)
Record poll_io : Type := {
  pi_connects : bool;
  pi_reads : bool;
  pi_listing : outcome string (list (VtnEvent * event_io));
  pi_now : Z;
  pi_prune : string -> store_call
}.

(** An executed setpoint interval of an event version. *)
Record execution : Type := {
  x_event : string;
  x_version : Z;
  x_interval : Z;
  x_action : DispatchType;
  x_kw : f64
}.

Record report : Type := {
  rp_client : string;
  rp_name : string;
  rp_setpoint : f64;
  rp_executed_at : Z
}.

Definition execution_report (client_name id : string) (setpoint_kw : f64) (executed_at : Z) : report := {|
  rp_client := client_name;
  rp_name := "gridtokenx-execution-" +:+ id;
  rp_setpoint := setpoint_kw;
  rp_executed_at := executed_at
|}.

Definition interval_key (id : string) (iv : Z) : string := id +:+ "#" +:+ show_Z iv.

Definition executed_ids (seen : gmap string Z) (id : string) (modified : Z) : list Z :=
  omap (fun kv =>
    suffix ← strip_prefix (id +:+ "#") kv.1;
    if modified <=? kv.2 then parse_i32 suffix else None) (map_to_list seen).

Definition mark_seen (l : OpenLeadrVenListener) (h : rhash) (id : string) (modified : Z)
    (sc : store_call) : OpenLeadrVenListener * rhash :=
  let '(r, h) :=
    match l.(redis) with
    | Some conn => let '(conn, h, _) := persist conn h id modified sc in (Some conn, h)
    | None => (None, h)
    end in
  (upd l (<[id := modified]> l.(seen)) l.(executed_active) r l.(seen_loaded), h).

Record poll_state : Type := {
  ps_l : OpenLeadrVenListener;
  ps_h : rhash;
  ps_dispatched : nat;
  ps_execs : list execution;
  ps_reports : list report
}.

Definition ps_mark (s : poll_state) (id : string) (modified : Z) (sc : store_call) : poll_state :=
  let '(l, h) := mark_seen s.(ps_l) s.(ps_h) id modified sc in
  {| ps_l := l; ps_h := h; ps_dispatched := s.(ps_dispatched);
     ps_execs := s.(ps_execs); ps_reports := s.(ps_reports) |}.

(** The success branch of an execution. *)
Definition executed (now : Z) (s : poll_state) (ev : VtnEvent) (eio : event_io)
    (setpoint_kw : f64) (iv : Z) (more_pending : bool) : poll_state * outcome Empty_set unit :=
  let id := ev.(event_id) in
  let '(action, kw) := setpoint_to_dispatch setpoint_kw in
  let l := s.(ps_l) in
  let x := {| x_event := id; x_version := ev.(modification_date_time); x_interval := iv;
              x_action := action; x_kw := kw |} in
  let s := {| ps_l := l; ps_h := s.(ps_h); ps_dispatched := s.(ps_dispatched);
              ps_execs := s.(ps_execs) ++ [x]; ps_reports := s.(ps_reports) |} in
  match active_window_end ev.(content) now with
  | Ok e =>
      let s := {| ps_l := upd l l.(seen) (<[id := e]> l.(executed_active)) l.(redis) l.(seen_loaded);
                  ps_h := s.(ps_h); ps_dispatched := s.(ps_dispatched);
                  ps_execs := s.(ps_execs); ps_reports := s.(ps_reports) |} in
      let s := ps_mark s (if more_pending then interval_key id iv else id)
                 ev.(modification_date_time) eio.(ei_store) in
      ({| ps_l := s.(ps_l); ps_h := s.(ps_h); ps_dispatched := S s.(ps_dispatched);
          ps_execs := s.(ps_execs);
          ps_reports := if l.(reports_enabled) && eio.(ei_report)
                        then s.(ps_reports) ++ [execution_report l.(client_name) id setpoint_kw now]
                        else s.(ps_reports) |}, Ok ())
  | Err _ | Panic => (s, Panic)
  end.

(** The body of [for event in events]. *)
Definition poll_event (now : Z) (s : poll_state) (e : VtnEvent * event_io)
    : poll_state * outcome Empty_set unit :=
  let '(ev, eio) := e in
  let id := ev.(event_id) in
  let modified := ev.(modification_date_time) in
  let seen := s.(ps_l).(seen) in
  if match seen !! id with Some prev => modified <=? prev | None => false end then (s, Ok ())
  else
    match decide_event ev.(content) now (executed_ids seen id modified) with
    | Ok NotDispatch | Ok Expired => (ps_mark s id modified eio.(ei_store), Ok ())
    | Ok NotYetActive => (s, Ok ())
    | Ok (Execute setpoint_kw iv more_pending relative) =>
        let '(action, kw) := setpoint_to_dispatch setpoint_kw in
        match eio.(ei_exec) action kw with
        | Ok () => executed now s ev eio setpoint_kw iv more_pending
        | Err _ => (s, Ok ())
        | Panic => (s, Panic)
        end
    | Err _ | Panic => (s, Panic)
    end.

Fixpoint poll_events (now : Z) (s : poll_state) (es : list (VtnEvent * event_io))
    : poll_state * outcome Empty_set unit :=
  match es with
  | [] => (s, Ok ())
  | e :: es =>
      match poll_event now s e with
      | (s, Ok _) => poll_events now s es
      | r => r
      end
  end.

(** [executed_active.retain]. *)
Definition retain_active (present : list string) (now : Z) (m : gmap string Z) : gmap string Z :=
  filter (fun kv => kv.1 ∈ present /\ now < kv.2) m.

Definition base_of (key : string) : string := take_until (Ascii.eqb "#"%char) key.

Definition stale_keys (present : list string) (prune_cutoff : Z) (seen : gmap string Z) : list string :=
  (map_to_list (filter (fun kv => base_of kv.1 ∉ present /\ kv.2 < prune_cutoff) seen)).*1.

Fixpoint prune (l : OpenLeadrVenListener) (h : rhash) (sc : string -> store_call)
    (keys : list string) : OpenLeadrVenListener * rhash :=
  match keys with
  | [] => (l, h)
  | k :: keys =>
      let '(r, h) :=
        match l.(redis) with
        | Some conn => let '(conn, h, _) := remove conn h k (sc k) in (Some conn, h)
        | None => (None, h)
        end in
      prune (upd l (delete k l.(seen)) l.(executed_active) r l.(seen_loaded)) h sc keys
  end.

(** The first poll merges the persisted marks. *)
Definition load_seen (l : OpenLeadrVenListener) (h : rhash) (p : poll_io) : OpenLeadrVenListener :=
  if l.(seen_loaded) then l
  else
    let '(r, s) :=
      match l.(redis) with
      | Some conn =>
          let '(conn, res) := load conn h p.(pi_connects) p.(pi_reads) in
          (Some conn, match res with Ok persisted => persisted ∪ l.(seen) | _ => l.(seen) end)
      | None => (None, l.(seen))
      end in
    upd l s l.(executed_active) r true.

Definition poll_once (l : OpenLeadrVenListener) (h : rhash) (p : poll_io)
    : poll_state * outcome string nat :=
  let l := load_seen l h p in
  let s := {| ps_l := l; ps_h := h; ps_dispatched := 0; ps_execs := []; ps_reports := [] |} in
  match p.(pi_listing) with
  | Err e => (s, Err ("OpenADR VEN event poll failed: " +:+ e))
  | Panic => (s, Panic)
  | Ok events =>
      let now := p.(pi_now) in
      let present := (fun e => e.1.(event_id)) <$> events in
      match poll_events now s events with
      | (s, Ok _) =>
          let l := s.(ps_l) in
          let l := upd l l.(seen) (retain_active present now l.(executed_active))
                     l.(redis) l.(seen_loaded) in
          let with_l l h := {| ps_l := l; ps_h := h; ps_dispatched := s.(ps_dispatched);
                               ps_execs := s.(ps_execs); ps_reports := s.(ps_reports) |} in
          match dt_checked_add now (- dur_hours 168) with
          | Some cutoff =>
              let '(l, h) := prune l s.(ps_h) p.(pi_prune) (stale_keys present cutoff l.(seen)) in
              (with_l l h, Ok s.(ps_dispatched))
          | None => (with_l l s.(ps_h), Panic)
          end
      | (s, Err _) | (s, Panic) => (s, Panic)
      end
  end.
End Ven.
