(* ===== verification/VenProps.v ===== *)
(** * Properties of the VEN listener

    No interval of an event version is executed twice, across polls and restarts; a
    due interval is executed; a simulated adapter never attests an execution; the
    setpoint of the business-logic adapter reads back as the same action. *)

From Stdlib Require Import ZArith Lia Ascii String SpecFloat.
From stdpp Require Import base gmap strings list numbers sorting.
From S2P Require Import Prelude RustStd External Stores Dispatch OpenLeadr Ven.

Open Scope Z_scope.
Open Scope bridge_scope.

(** ** Keys *)

#[local] Arguments Ascii.eqb : simpl never.

Lemma app_cons c (a b : string) : String c a +:+ b = String c (a +:+ b).
Proof. done. Qed.

Lemma parse_show_i32 z : in_i32 z = true -> parse_i32 (show_Z z) = Some z.
Proof.
  intros H. unfold parse_i32. rewrite parse_show_i64; cbn; [by rewrite H|].
  unfold in_i32, in_i64, i64_min, i64_max in *. breflect.
  apply andb_true_iff; split; apply Z.leb_le; lia.
Qed.

Lemma base_of_app id s : contains_char "#"%char id = false -> base_of (id +:+ "#" +:+ s) = id.
Proof.
  unfold base_of. induction id as [|c id IH]; intros H; [done|].
  rewrite app_cons. cbn [take_until contains_char] in *.
  apply orb_false_iff in H as [-> H]. f_equal. by apply IH.
Qed.

Lemma base_of_id id : contains_char "#"%char id = false -> base_of id = id.
Proof.
  unfold base_of. induction id as [|c id IH]; intros H; [done|].
  cbn [take_until contains_char] in *.
  apply orb_false_iff in H as [-> H]. f_equal. by apply IH.
Qed.

Lemma app_assoc_str (a b c : string) : (a +:+ b) +:+ c = a +:+ b +:+ c.
Proof. induction a as [|x a IH]; [done|]. rewrite !app_cons. by f_equal. Qed.

Section Decide.
Context {O : OpenAdr} {C : Chrono}.

Lemma executed_ids_spec m id v iv :
  iv ∈ executed_ids m id v <->
  exists suffix ts, m !! (id +:+ "#" +:+ suffix) = Some ts /\ v <= ts /\ parse_i32 suffix = Some iv.
Proof.
  unfold executed_ids. rewrite list_elem_of_omap. split.
  - intros ([k ts] & Hin & H). apply elem_of_map_to_list in Hin. cbn in H.
    destruct (strip_prefix _ k) as [suffix|] eqn:Hs; [|done]. cbn in H.
    apply strip_prefix_Some in Hs as ->. rewrite app_assoc_str in Hin.
    destruct (v <=? ts) eqn:Hv; [|done]. breflect. eauto 6.
  - intros (suffix & ts & Hm & Hv & Hp). exists (id +:+ "#" +:+ suffix, ts).
    split; [by apply elem_of_map_to_list|]. cbn.
    rewrite <- app_assoc_str, strip_prefix_app. cbn.
    by rewrite (proj2 (Z.leb_le v ts)).
Qed.

Lemma executed_ids_mark m id v iv ts :
  in_i32 iv = true -> m !! interval_key id iv = Some ts -> v <= ts -> iv ∈ executed_ids m id v.
Proof. intros Hi Hm Hv. apply executed_ids_spec. exists (show_Z iv), ts. eauto using parse_show_i32. Qed.

Lemma decide_loop_spec ev now exd sps fut act sp :
  decide_loop ev now exd sps = Ok (fut, act) ->
  sp ∈ act <-> sp ∈ sps /\ sp.(sp_interval_id) ∉ exd /\ setpoint_window ev now sp = Ok WActive.
Proof.
  revert fut act. induction sps as [|x sps IH]; intros fut act H; cbn [decide_loop] in H.
  { injection H as <- <-. set_solver. }
  destruct (setpoint_window ev now x) as [ws| |] eqn:Hw; [|done..]. cbn [obind] in H.
  destruct (decide_loop ev now exd sps) as [[f a]| |] eqn:Hl; [|done..]. cbn [obind] in H.
  specialize (IH f a eq_refl). rewrite elem_of_cons.
  destruct ws; [|case_bool_decide as Hx|]; injection H as <- <-; rewrite ?elem_of_cons, IH;
    split; intros H; destruct_and?; destruct_or?; subst; try congruence; tauto.
Qed.

(** Only membership in the executed set matters. *)
Lemma decide_loop_ext ev now exd exd' sps :
  (forall iv, iv ∈ exd <-> iv ∈ exd') -> decide_loop ev now exd sps = decide_loop ev now exd' sps.
Proof.
  intros Hx. induction sps as [|sp sps IH]; [done|]. cbn [decide_loop].
  rewrite IH. by rewrite (bool_decide_ext _ _ (Hx (sp_interval_id sp))).
Qed.

Lemma decide_event_ext ev now exd exd' :
  (forall iv, iv ∈ exd <-> iv ∈ exd') -> decide_event ev now exd = decide_event ev now exd'.
Proof.
  intros Hx. unfold decide_event. destruct (find_setpoints ev) as [|sp sps]; [done|].
  by rewrite (decide_loop_ext ev now exd exd').
Qed.

Lemma decide_execute ev now exd kw iv more rel :
  decide_event ev now exd = Ok (Execute kw iv more rel) ->
  iv ∉ exd /\ exists sp, sp ∈ find_setpoints ev /\ sp.(sp_interval_id) = iv /\
    sp.(sp_value_kw) = kw /\ setpoint_window ev now sp = Ok WActive.
Proof.
  unfold decide_event. destruct (find_setpoints ev) as [|s sps]; [done|].
  destruct (decide_loop ev now exd (s :: sps)) as [[fut act]| |] eqn:Hl; [|done..]. cbn [obind].
  destruct act as [|sp act]; [by destruct fut|]. intros [= <- <- _ _].
  destruct (proj1 (decide_loop_spec _ _ _ _ _ _ sp Hl)) as (Hin & Hex & Hw); [left|]. eauto 8.
Qed.

Lemma find_setpoint_interval ev sp :
  sp ∈ find_setpoints ev ->
  exists i, i ∈ default [] (event_intervals ev) /\ interval_id i = sp.(sp_interval_id).
Proof.
  unfold find_setpoints. intros (i & Hi & Hs)%list_elem_of_omap. exists i. split; [done|].
  unfold interval_setpoint in Hs. induction (interval_payloads i) as [|p ps IH]; [done|]. cbn in Hs.
  destruct (setpoint_kind (payload_type p)) as [rel|]; cbn in Hs; [|by apply IH].
  destruct (find_map _ (payload_values p)) as [y|] eqn:Hv; [|by apply IH].
  injection Hs as ->. clear -Hv. induction (payload_values p) as [|v vs IH]; [done|]. cbn in Hv.
  destruct (value_number v) as [n|]; cbn in Hv; [by simplify_eq|by apply IH].
Qed.
End Decide.

(** ** At most once *)

Definition newer (x y : execution) : Prop :=
  (x.(x_event), x.(x_interval)) = (y.(x_event), y.(x_interval)) -> x.(x_version) < y.(x_version).

(** A mark at least as new as the execution's version, on the event or on its
    interval. *)
Definition blocks (m : gmap string Z) (x : execution) : Prop :=
  exists k v, (k = x.(x_event) \/ k = interval_key x.(x_event) x.(x_interval)) /\
    m !! k = Some v /\ x.(x_version) <= v.

Definition marks_grow (m m' : gmap string Z) : Prop :=
  forall k v, m !! k = Some v -> exists v', m' !! k = Some v' /\ v <= v'.

Lemma blocks_grow m m' x : marks_grow m m' -> blocks m x -> blocks m' x.
Proof.
  intros Hg (k & v & Hk & Hm & Hv). destruct (Hg k v Hm) as (v' & Hm' & Hle).
  exists k, v'. split_and!; [done|done|lia].
Qed.

Lemma marks_grow_refl m : marks_grow m m.
Proof. intros k v Hk. exists v. split; [done|lia]. Qed.

Lemma marks_grow_trans m1 m2 m3 : marks_grow m1 m2 -> marks_grow m2 m3 -> marks_grow m1 m3.
Proof.
  intros H12 H23 k v H1. destruct (H12 _ _ H1) as (v2 & H2 & ?).
  destruct (H23 _ _ H2) as (v3 & H3 & ?). exists v3. split; [done|lia].
Qed.

Lemma marks_grow_insert m k v :
  (forall u, m !! k = Some u -> u <= v) -> marks_grow m (<[k := v]> m).
Proof.
  intros H k' u Hu. destruct (decide (k' = k)) as [->|].
  - exists v. rewrite lookup_insert_eq. eauto.
  - exists u. rewrite lookup_insert_ne by done. split; [done|lia].
Qed.

Section AtMostOnce.
Context {O : OpenAdr} {C : Chrono} (to_rfc3339 : Z -> string).
Implicit Types (l : OpenLeadrVenListener) (s : poll_state) (ev : VtnEvent).

(** Identifiers of VTN objects have no [#], and interval ids are [i32]. *)
Definition event_ok ev : Prop :=
  contains_char "#"%char ev.(event_id) = false /\
  forall i, i ∈ default [] (event_intervals ev.(content)) -> in_i32 (interval_id i) = true.

Lemma mark_seen_seen l h id v sc :
  (mark_seen to_rfc3339 l h id v sc).1.(seen) = <[id := v]> l.(seen).
Proof.
  unfold mark_seen. destruct (redis l) as [conn|]; [|done].
  by destruct (persist to_rfc3339 conn h id v sc) as [[c' h'] r].
Qed.

Lemma ps_mark_seen s id v sc :
  (ps_mark to_rfc3339 s id v sc).(ps_l).(seen) = <[id := v]> s.(ps_l).(seen) /\
  (ps_mark to_rfc3339 s id v sc).(ps_execs) = s.(ps_execs).
Proof.
  unfold ps_mark. pose proof (mark_seen_seen (ps_l s) (ps_h s) id v sc) as H.
  by destruct (mark_seen to_rfc3339 (ps_l s) (ps_h s) id v sc) as [l h].
Qed.

(** What one event of the listing can do to the marks and the executions. *)
Definition event_effect (s s' : poll_state) ev : Prop :=
  marks_grow s.(ps_l).(seen) s'.(ps_l).(seen) /\
  exists xs, s'.(ps_execs) = s.(ps_execs) ++ xs /\
    (length xs <= 1)%nat /\
    forall x, x ∈ xs -> x.(x_event) = ev.(event_id) /\ blocks s'.(ps_l).(seen) x /\
      forall y, blocks s.(ps_l).(seen) y -> newer y x.

Lemma event_effect_none s s' ev :
  marks_grow s.(ps_l).(seen) s'.(ps_l).(seen) -> s'.(ps_execs) = s.(ps_execs) -> event_effect s s' ev.
Proof.
  intros Hg Hx. split; [done|]. exists []. rewrite app_nil_r. split_and!; [done|cbn; lia|set_solver].
Qed.

Lemma unseen_bound (m : gmap string Z) id v :
  match m !! id with Some prev => v <=? prev | None => false end = false ->
  forall u, m !! id = Some u -> u <= v.
Proof. intros H u Hu. rewrite Hu in H. breflect. lia. Qed.

Lemma executed_effect now s ev eio kw iv more s' :
  event_ok ev -> in_i32 iv = true ->
  (forall u, s.(ps_l).(seen) !! ev.(event_id) = Some u -> u < ev.(modification_date_time)) ->
  iv ∉ executed_ids s.(ps_l).(seen) ev.(event_id) ev.(modification_date_time) ->
  executed to_rfc3339 now s ev eio kw iv more = (s', Ok ()) -> event_effect s s' ev.
Proof.
  intros Hok Hiv Hun Hnew. unfold executed. destruct (setpoint_to_dispatch kw) as [a k].
  destruct (active_window_end (content ev) now) as [e| |]; [|done..].
  match goal with |- context [ps_mark ?r ?s0 ?key ?v ?sc] =>
    destruct (ps_mark_seen s0 key v sc) as [Hseen Hexecs]; set (s1 := ps_mark r s0 key v sc) in * end.
  clearbody s1. intros [= <-]. unfold event_effect. cbn [ps_l ps_execs] in *. rewrite Hseen, Hexecs.
  cbn [seen upd] in *.
  assert (Hiv' : forall u, s.(ps_l).(seen) !! interval_key (event_id ev) iv = Some u ->
                 u < ev.(modification_date_time)).
  { intros u Hu. destruct (Z_lt_le_dec u (modification_date_time ev)); [done|].
    exfalso. apply Hnew. by eapply executed_ids_mark. }
  set (key := if more then interval_key (event_id ev) iv else event_id ev).
  assert (Hkey : forall u, s.(ps_l).(seen) !! key = Some u -> u < ev.(modification_date_time))
    by (unfold key; destruct more; auto).
  split.
  { apply marks_grow_insert. intros u Hu. specialize (Hkey u Hu). lia. }
  eexists [_]. split; [done|]. split; [cbn; lia|].
  intros x ->%list_elem_of_singleton. cbn [x_event x_interval x_version]. split_and!.
  - done.
  - exists key, (modification_date_time ev). split_and!; [unfold key; by destruct more; auto| |cbn; lia].
    apply lookup_insert_eq.
  - intros y (k' & v & Hk & Hm & Hle) [= He Hi].
    destruct Hk as [->| ->]; rewrite He in Hm; [|rewrite Hi in Hm].
    + specialize (Hun _ Hm). cbn in *. lia.
    + specialize (Hiv' _ Hm). cbn in *. lia.
Qed.

Lemma poll_event_effect now s ev eio s' :
  event_ok ev -> poll_event to_rfc3339 now s (ev, eio) = (s', Ok ()) -> event_effect s s' ev.
Proof.
  intros Hok. unfold poll_event.
  destruct (match seen (ps_l s) !! event_id ev with Some prev => _ | None => false end) eqn:Hsn.
  { intros [= <-]. apply event_effect_none; [apply marks_grow_refl|done]. }
  pose proof (unseen_bound _ _ _ Hsn) as Hun.
  assert (Hmark : forall s', ps_mark to_rfc3339 s (event_id ev) (modification_date_time ev) (ei_store eio) = s' ->
                  event_effect s s' ev).
  { intros ? <-. destruct (ps_mark_seen s (event_id ev) (modification_date_time ev) (ei_store eio)) as [H1 H2].
    apply event_effect_none; [|done]. rewrite H1. by apply marks_grow_insert. }
  destruct (decide_event _ _ _) as [[kw iv more rel| | |]| |] eqn:Hd; [| | | |done..].
  - destruct (setpoint_to_dispatch kw) as [a k]. destruct (ei_exec eio a k) as [[]|m|]; [| |done].
    + apply decide_execute in Hd as (Hnew & sp & Hsp & Hid & _). apply find_setpoint_interval in Hsp as (i & Hi & Hii).
      apply executed_effect; [done| |  |done].
      * rewrite <- Hid, <- Hii. by apply Hok.
      * intros u Hu. rewrite Hu in Hsn. breflect. lia.
    + intros [= <-]. apply event_effect_none; [apply marks_grow_refl|done].
  - intros [= <-]. apply event_effect_none; [apply marks_grow_refl|done].
  - intros [= H]. by apply Hmark.
  - intros [= H]. by apply Hmark.
Qed.

Lemma poll_events_effect now s es s' :
  Forall (fun e => event_ok e.1) es ->
  poll_events to_rfc3339 now s es = (s', Ok ()) ->
  marks_grow s.(ps_l).(seen) s'.(ps_l).(seen) /\
  exists xs, s'.(ps_execs) = s.(ps_execs) ++ xs /\ StronglySorted newer xs /\
    forall x, x ∈ xs -> x.(x_event) ∈ ((fun e => e.1.(event_id)) <$> es) /\
      contains_char "#"%char x.(x_event) = false /\ blocks s'.(ps_l).(seen) x /\
      forall y, blocks s.(ps_l).(seen) y -> newer y x.
Proof.
  revert s. induction es as [|[ev eio] es IH]; intros s Hok; cbn [poll_events].
  { intros [= <-]. split; [apply marks_grow_refl|]. exists []. rewrite app_nil_r.
    split_and!; [done|constructor|set_solver]. }
  apply Forall_cons in Hok as [He Hok].
  destruct (poll_event to_rfc3339 now s (ev, eio)) as [s1 [[]| |]] eqn:Hp; [|done..].
  intros Hrest. destruct (IH s1 Hok Hrest) as (Hg2 & ys & Hys & Hsort & Hall).
  destruct (poll_event_effect now s ev eio s1 He Hp) as (Hg1 & xs & Hxs & Hlen & Hx).
  split; [by eapply marks_grow_trans|]. exists (xs ++ ys).
  rewrite Hys, Hxs, app_assoc. split; [done|]. split.
  - apply StronglySorted_app. split_and!; [|  |done].
    + intros x y Hx' Hy'. apply (Hall y Hy'). by apply (Hx x Hx').
    + destruct xs as [|x [|]]; [constructor|repeat constructor|cbn in Hlen; lia].
  - intros x [Hin|Hin]%elem_of_app.
    + destruct (Hx x Hin) as (Hid & Hb & Hn). split_and!; [|rewrite Hid; apply He| |done].
      * rewrite Hid. set_solver.
      * by eapply blocks_grow.
    + destruct (Hall x Hin) as (Hid & Hh & Hb & Hn). split_and!; [set_solver|done|done|].
      intros y Hy. apply Hn. by eapply blocks_grow.
Qed.

(** Pruning removes exactly the stale keys. *)
Lemma prune_seen l h sc keys k :
  (prune l h sc keys).1.(seen) !! k = if bool_decide (k ∈ keys) then None else l.(seen) !! k.
Proof.
  revert l h. induction keys as [|x keys IH]; intros l h; cbn [prune].
  { by rewrite bool_decide_false by set_solver. }
  destruct (match redis l with Some _ => _ | None => _ end) as [r h'].
  rewrite IH. cbn [seen upd]. repeat case_bool_decide; try done; try set_solver.
  - destruct (decide (k = x)) as [->|]; [by rewrite lookup_delete_eq|set_solver].
  - rewrite lookup_delete_ne; [done|set_solver].
Qed.

Lemma stale_keys_spec present cutoff (m : gmap string Z) k :
  k ∈ stale_keys present cutoff m <->
  exists v, m !! k = Some v /\ base_of k ∉ present /\ v < cutoff.
Proof.
  unfold stale_keys. rewrite list_elem_of_fmap. split.
  - intros ([k' v] & -> & Hin%elem_of_map_to_list).
    apply map_lookup_filter_Some in Hin as (? & ? & ?). eauto.
  - intros (v & Hm & Hb & Hv). exists (k, v). split; [done|].
    by apply elem_of_map_to_list, map_lookup_filter_Some.
Qed.

Lemma blocks_prune l h sc present cutoff x :
  contains_char "#"%char x.(x_event) = false ->
  x.(x_event) ∈ present \/ cutoff <= x.(x_version) ->
  blocks l.(seen) x ->
  blocks (prune l h sc (stale_keys present cutoff l.(seen))).1.(seen) x.
Proof.
  intros Hh Hkeep (k & v & Hk & Hm & Hv). exists k, v. split_and!; [done| |done].
  rewrite prune_seen, bool_decide_false; [done|].
  intros (v' & Hm' & Hb & Hlt)%stale_keys_spec. simplify_eq.
  assert (base_of k = x.(x_event)) as Hbase.
  { destruct Hk as [->| ->]; [by apply base_of_id|by apply base_of_app]. }
  rewrite Hbase in Hb. destruct Hkeep; [done|lia].
Qed.
End AtMostOnce.

(** ** Parts of the listener no poll changes, and its reports *)

Definition config (l : OpenLeadrVenListener) : bool * bool * string :=
  (l.(seen_loaded), l.(reports_enabled), l.(client_name)).

(** Every report of a poll confirms an execution of the same poll. *)
Definition attests (now : Z) (l : OpenLeadrVenListener) (xs : list execution) (r : report) : Prop :=
  l.(reports_enabled) = true /\
  exists x kw, x ∈ xs /\ setpoint_to_dispatch kw = (x.(x_action), x.(x_kw)) /\
    r = execution_report l.(client_name) x.(x_event) kw now.

Section Frame.
Context {O : OpenAdr} {C : Chrono} (to_rfc3339 : Z -> string).

Lemma ps_mark_frame s id v sc :
  let s' := ps_mark to_rfc3339 s id v sc in
  config s'.(ps_l) = config s.(ps_l) /\ s'.(ps_execs) = s.(ps_execs) /\ s'.(ps_reports) = s.(ps_reports) /\
  s'.(ps_dispatched) = s.(ps_dispatched).
Proof.
  cbv zeta. unfold ps_mark, mark_seen. destruct (redis (ps_l s)) as [conn|]; [|done].
  by destruct (persist to_rfc3339 conn (ps_h s) id v sc) as [[c' h'] r].
Qed.

Definition poll_frame now (s s' : poll_state) : Prop :=
  config s'.(ps_l) = config s.(ps_l) /\ s.(ps_execs) ⊆ s'.(ps_execs) /\
  (Forall (attests now s.(ps_l) s.(ps_execs)) s.(ps_reports) ->
   Forall (attests now s.(ps_l) s'.(ps_execs)) s'.(ps_reports)) /\
  (s.(ps_dispatched) = length s.(ps_execs) -> s'.(ps_dispatched) = length s'.(ps_execs)).

Lemma poll_frame_refl now s : poll_frame now s s.
Proof. by split_and!. Qed.

Lemma attests_mono now l xs ys r : xs ⊆ ys -> attests now l xs r -> attests now l ys r.
Proof. intros Hs (? & x & kw & Hx & ?). split; [done|]. exists x, kw. by auto. Qed.

Lemma attests_config now l l' xs r : config l' = config l -> attests now l xs r -> attests now l' xs r.
Proof. unfold attests. intros [= _ -> ->]. done. Qed.

Lemma poll_frame_trans now s1 s2 s3 : poll_frame now s1 s2 -> poll_frame now s2 s3 -> poll_frame now s1 s3.
Proof.
  intros (Hc1 & Hx1 & Hr1 & Hd1) (Hc2 & Hx2 & Hr2 & Hd2). split_and!; [congruence|set_solver| |auto].
  intros H. apply Hr1 in H.
  eapply Forall_impl; [apply Hr2|]; [eapply Forall_impl; [exact H|]|]; cbn; intros r.
  - by apply attests_config.
  - by apply attests_config.
Qed.

Lemma ps_mark_poll_frame now s id v sc : poll_frame now s (ps_mark to_rfc3339 s id v sc).
Proof.
  destruct (ps_mark_frame s id v sc) as (Hc & Hx & Hr & Hd).
  split_and!; [done|by rewrite Hx|by rewrite Hx, Hr|by rewrite Hx, Hd].
Qed.

Lemma executed_frame now s ev eio kw iv more :
  forall s' , executed to_rfc3339 now s ev eio kw iv more = (s', Ok ()) -> poll_frame now s s'.
Proof.
  intros s'. unfold executed. destruct (setpoint_to_dispatch kw) as [a k] eqn:Hk.
  destruct (active_window_end (content ev) now) as [e| |]; [|done..].
  match goal with |- context [ps_mark ?r ?s0 ?key ?v ?sc] =>
    destruct (ps_mark_frame s0 key v sc) as (Hc & Hx & Hr & Hd); set (s1 := ps_mark r s0 key v sc) in * end.
  clearbody s1. intros [= <-]. cbn [ps_l ps_execs ps_reports ps_dispatched] in *.
  assert (Hsub : s.(ps_execs) ⊆ s1.(ps_execs)) by (rewrite Hx; set_solver).
  split_and!; cbn [ps_l ps_execs ps_reports ps_dispatched]; [by rewrite Hc|done| |].
  - rewrite Hr. intros Hall.
    assert (Forall (attests now (ps_l s) (ps_execs s1)) (ps_reports s)) as Hall'.
    { eapply Forall_impl; [exact Hall|]. intros r. by apply attests_mono. }
    destruct (reports_enabled (ps_l s)) eqn:Hen; [destruct (ei_report eio)|]; cbn [andb]; [|done..].
    apply Forall_app. split; [done|]. apply Forall_singleton. split; [done|].
    eexists _, kw. split; [rewrite Hx; apply elem_of_app; right; by apply list_elem_of_singleton|].
    by rewrite Hk.
  - intros Hlen. rewrite Hd, Hx, length_app. cbn. lia.
Qed.

Lemma poll_event_frame now s e s' : poll_event to_rfc3339 now s e = (s', Ok ()) -> poll_frame now s s'.
Proof.
  destruct e as [ev eio]. unfold poll_event. case_match.
  { intros [= <-]. apply poll_frame_refl. }
  destruct (decide_event _ _ _) as [[kw iv more rel| | |]| |]; [| | | |done..].
  - destruct (setpoint_to_dispatch kw) as [a k]. destruct (ei_exec eio a k) as [[]|m|]; [| |done].
    + apply executed_frame.
    + intros [= <-]. apply poll_frame_refl.
  - intros [= <-]. apply poll_frame_refl.
  - intros [= <-]. apply ps_mark_poll_frame.
  - intros [= <-]. apply ps_mark_poll_frame.
Qed.

Lemma poll_events_frame now s es s' : poll_events to_rfc3339 now s es = (s', Ok ()) -> poll_frame now s s'.
Proof.
  revert s. induction es as [|e es IH]; intros s; cbn [poll_events].
  { intros [= <-]. apply poll_frame_refl. }
  destruct (poll_event to_rfc3339 now s e) as [s1 [[]| |]] eqn:He; [|done..].
  intros Hr. eapply poll_frame_trans; [by eapply poll_event_frame|by apply IH].
Qed.

Lemma prune_config l h sc keys : config (prune l h sc keys).1 = config l.
Proof.
  revert l h. induction keys as [|k keys IH]; intros l h; [done|]. cbn [prune].
  destruct (match redis l with Some _ => _ | None => _ end) as [r h']. by rewrite IH.
Qed.

Lemma load_seen_config l h p : config (load_seen l h p) = (true, l.(reports_enabled), l.(client_name)).
Proof.
  unfold load_seen. destruct (seen_loaded l) eqn:Hl; [by unfold config; rewrite Hl|].
  destruct (redis l) as [conn|]; [|done]. by destruct (load conn h _ _).
Qed.

Definition poll_start l h p : poll_state := {|
  ps_l := load_seen l h p; ps_h := h; ps_dispatched := 0; ps_execs := []; ps_reports := [] |}.

(** A poll that does not panic: the listing failed and only the marks were loaded,
    or the events were worked through and the stale marks pruned. *)
Lemma poll_once_cases l h p s r :
  poll_once to_rfc3339 l h p = (s, r) -> r <> Panic ->
  (exists m, r = Err m /\ s = poll_start l h p) \/
  exists es s1 cutoff, p.(pi_listing) = Ok es /\
    poll_events to_rfc3339 p.(pi_now) (poll_start l h p) es = (s1, Ok ()) /\
    dt_checked_add p.(pi_now) (- dur_hours 168) = Some cutoff /\
    r = Ok s1.(ps_dispatched) /\ s.(ps_execs) = s1.(ps_execs) /\ s.(ps_reports) = s1.(ps_reports) /\
    config s.(ps_l) = config s1.(ps_l) /\
    exists l1, l1.(seen) = s1.(ps_l).(seen) /\
      s.(ps_l) = (prune l1 s1.(ps_h) p.(pi_prune)
        (stale_keys ((fun e => e.1.(event_id)) <$> es) cutoff l1.(seen))).1.
Proof.
  unfold poll_once. fold (poll_start l h p). intros Hp Hr.
  destruct (pi_listing p) as [es|m|]; [|left|by simplify_eq].
  2: { injection Hp as <- <-. eauto. }
  right. destruct (poll_events to_rfc3339 (pi_now p) (poll_start l h p) es) as [s1 [[]| |]] eqn:He; [|by simplify_eq..].
  destruct (dt_checked_add (pi_now p) _) as [cutoff|] eqn:Hc; [|by simplify_eq].
  match type of Hp with context [prune ?l1 ?h1 ?sc ?ks] =>
    pose proof (prune_config l1 h1 sc ks) as Hcfg; set (lr := l1) in *;
    destruct (prune lr h1 sc _) as [l2 h2] eqn:Hpr
  end.
  injection Hp as <- <-. exists es, s1, cutoff. split_and!; try done.
  exists lr. split; [done|]. cbn [ps_l]. by rewrite Hpr.
Qed.
End Frame.

(** ** Runs: polls and restarts *)

Section Runs.
Context {O : OpenAdr} {C : Chrono} (to_rfc3339 : Z -> string).

(** A listener as [ven_new] builds it. *)
Definition fresh (l : OpenLeadrVenListener) : Prop :=
  l.(seen) = ∅ /\ l.(executed_active) = ∅ /\ l.(seen_loaded) = false.

(** The persisted marks read back as the ones in memory. *)
Definition marks_durable (l : OpenLeadrVenListener) (h : rhash) : Prop :=
  forall k v, l.(seen) !! k = Some v -> (h !! k ≫= dt_parse_rfc3339) = Some v.

(** Every executed event is still listed, or its version is at most a week old. *)
Definition retained (p : poll_io) (log : list execution) : Prop :=
  forall es cutoff x, p.(pi_listing) = Ok es ->
    dt_checked_add p.(pi_now) (- dur_hours 168) = Some cutoff -> x ∈ log ->
    x.(x_event) ∈ ((fun e => e.1.(event_id)) <$> es) \/ cutoff <= x.(x_version).

(** The first poll after a restart reads the marks back. *)
Definition marks_loaded (l : OpenLeadrVenListener) (p : poll_io) (log : list execution) : Prop :=
  l.(seen_loaded) = false -> log <> [] ->
  is_Some l.(redis) /\ p.(pi_connects) = true /\ p.(pi_reads) = true.

Inductive ven_step : OpenLeadrVenListener * rhash * list execution ->
                     OpenLeadrVenListener * rhash * list execution -> Prop :=
| poll_step l h log p s r :
    (forall es, p.(pi_listing) = Ok es -> Forall (fun e => event_ok e.1) es) ->
    marks_loaded l p log -> retained p log ->
    poll_once to_rfc3339 l h p = (s, r) -> r <> Panic ->
    ven_step (l, h, log) (s.(ps_l), s.(ps_h), log ++ s.(ps_execs))
| restart_step l h log l' :
    (l.(seen_loaded) = true -> marks_durable l h) -> fresh l' ->
    ven_step (l, h, log) (l', h, log).

Definition effective_marks (l : OpenLeadrVenListener) (h : rhash) : gmap string Z :=
  if l.(seen_loaded) then l.(seen) else omap dt_parse_rfc3339 h.

Definition once_inv (st : OpenLeadrVenListener * rhash * list execution) : Prop :=
  let '(l, h, log) := st in
  StronglySorted newer log /\
  (forall x, x ∈ log -> contains_char "#"%char x.(x_event) = false /\ blocks (effective_marks l h) x) /\
  (l.(seen_loaded) = false -> l.(seen) = ∅).

Lemma load_blocks l h p log x :
  marks_loaded l p log -> x ∈ log -> blocks (effective_marks l h) x ->
  (l.(seen_loaded) = false -> l.(seen) = ∅) -> blocks (load_seen l h p).(seen) x.
Proof.
  unfold effective_marks, load_seen. intros Hm Hx. destruct (seen_loaded l) eqn:Hl; [done|].
  intros Hb He. destruct (Hm Hl) as ([conn Hr] & Hc & Hd); [by intros ->; apply not_elem_of_nil in Hx|].
  rewrite Hr, Hc, Hd, (He eq_refl). unfold load, store_conn. rewrite orb_true_r. cbn [seen upd].
  by rewrite (right_id_L ∅ (∪)).
Qed.

Lemma once_inv_step st st' : once_inv st -> ven_step st st' -> once_inv st'.
Proof.
  intros Hinv Hs. destruct Hs as [l h log p s r Hok Hload Hret Hp Hr|l h log l' Hdur Hfresh];
    destruct Hinv as (Hsort & Hlog & Hemp).
  2: { destruct Hfresh as (Hs & _ & Hl). split_and!; [done| |done].
       intros x Hx. destruct (Hlog x Hx) as [Hh Hb]. split; [done|].
       unfold effective_marks in *. rewrite Hl. destruct (seen_loaded l); [|done].
       destruct Hb as (k & v & Hk & Hm & Hv). exists k, v. split_and!; [done| |done].
       rewrite lookup_omap. by apply Hdur. }
  assert (Hstart : forall x, x ∈ log -> blocks (load_seen l h p).(seen) x)
    by (intros x Hx; destruct (Hlog x Hx); by eapply load_blocks).
  assert (Hcfg : (load_seen l h p).(seen_loaded) = true)
    by (pose proof (load_seen_config l h p) as [= Hc _ _]; done).
  destruct (poll_once_cases to_rfc3339 l h p s r Hp Hr)
    as [(m & -> & ->)|(es & s1 & cutoff & Hes & Hpe & Hcut & -> & Hx & _ & Hc & l1 & Hl1 & Hsl)].
  { cbn [ps_l ps_h ps_execs poll_start]. rewrite app_nil_r. split_and!; [done| |congruence].
    intros x Hx. unfold effective_marks. rewrite Hcfg. split; [by apply Hlog|by apply Hstart]. }
  destruct (poll_events_effect to_rfc3339 _ _ _ _ (Hok es Hes) Hpe) as (Hg & xs & Hxs & Hsx & Hnew).
  pose proof (poll_events_frame to_rfc3339 _ _ _ _ Hpe) as ([= Hld _ _] & _).
  injection Hc as Hld' _ _. cbn [ps_execs ps_l poll_start] in *. cbn in Hxs.
  assert (Hloaded : s.(ps_l).(seen_loaded) = true) by congruence.
  rewrite Hx, Hxs. split_and!; [| |congruence].
  - apply StronglySorted_app. split_and!; [|done|done].
    intros x y Hx' Hy. apply (Hnew y Hy). by apply Hstart.
  - intros x Hin. unfold effective_marks. rewrite Hloaded, Hsl.
    assert (contains_char "#"%char x.(x_event) = false /\
            (x.(x_event) ∈ ((fun e => e.1.(event_id)) <$> es) \/ cutoff <= x.(x_version)) /\
            blocks l1.(seen) x) as (Hh & Hk & Hb).
    { rewrite Hl1. apply elem_of_app in Hin as [Hin|Hin].
      - destruct (Hlog x Hin) as [Hh _]. split; [done|]. split; [by eapply Hret|].
        eapply blocks_grow; [exact Hg|]. by apply Hstart.
      - destruct (Hnew x Hin) as (Hid & Hh & Hb & _). eauto. }
    split; [done|]. by apply blocks_prune.
Qed.

End Runs.

(** ** Durability of the marks *)

Section Durable.
Context {O : OpenAdr} {C : Chrono} (to_rfc3339 : Z -> string).

(** chrono's RFC 3339 text of a version reads back as the version. *)
Definition reads_back (v : Z) : Prop := dt_parse_rfc3339 (to_rfc3339 v) = Some v.

(** The store answers, if need be after one reconnect. *)
Definition store_up (sc : store_call) : Prop :=
  (sc.(sc_connect1) = true /\ sc.(sc_io1) = IoOk) \/
  (sc.(sc_connect1) = true /\ sc.(sc_connect2) = true /\ sc.(sc_io2) = IoOk).

Lemma persist_up conn h id v sc :
  store_up sc -> (persist to_rfc3339 conn h id v sc).1.2 = <[id := to_rfc3339 v]> h.
Proof.
  unfold persist, store_retry, store_conn, store_up. intros [[-> ->]|(-> & -> & ->)]; rewrite orb_true_r; [done|].
  cbn. destruct (sc_io1 sc); cbn; [done|by rewrite insert_insert_eq|done].
Qed.

Lemma remove_other conn h k sc k' : k' <> k -> (remove conn h k sc).1.2 !! k' = h !! k'.
Proof.
  intros Hne. unfold remove, store_retry. case_match; [|done].
  unfold hdel. destruct (sc_io1 sc); cbn; [by rewrite lookup_delete_ne|..].
  all: destruct (sc_connect2 sc); cbn; [destruct (sc_io2 sc); cbn|];
    by rewrite ?lookup_delete_ne by done.
Qed.

Lemma ps_mark_durable s id v sc :
  is_Some s.(ps_l).(redis) -> store_up sc -> reads_back v ->
  marks_durable s.(ps_l) s.(ps_h) ->
  let s' := ps_mark to_rfc3339 s id v sc in
  marks_durable s'.(ps_l) s'.(ps_h) /\ is_Some s'.(ps_l).(redis).
Proof.
  intros [conn Hr] Hup Hrb Hd. cbv zeta. unfold ps_mark, mark_seen. rewrite Hr.
  pose proof (persist_up conn (ps_h s) id v sc Hup) as Hp.
  destruct (persist to_rfc3339 conn (ps_h s) id v sc) as [[c' h'] r]. cbn in Hp. subst h'.
  split; [|by eexists]. intros k u. cbn [ps_l ps_h seen upd].
  destruct (decide (k = id)) as [->|].
  - rewrite !lookup_insert_eq. intros [= <-]. done.
  - rewrite !lookup_insert_ne by done. apply Hd.
Qed.

Definition event_durable (e : VtnEvent * event_io) : Prop :=
  store_up e.2.(ei_store) /\ reads_back e.1.(modification_date_time).

Lemma poll_event_durable now s e s' :
  event_durable e -> poll_event to_rfc3339 now s e = (s', Ok ()) ->
  is_Some s.(ps_l).(redis) -> marks_durable s.(ps_l) s.(ps_h) ->
  marks_durable s'.(ps_l) s'.(ps_h) /\ is_Some s'.(ps_l).(redis).
Proof.
  destruct e as [ev eio]. intros [Hup Hrb] Hp Hr Hd. unfold poll_event in Hp. revert Hp. case_match.
  { by intros [= <-]. }
  destruct (decide_event _ _ _) as [[kw iv more rel| | |]| |]; [| | | |done..].
  - destruct (setpoint_to_dispatch kw) as [a k] eqn:Hk. destruct (ei_exec eio a k) as [[]|m|]; [| |done].
    + unfold executed. rewrite Hk. destruct (active_window_end (content ev) now) as [e| |]; [|done..].
      match goal with |- context [ps_mark ?r ?s0 ?key ?v ?sc] =>
        pose proof (ps_mark_durable s0 key v sc Hr Hup Hrb Hd) as Hm; set (s1 := ps_mark r s0 key v sc) in * end.
      clearbody s1. by intros [= <-].
    + by intros [= <-].
  - by intros [= <-].
  - intros [= <-]. by apply ps_mark_durable.
  - intros [= <-]. by apply ps_mark_durable.
Qed.

Lemma poll_events_durable now s es s' :
  Forall event_durable es -> poll_events to_rfc3339 now s es = (s', Ok ()) ->
  is_Some s.(ps_l).(redis) -> marks_durable s.(ps_l) s.(ps_h) -> marks_durable s'.(ps_l) s'.(ps_h).
Proof.
  revert s. induction es as [|e es IH]; intros s Hall; cbn [poll_events]; [by intros [= <-]|].
  apply Forall_cons in Hall as [He Hall].
  destruct (poll_event to_rfc3339 now s e) as [s1 [[]| |]] eqn:Hp; [|done..].
  intros Hrest Hr Hd. destruct (poll_event_durable _ _ _ _ He Hp Hr Hd). by eapply IH.
Qed.

Lemma prune_durable l h sc keys :
  marks_durable l h -> marks_durable (prune l h sc keys).1 (prune l h sc keys).2.
Proof.
  revert l h. induction keys as [|k keys IH]; intros l h Hd; [done|]. cbn [prune].
  destruct (redis l) as [conn|].
  - pose proof (fun k' => remove_other conn h k (sc k) k') as Hrm.
    destruct (remove conn h k (sc k)) as [[c' h'] r]. cbn in Hrm. apply IH.
    intros k' v. cbn [seen upd]. destruct (decide (k' = k)) as [->|]; [by rewrite lookup_delete_eq|].
    rewrite lookup_delete_ne, Hrm by done. apply Hd.
  - apply IH. intros k' v. cbn [seen upd]. intros [_ ?]%lookup_delete_Some. by apply Hd.
Qed.

Lemma load_durable l h p :
  (if l.(seen_loaded) then marks_durable l h else l.(seen) = ∅) ->
  is_Some l.(redis) -> marks_durable (load_seen l h p) h /\ is_Some (load_seen l h p).(redis).
Proof.
  unfold load_seen. destruct (seen_loaded l); [by auto|]. intros Hs [conn Hr]. rewrite Hr, Hs.
  unfold load. destruct (store_conn conn (pi_connects p)); [destruct (pi_reads p)|]; cbn [seen upd redis].
  all: split; [intros k v|by eexists]; cbn [seen upd]; try by rewrite lookup_empty.
  by rewrite (right_id_L ∅ (∪)), lookup_omap.
Qed.

(** While Redis answers (a dropped connection may be rebuilt
    once per command), every poll leaves each executed mark in the hash in a form
    that the next process reads back as the same version, so a restart resumes with
    exactly the marks in memory. *)
Theorem marks_survive_restart l h p s r :
  (if l.(seen_loaded) then marks_durable l h else l.(seen) = ∅) -> is_Some l.(redis) ->
  (forall es, p.(pi_listing) = Ok es -> Forall event_durable es) ->
  poll_once to_rfc3339 l h p = (s, r) -> r <> Panic ->
  marks_durable s.(ps_l) s.(ps_h) /\
  forall l', fresh l' -> is_Some l'.(redis) -> forall p', p'.(pi_connects) = true -> p'.(pi_reads) = true ->
    forall k v, s.(ps_l).(seen) !! k = Some v -> (load_seen l' s.(ps_h) p').(seen) !! k = Some v.
Proof.
  intros Hd Hr Hes Hp Hnp. destruct (load_durable l h p Hd Hr) as [Hd0 Hr0].
  assert (Hdur : marks_durable s.(ps_l) s.(ps_h)).
  { unfold poll_once in Hp. fold (poll_start l h p) in Hp.
    destruct (pi_listing p) as [es|m|]; [|by simplify_eq|by simplify_eq].
    destruct (poll_events to_rfc3339 (pi_now p) (poll_start l h p) es) as [s1 [[]| |]] eqn:He; [|by simplify_eq..].
    pose proof (poll_events_durable _ _ _ _ (Hes es eq_refl) He Hr0 Hd0) as Hd1.
    destruct (dt_checked_add (pi_now p) _) as [cutoff|]; [|by simplify_eq].
    match type of Hp with context [prune ?l1 ?h1 ?sc ?ks] =>
      pose proof (prune_durable l1 h1 sc ks Hd1) as Hd2; destruct (prune l1 h1 sc ks) as [l2 h2] end.
    by injection Hp as <- _. }
  split; [done|]. intros l' (Hs' & _ & Hl') [conn Hr'] p' Hc Hrd k v Hk.
  unfold load_seen. rewrite Hl', Hr', Hs', Hc, Hrd. unfold load, store_conn. rewrite orb_true_r.
  cbn [seen upd]. rewrite (right_id_L ∅ (∪)), lookup_omap. by apply Hdur.
Qed.
End Durable.

(** ** Progress, attestation and the sign convention *)

Section Progress.
Context {O : OpenAdr} {C : Chrono} (to_rfc3339 : Z -> string).

(** An event touches only marks whose base is its own id. *)
Lemma poll_event_foreign now s ev eio s' k :
  event_ok ev -> base_of k <> ev.(event_id) ->
  poll_event to_rfc3339 now s (ev, eio) = (s', Ok ()) ->
  s'.(ps_l).(seen) !! k = s.(ps_l).(seen) !! k.
Proof.
  intros [Hh _] Hk. unfold poll_event. case_match; [by intros [= <-]|].
  assert (Hid : event_id ev <> k) by (intros <-; by rewrite base_of_id in Hk).
  destruct (decide_event _ _ _) as [[kw iv more rel| | |]| |]; [| | | |done..].
  - destruct (setpoint_to_dispatch kw) as [a kk] eqn:Hkw. destruct (ei_exec eio a kk) as [[]|m|]; [| |done].
    + unfold executed. rewrite Hkw. destruct (active_window_end (content ev) now) as [e| |]; [|done..].
      match goal with |- context [ps_mark ?r ?s0 ?key ?v ?sc] =>
        destruct (ps_mark_seen r s0 key v sc) as [Hm _]; set (s1 := ps_mark r s0 key v sc) in * end.
      clearbody s1. intros [= <-]. cbn [ps_l]. rewrite Hm. rewrite lookup_insert_ne; [done|].
      destruct more; [|done]. intros <-. unfold interval_key in Hk. by rewrite base_of_app in Hk.
    + by intros [= <-].
  - by intros [= <-].
  - intros [= <-]. destruct (ps_mark_seen to_rfc3339 s (event_id ev) (modification_date_time ev) (ei_store eio)) as [-> _].
    by rewrite lookup_insert_ne.
  - intros [= <-]. destruct (ps_mark_seen to_rfc3339 s (event_id ev) (modification_date_time ev) (ei_store eio)) as [-> _].
    by rewrite lookup_insert_ne.
Qed.

Lemma poll_events_foreign now s es s' k :
  Forall (fun e => event_ok e.1) es -> base_of k ∉ ((fun e => e.1.(event_id)) <$> es) ->
  poll_events to_rfc3339 now s es = (s', Ok ()) ->
  s'.(ps_l).(seen) !! k = s.(ps_l).(seen) !! k.
Proof.
  revert s. induction es as [|[ev eio] es IH]; intros s Hok Hk; cbn [poll_events]; [by intros [= <-]|].
  apply Forall_cons in Hok as [He Hok]. cbn in Hk. apply not_elem_of_cons in Hk as [Hne Hk].
  destruct (poll_event to_rfc3339 now s (ev, eio)) as [s1 [[]| |]] eqn:Hp; [|done..].
  intros Hr. rewrite (IH s1) by done. by eapply poll_event_foreign.
Qed.

Lemma poll_events_app now s es1 es2 :
  poll_events to_rfc3339 now s (es1 ++ es2) =
  match poll_events to_rfc3339 now s es1 with
  | (s1, Ok _) => poll_events to_rfc3339 now s1 es2
  | r => r
  end.
Proof.
  revert s. induction es1 as [|e es1 IH]; intros s; [done|]. cbn [poll_events app].
  destruct (poll_event to_rfc3339 now s e) as [s1 [[]| |]]; [apply IH|done..].
Qed.

Lemma executed_ids_foreign (m m' : gmap string Z) id v :
  contains_char "#"%char id = false ->
  (forall k, base_of k = id -> m' !! k = m !! k) ->
  forall iv, iv ∈ executed_ids m' id v <-> iv ∈ executed_ids m id v.
Proof.
  intros Hh Hm iv. rewrite !executed_ids_spec.
  split; intros (suffix & ts & Hl & ?); exists suffix, ts.
  - rewrite Hm in Hl by by apply base_of_app. done.
  - rewrite Hm by by apply base_of_app. done.
Qed.

(** The event's own turn: a due interval with a healthy adapter is executed. *)
Lemma poll_event_executes now s ev eio s' kw iv more rel :
  match s.(ps_l).(seen) !! ev.(event_id) with
  | Some prev => ev.(modification_date_time) <=? prev | None => false end = false ->
  decide_event ev.(content) now
    (executed_ids s.(ps_l).(seen) ev.(event_id) ev.(modification_date_time)) = Ok (Execute kw iv more rel) ->
  eio.(ei_exec) (setpoint_to_dispatch kw).1 (setpoint_to_dispatch kw).2 = Ok () ->
  poll_event to_rfc3339 now s (ev, eio) = (s', Ok ()) ->
  {| x_event := ev.(event_id); x_version := ev.(modification_date_time); x_interval := iv;
     x_action := (setpoint_to_dispatch kw).1; x_kw := (setpoint_to_dispatch kw).2 |} ∈ s'.(ps_execs).
Proof.
  intros Hun Hd Hex. unfold poll_event. rewrite Hun, Hd.
  destruct (setpoint_to_dispatch kw) as [a k] eqn:Hk. cbn [fst snd] in *. rewrite Hex.
  unfold executed. rewrite Hk. destruct (active_window_end (content ev) now) as [e| |]; [|done..].
  match goal with |- context [ps_mark ?r ?s0 ?key ?v ?sc] =>
    destruct (ps_mark_seen r s0 key v sc) as [_ Hm]; set (s1 := ps_mark r s0 key v sc) in * end.
  clearbody s1. intros [= <-]. cbn [ps_execs] in *. rewrite Hm. set_solver.
Qed.

(** A poll executes the due interval of every listed event whose
    version is not yet marked, when the adapter accepts it, whatever the other events
    of the listing are and do: failures of theirs do not hold it back. *)
Theorem due_interval_executed l h p es1 ev eio es2 s r kw iv more rel :
  p.(pi_listing) = Ok (es1 ++ (ev, eio) :: es2) ->
  Forall (fun e => event_ok e.1) (es1 ++ (ev, eio) :: es2) ->
  ev.(event_id) ∉ ((fun e => e.1.(event_id)) <$> es1) ->
  poll_once to_rfc3339 l h p = (s, r) -> r <> Panic ->
  let marks := (load_seen l h p).(seen) in
  match marks !! ev.(event_id) with
  | Some prev => ev.(modification_date_time) <=? prev | None => false end = false ->
  decide_event ev.(content) p.(pi_now)
    (executed_ids marks ev.(event_id) ev.(modification_date_time)) = Ok (Execute kw iv more rel) ->
  eio.(ei_exec) (setpoint_to_dispatch kw).1 (setpoint_to_dispatch kw).2 = Ok () ->
  {| x_event := ev.(event_id); x_version := ev.(modification_date_time); x_interval := iv;
     x_action := (setpoint_to_dispatch kw).1; x_kw := (setpoint_to_dispatch kw).2 |} ∈ s.(ps_execs).
Proof.
  intros Hl Hok Hid Hp Hr marks Hun Hd Hex.
  destruct (poll_once_cases to_rfc3339 l h p s r Hp Hr)
    as [(m & -> & ->)|(es & s1 & cutoff & Hes & Hpe & _ & _ & Hx & _)].
  { unfold poll_once in Hp. rewrite Hl in Hp. repeat case_match; simplify_eq. }
  rewrite Hl in Hes. injection Hes as <-. rewrite Hx. rewrite poll_events_app in Hpe.
  apply Forall_app in Hok as [Hok1 [Hev _]%Forall_cons]. destruct Hev as [Hh Hi].
  destruct (poll_events to_rfc3339 (pi_now p) (poll_start l h p) es1) as [s0 [[]| |]] eqn:H1; [|done..].
  cbn [poll_events] in Hpe.
  destruct (poll_event to_rfc3339 (pi_now p) s0 (ev, eio)) as [s2 [[]| |]] eqn:H2; [|done..].
  assert (Hfr : forall k, base_of k = event_id ev -> s0.(ps_l).(seen) !! k = marks !! k).
  { intros k Hk. apply (poll_events_foreign (pi_now p) (poll_start l h p) es1 s0 k Hok1); [|exact H1].
    by rewrite Hk. }
  destruct (poll_events_frame to_rfc3339 _ _ _ _ Hpe) as (_ & Hsub & _). apply Hsub.
  eapply poll_event_executes; [| |exact Hex|exact H2].
  - rewrite Hfr by by apply base_of_id. done.
  - erewrite decide_event_ext; [exact Hd|]. by apply executed_ids_foreign.
Qed.

(** The listener built from the environment around a
    simulated adapter, with no explicit override, posts no execution report in any
    poll; and any report of any listener confirms an execution of that poll, under
    the listener's own name. *)
Theorem simulation_never_attests {K : VtnConfig} env simulated l l1 h p s r :
  ven_from_env env simulated = Ok (Some l) ->
  (l1.(reports_enabled), l1.(client_name)) = (l.(reports_enabled), l.(client_name)) ->
  poll_once to_rfc3339 l1 h p = (s, r) -> r <> Panic ->
  ((simulated = true /\ env "OPENLEADR_VEN_REPORTS" = None -> s.(ps_reports) = []) /\
   Forall (attests p.(pi_now) l s.(ps_execs)) s.(ps_reports)).
Proof.
  intros Hl [= Hre Hcn] Hp Hr.
  assert (Hall : Forall (attests p.(pi_now) l s.(ps_execs)) s.(ps_reports)).
  { destruct (poll_once_cases to_rfc3339 l1 h p s r Hp Hr)
      as [(m & -> & ->)|(es & s1 & cutoff & Hes & Hpe & _ & _ & Hx & Hrp & _)]; [constructor|].
    rewrite Hx, Hrp. destruct (poll_events_frame to_rfc3339 _ _ _ _ Hpe) as (_ & _ & Hf & _).
    specialize (Hf ltac:(constructor)). eapply Forall_impl; [exact Hf|].
    pose proof (load_seen_config l1 h p) as [= _ Hc1 Hc2].
    intros rp (He & x & kw & Hx' & Hk & ->). cbn [ps_l poll_start] in *. split; [congruence|].
    exists x, kw. split_and!; [done|done|]. unfold execution_report. congruence. }
  split; [|done]. intros [-> Hno].
  enough (l.(reports_enabled) = false) as Hoff.
  { destruct (ps_reports s) as [|rp rps]; [done|]. apply Forall_cons in Hall as [[He _] _]. congruence. }
  unfold ven_from_env in Hl. destruct (env "OPENLEADR_VEN_VTN_URL"); [|done].
  rewrite Hno in Hl. destruct (ven_new _ _ _ _ _) as [l0| |]; [|done..].
  by injection Hl as <-.
Qed.
End Progress.

(** The setpoint the business-logic adapter publishes for a
    positive capacity reads back, at the VEN side, as the same action and the same
    magnitude; at zero capacity (or below) the direction is lost. *)
Theorem setpoint_roundtrip (action : DispatchType) (kw : f64) :
  F64.ltb F64.zero kw = true -> setpoint_to_dispatch (setpoint_of action kw) = (action, kw).
Proof. destruct action, kw as [[]|[]| |[] m e]; try done. Qed.

Lemma setpoint_roundtrip_witness :
  setpoint_to_dispatch (setpoint_of FLEX_DOWN (F64.of_Z 75)) = (FLEX_DOWN, F64.of_Z 75).
Proof. apply (setpoint_roundtrip FLEX_DOWN (F64.of_Z 75)). by vm_compute. Defined.

(** A zero-capacity FLEX_DOWN comes back as FLEX_UP. *)
Lemma zero_setpoint_flips :
  (setpoint_to_dispatch (setpoint_of FLEX_DOWN F64.zero)).1 = FLEX_UP.
Proof. done. Qed.

(** FLEX_UP is what the engine sends on low frequency, and the IEEE 2030.5 mapping
    turns it into a reduction of power. *)
Lemma low_frequency_reduces_power {Adp} (e : @DispatchEngine Adp) f :
  F64.ltb f e.(freq_low_hz) = true ->
  der_control_type <$> decide_action e f = Some "DERControl_ReducePower".
Proof. unfold decide_action. by intros ->. Qed.

(** ** Concrete runs *)

Module VenRun.
Definition adr_ref : OpenAdr := {|
  EventRequest := list (Z * option (Z * option Z) * list (Z * list (option f64))) * option (Z * option Z) * option Z;
  EventInterval := Z * option (Z * option Z) * list (Z * list (option f64));
  IntervalPeriod := Z * option Z;
  WireDuration := Z;
  EventType := Z;
  EventValuesMap := Z * list (option f64);
  WireValue := option f64;
  event_intervals e := Some e.1.1;
  event_period e := e.1.2;
  event_duration e := e.2;
  interval_id i := i.1.1;
  interval_period i := i.1.2;
  interval_payloads i := i.2;
  payload_type p := p.1;
  payload_values p := p.2;
  period_start p := p.1;
  period_duration p := p.2;
  to_chrono_at d _ := d;
  value_number v := v;
  is_dispatch_setpoint t := t =? 0;
  is_dispatch_setpoint_relative t := t =? 1
|}.

(** Dates whose text is the number of nanoseconds. *)
Definition chrono_text : Chrono := {|
  dt_minute := @dt_minute chrono_ref; dt_with_minute := @dt_with_minute chrono_ref;
  dt_with_second := @dt_with_second chrono_ref; dt_with_nanosecond := @dt_with_nanosecond chrono_ref;
  dt_checked_add := @dt_checked_add chrono_ref; dt_timestamp_opt := @dt_timestamp_opt chrono_ref;
  dt_nanos_opt := @dt_nanos_opt chrono_ref; dt_parse_rfc3339 := parse_i64;
  dt_min := @dt_min chrono_ref; dt_max := @dt_max chrono_ref
|}.

#[local] Existing Instances adr_ref chrono_text.

Definition vtn_ok : VtnConfig := {|
  url_parses _ := true; program_id_parses _ := true; target_parses _ := true;
  f32_parse _ := None; fmt_3 _ := EmptyString |}.
#[local] Existing Instance vtn_ok.

Definition env (v : string) : option string :=
  if String.eqb v "OPENLEADR_VEN_VTN_URL" then Some "http://vtn"
  else if String.eqb v "REDIS_URL" then Some "redis://" else None.

Definition no_listener : OpenLeadrVenListener := {|
  ven_program_id := None; ven_target := None; poll_interval_secs := 1; seen := ∅;
  executed_active := ∅; redis := None; seen_loaded := false; reports_enabled := true;
  client_name := EmptyString; register := true |}.

Definition boot (simulated : bool) : OpenLeadrVenListener :=
  default no_listener (default None (ok_of (ven_from_env env simulated))).

Definition mins (m : Z) : Z := m * NS_PER_MIN.

(** One event, two intervals of an hour: at 0:00 (+10 kW) and at 2:00 (-20 kW). *)
Definition interval (id start kw : Z) : EventInterval :=
  (id, Some (mins start, Some (mins 60)), [(0, [None; Some (F64.of_Z kw)])]).

Definition schedule : VtnEvent := {|
  event_id := "e1"; modification_date_time := mins (-30);
  content := ([interval 0 0 10; interval 1 120 (-20)], None, None) |}.

Definition up : store_call :=
  {| sc_connect1 := true; sc_io1 := IoErrLost; sc_connect2 := true; sc_io2 := IoOk |}.

Definition healthy : event_io := {| ei_exec _ _ := Ok (); ei_store := up; ei_report := true |}.

Definition poll_at (m : Z) (es : list VtnEvent) : poll_io := {|
  pi_connects := true; pi_reads := true;
  pi_listing := Ok ((fun e => (e, healthy)) <$> es);
  pi_now := mins m; pi_prune _ := up |}.

Definition poll (l : OpenLeadrVenListener) (h : rhash) (p : poll_io) := poll_once show_Z l h p.

Definition p1 := poll (boot true) ∅ (poll_at 10 [schedule]).
Definition p2 := poll (boot true) p1.1.(ps_h) (poll_at 130 [schedule]).
Definition p3 := poll p2.1.(ps_l) p2.1.(ps_h) (poll_at 131 [schedule]).

Definition log3 : list execution := (([] ++ p1.1.(ps_execs)) ++ p2.1.(ps_execs)) ++ p3.1.(ps_execs).

Lemma schedule_ok : event_ok schedule.
Proof.
  split; [done|]. intros i Hi. cbn in Hi.
  repeat (apply elem_of_cons in Hi as [->|Hi]; [by vm_compute|]). by apply not_elem_of_nil in Hi.
Qed.

Lemma listing_ok m es : poll_at m [schedule] = es -> forall l, es.(pi_listing) = Ok l -> Forall (fun e => event_ok e.1) l.
Proof. intros <- l [= <-]. apply Forall_singleton. apply schedule_ok. Qed.

Lemma listed_retained m log :
  forallb (fun x => String.eqb x.(x_event) "e1") log = true -> retained (poll_at m [schedule]) log.
Proof.
  rewrite forallb_forall. intros Hall es cutoff x [= <-] _ Hx%list_elem_of_In. left.
  specialize (Hall x Hx). breflect. rewrite Hall. cbn. set_solver.
Qed.

Definition durable_b (l : OpenLeadrVenListener) (h : rhash) : bool :=
  forallb (fun kv => bool_decide ((h !! kv.1 ≫= dt_parse_rfc3339) = Some kv.2)) (map_to_list l.(seen)).

Lemma durable_b_ok l h : durable_b l h = true -> marks_durable l h.
Proof.
  unfold durable_b. rewrite forallb_forall. intros H k v Hk.
  specialize (H (k, v)). apply bool_decide_eq_true in H; [done|].
  by apply list_elem_of_In, elem_of_map_to_list.
Qed.

Lemma poll_pair l h p : poll_once show_Z l h p = ((poll l h p).1, (poll l h p).2).
Proof. unfold poll. by destruct (poll_once show_Z l h p). Qed.

Lemma boot_fresh simulated : fresh (boot simulated).
Proof. by vm_compute. Qed.

Lemma boot_redis : is_Some (boot true).(redis).
Proof. vm_compute. by eexists. Qed.

Lemma p2_loaded : p2.1.(ps_l).(seen_loaded) = true.
Proof. by vm_compute. Qed.

Lemma not_panic {E A} (o : outcome E A) : is_panic o = false -> o <> Panic.
Proof. by intros H ->. Qed.

Lemma one_poll l h log m :
  marks_loaded l (poll_at m [schedule]) log ->
  forallb (fun x => String.eqb x.(x_event) "e1") log = true ->
  is_panic (poll l h (poll_at m [schedule])).2 = false ->
  ven_step show_Z (l, h, log)
    ((poll l h (poll_at m [schedule])).1.(ps_l), (poll l h (poll_at m [schedule])).1.(ps_h),
     log ++ (poll l h (poll_at m [schedule])).1.(ps_execs)).
Proof.
  intros Hm Hall Hp.
  apply (poll_step show_Z l h log (poll_at m [schedule]) _ (poll l h (poll_at m [schedule])).2);
    [by apply (listing_ok m)|done|by apply listed_retained|apply poll_pair|by apply not_panic].
Qed.

(** Poll, restart, two more polls. *)
Lemma ven_run3 : steps (ven_step show_Z) (boot true, ∅, []) (p3.1.(ps_l), p3.1.(ps_h), log3).
Proof.
  refine (steps_next _ _ (p2.1.(ps_l), p2.1.(ps_h), _) _ (steps_next _ _ (boot true, p1.1.(ps_h), [] ++ p1.1.(ps_execs)) _
    (steps_next _ _ (p1.1.(ps_l), p1.1.(ps_h), _) _ (steps_next _ _ _ _ (steps_refl _ _) _) _) _) _).
  - apply (one_poll (boot true) ∅ [] 10); [done|done|by vm_compute].
  - apply (restart_step show_Z p1.1.(ps_l) p1.1.(ps_h) _ (boot true)); [|apply boot_fresh].
    intros _. apply durable_b_ok. by vm_compute.
  - apply (one_poll (boot true) p1.1.(ps_h) _ 130); [|by vm_compute|by vm_compute].
    intros _ _. split_and!; [apply boot_redis|done|done].
  - apply (one_poll p2.1.(ps_l) p2.1.(ps_h) _ 131); [|by vm_compute|by vm_compute].
    intros H. by rewrite p2_loaded in H.
Qed.


Lemma marks_survive_restart_witness :
  marks_durable p1.1.(ps_l) p1.1.(ps_h) /\ p1.1.(ps_l).(seen) !! "e1#0" = Some (mins (-30)).
Proof.
  split; [|by vm_compute].
  apply (marks_survive_restart show_Z (boot true) ∅ (poll_at 10 [schedule]) p1.1 p1.2);
    [done|apply boot_redis| |apply poll_pair|apply not_panic; by vm_compute].
  intros es [= <-]. apply Forall_singleton. split; [right; done|by vm_compute].
Defined.

Lemma schedule_due :
  decide_event schedule.(content) (mins 10)
    (executed_ids (load_seen (boot true) ∅ (poll_at 10 [schedule])).(seen) schedule.(event_id)
       schedule.(modification_date_time)) = Ok (Execute (F64.of_Z 10) 0 true false).
Proof. vm_compute. reflexivity. Qed.

Lemma due_interval_executed_witness :
  {| x_event := schedule.(event_id); x_version := schedule.(modification_date_time); x_interval := 0;
     x_action := (setpoint_to_dispatch (F64.of_Z 10)).1; x_kw := (setpoint_to_dispatch (F64.of_Z 10)).2 |}
  ∈ p1.1.(ps_execs).
Proof.
  refine (due_interval_executed show_Z (boot true) ∅ (poll_at 10 [schedule]) [] schedule healthy []
           p1.1 p1.2 (F64.of_Z 10) 0 true false eq_refl _ (not_elem_of_nil _) (poll_pair _ _ _) _ _ schedule_due eq_refl).
  - apply Forall_singleton, schedule_ok.
  - apply not_panic. by vm_compute.
  - vm_compute. reflexivity.
Defined.

Lemma simulation_never_attests_witness :
  p1.1.(ps_reports) = [] /\ length p1.1.(ps_execs) = 1%nat.
Proof.
  split; [|by vm_compute].
  apply (simulation_never_attests show_Z env true (boot true) (boot true) ∅ (poll_at 10 [schedule]) p1.1 p1.2);
    [by vm_compute|done|apply poll_pair|apply not_panic; by vm_compute|by vm_compute].
Defined.

(** An event published eight days ahead of its window: one listing that leaves it
    out makes the listener forget the execution. *)
Definition days (d : Z) : Z := d * 24 * 60.
Definition early : VtnEvent := {|
  event_id := "e2"; modification_date_time := 0;
  content := ([(0, Some (mins (days 8), Some (mins 60)), [(0, [Some (F64.of_Z 5)])])], None, None) |}.

Definition q1 := poll (boot false) ∅ (poll_at (days 8) [early]).
Definition q2 := poll q1.1.(ps_l) q1.1.(ps_h) (poll_at (days 8 + 1) []).
Definition q3 := poll q2.1.(ps_l) q2.1.(ps_h) (poll_at (days 8 + 2) [early]).

Lemma hidden_event_executes_twice :
  q1.1.(ps_execs) = q3.1.(ps_execs) /\ length q1.1.(ps_execs) = 1%nat.
Proof. by vm_compute. Qed.

(** A duration beyond chrono's range on a later interval panics after the due one
    was executed, before it is marked. *)
Definition absurd : VtnEvent := {|
  event_id := "e3"; modification_date_time := 0;
  content := ([(0, None, [(0, [Some (F64.of_Z 5)])]);
               (1, Some (mins 60, Some (10 ^ 23)), [(0, [Some (F64.of_Z 5)])])], None, None) |}.

Lemma absurd_duration_panics_after_dispatch :
  let r := poll (boot false) ∅ (poll_at 1 [absurd]) in
  r.2 = Panic /\ length r.1.(ps_execs) = 1%nat /\ r.1.(ps_l).(seen) = ∅.
Proof. by vm_compute. Qed.
End VenRun.
