(* ===== verification/Storage.v ===== *)
(** * The store-and-forward buffer (aggregator-persistence/src/storage)

    [circular_buffer.rs]: a SQLite table of readings with a [synced] flag, read in id
    order, cleaned of old synced rows at every hundredth push.  [sync_manager.rs]:
    the replay loop, as a small-step machine whose steps interleave with pushes and
    crashes (the buffer's lock is released while a batch is being sent). *)

From Stdlib Require Import ZArith Lia Ascii String SpecFloat.
From stdpp Require Import base gmap strings list numbers sorting.
From S2P Require Import Prelude RustStd External.

Open Scope Z_scope.
Open Scope bridge_scope.

Section Buffer.
Context {C : Chrono} {J : SerdeJson}.
(** [Value::default()], and SQLite's order on the stored text of two dates. *)
Context (value_null : Value) (sql_lt : Z -> Z -> bool).

(** ** circular_buffer.rs *)

Record row : Type := {
  row_id : Z;
  row_meter_id : string;
  row_timestamp : Z;
  row_payload : string;
  row_synced : bool
}.

(** The table, in id order, with the last id handed out ([AUTOINCREMENT]). *)
Record CircularBuffer : Type := {
  rows : list row;
  last_id : Z;
  retention_hours : Z;
  push_count : Z
}.

Record UnsyncedRecord : Type := {
  u_id : Z;
  u_meter_id : string;
  u_timestamp : Z;
  u_payload : Value
}.

Inductive sql_error : Type := SqlError.

(** [CircularBuffer::new] over a table that may hold rows of an earlier process. *)
Definition open_buffer (table : list row) (last : Z) : CircularBuffer :=
  {| rows := table; last_id := last; retention_hours := 24; push_count := 0 |}.

Definition set_rows (b : CircularBuffer) (rs : list row) : CircularBuffer :=
  {| rows := rs; last_id := b.(last_id); retention_hours := b.(retention_hours);
     push_count := b.(push_count) |}.

(** [ok]: whether the statement succeeds; a failed one has no effect. *)
Definition cleanup (b : CircularBuffer) (now : Z) (ok : bool)
    : CircularBuffer * outcome sql_error unit :=
  match dt_checked_add now (- dur_hours b.(retention_hours)) with
  | None => (b, Panic)
  | Some cutoff =>
      if ok then
        (set_rows b (List.filter (fun r => negb (sql_lt r.(row_timestamp) cutoff && r.(row_synced))) b.(rows)),
         Ok ())
      else (b, Err SqlError)
  end.

Definition push (b : CircularBuffer) (meter_id : string) (timestamp : Z) (payload : Value)
    (insert_ok : bool) (now : Z) (cleanup_ok : bool) : CircularBuffer * outcome sql_error unit :=
  if insert_ok then
    let id := b.(last_id) + 1 in
    let b := {| rows := b.(rows) ++ [{| row_id := id; row_meter_id := meter_id;
                                        row_timestamp := timestamp;
                                        row_payload := json_print payload;
                                        row_synced := false |}];
                last_id := id;
                retention_hours := b.(retention_hours);
                push_count := b.(push_count) + 1 |} in
    if b.(push_count) mod 100 =? 0 then cleanup b now cleanup_ok else (b, Ok ())
  else (b, Err SqlError).

Definition mark_row (ids : list Z) (r : row) : row :=
  if bool_decide (r.(row_id) ∈ ids)
  then {| row_id := r.(row_id); row_meter_id := r.(row_meter_id); row_timestamp := r.(row_timestamp);
          row_payload := r.(row_payload); row_synced := true |}
  else r.

Definition mark_as_synced (b : CircularBuffer) (ids : list Z) (ok : bool)
    : CircularBuffer * outcome sql_error unit :=
  match ids with
  | [] => (b, Ok ())
  | _ => if ok then (set_rows b (mark_row ids <$> b.(rows)), Ok ()) else (b, Err SqlError)
  end.

Definition unsynced_rows (b : CircularBuffer) : list row :=
  List.filter (fun r => negb r.(row_synced)) b.(rows).

(** An unparseable payload is replaced by [null]. *)
Definition record_of (r : row) : UnsyncedRecord :=
  {| u_id := r.(row_id); u_meter_id := r.(row_meter_id); u_timestamp := r.(row_timestamp);
     u_payload := default value_null (json_parse r.(row_payload)) |}.

Definition get_unsynced (b : CircularBuffer) (limit : nat) (ok : bool)
    : outcome sql_error (list UnsyncedRecord) :=
  if ok then Ok (record_of <$> take limit (unsynced_rows b)) else Err SqlError.

(** ** sync_manager.rs *)

Definition replay_url (base : string) : string := base +:+ "/api/v1/telemetry/replay".

(** The object of [json!]; [date_value] is chrono's serialization. *)
Definition replay_body (date_value : Z -> Value) (meter_id : string) (timestamp : Z) (payload : Value)
    : Value :=
  value_of_object [("meter_id", value_of_str meter_id); ("timestamp", date_value timestamp);
                   ("payload", payload)].

(** [status]: [None] is a transport error. *)
Definition send_to_gateway (status : option Z) : outcome string unit :=
  match status with
  | None => Err "request failed"
  | Some st =>
      if (200 <=? st) && (st <? 300) then Ok ()
      else Err ("Gateway returned unexpected status: " +:+ show_Z st)
  end.

(** The [for] loop over a batch: the ids that were accepted. *)
Fixpoint send_batch (batch : list UnsyncedRecord) (statuses : list (option Z)) : list Z :=
  match batch, statuses with
  | u :: batch, st :: statuses =>
      if is_ok (send_to_gateway st) then u.(u_id) :: send_batch batch statuses else []
  | _, _ => []
  end.

Definition BATCH : nat := 50.

(** One pass of [run]'s loop with nothing in between; [true] is the pass that
    sleeps. *)
Definition sync_pass (b : CircularBuffer) (statuses : list (option Z)) (read_ok write_ok : bool)
    : CircularBuffer * outcome sql_error bool :=
  match get_unsynced b BATCH read_ok with
  | Ok [] => (b, Ok true)
  | Ok unsynced =>
      match mark_as_synced b (send_batch unsynced statuses) write_ok with
      | (b, Ok _) => (b, Ok false)
      | (b, Err e) => (b, Err e)
      | (b, Panic) => (b, Panic)
      end
  | Err e => (b, Err e)
  | Panic => (b, Panic)
  end.

(** *** The loop as a machine *)

(** Where the loop is: fetching, sending the rest of a batch with the ids accepted
    so far, or gone ([run] returned an error). *)
Inductive pc : Type :=
| Fetching
| Sending (rest : list UnsyncedRecord) (synced : list Z)
| Stopped.

(** The buffer and the loop, with the history of what was stored and of what the
    gateway has received, oldest first. *)
Record machine : Type := {
  m_buffer : CircularBuffer;
  m_pc : pc;
  m_pushed : list row;
  m_received : list UnsyncedRecord
}.

Definition inserted (b : CircularBuffer) (meter_id : string) (timestamp : Z) (payload : Value) : row :=
  {| row_id := b.(last_id) + 1; row_meter_id := meter_id; row_timestamp := timestamp;
     row_payload := json_print payload; row_synced := false |}.

Abbreviation mk b p h r := {| m_buffer := b; m_pc := p; m_pushed := h; m_received := r |}.

Inductive sync_step : machine -> machine -> Prop :=
| step_push b p h acc meter ts payload now c :
    sync_step (mk b p h acc)
      (mk (push b meter ts payload true now c).1 p (h ++ [inserted b meter ts payload]) acc)
| step_push_error b p h acc meter ts payload now c :
    sync_step (mk b p h acc) (mk (push b meter ts payload false now c).1 p h acc)
| step_fetch b h acc batch :
    get_unsynced b BATCH true = Ok batch -> batch <> [] ->
    sync_step (mk b Fetching h acc) (mk b (Sending batch []) h acc)
| step_fetch_error b h acc :
    sync_step (mk b Fetching h acc) (mk b Stopped h acc)
| step_send_ok b h acc u rest ids st :
    send_to_gateway st = Ok () ->
    sync_step (mk b (Sending (u :: rest) ids) h acc)
      (mk b (Sending rest (ids ++ [u.(u_id)])) h (acc ++ [u]))
| step_send_fail b h acc u rest ids :
    sync_step (mk b (Sending (u :: rest) ids) h acc) (mk b (Sending [] ids) h acc)
(** the gateway processed the request but the reply was lost or not a success *)
| step_send_lost b h acc u rest ids :
    sync_step (mk b (Sending (u :: rest) ids) h acc) (mk b (Sending [] ids) h (acc ++ [u]))
| step_mark b h acc ids b' :
    mark_as_synced b ids true = (b', Ok ()) ->
    sync_step (mk b (Sending [] ids) h acc) (mk b' Fetching h acc)
| step_mark_error b h acc ids :
    sync_step (mk b (Sending [] ids) h acc) (mk b Stopped h acc)
(** a new process over the same file *)
| step_restart b p h acc :
    sync_step (mk b p h acc) (mk (open_buffer b.(rows) b.(last_id)) Fetching h acc).

Definition machine_init : machine := mk (open_buffer [] 0) Fetching [] [].
End Buffer.
