(* ===== verification/StorageProps.v ===== *)
(** * Properties of the store-and-forward buffer

    No reading is lost between the table and the gateway, replay keeps the order of
    insertion, a reachable gateway empties the table, and only old synced rows are
    ever deleted. *)

From Stdlib Require Import ZArith Lia Ascii String SpecFloat.
From stdpp Require Import base gmap strings list numbers sorting.
From S2P Require Import Prelude RustStd External Storage.

Open Scope Z_scope.
Open Scope bridge_scope.

Definition ids_up (l : list row) : Prop := StronglySorted (fun a b => a.(row_id) < b.(row_id)) l.

(** Lists sorted by id, with one row per id. *)
Lemma ids_up_inj l a b : ids_up l -> a ∈ l -> b ∈ l -> a.(row_id) = b.(row_id) -> a = b.
Proof.
  intros Hs Ha Hb Heq. apply list_elem_of_split in Ha as (l1 & l2 & ->).
  apply elem_of_app in Hb as [Hb|[->|Hb]%elem_of_cons]; [|done|].
  - pose proof (StronglySorted_app_1_elem_of _ _ _ b a Hs Hb ltac:(left)). cbn in *. lia.
  - apply StronglySorted_app_1_r in Hs. apply StronglySorted_inv in Hs as [_ Hf].
    rewrite Forall_forall in Hf. specialize (Hf b Hb). lia.
Qed.

Lemma ids_up_take n l a b : ids_up l -> a ∈ take n l -> b ∈ l -> b.(row_id) < a.(row_id) -> b ∈ take n l.
Proof.
  intros Hs Ha Hb Hlt. rewrite <- (take_drop n l) in Hs, Hb. apply elem_of_app in Hb as [Hb|Hb]; [done|].
  pose proof (StronglySorted_app_1_elem_of _ _ _ a b Hs Ha Hb). cbn in *. lia.
Qed.

Lemma ids_up_snoc l r : ids_up l -> (forall a, a ∈ l -> a.(row_id) < r.(row_id)) -> ids_up (l ++ [r]).
Proof.
  intros Hs Hr. apply StronglySorted_app. split_and!; [|done|repeat constructor].
  intros a b Ha ->%list_elem_of_singleton. by apply Hr.
Qed.

Lemma ids_up_filter (p : row -> bool) l : ids_up l -> ids_up (List.filter p l).
Proof.
  intros Hs. induction Hs as [|a l Hs IH Hf]; [constructor|]. cbn. destruct (p a); [|done].
  constructor; [done|]. rewrite Forall_forall in Hf |- *. intros b Hb. apply Hf.
  apply list_elem_of_In, filter_In in Hb as [Hb _]. by apply list_elem_of_In.
Qed.

Lemma ids_up_map (f : row -> row) l :
  (forall a, (f a).(row_id) = a.(row_id)) -> ids_up l -> ids_up (f <$> l).
Proof.
  intros Hf Hs. induction Hs as [|a l Hs IH Hall]; [constructor|]. cbn. constructor; [done|].
  rewrite Forall_forall in Hall |- *. intros b (c & -> & Hc)%list_elem_of_fmap.
  rewrite !Hf. by apply Hall.
Qed.

Lemma elem_filter {A} (p : A -> bool) l x : x ∈ List.filter p l <-> x ∈ l /\ p x = true.
Proof. rewrite !list_elem_of_In. apply filter_In. Qed.

Section Machine.
Context {C : Chrono} {J : SerdeJson} (value_null : Value) (sql_lt : Z -> Z -> bool).
Notation rec := (record_of value_null).
Notation step := (sync_step value_null sql_lt).
Abbreviation mk b p h r := {| m_buffer := b; m_pc := p; m_pushed := h; m_received := r |}.

Definition is_unsynced (r : row) : Prop := r.(row_synced) = false.

(** What the cleanup keeps: every unsynced row. *)
Lemma cleanup_rows b now ok :
  let b' := (cleanup sql_lt b now ok).1 in
  b'.(last_id) = b.(last_id) /\ (ids_up b.(rows) -> ids_up b'.(rows)) /\
  (forall r, r ∈ b'.(rows) -> r ∈ b.(rows)) /\
  (forall r, r ∈ b.(rows) -> is_unsynced r -> r ∈ b'.(rows)).
Proof.
  unfold cleanup, is_unsynced. destruct (dt_checked_add _ _) as [cutoff|]; [|by split_and!].
  destruct ok; [|by split_and!]. cbn [fst rows last_id set_rows].
  split_and!; [done|apply ids_up_filter| |].
  - intros r Hr. by apply elem_filter in Hr as [? _].
  - intros r Hr Hu. apply elem_filter. split; [done|]. by rewrite Hu, andb_false_r.
Qed.

Lemma push_rows b meter ts payload now c :
  let b' := (push sql_lt b meter ts payload true now c).1 in
  b'.(last_id) = b.(last_id) + 1 /\
  (ids_up b.(rows) -> Forall (fun r => r.(row_id) <= b.(last_id)) b.(rows) -> ids_up b'.(rows)) /\
  (forall r, r ∈ b'.(rows) -> r ∈ b.(rows) \/ r = inserted b meter ts payload) /\
  (forall r, r ∈ b.(rows) \/ r = inserted b meter ts payload -> is_unsynced r -> r ∈ b'.(rows)).
Proof.
  cbv zeta. unfold push.
  set (b1 := {| rows := rows b ++ _; last_id := _; retention_hours := _; push_count := _ |}).
  assert (Hb1 : ids_up b.(rows) -> Forall (fun r => r.(row_id) <= b.(last_id)) b.(rows) -> ids_up b1.(rows)).
  { intros Hs Hf. apply ids_up_snoc; [done|]. rewrite Forall_forall in Hf.
    intros a Ha. specialize (Hf a Ha). cbn. lia. }
  assert (Hin : forall r, r ∈ b1.(rows) <-> r ∈ b.(rows) \/ r = inserted b meter ts payload).
  { intros r. cbn [rows b1]. rewrite elem_of_app, list_elem_of_singleton. done. }
  destruct (push_count b1 mod 100 =? 0).
  - destruct (cleanup_rows b1 now c) as (Hl & Hup & Hsub & Hkeep).
    split_and!; [done|by auto| |].
    + intros r Hr. by apply Hin, Hsub.
    + intros r Hr Hu. apply Hkeep; [|done]. by apply Hin.
  - cbn [fst]. split_and!; [done|done| |]; intros r; rewrite Hin; auto.
Qed.

Definition accepted (m : machine) (r : row) : Prop := rec r ∈ m.(m_received).

Definition batch_ok (m : machine) (rest : list UnsyncedRecord) (ids : list Z) : Prop :=
  StronglySorted (fun u v => u.(u_id) < v.(u_id)) rest /\
  (forall u, u ∈ rest -> exists r, r ∈ m.(m_pushed) /\ u = rec r) /\
  (forall u r, u ∈ rest -> r ∈ m.(m_pushed) -> r.(row_id) < u.(u_id) -> accepted m r \/ rec r ∈ rest) /\
  (forall i, i ∈ ids -> exists r, r ∈ m.(m_pushed) /\ r.(row_id) = i /\ accepted m r).

Record replay_inv (m : machine) : Prop := {
  inv_rows : ids_up m.(m_buffer).(rows);
  inv_pushed : ids_up m.(m_pushed);
  inv_bound r : r ∈ m.(m_buffer).(rows) \/ r ∈ m.(m_pushed) -> r.(row_id) <= m.(m_buffer).(last_id);
  inv_kept r : r ∈ m.(m_pushed) -> r ∈ m.(m_buffer).(rows) \/ accepted m r;
  inv_unsynced r : r ∈ m.(m_pushed) -> is_unsynced r;
  inv_known r : r ∈ m.(m_buffer).(rows) -> is_unsynced r -> r ∈ m.(m_pushed);
  inv_received u : u ∈ m.(m_received) -> exists r, r ∈ m.(m_pushed) /\ u = rec r;
  inv_order r r' : r ∈ m.(m_pushed) -> r' ∈ m.(m_pushed) -> r.(row_id) < r'.(row_id) ->
    accepted m r' -> accepted m r;
  inv_batch : match m.(m_pc) with Sending rest ids => batch_ok m rest ids | _ => True end
}.

Lemma rec_inj h r r' : ids_up h -> r ∈ h -> r' ∈ h -> rec r = rec r' -> r = r'.
Proof.
  intros Hs Hr Hr' Heq. eapply ids_up_inj; [done..|].
  change (u_id (rec r) = u_id (rec r')). by rewrite Heq.
Qed.

Lemma inv_push b p h acc meter ts payload now c :
  replay_inv (mk b p h acc) ->
  replay_inv (mk (push sql_lt b meter ts payload true now c).1 p (h ++ [inserted b meter ts payload]) acc).
Proof.
  intros [Hrows Hpush Hb Hkept Huns Hknown Hrecv Hord Hbatch]. cbn [m_buffer m_pc m_pushed m_received] in *.
  destruct (push_rows b meter ts payload now c) as (Hlast & Hup & Hsub & Hkeep). cbv zeta in *.
  set (new := inserted b meter ts payload) in *. set (b' := (push _ _ _ _ _ _ _ _).1) in *.
  assert (Hid : new.(row_id) = b.(last_id) + 1) by done. assert (Hnu : is_unsynced new) by done.
  clearbody new b'.
  assert (Hlt : forall r, r ∈ h -> r.(row_id) < new.(row_id)).
  { intros r Hr. pose proof (Hb r (or_intror Hr)). lia. }
  assert (Hin : forall r, r ∈ h ++ [new] <-> r ∈ h \/ r = new)
    by (intros r; rewrite elem_of_app, list_elem_of_singleton; done).
  assert (Hnew : rec new ∉ acc).
  { intros (r & Hr & Heq)%Hrecv. specialize (Hlt r Hr).
    assert (u_id (rec new) = u_id (rec r)) by (by rewrite Heq). cbn in *. lia. }
  constructor; cbn [m_buffer m_pc m_pushed m_received].
  - apply Hup; [done|]. apply Forall_forall. auto.
  - by apply ids_up_snoc.
  - intros r. rewrite Hin, Hlast. intros [Hr|[Hr| ->]]; [|specialize (Hlt r Hr); lia|lia].
    apply Hsub in Hr as [Hr| ->]; [|lia]. pose proof (Hb r (or_introl Hr)). lia.
  - intros r [Hr| ->]%Hin; [|left; apply Hkeep; [by right|done]].
    destruct (Hkept r Hr); [|by right]. left. apply Hkeep; [by left|by apply Huns].
  - intros r [Hr| ->]%Hin; [by apply Huns|done].
  - intros r Hr Hu. apply Hin. apply Hsub in Hr as [Hr| ->]; [|by right]. left. by apply Hknown.
  - intros u (r & Hr & ->)%Hrecv. exists r. split; [|done]. apply Hin. by left.
  - intros r r' [Hr| ->]%Hin [Hr'| ->]%Hin Hrr Hacc; [by eapply Hord|done|specialize (Hlt r' Hr'); lia|lia].
  - destruct p as [|rest ids|]; [done| |done]. destruct Hbatch as (Hs & Hrest & Hprev & Hids).
    split_and!; cbn in *; [done| | |].
    + intros u (r & Hr & ->)%Hrest. exists r. split; [|done]. apply Hin. by left.
    + intros u r Hu [Hr| ->]%Hin Hru; [by eauto|]. exfalso.
      destruct (Hrest u Hu) as (r0 & Hr0 & ->). specialize (Hlt r0 Hr0). cbn in Hru. lia.
    + intros i (r & Hr & Hri & Ha)%Hids. exists r. split_and!; [apply Hin; by left|done|done].
Qed.

Lemma inv_mark b h acc ids b' :
  replay_inv (mk b (Sending [] ids) h acc) -> mark_as_synced b ids true = (b', Ok ()) ->
  replay_inv (mk b' Fetching h acc).
Proof.
  intros [Hrows Hpush Hb Hkept Huns Hknown Hrecv Hord Hbatch] Hm. cbn [m_buffer m_pc m_pushed m_received] in *.
  destruct Hbatch as (_ & _ & _ & Hids). cbn in Hids.
  assert (Hb' : b'.(rows) = mark_row ids <$> b.(rows) /\ b'.(last_id) = b.(last_id)).
  { unfold mark_as_synced in Hm. destruct ids as [|i ids]; injection Hm as <-; [|done].
    split; [|done]. unfold mark_row. rewrite <- (list_fmap_id (rows b)) at 1. apply list_fmap_ext.
    intros i r _. by rewrite bool_decide_false by apply not_elem_of_nil. }
  destruct Hb' as [Hr' Hl']. clear Hm.
  assert (Hmid : forall r, (mark_row ids r).(row_id) = r.(row_id)) by (intros r; unfold mark_row; by case_match).
  assert (Hkeep : forall r, is_unsynced (mark_row ids r) -> mark_row ids r = r).
  { intros r. unfold mark_row. by case_match. }
  constructor; cbn [m_buffer m_pc m_pushed m_received].
  - rewrite Hr'. by apply ids_up_map.
  - done.
  - intros r. rewrite Hr', Hl'. intros [(r0 & -> & Hr0)%list_elem_of_fmap|Hr]; [rewrite Hmid|]; auto.
  - intros r Hr. destruct (Hkept r Hr) as [Hin|]; [|by right].
    destruct (decide (r.(row_id) ∈ ids)) as [Hi|Hi].
    + right. destruct (Hids _ Hi) as (r0 & Hr0 & Heq & Ha).
      by rewrite (ids_up_inj h r r0) by (done || by symmetry).
    + left. rewrite Hr'. apply list_elem_of_fmap. exists r. split; [|done].
      unfold mark_row. by rewrite bool_decide_false.
  - done.
  - intros r. rewrite Hr'. intros (r0 & -> & Hr0)%list_elem_of_fmap Hu.
    rewrite Hkeep by done. apply Hknown; [done|]. by rewrite <- (Hkeep r0 Hu).
  - done.
  - done.
  - done.
Qed.

Lemma records_up l : ids_up l -> StronglySorted (fun u v => u.(u_id) < v.(u_id)) (rec <$> l).
Proof.
  induction l as [|r l IH]; intros Hs; [constructor|]. apply StronglySorted_inv in Hs as [Hs Hf].
  cbn. constructor; [by apply IH|]. apply Forall_forall. intros u (r' & -> & Hr')%list_elem_of_fmap.
  rewrite Forall_forall in Hf. by apply Hf.
Qed.

Lemma inv_fetch b h acc batch :
  replay_inv (mk b Fetching h acc) -> get_unsynced value_null b BATCH true = Ok batch ->
  replay_inv (mk b (Sending batch []) h acc).
Proof.
  intros [Hrows Hpush Hb Hkept Huns Hknown Hrecv Hord _] [= <-]. cbn in *.
  constructor; cbn; try done.
  assert (Hup : ids_up (unsynced_rows b)) by (by apply ids_up_filter).
  assert (Hun : forall r, r ∈ unsynced_rows b <-> r ∈ b.(rows) /\ is_unsynced r).
  { intros r. unfold unsynced_rows, is_unsynced. rewrite elem_filter.
    destruct (row_synced r); cbn; naive_solver. }
  split_and!; cbn.
  - assert (Ht : ids_up (take BATCH (unsynced_rows b)))
      by (rewrite <- (take_drop BATCH (unsynced_rows b)) in Hup; by eapply StronglySorted_app_1_l).
    by apply records_up.
  - intros u (r & -> & Hr)%list_elem_of_fmap. exists r. split; [|done].
    assert (r ∈ unsynced_rows b) as [? ?]%Hun.
    { rewrite <- (take_drop BATCH (unsynced_rows b)). apply elem_of_app. by left. }
    by apply Hknown.
  - intros u r (r0 & -> & Hr0)%list_elem_of_fmap Hr Hlt.
    destruct (Hkept r Hr) as [Hin|]; [|by left]. right.
    apply list_elem_of_fmap. exists r. split; [done|].
    eapply ids_up_take; [done|exact Hr0| |done]. apply Hun. split; [done|by apply Huns].
  - intros i Hi. by apply not_elem_of_nil in Hi.
Qed.

(** The head of a batch has everything older than it already received, so the
    gateway may receive it. *)
Lemma inv_send b h acc u rest ids ids' rest' :
  replay_inv (mk b (Sending (u :: rest) ids) h acc) ->
  rest' = rest \/ rest' = [] ->
  (forall i, i ∈ ids' -> i ∈ ids \/ i = u.(u_id)) ->
  replay_inv (mk b (Sending rest' ids') h (acc ++ [u])).
Proof.
  intros [Hrows Hpush Hb Hkept Huns Hknown Hrecv Hord Hbatch] Hrest' Hids'.
  cbn [m_buffer m_pc m_pushed m_received] in *.
  destruct Hbatch as (Hs & Hrest & Hprev & Hids). apply StronglySorted_inv in Hs as [Hs Hf].
  rewrite Forall_forall in Hf. cbn [m_pushed] in *. unfold accepted in *. cbn [m_received] in *.
  destruct (Hrest u ltac:(left)) as (r0 & Hr0 & Hu).
  assert (Hin : forall x, x ∈ acc ++ [u] <-> x ∈ acc \/ x = u)
    by (intros x; rewrite elem_of_app, list_elem_of_singleton; done).
  assert (Holder : forall r, r ∈ h -> r.(row_id) < u.(u_id) -> rec r ∈ acc).
  { intros r Hr Hlt. destruct (Hprev u r ltac:(left) Hr Hlt) as [?|[Heq|Hr']%elem_of_cons]; [done| |].
    - exfalso. rewrite <- Heq in Hlt. cbn in Hlt. lia.
    - specialize (Hf _ Hr'). cbn in Hf. lia. }
  constructor; cbn [m_buffer m_pc m_pushed m_received]; unfold accepted; cbn [m_received]; try done.
  - intros r Hr. rewrite Hin. destruct (Hkept r Hr); auto.
  - intros x [Hx| ->]%Hin; [by apply Hrecv|by exists r0].
  - intros r r' Hr Hr' Hlt. rewrite !Hin. intros [Ha|Ha]; left; [by eapply Hord|].
    apply Holder; [done|]. rewrite <- Ha. done.
  - split_and!; cbn [m_pushed m_received]; unfold accepted; cbn [m_received].
    + destruct Hrest' as [-> | ->]; [done|constructor].
    + intros x Hx. apply Hrest. destruct Hrest' as [-> | ->]; [by right|by apply not_elem_of_nil in Hx].
    + destruct Hrest' as [-> | ->]; [|intros x ? Hx; by apply not_elem_of_nil in Hx].
      intros x r Hx Hr Hlt. rewrite Hin.
      destruct (Hprev x r ltac:(by right) Hr Hlt) as [|[|]%elem_of_cons]; auto.
    + intros i Hi. destruct (Hids' i Hi) as [Hi'| ->].
      * destruct (Hids i Hi') as (r & ? & ? & ?). exists r. rewrite Hin. auto.
      * exists r0. split_and!; [done|by rewrite Hu|]. apply Hin. right. by rewrite Hu.
Qed.

(** Dropping the rest of a batch, or the whole position, loses nothing. *)
Lemma inv_pc b p h acc p' b' :
  replay_inv (mk b p h acc) -> b'.(rows) = b.(rows) -> b'.(last_id) = b.(last_id) ->
  match p' with Sending rest ids => rest = [] /\ exists rest0, p = Sending rest0 ids | _ => True end ->
  replay_inv (mk b' p' h acc).
Proof.
  intros [Hrows Hpush Hb Hkept Huns Hknown Hrecv Hord Hbatch] Hr Hl Hp'.
  cbn [m_buffer m_pc m_pushed m_received] in *.
  constructor; cbn [m_buffer m_pc m_pushed m_received]; rewrite ?Hr, ?Hl; try done.
  destruct p' as [|rest ids|]; [done| |done]. destruct Hp' as (-> & rest0 & ->).
  destruct Hbatch as (_ & _ & _ & Hids). split_and!; [constructor| | |done];
    intros x; intros; match goal with H : _ ∈ [] |- _ => by apply not_elem_of_nil in H end.
Qed.

Lemma inv_step m m' : replay_inv m -> step m m' -> replay_inv m'.
Proof.
  intros Hinv Hs. destruct Hs.
  - by apply inv_push.
  - done.
  - by eapply inv_fetch.
  - by eapply inv_pc.
  - eapply inv_send; [done|by left|]. intros i [|Hi]%elem_of_app; [by left|].
    right. by apply list_elem_of_singleton.
  - eapply inv_pc; [done|done|done|]. cbn. eauto.
  - eapply inv_send; [done|by right|by left].
  - by eapply inv_mark.
  - by eapply inv_pc.
  - by eapply inv_pc.
Qed.

Lemma inv_run m : steps step machine_init m -> replay_inv m.
Proof.
  intros Hrun. eapply steps_invariant; [apply inv_step| |exact Hrun].
  constructor; cbn; intros; try done; try (by constructor);
    match goal with H : context [_ ∈ []] |- _ => exfalso; set_solver end.
Qed.

(** C14: at every point of every run (pushes interleaved with the replay
    loop, failed statements, lost replies, crashes and restarts at any moment), each
    reading ever stored is still in the table and unsynced, or the gateway has
    received it; and the gateway receives nothing that was not stored. *)
Theorem no_telemetry_lost m :
  steps step machine_init m ->
  (forall r, r ∈ m.(m_pushed) -> r ∈ unsynced_rows m.(m_buffer) \/ rec r ∈ m.(m_received)) /\
  (forall u, u ∈ m.(m_received) -> exists r, r ∈ m.(m_pushed) /\ u = rec r).
Proof.
  intros Hrun. pose proof (inv_run m Hrun) as Hinv. split; [|apply Hinv].
  intros r Hr. destruct (inv_kept m Hinv r Hr) as [Hin|]; [|by right]. left.
  unfold unsynced_rows. apply elem_filter. split; [done|]. by rewrite (inv_unsynced m Hinv r Hr).
Qed.

(** The gateway never receives a reading before an older one: at every
    point of every run, whatever was stored before a received reading has been
    received too. *)
Theorem replay_in_order m r r' :
  steps step machine_init m ->
  r ∈ m.(m_pushed) -> r' ∈ m.(m_pushed) -> r.(row_id) < r'.(row_id) ->
  rec r' ∈ m.(m_received) -> rec r ∈ m.(m_received).
Proof. intros Hrun Hr Hr' Hlt. by apply (inv_order m (inv_run m Hrun)). Qed.

(** ** The loop against a reachable gateway *)

Lemma send_batch_all batch statuses :
  (length batch <= length statuses)%nat ->
  Forall (fun st => is_ok (send_to_gateway st) = true) statuses ->
  send_batch batch statuses = u_id <$> batch.
Proof.
  revert statuses. induction batch as [|u batch IH]; intros [|st statuses] Hl Hf; cbn in Hl; try done; [lia|].
  apply Forall_cons in Hf as [Hst Hf]. cbn [send_batch]. rewrite Hst. cbn. f_equal. apply IH; [lia|done].
Qed.

Lemma mark_prefix n l :
  ids_up l ->
  List.filter (fun r => negb r.(row_synced))
    (mark_row (row_id <$> take n (List.filter (fun r => negb r.(row_synced)) l)) <$> l) =
  drop n (List.filter (fun r => negb r.(row_synced)) l).
Proof.
  intros Hs. set (us := List.filter _ l).
  assert (Hus : ids_up us) by (by apply ids_up_filter).
  assert (Hgen : forall l', (forall r, r ∈ l' -> r ∈ l) ->
    List.filter (fun r => negb r.(row_synced)) (mark_row (row_id <$> take n us) <$> l') =
    List.filter (fun r => negb (bool_decide (r.(row_id) ∈ (row_id <$> take n us))))
      (List.filter (fun r => negb r.(row_synced)) l')).
  { induction l' as [|r l' IH]; intros Hsub; [done|]. rewrite fmap_cons. cbn [List.filter].
    unfold mark_row at 1 2. destruct (bool_decide (row_id r ∈ row_id <$> take n us)) eqn:Hb.
    - cbn [row_synced negb]. rewrite IH by set_solver.
      destruct (negb (row_synced r)); cbn [List.filter]; [by rewrite Hb|done].
    - rewrite IH by set_solver. destruct (negb (row_synced r)); cbn [List.filter]; [by rewrite Hb|done]. }
  rewrite Hgen by done. fold us. clear Hgen.
  set (ids := row_id <$> take n us).
  transitivity (List.filter (fun r => negb (bool_decide (row_id r ∈ ids))) (take n us ++ drop n us));
    [by rewrite take_drop|].
  rewrite List.filter_app.
  assert (H1 : forall t, (forall r, r ∈ t -> row_id r ∈ ids) ->
               List.filter (fun r => negb (bool_decide (row_id r ∈ ids))) t = []).
  { induction t as [|r t IH]; intros Hall; [done|]. cbn.
    rewrite bool_decide_true by set_solver. apply IH. set_solver. }
  rewrite H1 by (intros; by apply list_elem_of_fmap_2). cbn. assert (Hd : forall r, r ∈ drop n us -> row_id r ∉ ids).
  { intros r Hr (r' & Heq & Hr')%list_elem_of_fmap. rewrite <- (take_drop n us) in Hus.
    pose proof (StronglySorted_app_1_elem_of _ _ _ r' r Hus Hr' Hr). cbn in *. lia. }
  induction (drop n us) as [|r d IH]; [done|]. cbn.
  rewrite bool_decide_false by set_solver. cbn. f_equal. apply IH. set_solver.
Qed.

Fixpoint passes (n : nat) (b : CircularBuffer) (statuses : list (option Z)) : CircularBuffer :=
  match n with
  | O => b
  | S n => passes n (sync_pass value_null b statuses true true).1 statuses
  end.

Lemma mark_unsynced b ids : ids <> [] -> (mark_as_synced b ids true).1.(rows) = mark_row ids <$> b.(rows).
Proof. by destruct ids. Qed.

Lemma pass_drops b statuses :
  ids_up b.(rows) -> (BATCH <= length statuses)%nat ->
  Forall (fun st => is_ok (send_to_gateway st) = true) statuses ->
  let b' := (sync_pass value_null b statuses true true).1 in
  ids_up b'.(rows) /\ unsynced_rows b' = drop BATCH (unsynced_rows b) /\
  is_ok (sync_pass value_null b statuses true true).2 = true.
Proof.
  intros Hs Hlen Hok. cbv zeta. unfold sync_pass, get_unsynced.
  destruct (rec <$> take BATCH (unsynced_rows b)) as [|u us] eqn:Hb.
  { cbn. split_and!; [done| |done]. apply fmap_nil_inv in Hb.
    destruct (unsynced_rows b); [done|]. by apply (f_equal length) in Hb. }
  rewrite <- Hb. rewrite send_batch_all; [|rewrite length_fmap, length_take; lia|done].
  rewrite <- list_fmap_compose.
  change (u_id ∘ rec) with row_id. set (ids := row_id <$> take BATCH (unsynced_rows b)).
  assert (Hids : ids <> []).
  { unfold ids. intros H%fmap_nil_inv. rewrite H in Hb. done. }
  pose proof (mark_unsynced b ids Hids) as Hm.
  destruct (mark_as_synced b ids true) as [b' [[]| |]] eqn:Hmark;
    [|unfold mark_as_synced in Hmark; by destruct ids..].
  cbn [fst snd is_ok] in *. unfold unsynced_rows in *. rewrite Hm.
  split_and!; [|by apply mark_prefix|done].
  apply ids_up_map; [|done]. intros a. unfold mark_row. by case_match.
Qed.

(** C38: with the gateway reachable and the table readable, the backlog
    empties in one pass per fifty readings: after [k] passes exactly the oldest
    [50 * k] have gone, and once none is left the loop sleeps and changes nothing. *)
Theorem replay_terminates b statuses k :
  ids_up b.(rows) -> (BATCH <= length statuses)%nat ->
  Forall (fun st => is_ok (send_to_gateway st) = true) statuses ->
  unsynced_rows (passes k b statuses) = drop (BATCH * k) (unsynced_rows b) /\
  ((length (unsynced_rows b) <= BATCH * k)%nat ->
   sync_pass value_null (passes k b statuses) statuses true true = (passes k b statuses, Ok true)).
Proof.
  intros Hs Hlen Hok.
  assert (Hu : unsynced_rows (passes k b statuses) = drop (BATCH * k) (unsynced_rows b)).
  { revert b Hs. induction k as [|k IH]; intros b Hs; [by rewrite Nat.mul_0_r|]. cbn [passes].
    destruct (pass_drops b statuses Hs Hlen Hok) as (Hs' & Hd & _). rewrite IH by done.
    rewrite Hd, drop_drop. f_equal. lia. }
  split; [done|]. intros Hle. unfold sync_pass, get_unsynced. rewrite Hu, drop_ge by done.
  by rewrite take_nil.
Qed.

(** A failing first send leaves the buffer as it was, and the pass ends without the
    pause of the empty case: the loop retries at once. *)
Lemma unreachable_gateway_spins b statuses :
  unsynced_rows b <> [] -> sync_pass value_null b (None :: statuses) true true = (b, Ok false).
Proof.
  intros Hne. unfold sync_pass, get_unsynced.
  destruct (unsynced_rows b) as [|r rs]; [done|]. done.
Qed.

(** Unsynced rows are never deleted, so nothing bounds the table while the gateway
    is away. *)
Lemma unsynced_unbounded b meter ts payload now c :
  (length (unsynced_rows b) < length (unsynced_rows (push sql_lt b meter ts payload true now c).1))%nat.
Proof.
  unfold push. set (b1 := {| rows := rows b ++ _; last_id := _; retention_hours := _; push_count := _ |}).
  assert (Hu : unsynced_rows b1 = unsynced_rows b ++ [inserted b meter ts payload])
    by (unfold unsynced_rows; cbn [rows b1]; by rewrite List.filter_app).
  assert (Hc : forall l cutoff, List.filter (fun r => negb (row_synced r))
    (List.filter (fun r => negb (sql_lt r.(row_timestamp) cutoff && r.(row_synced))) l) =
    List.filter (fun r => negb (row_synced r)) l).
  { intros l cutoff. induction l as [|r l IH]; [done|]. cbn [List.filter].
    destruct (row_synced r) eqn:Hr; [rewrite andb_true_r; destruct (sql_lt _ _)|rewrite andb_false_r];
      cbn [List.filter negb]; rewrite ?Hr; cbn; by rewrite ?IH. }
  assert (length (unsynced_rows b1) = S (length (unsynced_rows b))) as Hl
    by (rewrite Hu, length_app; cbn; lia).
  destruct (_ =? 0); [|cbn [fst]; lia]. unfold cleanup.
  destruct (dt_checked_add _ _) as [cutoff|]; [|cbn [fst]; lia]. destruct c; cbn [fst]; [|lia].
  unfold unsynced_rows at 2. cbn [rows set_rows]. rewrite Hc. fold (unsynced_rows b1). lia.
Qed.
End Machine.

(** ** A concrete run *)

Module ReplayRun.
#[local] Existing Instances chrono_ref json_ref.

Definition null : @Value json_ref := JNull.
Definition lt : Z -> Z -> bool := Z.ltb.
Abbreviation step := (sync_step null lt).
Definition b0 := open_buffer [] 0.
Definition b1 := (push lt b0 "m1" 5 null true 100 true).1.
Definition b2 := (push lt b1 "m2" 6 null true 100 true).1.
Definition r1 : row := inserted b0 "m1" 5 null.
Definition r2 : row := inserted b1 "m2" 6 null.
Definition rec := record_of null.

Definition at_ (b : CircularBuffer) (p : pc) (h : list row) (acc : list UnsyncedRecord) : machine :=
  {| m_buffer := b; m_pc := p; m_pushed := h; m_received := acc |}.

Definition b3 := open_buffer b2.(rows) b2.(last_id).

(** Two readings stored, the first accepted, the process restarted before it is
    marked: it stays in the table and is sent again. *)
Definition m_end : machine := at_ b3 (Sending [] [1; 2]) [r1; r2] [rec r1; rec r1; rec r2].

Lemma run_end : steps step machine_init m_end.
Proof.
  eapply (steps_next _ _ (at_ b3 (Sending [rec r2] [1]) [r1; r2] [rec r1; rec r1]));
    [|exact (step_send_ok null lt b3 [r1; r2] [rec r1; rec r1] (rec r2) [] [1] (Some 204) eq_refl)].
  eapply (steps_next _ _ (at_ b3 (Sending [rec r1; rec r2] []) [r1; r2] [rec r1]));
    [|exact (step_send_ok null lt b3 [r1; r2] [rec r1] (rec r1) [rec r2] [] (Some 200) eq_refl)].
  eapply (steps_next _ _ (at_ b3 Fetching [r1; r2] [rec r1])); [|by apply step_fetch].
  eapply (steps_next _ _ (at_ b2 (Sending [rec r2] [1]) [r1; r2] [rec r1])); [|by apply step_restart].
  eapply (steps_next _ _ (at_ b2 (Sending [rec r1; rec r2] []) [r1; r2] []));
    [|exact (step_send_ok null lt b2 [r1; r2] [] (rec r1) [rec r2] [] (Some 200) eq_refl)].
  eapply (steps_next _ _ (at_ b2 Fetching [r1; r2] [])); [|by apply step_fetch].
  eapply (steps_next _ _ (at_ b1 Fetching [r1] []));
    [|by apply (step_push null lt b1 Fetching [r1] [] "m2" 6 null 100 true)].
  eapply (steps_next _ _ (at_ b0 Fetching [] [])); [apply steps_refl|].
  by apply (step_push null lt b0 Fetching [] [] "m1" 5 null 100 true).
Qed.

Lemma no_telemetry_lost_witness : r2 ∈ unsynced_rows m_end.(m_buffer) \/ rec r2 ∈ m_end.(m_received).
Proof. apply (no_telemetry_lost null lt m_end run_end). cbn. set_solver. Defined.

Lemma replay_in_order_witness : r1.(row_id) < r2.(row_id) /\ rec r1 ∈ m_end.(m_received).
Proof.
  split; [done|]. apply (replay_in_order null lt m_end r1 r2 run_end); cbn; [set_solver..|done|set_solver].
Defined.

Lemma replay_terminates_witness :
  unsynced_rows (passes null 1 b2 (replicate 50 (Some 200))) = [] /\ length (unsynced_rows b2) = 2%nat.
Proof.
  split; [|by vm_compute].
  destruct (replay_terminates null b2 (replicate 50 (Some 200)) 1) as [Hu _].
  - repeat constructor.
  - by vm_compute; lia.
  - by apply Forall_replicate.
  - rewrite Hu. by vm_compute.
Defined.
End ReplayRun.
