(* ===== verification/OwnerReadModel.v ===== *)
(** * The owner and wallet read-model (aggregator-persistence/src/infra/owner_read_model.rs)

    The two tables [meter_owner_read_model] and [user_wallet_read_model], the SQL
    statements of the repository, the dispatcher of meter and IAM events, the
    first-boot backfill, the wallet repair and the consumer loop with its rebuild
    rule.  Statements are the atomic state changes their SQL describes, and each can
    fail with or without effect ([Stores.io]).  [canonicalize_meter_serial] and the
    derived decoders are parameters. *)

From Stdlib Require Import ZArith Lia Ascii String SpecFloat.
From stdpp Require Import base gmap strings list numbers.
From S2P Require Import Prelude RustStd External Stores.

Open Scope Z_scope.
Open Scope bridge_scope.

Record owner_row : Type := {
  or_user_id : Uuid;
  or_wallet_address : option string;
  or_updated_at : Z
}.

Record edge_row : Type := {
  uw_wallet_address : option string;
  uw_updated_at : Z
}.

Record ReadModel : Type := {
  meter_owner : gmap string owner_row;
  user_wallet : gmap Uuid edge_row
}.

Inductive pg_error : Type :=
| UndefinedTable
| OtherDbError.

Definition is_undefined_table (e : pg_error) : bool :=
  match e with UndefinedTable => true | OtherDbError => false end.

(** A statement's own effect, seen through its fate. *)
Definition pg_exec {A : Type} (o : io) (before after : ReadModel) (a : A)
    : ReadModel * outcome pg_error A :=
  (if io_applies o then after else before, if io_succeeds o then Ok a else Err OtherDbError).

(** SQL [COALESCE] of two values. *)
Definition coalesce {A : Type} (a b : option A) : option A :=
  match a with Some _ => a | None => b end.

(** Trimmed, and absent when blank. *)
Definition wallet_or_none (raw : option string) : option string :=
  match trim <$> raw with
  | Some w => if is_empty w then None else Some w
  | None => None
  end.

Definition edge_wallet (rm : ReadModel) (u : Uuid) : option string :=
  rm.(user_wallet) !! u ≫= uw_wallet_address.

Section Repo.
Context (canonicalize_meter_serial : string -> string).

(** ** Statements *)

(** The row a conflicting or fresh insert leaves. *)
Definition upsert_row (old : option owner_row) (user_id : Uuid) (excluded : option string) (now : Z)
    : owner_row :=
  {| or_user_id := user_id;
     or_wallet_address :=
       match old with
       | None => excluded
       | Some r => if bool_decide (r.(or_user_id) = user_id)
                   then coalesce r.(or_wallet_address) excluded else excluded
       end;
     or_updated_at := now |}.

Definition upsert_effect (rm : ReadModel) (serial : string) (user_id : Uuid) (wallet : option string)
    (now : Z) : ReadModel :=
  let s := canonicalize_meter_serial serial in
  {| meter_owner := <[s := upsert_row (rm.(meter_owner) !! s) user_id
                             (coalesce wallet (edge_wallet rm user_id)) now]> rm.(meter_owner);
     user_wallet := rm.(user_wallet) |}.

Definition upsert_by_serial (rm : ReadModel) (serial : string) (user_id : Uuid)
    (wallet : option string) (now : Z) (o : io) : ReadModel * outcome pg_error unit :=
  pg_exec o rm (upsert_effect rm serial user_id wallet now) ().

Definition set_wallet (w : option string) (now : Z) (r : owner_row) : owner_row :=
  {| or_user_id := r.(or_user_id); or_wallet_address := w; or_updated_at := now |}.

Definition update_effect (rm : ReadModel) (user_id : Uuid) (wallet : option string) (now : Z) : ReadModel :=
  {| meter_owner := (fun r => if bool_decide (r.(or_user_id) = user_id) then set_wallet wallet now r else r)
                      <$> rm.(meter_owner);
     user_wallet := <[user_id := {| uw_wallet_address := wallet; uw_updated_at := now |}]> rm.(user_wallet) |}.

(** [rows_affected] of the second statement of a transaction. *)
Definition rows_of (rm : ReadModel) (p : owner_row -> bool) : nat :=
  length (List.filter p (map_to_list rm.(meter_owner)).*2).

Definition update_wallet_by_user (rm : ReadModel) (user_id : Uuid) (wallet : option string) (now : Z)
    (o : io) : ReadModel * outcome pg_error nat :=
  pg_exec o rm (update_effect rm user_id wallet now)
    (rows_of rm (fun r => bool_decide (r.(or_user_id) = user_id))).

Definition clear_effect (rm : ReadModel) (user_id : Uuid) (wallet : string) (now : Z) : ReadModel :=
  {| meter_owner := (fun r => if bool_decide (r.(or_user_id) = user_id /\ r.(or_wallet_address) = Some wallet)
                              then set_wallet None now r else r) <$> rm.(meter_owner);
     user_wallet := match rm.(user_wallet) !! user_id with
                    | Some e => if bool_decide (e.(uw_wallet_address) = Some wallet)
                                then <[user_id := {| uw_wallet_address := None; uw_updated_at := now |}]> rm.(user_wallet)
                                else rm.(user_wallet)
                    | None => rm.(user_wallet)
                    end |}.

Definition clear_wallet_if_matches (rm : ReadModel) (user_id : Uuid) (wallet : string) (now : Z)
    (o : io) : ReadModel * outcome pg_error nat :=
  pg_exec o rm (clear_effect rm user_id wallet now)
    (rows_of rm (fun r => bool_decide (r.(or_user_id) = user_id /\ r.(or_wallet_address) = Some wallet))).

(** ** Backfill *)

(** [INSERT .. SELECT .. ON CONFLICT (serial_number) DO NOTHING]: the first row of a
    serial wins; the count is of the rows inserted. *)
Fixpoint insert_new (m : gmap string owner_row) (src : list (string * Uuid * option string)) (now : Z)
    : gmap string owner_row * nat :=
  match src with
  | [] => (m, 0%nat)
  | (serial, u, w) :: src =>
      let s := canonicalize_meter_serial serial in
      match m !! s with
      | Some _ => insert_new m src now
      | None =>
          let '(m, n) := insert_new (<[s := {| or_user_id := u; or_wallet_address := w; or_updated_at := now |}]> m) src now in
          (m, S n)
      end
  end.

(** The tables read by the seeds: [meters], and IAM's [users] where it exists. *)
Record seed_source : Type := {
  src_meters : list (string * Uuid);
  src_users : option (gmap Uuid (option string))
}.

(** [meters JOIN users] drops the meters of unknown users. *)
Definition legacy_rows (meters : list (string * Uuid)) (users : gmap Uuid (option string))
    : list (string * Uuid * option string) :=
  omap (fun m => match users !! m.2 with Some w => Some (m, w) | None => None end) meters.

Definition local_rows (rm : ReadModel) (meters : list (string * Uuid)) : list (string * Uuid * option string) :=
  (fun m => (m, edge_wallet rm m.2)) <$> meters.

Definition backfill_local (rm : ReadModel) (src : seed_source) (now : Z) (o : io)
    : ReadModel * outcome pg_error nat :=
  let '(m, n) := insert_new rm.(meter_owner) (local_rows rm src.(src_meters)) now in
  pg_exec o rm {| meter_owner := m; user_wallet := rm.(user_wallet) |} n.

(** [DISTINCT ON (user_id) .. ORDER BY user_id, updated_at DESC] over the rows with
    a wallet. *)
Definition later (a b : owner_row) : owner_row :=
  if a.(or_updated_at) <? b.(or_updated_at) then b else a.

Definition has_wallet (r : owner_row) : bool :=
  match r.(or_wallet_address) with Some w => negb (is_empty w) | None => false end.

Definition latest_row (rm : ReadModel) (u : Uuid) : option owner_row :=
  match List.filter (fun r => has_wallet r && bool_decide (r.(or_user_id) = u)) (map_to_list rm.(meter_owner)).*2 with
  | [] => None
  | r :: rs => Some (fold_left later rs r)
  end.

Definition edge_users (rm : ReadModel) : list Uuid :=
  remove_dups (or_user_id <$> List.filter has_wallet (map_to_list rm.(meter_owner)).*2).

Fixpoint insert_edges (rm : ReadModel) (us : list Uuid) (m : gmap Uuid edge_row) (now : Z)
    : gmap Uuid edge_row * nat :=
  match us with
  | [] => (m, 0%nat)
  | u :: us =>
      match m !! u, latest_row rm u with
      | None, Some r =>
          let '(m, n) := insert_edges rm us
            (<[u := {| uw_wallet_address := r.(or_wallet_address); uw_updated_at := now |}]> m) now in (m, S n)
      | _, _ => insert_edges rm us m now
      end
  end.

Definition backfill_user_edge (rm : ReadModel) (now : Z) (o : io) : ReadModel * outcome pg_error nat :=
  let '(m, n) := insert_edges rm (edge_users rm) rm.(user_wallet) now in
  pg_exec o rm {| meter_owner := rm.(meter_owner); user_wallet := m |} n.

(** The fates of the three statements. *)
Record backfill_io : Type := { bf_seed : io; bf_local : io; bf_edge : io }.

Definition backfill (rm : ReadModel) (src : seed_source) (now : Z) (b : backfill_io)
    : ReadModel * outcome pg_error nat :=
  let legacy :=
    match src.(src_users) with
    | None => (rm, Err UndefinedTable)
    | Some users =>
        let '(m, n) := insert_new rm.(meter_owner) (legacy_rows src.(src_meters) users) now in
        pg_exec b.(bf_seed) rm {| meter_owner := m; user_wallet := rm.(user_wallet) |} n
    end in
  let seeded :=
    match legacy with
    | (rm, Err e) => if is_undefined_table e then backfill_local rm src now b.(bf_local) else (rm, Err e)
    | r => r
    end in
  match seeded with
  | (rm, Ok n) =>
      match backfill_user_edge rm now b.(bf_edge) with
      | (rm, Ok _) => (rm, Ok n)
      | (rm, Err e) => (rm, Err e)
      | (rm, Panic) => (rm, Panic)
      end
  | r => r
  end.

(** ** Wallet repair *)

Definition users_missing_wallet (rm : ReadModel) : list Uuid :=
  take 1000 (remove_dups (or_user_id <$>
    List.filter (fun r => negb (is_someb r.(or_wallet_address))) (map_to_list rm.(meter_owner)).*2)).

Fixpoint repair_loop (rm : ReadModel) (resolve : Uuid -> outcome string (option string))
    (io_of : Uuid -> io) (now : Z) (users : list Uuid) (fixed : nat) : ReadModel * nat :=
  match users with
  | [] => (rm, fixed)
  | u :: users =>
      match resolve u with
      | Ok (Some raw) =>
          match wallet_or_none (Some raw) with
          | Some wallet =>
              match update_wallet_by_user rm u (Some wallet) now (io_of u) with
              | (rm, Ok n) => repair_loop rm resolve io_of now users (fixed + n)
              | (rm, _) => repair_loop rm resolve io_of now users fixed
              end
          | None => repair_loop rm resolve io_of now users fixed
          end
      | _ => repair_loop rm resolve io_of now users fixed
      end
  end.

Definition repair_missing_wallets (rm : ReadModel) (scan_ok : bool)
    (resolve : Uuid -> outcome string (option string)) (io_of : Uuid -> io) (now : Z)
    : ReadModel * (nat * nat) :=
  if scan_ok then
    let users := users_missing_wallet rm in
    let '(rm, fixed) := repair_loop rm resolve io_of now users 0 in (rm, (fixed, length users))
  else (rm, (0%nat, 0%nat)).
End Repo.

(** ** Events *)

Record MeterEventData : Type := {
  md_serial_number : string;
  md_user_id : Uuid;
  md_wallet_address : option string
}.

Record UserEventData : Type := {
  ud_user_id : Uuid;
  ud_wallet_address : option string;
  ud_is_primary : option bool
}.

(** The derived decoders: the envelope, and the two payloads. *)
Class FeedDecoder := {
  FeedData : Type;
  feed_event : string -> option (string * FeedData);
  meter_data : FeedData -> option MeterEventData;
  user_data : FeedData -> option UserEventData
}.

(** What a message asks of the repository. *)
Inductive feed_action : Type :=
| Upsert (serial : string) (user_id : Uuid) (wallet : option string)
| SetWallet (user_id : Uuid) (wallet : option string)
| ClearWallet (user_id : Uuid) (wallet : string)
| Ignore.

Section Dispatch.
Context {F : FeedDecoder} (canon : string -> string).

Definition is_meter_event (t : string) : bool :=
  String.eqb t "MeterRegistered" || String.eqb t "MeterUpdated".

Definition is_wallet_event (t : string) : bool :=
  String.eqb t "EmailVerified" || String.eqb t "UserWalletLinked"
  || String.eqb t "UserOnboarded" || String.eqb t "UserWalletPrimaryChanged".

Definition decide_feed (payload : string) : feed_action :=
  match feed_event payload with
  | None => Ignore
  | Some (event_type, data) =>
      if is_meter_event event_type then
        match meter_data data with
        | None => Ignore
        | Some d => Upsert d.(md_serial_number) d.(md_user_id) (wallet_or_none d.(md_wallet_address))
        end
      else if is_wallet_event event_type then
        match user_data data with
        | None => Ignore
        | Some d =>
            if bool_decide (d.(ud_is_primary) = Some false) then Ignore
            else
              let wallet := wallet_or_none d.(ud_wallet_address) in
              if negb (is_someb wallet) && String.eqb event_type "EmailVerified" then Ignore
              else SetWallet d.(ud_user_id) wallet
        end
      else if String.eqb event_type "UserWalletUnlinked" then
        match user_data data with
        | None => Ignore
        | Some d =>
            match wallet_or_none d.(ud_wallet_address) with
            | Some w => ClearWallet d.(ud_user_id) w
            | None => Ignore
            end
        end
      else Ignore
  end.

(** The statement's result is only logged. *)
Definition apply_action (rm : ReadModel) (a : feed_action) (now : Z) (o : io) : ReadModel :=
  match a with
  | Upsert s u w => (upsert_by_serial canon rm s u w now o).1
  | SetWallet u w => (update_wallet_by_user rm u w now o).1
  | ClearWallet u w => (clear_wallet_if_matches rm u w now o).1
  | Ignore => rm
  end.

Definition dispatch (rm : ReadModel) (payload : string) (now : Z) (o : io) : ReadModel :=
  apply_action rm (decide_feed payload) now o.
End Dispatch.

(** ** The consumer loop *)

Definition REBUILD_AFTER_CONSECUTIVE_ERRORS : Z := 60.

(** The error count and how many clients have been built. *)
Record consumer : Type := { consecutive_errors : Z; generation : Z }.

Inductive recv : Type :=
| RecvMessage (payload : option string)
| RecvError (rebuild_ok : bool).

Definition consumer_step (c : consumer) (r : recv) : consumer :=
  match r with
  | RecvMessage _ => {| consecutive_errors := 0; generation := c.(generation) |}
  | RecvError rebuild_ok =>
      let n := c.(consecutive_errors) + 1 in
      if REBUILD_AFTER_CONSECUTIVE_ERRORS <=? n
      then {| consecutive_errors := 0;
              generation := if rebuild_ok : bool then c.(generation) + 1 else c.(generation) |}
      else {| consecutive_errors := n; generation := c.(generation) |}
  end.

(** ** The gate *)

Definition eq_ignore_ascii_case (a b : string) : bool := String.eqb (to_lowercase a) (to_lowercase b).

Definition feed_enabled (env : string -> option string) : bool :=
  match env "AGGREGATOR_OWNER_READMODEL_FEED" with
  | Some v => eq_ignore_ascii_case v "true" || String.eqb v "1"
  | None => false
  end.

(** The consumers to build: brokers, group and topics. *)
Definition feed_plan (env : string -> option string) (pool : bool) : list (string * string * list string) :=
  if negb (feed_enabled env) then [] else
  if negb pool then [] else
  match env "KAFKA_BOOTSTRAP_SERVERS" with
  | None => []
  | Some brokers =>
      let meter_topic := default "meter_events" (env "READMODEL_METER_TOPIC") in
      let user_topic := default "iam.user.events" (env "READMODEL_IAM_TOPIC") in
      let iam_brokers := default brokers (env "READMODEL_IAM_BROKERS") in
      if String.eqb iam_brokers brokers
      then [(brokers, "aggregator-owner-readmodel-group", [user_topic; meter_topic])]
      else [(brokers, "aggregator-owner-readmodel-meter-group", [meter_topic]);
            (iam_brokers, "aggregator-owner-readmodel-iam-group", [user_topic])]
  end.

(** [spawn_owner_readmodel_feed]: the seeded model, and the consumers that run; one
    that fails to build stops the feed before any is spawned. *)
Definition spawn_owner_readmodel_feed (canon : string -> string) (env : string -> option string)
    (pool : option ReadModel) (src : seed_source) (now : Z) (b : backfill_io)
    (builds : string -> bool) : option ReadModel * list (string * string * list string) :=
  match pool with
  | None => (None, [])
  | Some rm =>
      match feed_plan env true with
      | [] => (Some rm, [])
      | plan =>
          ((Some (backfill canon rm src now b).1),
           if forallb (fun p => builds p.1.2) plan then plan else [])
      end
  end.
