(* ===== verification/OwnerReadModelProps.v ===== *)
(** * Properties of the owner read-model

    Two models are equivalent when they agree on everything but the [updated_at]
    columns; every statement respects that equivalence. *)

From Stdlib Require Import ZArith Lia Ascii String SpecFloat.
From stdpp Require Import base gmap strings list numbers.
From S2P Require Import Prelude RustStd External Stores OwnerReadModel.

Open Scope Z_scope.
Open Scope bridge_scope.

(** ** Equality up to timestamps *)

Definition row_view (r : owner_row) : Uuid * option string := (r.(or_user_id), r.(or_wallet_address)).

#[export] Instance rm_equiv : Equiv ReadModel := fun a b =>
  row_view <$> a.(meter_owner) = row_view <$> b.(meter_owner) /\
  uw_wallet_address <$> a.(user_wallet) = uw_wallet_address <$> b.(user_wallet).

#[export] Instance rm_equivalence : Equivalence (≡@{ReadModel}).
Proof.
  split.
  - by intros a.
  - intros a b [H1 H2]. by split; symmetry.
  - intros a b c [H1 H2] [H3 H4]. split; congruence.
Qed.

Lemma equiv_owner a b s : a ≡ b -> row_view <$> a.(meter_owner) !! s = row_view <$> b.(meter_owner) !! s.
Proof. intros [H _]. rewrite <- !lookup_fmap. by rewrite H. Qed.

Lemma equiv_edge a b u : a ≡ b -> edge_wallet a u = edge_wallet b u.
Proof.
  intros [_ H]. unfold edge_wallet. assert (Hu : (uw_wallet_address <$> user_wallet a) !! u = (uw_wallet_address <$> user_wallet b) !! u) by (by rewrite H).
  rewrite !lookup_fmap in Hu. destruct (user_wallet a !! u), (user_wallet b !! u); cbn in *; congruence.
Qed.

Lemma upsert_row_view old old' u x t t' :
  row_view <$> old = row_view <$> old' ->
  row_view (upsert_row old u x t) = row_view (upsert_row old' u x t').
Proof.
  destruct old as [[]|], old' as [[]|]; cbn; try done. unfold row_view. cbn.
  intros [= -> ->]. done.
Qed.

Section Proper.
Context (canon : string -> string).

Lemma upsert_proper a b s u w t t' : a ≡ b -> upsert_effect canon a s u w t ≡ upsert_effect canon b s u w t'.
Proof.
  intros Hab. split; cbn [meter_owner user_wallet upsert_effect]; [|apply Hab].
  rewrite !fmap_insert. rewrite (equiv_edge a b u Hab). f_equal; [|apply Hab].
  apply upsert_row_view. by apply equiv_owner.
Qed.

Lemma update_row_view u w t t' r r' :
  row_view r = row_view r' ->
  row_view (if bool_decide (r.(or_user_id) = u) then set_wallet w t r else r) =
  row_view (if bool_decide (r'.(or_user_id) = u) then set_wallet w t' r' else r').
Proof. destruct r, r'. unfold row_view. cbn. intros [= -> ->]. by case_bool_decide. Qed.

Lemma fmap_view_ext (f g : owner_row -> owner_row) (m m' : gmap string owner_row) :
  row_view <$> m = row_view <$> m' ->
  (forall r r', row_view r = row_view r' -> row_view (f r) = row_view (g r')) ->
  row_view <$> (f <$> m) = row_view <$> (g <$> m').
Proof.
  intros Hm Hf. apply map_eq. intros k. assert (Hk : (row_view <$> m) !! k = (row_view <$> m') !! k) by (by rewrite Hm).
  rewrite !lookup_fmap in *. destruct (m !! k), (m' !! k); cbn in *; try done. f_equal. apply Hf. congruence.
Qed.

Lemma update_proper a b u w t t' : a ≡ b -> update_effect a u w t ≡ update_effect b u w t'.
Proof.
  intros Hab. split; cbn [meter_owner user_wallet update_effect].
  - apply fmap_view_ext; [apply Hab|]. intros r r'. apply update_row_view.
  - rewrite !fmap_insert. cbn. f_equal. apply Hab.
Qed.

Lemma clear_proper a b u w t t' : a ≡ b -> clear_effect a u w t ≡ clear_effect b u w t'.
Proof.
  intros Hab. split; cbn [meter_owner user_wallet clear_effect].
  - apply fmap_view_ext; [apply Hab|]. intros [] []. unfold row_view. cbn. intros [= -> ->].
    by case_bool_decide.
  - destruct Hab as [_ H]. assert (Hu : (uw_wallet_address <$> user_wallet a) !! u = (uw_wallet_address <$> user_wallet b) !! u) by (by rewrite H).
    rewrite !lookup_fmap in Hu. destruct (user_wallet a !! u) as [[]|], (user_wallet b !! u) as [[]|]; cbn in *; try done.
    injection Hu as ->. case_bool_decide; [|done]. rewrite !fmap_insert. cbn. by f_equal.
Qed.

Lemma apply_proper a b x t t' : a ≡ b -> apply_action canon a x t IoOk ≡ apply_action canon b x t' IoOk.
Proof.
  destruct x; cbn; intros; [by apply upsert_proper|by apply update_proper|by apply clear_proper|done].
Qed.

(** ** Arrival order *)

Definition wallet_free (x : feed_action) : Prop := match x with Upsert _ _ None => True | _ => False end.
Definition wallet_event (x : feed_action) : Prop := match x with SetWallet _ _ => True | _ => False end.

Lemma edge_update rm u w t u' :
  edge_wallet (update_effect rm u w t) u' = if bool_decide (u = u') then w else edge_wallet rm u'.
Proof.
  unfold edge_wallet. cbn [user_wallet update_effect]. case_bool_decide as H.
  - subst. by rewrite lookup_insert_eq.
  - by rewrite lookup_insert_ne.
Qed.

(** A registration without a wallet and a wallet event commute. *)
Lemma upsert_update_commute rm s u v w t1 t2 t3 t4 :
  update_effect (upsert_effect canon rm s u None t1) v w t2 ≡
  upsert_effect canon (update_effect rm v w t3) s u None t4.
Proof.
  split; cbn [meter_owner user_wallet update_effect upsert_effect coalesce].
  - rewrite edge_update. cbn [meter_owner update_effect]. rewrite lookup_fmap.
    apply map_eq. intros k. rewrite !lookup_fmap. destruct (decide (k = canon s)) as [->|Hk].
    + rewrite !lookup_insert_eq. cbn. f_equal.
      destruct (meter_owner rm !! canon s) as [[ru rw rt]|]; unfold row_view, upsert_row; cbn;
        repeat (case_bool_decide; subst; cbn); try done; try congruence.
      by destruct w.
    + rewrite !lookup_insert_ne by done. rewrite lookup_fmap. destruct (meter_owner rm !! k) as [r|]; [|done].
      cbn. f_equal. by apply update_row_view.
  - by rewrite !fmap_insert.
Qed.

Definition run (rm : ReadModel) (l : list (feed_action * Z)) : ReadModel :=
  fold_left (fun rm x => apply_action canon rm x.1 x.2 IoOk) l rm.

Lemma run_proper a b l l' : a ≡ b -> l.*1 = l'.*1 -> run a l ≡ run b l'.
Proof.
  revert a b l'. induction l as [|[x t] l IH]; intros a b [|[y t'] l'] Hab Heq; cbn in Heq; try done.
  injection Heq as -> Heq. cbn. apply IH; [|done]. by apply apply_proper.
Qed.

Lemma apply_commute rm m x t1 t2 t3 t4 :
  wallet_free m -> wallet_event x ->
  apply_action canon (apply_action canon rm m t1 IoOk) x t2 IoOk ≡
  apply_action canon (apply_action canon rm x t3 IoOk) m t4 IoOk.
Proof.
  destruct m as [s u [w|]| | |], x; cbn; try done. intros _ _. apply upsert_update_commute.
Qed.

Lemma run_commute rm ms x t t' :
  Forall (fun m => wallet_free m.1) ms -> wallet_event x ->
  apply_action canon (run rm ms) x t IoOk ≡ run (apply_action canon rm x t' IoOk) ms.
Proof.
  intros Hms Hx. revert rm. induction Hms as [|[m tm] ms Hm Hms IH]; intros rm; [by apply apply_proper|].
  cbn. change (apply_action canon (run (apply_action canon rm m tm IoOk) ms) x t IoOk ≡
               run (apply_action canon (apply_action canon rm x t' IoOk) m tm IoOk) ms).
  rewrite (IH (apply_action canon rm m tm IoOk)). apply run_proper; [|done]. by apply apply_commute.
Qed.

Inductive interleave {A} : list A -> list A -> list A -> Prop :=
| il_nil : interleave [] [] []
| il_left x l1 l2 l : interleave l1 l2 l -> interleave (x :: l1) l2 (x :: l)
| il_right x l1 l2 l : interleave l1 l2 l -> interleave l1 (x :: l2) (x :: l).

End Proper.

(** ** Unlinked wallets stay unlinked *)

Section Unlink.
Context (canon : string -> string).

(** No row and no edge of [u] carries [w]. *)
Definition detached (u : Uuid) (w : string) (rm : ReadModel) : Prop :=
  (forall s r, rm.(meter_owner) !! s = Some r -> r.(or_user_id) = u -> r.(or_wallet_address) <> Some w) /\
  edge_wallet rm u <> Some w.

(** An event that does not itself assign [w] to [u]. *)
Definition harmless (u : Uuid) (w : string) (x : feed_action) : Prop :=
  match x with
  | Upsert _ u' w' => u' = u -> w' <> Some w
  | SetWallet u' w' => u' = u -> w' <> Some w
  | _ => True
  end.

Lemma coalesce_ne {A} (a b : option A) w : a <> Some w -> b <> Some w -> coalesce a b <> Some w.
Proof. by destruct a. Qed.

Lemma detached_upsert u w rm s u' w' t :
  detached u w rm -> (u' = u -> w' <> Some w) -> detached u w (upsert_effect canon rm s u' w' t).
Proof.
  intros [Hrows Hedge] Hh. split; [|done]. intros k r. cbn [meter_owner upsert_effect].
  intros [[<- <-]|[_ Hk]]%lookup_insert_Some Hu; [|by eapply Hrows]. cbn in Hu. subst u'. cbn.
  pose proof (coalesce_ne w' (edge_wallet rm u) w (Hh eq_refl) Hedge) as Hx.
  destruct (meter_owner rm !! canon s) as [r|] eqn:Hr; [|done].
  case_bool_decide; [|done]. apply coalesce_ne; [by eapply Hrows|done].
Qed.

Lemma detached_update u w rm u' w' t :
  detached u w rm -> (u' = u -> w' <> Some w) -> detached u w (update_effect rm u' w' t).
Proof.
  intros [Hrows Hedge] Hh. split.
  - intros k r. cbn [meter_owner update_effect]. rewrite lookup_fmap. intros (r0 & Hr0 & ->)%fmap_Some_1.
    case_bool_decide; cbn; [|by eapply Hrows]. intros <-. apply Hh. congruence.
  - rewrite edge_update. case_bool_decide; [subst; by apply Hh|done].
Qed.

Lemma clear_detaches u w rm t : detached u w (clear_effect rm u w t).
Proof.
  split.
  - intros k r. cbn [meter_owner clear_effect]. rewrite lookup_fmap. intros (r0 & Hr0 & ->)%fmap_Some_1.
    case_bool_decide; cbn; [done|]. intros Hu Hw. auto.
  - unfold edge_wallet. cbn [user_wallet clear_effect].
    destruct (user_wallet rm !! u) as [e|] eqn:He; [|by rewrite He].
    case_bool_decide as Hw; [by rewrite lookup_insert_eq|]. rewrite He. by cbn.
Qed.

Lemma detached_clear u w rm u' w' t : detached u w rm -> detached u w (clear_effect rm u' w' t).
Proof.
  intros [Hrows Hedge]. split.
  - intros k r. cbn [meter_owner clear_effect]. rewrite lookup_fmap. intros (r0 & Hr0 & ->)%fmap_Some_1.
    case_bool_decide; cbn; [done|by eapply Hrows].
  - unfold edge_wallet in *. cbn [user_wallet clear_effect].
    destruct (user_wallet rm !! u') as [e|] eqn:He; [|done]. case_bool_decide; [|done].
    destruct (decide (u' = u)) as [->|]; [by rewrite lookup_insert_eq|by rewrite lookup_insert_ne].
Qed.

Lemma detached_apply u w rm x t o :
  detached u w rm -> harmless u w x -> detached u w (apply_action canon rm x t o).
Proof.
  destruct x; cbn; unfold pg_exec; cbn; intros Hd Hh; try done; destruct (io_applies o); try done.
  - by apply detached_upsert.
  - by apply detached_update.
  - by apply detached_clear.
Qed.

(** Once the unlink of a user's wallet has been applied, no sequence of
    later events makes any meter of that user pay out to it, whatever fails or is
    redelivered, unless an event assigns that wallet to the user again. *)
Theorem unlink_is_final rm u w t o l :
  io_applies o = true ->
  Forall (fun x : feed_action * Z * io => harmless u w x.1.1) l ->
  detached u w (fold_left (fun rm x => apply_action canon rm x.1.1 x.1.2 x.2) l
                  (apply_action canon rm (ClearWallet u w) t o)).
Proof.
  intros Ho Hl.
  assert (Hd : detached u w (apply_action canon rm (ClearWallet u w) t o)).
  { cbn. unfold pg_exec. rewrite Ho. apply clear_detaches. }
  revert Hd. generalize (apply_action canon rm (ClearWallet u w) t o) as rm0.
  induction Hl as [|[[x tx] ox] l Hx Hl IH]; intros rm0 Hd; [done|]. cbn. apply IH. by apply detached_apply.
Qed.

(** A meter event of the same owner never replaces a wallet that is set, so a
    redelivered registration cannot revert the wallet IAM moved to. *)
Lemma redelivery_keeps_wallet rm s u w t o k r x :
  rm.(meter_owner) !! k = Some r -> r.(or_wallet_address) = Some x ->
  (k = canon s -> r.(or_user_id) = u) ->
  exists r', (upsert_by_serial canon rm s u w t o).1.(meter_owner) !! k = Some r' /\
    r'.(or_user_id) = r.(or_user_id) /\ r'.(or_wallet_address) = Some x.
Proof.
  intros Hk Hx Hsame. unfold upsert_by_serial, pg_exec. cbn [fst].
  destruct (io_applies o); [|by exists r]. cbn [meter_owner upsert_effect].
  destruct (decide (k = canon s)) as [->|Hne].
  - rewrite lookup_insert_eq, Hk. eexists. split; [done|]. cbn.
    rewrite bool_decide_true by by apply Hsame. rewrite Hx. cbn. by rewrite (Hsame eq_refl).
  - rewrite lookup_insert_ne by done. by exists r.
Qed.
End Unlink.

(** ** Backfill *)

Section Backfill.
Context (canon : string -> string).

Lemma insert_new_spec m src now m' n :
  insert_new canon m src now = (m', n) ->
  m ⊆ m' /\ forall s u w, (s, u, w) ∈ src -> is_Some (m' !! canon s).
Proof.
  revert m m' n. induction src as [|[[s u] w] src IH]; intros m m' n; cbn [insert_new].
  { intros [= <- <-]. split; [done|]. set_solver. }
  destruct (m !! canon s) as [r|] eqn:Hs.
  - intros H. destruct (IH _ _ _ H) as [Hsub Hall]. split; [done|].
    intros s' u' w' [[= -> -> ->]|Hin]%elem_of_cons; [|by eauto].
    exists r. by eapply lookup_weaken.
  - destruct (insert_new canon _ src now) as [m1 n1] eqn:H1. intros [= <- <-].
    destruct (IH _ _ _ H1) as [Hsub Hall]. split.
    + etransitivity; [|exact Hsub]. by apply insert_subseteq.
    + intros s' u' w' [[= -> -> ->]|Hin]%elem_of_cons; [|by eauto].
      eexists. eapply lookup_weaken; [|exact Hsub]. apply lookup_insert_eq.
Qed.

Lemma insert_new_present m src now :
  (forall s u w, (s, u, w) ∈ src -> is_Some (m !! canon s)) -> insert_new canon m src now = (m, 0%nat).
Proof.
  induction src as [|[[s u] w] src IH]; intros Hall; [done|]. cbn [insert_new].
  destruct (Hall s u w) as [r ->]; [left|]. apply IH. intros s' u' w' Hin. eapply Hall. by right.
Qed.

Lemma insert_edges_spec rm us m now m' n :
  insert_edges rm us m now = (m', n) ->
  m ⊆ m' /\ forall u, u ∈ us -> is_Some (latest_row rm u) -> is_Some (m' !! u).
Proof.
  revert m m' n. induction us as [|u us IH]; intros m m' n; cbn [insert_edges].
  { intros [= <- <-]. split; [done|]. set_solver. }
  destruct (m !! u) as [e|] eqn:Hu; [|destruct (latest_row rm u) as [r|] eqn:Hl].
  - intros H. destruct (IH _ _ _ H) as [Hsub Hall]. split; [done|].
    intros v [->|Hin]%elem_of_cons Hv; [|by auto]. exists e. by eapply lookup_weaken.
  - destruct (insert_edges rm us _ now) as [m1 n1] eqn:H1. intros [= <- <-].
    destruct (IH _ _ _ H1) as [Hsub Hall]. split.
    + etransitivity; [|exact Hsub]. by apply insert_subseteq.
    + intros v [->|Hin]%elem_of_cons Hv; [|by auto].
      eexists. eapply lookup_weaken; [|exact Hsub]. apply lookup_insert_eq.
  - intros H. destruct (IH _ _ _ H) as [Hsub Hall]. split; [done|].
    intros v [->|Hin]%elem_of_cons Hv; [|by auto]. rewrite Hl in Hv. by destruct Hv.
Qed.

Lemma insert_edges_present rm us m now :
  (forall u, u ∈ us -> is_Some (latest_row rm u) -> is_Some (m !! u)) -> insert_edges rm us m now = (m, 0%nat).
Proof.
  induction us as [|u us IH]; intros Hall; [done|]. cbn [insert_edges].
  destruct (m !! u) as [e|] eqn:Hu; [|destruct (latest_row rm u) as [r|] eqn:Hl].
  - apply IH. intros v Hv. apply Hall. by right.
  - destruct (Hall u) as [x Hx]; [left|by eexists|]. congruence.
  - apply IH. intros v Hv. apply Hall. by right.
Qed.

Definition all_ok : backfill_io := {| bf_seed := IoOk; bf_local := IoOk; bf_edge := IoOk |}.

(** The rows a backfill would insert, by the source it picks. *)
Definition seed_rows (rm : ReadModel) (src : seed_source) : list (string * Uuid * option string) :=
  match src.(src_users) with
  | Some users => legacy_rows src.(src_meters) users
  | None => local_rows rm src.(src_meters)
  end.

Lemma backfill_unfold rm src now :
  backfill canon rm src now all_ok =
  let '(m, n) := insert_new canon rm.(meter_owner) (seed_rows rm src) now in
  let rm1 := {| meter_owner := m; user_wallet := rm.(user_wallet) |} in
  ({| meter_owner := m;
      user_wallet := (insert_edges rm1 (edge_users rm1) rm.(user_wallet) now).1 |}, Ok n).
Proof.
  unfold backfill, seed_rows, backfill_local, pg_exec.
  destruct (src_users src) as [users|]; cbn.
  - destruct (insert_new canon (meter_owner rm) _ now) as [m n]. cbn. unfold backfill_user_edge, pg_exec.
    cbn. by destruct (insert_edges _ _ _ _).
  - destruct (insert_new canon (meter_owner rm) _ now) as [m n]. cbn. unfold backfill_user_edge, pg_exec.
    cbn. by destruct (insert_edges _ _ _ _).
Qed.

Lemma seed_keys rm rm' src s u w :
  (s, u, w) ∈ seed_rows rm' src -> exists w', (s, u, w') ∈ seed_rows rm src.
Proof.
  unfold seed_rows. destruct (src_users src) as [users|]; [by eauto|]. unfold local_rows.
  intros ([s' u'] & [= -> -> ->] & Hin)%list_elem_of_fmap. eexists. apply list_elem_of_fmap. by exists (s', u').
Qed.

(** The first-boot backfill keeps every row and edge already there
    exactly as it is, covers every meter of its source, and is idempotent: a second
    run inserts nothing and changes nothing. *)
Theorem backfill_idempotent rm src now now' :
  let r := backfill canon rm src now all_ok in
  rm.(meter_owner) ⊆ r.1.(meter_owner) /\ rm.(user_wallet) ⊆ r.1.(user_wallet) /\
  (forall s u w, (s, u, w) ∈ seed_rows rm src -> is_Some (r.1.(meter_owner) !! canon s)) /\
  backfill canon r.1 src now' all_ok = (r.1, Ok 0%nat).
Proof.
  cbv zeta. rewrite (backfill_unfold rm).
  destruct (insert_new canon (meter_owner rm) (seed_rows rm src) now) as [m n] eqn:Hm.
  destruct (insert_new_spec _ _ _ _ _ Hm) as [Hsub Hall]. cbn [fst meter_owner user_wallet].
  set (rm1 := {| meter_owner := m; user_wallet := user_wallet rm |}).
  destruct (insert_edges rm1 (edge_users rm1) (user_wallet rm) now) as [e k] eqn:He.
  destruct (insert_edges_spec _ _ _ _ _ _ He) as [Hesub Heall]. cbn [fst].
  split_and!; [done|done|done|].
  rewrite backfill_unfold. cbn [meter_owner user_wallet].
  rewrite insert_new_present.
  - set (rm2 := {| meter_owner := m; user_wallet := e |}).
    change (edge_users rm2) with (edge_users rm1).
    rewrite (insert_edges_present rm2); [done|].
    intros u Hu Hl. apply Heall; [done|]. exact Hl.
  - intros s u w Hin. apply (seed_keys rm) in Hin as [w' Hin]. by eapply Hall.
Qed.
End Backfill.

(** ** The consumer's error count *)

(** The count stays below the threshold: a rebuild is tried exactly at the sixtieth
    failure in a row. *)
Lemma errors_bounded c rs :
  0 <= c.(consecutive_errors) < REBUILD_AFTER_CONSECUTIVE_ERRORS ->
  0 <= (fold_left consumer_step rs c).(consecutive_errors) < REBUILD_AFTER_CONSECUTIVE_ERRORS.
Proof.
  revert c. induction rs as [|r rs IH]; intros c Hc; [done|]. cbn. apply IH.
  destruct r as [p|b]; cbn; [unfold REBUILD_AFTER_CONSECUTIVE_ERRORS; lia|].
  case_match; breflect; cbn; [unfold REBUILD_AFTER_CONSECUTIVE_ERRORS; lia|lia].
Qed.

(** ** Concrete runs *)

Module FeedRun.
Definition canon (s : string) : string := s.
Definition empty : ReadModel := {| meter_owner := ∅; user_wallet := ∅ |}.
Definition wallet_of (rm : ReadModel) (s : string) : option string := rm.(meter_owner) !! s ≫= or_wallet_address.

Definition ms := [Upsert "m1" 1%N None; Upsert "m2" 1%N None].
Definition xs := [SetWallet 1%N (Some "W1"); SetWallet 1%N (Some "W2")].
Definition mixed := [(SetWallet 1%N (Some "W1"), 1); (Upsert "m1" 1%N None, 2);
                     (SetWallet 1%N (Some "W2"), 3); (Upsert "m2" 1%N None, 4)].
Definition serial := [(Upsert "m1" 1%N None, 1); (Upsert "m2" 1%N None, 2);
                      (SetWallet 1%N (Some "W1"), 3); (SetWallet 1%N (Some "W2"), 4)].


Lemma unlink_is_final_witness :
  detached 1%N "W2" (apply_action canon (apply_action canon (run canon empty mixed) (ClearWallet 1%N "W2") 5 IoErrApplied)
                       (Upsert "m1" 1%N None) 6 IoOk).
Proof.
  apply (unlink_is_final canon (run canon empty mixed) 1%N "W2" 5 IoErrApplied [(Upsert "m1" 1%N None, 6, IoOk)]);
    [done|]. by repeat constructor.
Defined.

(** A registration that carries the wallet of its time, consumed after IAM moved the
    primary and before any row of the user exists, pays out to the old wallet; in
    the other order the new one wins. *)
Lemma registration_snapshot_wins :
  let reg := Upsert "m1" 1%N (Some "OLD") in
  let moved := SetWallet 1%N (Some "NEW") in
  wallet_of (run canon empty [(moved, 1); (reg, 2)]) "m1" = Some "OLD" /\
  wallet_of (run canon empty [(reg, 1); (moved, 2)]) "m1" = Some "NEW".
Proof. by vm_compute. Qed.

(** A redelivered registration puts an unlinked wallet back. *)
Lemma redelivered_registration_relinks :
  let reg := Upsert "m1" 1%N (Some "W") in
  wallet_of (run canon empty [(reg, 1); (ClearWallet 1%N "W", 2); (reg, 3)]) "m1" = Some "W".
Proof. by vm_compute. Qed.
End FeedRun.
