(* ===== verification/Sinks.v ===== *)
(** * The batching sinks (aggregator-persistence/src/infra: pg_readings.rs, influxdb.rs)

    Both history sinks have the same shape: [record] tries to enqueue on a bounded
    channel and never blocks, a background task moves items into a batch and flushes
    it when it is full, on a tick, and when the channel closes.  The task is one
    definition, generic in what a flush does; the two sinks are its instances.  The
    Postgres sink also carries the write-backs of the settlement. *)

From Stdlib Require Import ZArith Lia Ascii String SpecFloat.
From stdpp Require Import base gmap strings list numbers.
From S2P Require Import Prelude RustStd External Models Aggregator Stores Settlement Router OwnerReadModel.

Open Scope Z_scope.
Open Scope bridge_scope.

(** ** The writer task *)

Definition CHANNEL_CAPACITY : nat := 10000.
Definition BATCH_SIZE : nat := 500.

Section Writer.
(** [deliver]: the effect of one flush on the sink; [Fate] is what happens to it. *)
Context (capacity batch_size : nat).
Context {Item Sink Fate : Type} (deliver : Sink -> list Item -> Fate -> Sink).

Record writer : Type := {
  w_queue : list Item;      (* the channel *)
  w_closed : bool;          (* every sender is gone *)
  w_batch : list Item;
  w_running : bool;         (* the task has not returned *)
  w_sink : Sink
}.

Definition writer_start (s : Sink) : writer :=
  {| w_queue := []; w_closed := false; w_batch := []; w_running := true; w_sink := s |}.

(** [try_send]: refused when the queue is full or the receiver is gone. *)
Definition record (w : writer) (x : Item) : writer * bool :=
  if w.(w_running) && (length w.(w_queue) <? capacity)%nat then
    ({| w_queue := w.(w_queue) ++ [x]; w_closed := w.(w_closed); w_batch := w.(w_batch);
        w_running := w.(w_running); w_sink := w.(w_sink) |}, true)
  else (w, false).

(** The batch is emptied whatever becomes of it. *)
Definition flush (w : writer) (f : Fate) : writer :=
  {| w_queue := w.(w_queue); w_closed := w.(w_closed); w_batch := [];
     w_running := w.(w_running); w_sink := deliver w.(w_sink) w.(w_batch) f |}.

Definition take_in (w : writer) (x : Item) (rest : list Item) : writer :=
  {| w_queue := rest; w_closed := w.(w_closed); w_batch := w.(w_batch) ++ [x];
     w_running := w.(w_running); w_sink := w.(w_sink) |}.

Definition stop (w : writer) : writer :=
  {| w_queue := w.(w_queue); w_closed := w.(w_closed); w_batch := w.(w_batch);
     w_running := false; w_sink := w.(w_sink) |}.

(** What can happen next: a caller records, the last sender goes away, or the task
    wakes up on the channel or on its ticker. *)
Inductive event : Type :=
| Record_ (x : Item)
| Close
| Receive (f : Fate)
| Tick (f : Fate).

(** One turn of [run_writer] on the channel: [None] when it would wait. *)
Definition receive (w : writer) (f : Fate) : option writer :=
  match w.(w_queue) with
  | x :: rest =>
      let w := take_in w x rest in
      Some (if (batch_size <=? length w.(w_batch))%nat then flush w f else w)
  | [] => if w.(w_closed) then Some (stop (flush w f)) else None
  end.

Definition tick (w : writer) (f : Fate) : writer :=
  match w.(w_batch) with [] => w | _ => flush w f end.

(** The log of a run: the items accepted and the batches flushed, in order. *)
Record log : Type := {
  l_accepted : list Item;
  l_flushed : list (list Item * Fate)
}.

Definition log_flush (l : log) (b : list Item) (f : Fate) : log :=
  {| l_accepted := l.(l_accepted); l_flushed := l.(l_flushed) ++ [(b, f)] |}.

(** One event, with the log of what it accepted or flushed; [None]: not enabled. *)
Definition step (wl : writer * log) (e : event) : option (writer * log) :=
  let '(w, l) := wl in
  match e with
  | Record_ x =>
      if w.(w_closed) then None else
      let '(w, ok) := record w x in
      Some (w, if ok then {| l_accepted := l.(l_accepted) ++ [x]; l_flushed := l.(l_flushed) |} else l)
  | Close =>
      Some ({| w_queue := w.(w_queue); w_closed := true; w_batch := w.(w_batch);
               w_running := w.(w_running); w_sink := w.(w_sink) |}, l)
  | Receive f =>
      if w.(w_running) then
        w' ← receive w f;
        Some (w', match w.(w_queue) with
                  | x :: _ => if (batch_size <=? length (w.(w_batch) ++ [x]))%nat
                              then log_flush l (w.(w_batch) ++ [x]) f else l
                  | [] => log_flush l w.(w_batch) f
                  end)
      else None
  | Tick f =>
      if w.(w_running) then
        Some (tick w f, match w.(w_batch) with [] => l | b => log_flush l b f end)
      else None
  end.

Fixpoint run (wl : writer * log) (es : list event) : option (writer * log) :=
  match es with
  | [] => Some wl
  | e :: es => wl ← step wl e; run wl es
  end.

Definition fresh_run (s : Sink) (es : list event) : option (writer * log) :=
  run (writer_start s, {| l_accepted := []; l_flushed := [] |}) es.
End Writer.

Arguments event : clear implicits.
Arguments log : clear implicits.
Arguments writer : clear implicits.

(** ** The Postgres readings sink *)

Definition WINDOW_MS : Z := 15 * 60 * 1000.

Section PgReadings.
Context {U : UuidText}.

(** A UUID in any spelling becomes its hyphenated form; other serials are trimmed. *)
Definition canonicalize_serial (raw : string) : string :=
  let trimmed := trim raw in
  match uuid_parse trimmed with
  | Some u => uuid_show u
  | None => trimmed
  end.

(** [to_timestamp(ms / 1000.0)] of Postgres, in microseconds, and whether the
    columns of the table accept a row. *)
Context (to_timestamp : Z -> Z).

(** A row of [meter_readings]: the columns the sink writes. *)
Record reading_rec : Type := {
  mr_meter_serial : string;
  mr_user_id : Uuid;
  mr_wallet_address : string;
  mr_reading_timestamp : Z;
  mr_energy_generated : f64;
  mr_energy_consumed : f64;
  mr_surplus_energy : f64;
  mr_deficit_energy : f64;
  mr_kwh_amount : f64;
  mr_voltage : option f64;
  mr_power_factor : option f64;
  mr_frequency : option f64;
  mr_minted : bool;
  mr_on_chain_confirmed : bool;
  mr_on_chain_confirmed_at : option Z;
  mr_on_chain_slot : option Z;
  mr_mint_tx_signature : option string;
  mr_blockchain_status : string
}.

Context (columns_accept : reading_rec -> bool).

(** The owner join: the read model on the dedicated database, [meters JOIN users]
    on the shared one (both keyed by serial). *)
Definition owner_join (use_read_model : bool) (rm : ReadModel)
    (shared : string -> option (Uuid * option string)) (serial : string)
    : option (Uuid * option string) :=
  if use_read_model then (fun r => (r.(or_user_id), r.(or_wallet_address))) <$> rm.(meter_owner) !! serial
  else shared serial.

(** The row the [SELECT] of the insert produces, if the join keeps it. *)
Definition joined_row (owner : string -> option (Uuid * option string)) (r : ReadingRow)
    : option reading_rec :=
  let serial := canonicalize_serial r.(rr_serial_number) in
  match owner serial with
  | Some (user_id, Some wallet) =>
      Some {| mr_meter_serial := serial; mr_user_id := user_id; mr_wallet_address := wallet;
              mr_reading_timestamp := to_timestamp r.(rr_timestamp_ms);
              mr_energy_generated := r.(rr_generated_kwh); mr_energy_consumed := r.(rr_consumed_kwh);
              mr_surplus_energy := r.(rr_surplus_kwh); mr_deficit_energy := r.(rr_deficit_kwh);
              mr_kwh_amount := r.(rr_generated_kwh);
              mr_voltage := r.(rr_voltage); mr_power_factor := r.(rr_power_factor);
              mr_frequency := r.(rr_frequency);
              mr_minted := false; mr_on_chain_confirmed := false; mr_on_chain_confirmed_at := None;
              mr_on_chain_slot := None; mr_mint_tx_signature := None;
              mr_blockchain_status := "pending" |}
  | _ => None
  end.

(** The table and the counter of readings dropped for want of an owner. *)
Record pg_sink : Type := {
  pg_table : list reading_rec;
  pg_unattributed : Z
}.

Definition unattributed_count (submitted inserted : Z) : Z := sat_sub_u64 submitted inserted.

(** One statement for the whole batch: a row the columns refuse fails all of it. *)
Definition insert_batch (owner : string -> option (Uuid * option string)) (s : pg_sink)
    (rows : list ReadingRow) (o : io) : pg_sink * outcome pg_error unit :=
  match rows with
  | [] => (s, Ok ())
  | _ =>
      let new := omap (joined_row owner) rows in
      if forallb columns_accept new then
        let table := if io_applies o then s.(pg_table) ++ new else s.(pg_table) in
        if io_succeeds o then
          ({| pg_table := table;
              pg_unattributed := s.(pg_unattributed)
                + unattributed_count (Z.of_nat (length rows)) (Z.of_nat (length new)) |}, Ok ())
        else ({| pg_table := table; pg_unattributed := s.(pg_unattributed) |}, Err OtherDbError)
      else (s, Err OtherDbError)
  end.

(** A flush reads the owner tables as they are; the error is logged. *)
Record pg_fate : Type := {
  pf_owner : string -> option (Uuid * option string);
  pf_io : io
}.

Definition pg_flush (s : pg_sink) (rows : list ReadingRow) (f : pg_fate) : pg_sink :=
  (insert_batch f.(pf_owner) s rows f.(pf_io)).1.

(** ** Write-backs *)

Definition in_window (serial : string) (window_start_ms : Z) (r : reading_rec) : bool :=
  String.eqb r.(mr_meter_serial) (canonicalize_serial serial) &&
  (to_timestamp window_start_ms <=? r.(mr_reading_timestamp)) &&
  (r.(mr_reading_timestamp) <? to_timestamp (wrap_i64 (window_start_ms + WINDOW_MS))).

Definition set_minted (tx_signature : string) (slot now : Z) (r : reading_rec) : reading_rec := {|
  mr_meter_serial := r.(mr_meter_serial); mr_user_id := r.(mr_user_id);
  mr_wallet_address := r.(mr_wallet_address); mr_reading_timestamp := r.(mr_reading_timestamp);
  mr_energy_generated := r.(mr_energy_generated); mr_energy_consumed := r.(mr_energy_consumed);
  mr_surplus_energy := r.(mr_surplus_energy); mr_deficit_energy := r.(mr_deficit_energy);
  mr_kwh_amount := r.(mr_kwh_amount); mr_voltage := r.(mr_voltage);
  mr_power_factor := r.(mr_power_factor); mr_frequency := r.(mr_frequency);
  mr_minted := true; mr_on_chain_confirmed := true; mr_on_chain_confirmed_at := Some now;
  mr_on_chain_slot := Some (wrap_i64 slot); mr_mint_tx_signature := Some tx_signature;
  mr_blockchain_status := "confirmed"
|}.

Definition set_no_surplus (r : reading_rec) : reading_rec := {|
  mr_meter_serial := r.(mr_meter_serial); mr_user_id := r.(mr_user_id);
  mr_wallet_address := r.(mr_wallet_address); mr_reading_timestamp := r.(mr_reading_timestamp);
  mr_energy_generated := r.(mr_energy_generated); mr_energy_consumed := r.(mr_energy_consumed);
  mr_surplus_energy := r.(mr_surplus_energy); mr_deficit_energy := r.(mr_deficit_energy);
  mr_kwh_amount := r.(mr_kwh_amount); mr_voltage := r.(mr_voltage);
  mr_power_factor := r.(mr_power_factor); mr_frequency := r.(mr_frequency);
  mr_minted := r.(mr_minted); mr_on_chain_confirmed := r.(mr_on_chain_confirmed);
  mr_on_chain_confirmed_at := r.(mr_on_chain_confirmed_at);
  mr_on_chain_slot := r.(mr_on_chain_slot); mr_mint_tx_signature := r.(mr_mint_tx_signature);
  mr_blockchain_status := "no_surplus"
|}.

(** [UPDATE .. SET f WHERE p], with its fate; the result counts the rows. *)
Definition update_where (p : reading_rec -> bool) (f : reading_rec -> reading_rec)
    (t : list reading_rec) (o : io) : list reading_rec * outcome pg_error nat :=
  (if io_applies o then (fun r => if p r then f r else r) <$> t else t,
   if io_succeeds o then Ok (length (List.filter p t)) else Err OtherDbError).

Definition mark_minted (t : list reading_rec) (meter_serial : string) (window_start_ms : Z)
    (tx_signature : string) (slot now : Z) (o : io) : list reading_rec * outcome pg_error nat :=
  update_where (fun r => in_window meter_serial window_start_ms r && negb r.(mr_minted))
    (set_minted tx_signature slot now) t o.

Definition mark_no_surplus (t : list reading_rec) (meter_serial : string) (window_start_ms : Z)
    (o : io) : list reading_rec * outcome pg_error nat :=
  update_where (fun r => in_window meter_serial window_start_ms r && negb r.(mr_minted) &&
                         String.eqb r.(mr_blockchain_status) "pending")
    set_no_surplus t o.

(** The sink is started only when asked for and when a pool exists. *)
Definition pg_start (env : string -> option string) (pool : bool) : bool :=
  match env "AGGREGATOR_PG_READINGS" with
  | Some v => (eq_ignore_ascii_case v "true" || String.eqb v "1") && pool
  | None => false
  end.
End PgReadings.

(** ** The InfluxDB sink *)

(** [DataPoint::builder(..).build()]: measurement, tags and fields in the order they
    are set, timestamp; [None] is a refused point. *)
Class InfluxClient := {
  DataPoint : Type;
  dp_build : string -> list (string * string) -> list (string * f64) -> Z -> option DataPoint
}.

Section Influx.
Context {I : InfluxClient}.

Definition point_tags (p : TelemetryPoint) : list (string * string) :=
  [("device_id", p.(tp_device_id)); ("device_type", p.(tp_device_type));
   ("serial_number", p.(tp_serial_number))]%string ++
  match p.(tp_zone_code) with Some zone => [("zone_code"%string, zone)] | None => [] end ++
  p.(tp_extra_tags).

Definition into_data_point (p : TelemetryPoint) : option DataPoint :=
  dp_build p.(tp_measurement) (point_tags p) p.(tp_fields) p.(tp_timestamp_ns).

(** Points that do not build are skipped. *)
Definition drain_to_data_points (batch : list TelemetryPoint) : list DataPoint :=
  omap into_data_point batch.

(** [o]: the fate of the one write request. *)
Definition influx_flush (bucket : list DataPoint) (batch : list TelemetryPoint) (o : io)
    : list DataPoint :=
  match batch with
  | [] => bucket
  | _ =>
      match drain_to_data_points batch with
      | [] => bucket
      | points => if io_applies o then bucket ++ points else bucket
      end
  end.

Record influx_config : Type := {
  influx_url : string; influx_org : string; influx_bucket : string; influx_token : string
}.

(** Disabled without a URL, and when the health probe fails. *)
Definition influx_connect (env : string -> option string) (healthy : influx_config -> bool)
    : option influx_config :=
  match env "INFLUXDB_URL" with
  | Some url =>
      if is_empty url then None else
      let cfg := {| influx_url := url;
                    influx_org := default "gridtokenx"%string (env "INFLUXDB_ORG");
                    influx_bucket := default "aggregator_telemetry"%string (env "INFLUXDB_BUCKET");
                    influx_token := default EmptyString (env "INFLUXDB_TOKEN") |} in
      if healthy cfg then Some cfg else None
  | None => None
  end.
End Influx.
