(* ===== verification/SinksProps.v ===== *)
(** * Properties of the batching sinks

    The writer task loses and reorders nothing it accepted; what the Postgres table
    holds after it stops; what the settlement write-backs mark. *)

From Stdlib Require Import ZArith Lia Ascii String SpecFloat.
From stdpp Require Import base gmap strings list numbers.
From S2P Require Import Prelude RustStd External Models Aggregator AggregatorProps Stores SettledWindows Settlement Router OwnerReadModel Sinks.

Open Scope Z_scope.
Open Scope bridge_scope.

(** ** The writer task *)

Section WriterProps.
Context (capacity batch_size : nat) (Hsize : (0 < batch_size)%nat).
Context {Item Sink Fate : Type} (deliver : Sink -> list Item -> Fate -> Sink).

Implicit Types (w : writer Item Sink) (l : log Item Fate) (es : list (event Item Fate)).

Definition deliver_all (s : Sink) (bs : list (list Item * Fate)) : Sink :=
  fold_left (fun s bf => deliver s bf.1 bf.2) bs s.

Record writer_inv (s : Sink) w l : Prop := {
  wi_fifo : l.(l_accepted) = concat l.(l_flushed).*1 ++ w.(w_batch) ++ w.(w_queue);
  wi_sink : w.(w_sink) = deliver_all s l.(l_flushed);
  wi_batch : (length w.(w_batch) < batch_size)%nat;
  wi_flushed : Forall (fun b => length b.1 <= batch_size)%nat l.(l_flushed);
  wi_queue : (length w.(w_queue) <= capacity)%nat;
  wi_stopped : w.(w_running) = false -> w.(w_batch) = [] /\ w.(w_queue) = []
}.

Lemma writer_inv_start s : writer_inv s (writer_start s) {| l_accepted := []; l_flushed := [] |}.
Proof. split; simpl; try done; lia. Qed.

Lemma concat_snoc {A} (bs : list (list A)) b : concat (bs ++ [b]) = concat bs ++ b.
Proof. rewrite concat_app. simpl. by rewrite app_nil_r. Qed.

(** A flush moves the batch to the log, in order. *)
Lemma writer_inv_flush s w l f :
  l.(l_accepted) = concat l.(l_flushed).*1 ++ w.(w_batch) ++ w.(w_queue) ->
  w.(w_sink) = deliver_all s l.(l_flushed) ->
  (length w.(w_batch) <= batch_size)%nat ->
  Forall (fun b => length b.1 <= batch_size)%nat l.(l_flushed) ->
  (length w.(w_queue) <= capacity)%nat ->
  (w.(w_running) = false -> w.(w_queue) = []) ->
  writer_inv s (flush deliver w f) (log_flush l w.(w_batch) f).
Proof.
  intros Hf Hs Hb Hl Hq Hr. split; cbn [flush log_flush w_queue w_batch w_running w_sink l_accepted l_flushed].
  - rewrite fmap_app. simpl. by rewrite concat_snoc, Hf, !app_assoc.
  - unfold deliver_all. rewrite fold_left_app. simpl. by rewrite Hs.
  - done.
  - apply Forall_app. split; [done|]. by apply Forall_singleton.
  - done.
  - intros E. split; [done|]. by apply Hr.
Qed.

Lemma writer_inv_step s w l e w' l' :
  writer_inv s w l -> step capacity batch_size deliver (w, l) e = Some (w', l') -> writer_inv s w' l'.
Proof.
  intros I H. pose proof I as [Hf Hs Hb Hl Hq Hr]. destruct e as [x| |f|f]; cbn [step] in H.
  - destruct (w_closed w); [done|]. unfold record in H.
    destruct (w_running w && (length (w_queue w) <? capacity)%nat) eqn:E; simplify_eq; [|done].
    breflect. split; cbn [w_queue w_batch w_running w_sink l_accepted l_flushed]; try done.
    + by rewrite Hf, !app_assoc.
    + rewrite length_app. simpl. lia.
    + congruence.
  - simplify_eq. by split.
  - destruct (w_running w) eqn:Er; [|done]. unfold receive in H.
    destruct (w_queue w) as [|x rest] eqn:Eq.
    + destruct (w_closed w); [|done]. simpl in H. simplify_eq.
      assert (writer_inv s (flush deliver w f) (log_flush l (w_batch w) f)) as F
        by (apply writer_inv_flush; rewrite ?Eq; auto with lia).
      destruct F. by split.
    + simpl in H. destruct (batch_size <=? length (w_batch w ++ [x]))%nat eqn:E; simplify_eq.
      * apply (writer_inv_flush s (take_in w x rest) l f); cbn [take_in w_queue w_batch w_running w_sink]; try done.
        -- by rewrite Hf, <- !app_assoc.
        -- rewrite length_app. simpl. lia.
        -- simpl in Hq. lia.
        -- congruence.
      * breflect. split; cbn [take_in w_queue w_batch w_running w_sink l_accepted l_flushed]; try done.
        -- by rewrite Hf, <- !app_assoc.
        -- simpl in Hq. lia.
        -- congruence.
  - destruct (w_running w) eqn:Er; [|done]. unfold tick in H.
    destruct (w_batch w) as [|y b] eqn:Eb; simplify_eq; [by split; rewrite ?Eb, ?Er|].
    rewrite <- Eb. apply writer_inv_flush; rewrite ?Eb; try done; [lia|]. congruence.
Qed.

Lemma writer_inv_run s es w l w' l' :
  writer_inv s w l -> run capacity batch_size deliver (w, l) es = Some (w', l') -> writer_inv s w' l'.
Proof.
  revert w l. induction es as [|e es IH]; intros w l I H; cbn [run] in H; [by simplify_eq|].
  apply option_bind_Some in H as ([w1 l1] & H1 & H). eapply IH; [|done]. by eapply writer_inv_step.
Qed.

(** At every point of every run of a sink's writer task (records from
    many callers, ticks and the closing of the channel in any order), the accepted
    items are exactly the flushed batches, then the open batch, then the queue, in
    the order of acceptance: none is lost, duplicated or reordered.  Batches stay
    within their size and the queue within its capacity, the sink is what delivering
    the batches one after the other gives, and a task that has returned has nothing
    left unflushed. *)
Theorem writer_fifo s es w l :
  fresh_run capacity batch_size deliver s es = Some (w, l) -> writer_inv s w l.
Proof. apply writer_inv_run, writer_inv_start. Qed.

(** After the last sender is gone the task returns, whatever the flushes do: one
    turn per queued item and one more. *)
Lemma receive_all w l f n :
  w.(w_running) = true -> w.(w_closed) = true -> length w.(w_queue) = n ->
  exists w' l', run capacity batch_size deliver (w, l) (repeat (Receive f) n) = Some (w', l') /\
    w'.(w_running) = true /\ w'.(w_closed) = true /\ w'.(w_queue) = [] /\
    l'.(l_accepted) = l.(l_accepted).
Proof.
  revert w l. induction n as [|n IH]; intros w l Hr Hc Hn.
  { exists w, l. repeat split; try done. by apply nil_length_inv. }
  destruct (w_queue w) as [|x rest] eqn:Eq; [done|].
  cbn [repeat run step]. rewrite Hr. unfold receive. rewrite Eq. cbn [mbind option_bind].
  set (w1 := if (_ <=? length (w_batch (take_in w x rest)))%nat then _ else _).
  set (l1 := if (_ <=? _)%nat then _ else _).
  assert (w_running w1 = true /\ w_closed w1 = true /\ w_queue w1 = rest) as (R1 & C1 & Q1).
  { subst w1. case_match; cbn; auto. }
  assert (l_accepted l1 = l_accepted l) as A1 by (subst l1; by case_match).
  clearbody w1 l1. rewrite <- A1. apply IH; try done. rewrite Q1. simpl in Hn. lia.
Qed.

(** Once every sender is gone the task returns after one turn per
    queued item and one more, with every item it accepted flushed, whether or not
    the flushes succeed. *)
Theorem writer_drains s es w l f :
  fresh_run capacity batch_size deliver s es = Some (w, l) -> w.(w_running) = true ->
  exists w' l',
    run capacity batch_size deliver (w, l) (Close :: repeat (Receive f) (S (length w.(w_queue)))) = Some (w', l') /\
    w'.(w_running) = false /\ l'.(l_accepted) = l.(l_accepted) /\ concat l'.(l_flushed).*1 = l.(l_accepted).
Proof.
  intros H Hr. apply writer_fifo in H as I. cbn [run step]. cbn [mbind option_bind].
  set (wc := {| w_queue := w_queue w |}).
  destruct (receive_all wc l f (length (w_queue w))) as (w1 & l1 & H1 & R1 & C1 & Q1 & A1); try done.
  assert (run capacity batch_size deliver (wc, l) (repeat (Receive f) (S (length (w_queue w)))) =
          Some (stop (flush deliver w1 f), log_flush l1 w1.(w_batch) f)) as Hrun.
  { rewrite <- Nat.add_1_r, repeat_app. revert H1.
    generalize (wc, l) as wl. induction (repeat (Receive f) (length (w_queue w))) as [|e es' IH]; intros wl Hwl.
    - simpl in Hwl. simplify_eq. simpl. rewrite R1. unfold receive. by rewrite Q1, C1.
    - cbn [run app] in Hwl |- *. apply option_bind_Some in Hwl as (wl' & -> & Hwl). cbn [mbind option_bind]. by apply IH. }
  exists (stop (flush deliver w1 f)), (log_flush l1 w1.(w_batch) f).
  split; [done|]. split; [done|]. split; [done|].
  assert (writer_inv s wc l) as Ic by (destruct I; split; done).
  destruct (writer_inv_run s _ _ _ _ _ Ic Hrun) as [F _ _ _ _ St]. destruct (St eq_refl) as [B Q].
  rewrite B, Q, !app_nil_r in F. rewrite <- F. by rewrite <- A1.
Qed.
End WriterProps.

(** ** The Postgres readings *)

Section PgProps.
Context {U : UuidText} (to_timestamp : Z -> Z) (columns_accept : reading_rec -> bool).

Local Abbreviation joined := (joined_row to_timestamp).
Local Abbreviation pg_flush' := (pg_flush to_timestamp columns_accept).

(** What one flush leaves in the table, and what it adds to the counter. *)
Definition stored_part (bf : list ReadingRow * pg_fate) : list reading_rec :=
  let new := omap (joined bf.2.(pf_owner)) bf.1 in
  if forallb columns_accept new && io_applies bf.2.(pf_io) then new else [].

Definition counted_part (bf : list ReadingRow * pg_fate) : Z :=
  let new := omap (joined bf.2.(pf_owner)) bf.1 in
  if forallb columns_accept new && io_succeeds bf.2.(pf_io)
  then Z.of_nat (length bf.1) - Z.of_nat (length new) else 0.

Lemma omap_length_le {A B} (f : A -> option B) l : (length (omap f l) <= length l)%nat.
Proof. induction l as [|x l IH]; [done|]. csimpl. destruct (f x); csimpl; lia. Qed.

Lemma pg_flush_spec s bf :
  pg_flush' s bf.1 bf.2 =
  {| pg_table := s.(pg_table) ++ stored_part bf; pg_unattributed := s.(pg_unattributed) + counted_part bf |}.
Proof.
  destruct bf as [[|r rows] f]; unfold pg_flush, insert_batch, stored_part, counted_part; cbn [fst snd].
  - destruct s, (pf_io f); simpl; by rewrite app_nil_r, Z.add_0_r.
  - generalize (omap_length_le (joined f.(pf_owner)) (r :: rows)).
    set (new := omap _ _). clearbody new. intros Hlen.
    destruct (forallb columns_accept new); [|destruct s; cbn; by rewrite app_nil_r, Z.add_0_r].
    unfold unattributed_count, sat_sub_u64. rewrite Z.max_r by lia.
    destruct (pf_io f); cbn [io_applies io_succeeds andb fst]; by rewrite ?app_nil_r, ?Z.add_0_r.
Qed.

Lemma pg_deliver_all s bs :
  deliver_all pg_flush' s bs =
  {| pg_table := s.(pg_table) ++ concat (stored_part <$> bs);
     pg_unattributed := s.(pg_unattributed) + fold_right Z.add 0 (counted_part <$> bs) |}.
Proof.
  unfold deliver_all. revert s. induction bs as [|bf bs IH]; intros s; simpl.
  - destruct s. simpl. by rewrite app_nil_r, Z.add_0_r.
  - rewrite IH, pg_flush_spec. cbn [pg_table pg_unattributed]. by rewrite app_assoc, Z.add_assoc.
Qed.

Lemma stored_all owner bs :
  Forall (fun bf : list ReadingRow * pg_fate => bf.2 = {| pf_owner := owner; pf_io := IoOk |}) bs ->
  (forall r row, r ∈ concat bs.*1 -> joined owner r = Some row -> columns_accept row = true) ->
  concat (stored_part <$> bs) = omap (joined owner) (concat bs.*1) /\
  fold_right Z.add 0 (counted_part <$> bs) =
    Z.of_nat (length (concat bs.*1)) - Z.of_nat (length (omap (joined owner) (concat bs.*1))).
Proof.
  induction 1 as [|[b f] bs Hf _ IH]; intros Hacc; [done|]. simpl in Hf. subst f.
  csimpl in Hacc. csimpl. cbn [concat].
  destruct IH as [IH1 IH2]. { intros r row Hr. apply Hacc. set_solver. }
  assert (forallb columns_accept (omap (joined owner) b) = true) as Hb.
  { apply forallb_forall. intros row Hrow%list_elem_of_In. apply list_elem_of_omap in Hrow as (r & Hr & Hj).
    eapply Hacc; [|done]. set_solver. }
  unfold stored_part at 1, counted_part at 1. cbn [fst snd pf_owner pf_io]. rewrite Hb.
  cbn [io_applies io_succeeds andb]. rewrite omap_app, !length_app.
  rewrite IH1, IH2. split; [done|lia].
Qed.

(** In every run of the Postgres writer the table holds, after
    what it held before, batch after batch the joined rows of the accepted readings
    (a batch whose statement fails contributes nothing, one whose reply is lost is
    stored).  When the task has returned, every statement succeeded against the same
    owner table and the columns accept the rows, the table holds one row for every
    accepted reading whose meter has a wallet, in the order of acceptance, and the
    counter has grown by exactly the number of the others. *)
Theorem readings_persisted s es w l :
  fresh_run CHANNEL_CAPACITY BATCH_SIZE pg_flush' s es = Some (w, l) ->
  w.(w_sink).(pg_table) = s.(pg_table) ++ concat (stored_part <$> l.(l_flushed)) /\
  (w.(w_running) = false -> forall owner,
   Forall (fun bf => bf.2 = {| pf_owner := owner; pf_io := IoOk |}) l.(l_flushed) ->
   (forall r row, r ∈ l.(l_accepted) -> joined owner r = Some row -> columns_accept row = true) ->
   w.(w_sink).(pg_table) = s.(pg_table) ++ omap (joined owner) l.(l_accepted) /\
   w.(w_sink).(pg_unattributed) = s.(pg_unattributed) +
     (Z.of_nat (length l.(l_accepted)) - Z.of_nat (length (omap (joined owner) l.(l_accepted))))).
Proof.
  intros H. apply writer_fifo in H as [Hf Hs _ _ _ Hstop]; [|unfold BATCH_SIZE; lia].
  rewrite Hs, pg_deliver_all. cbn [pg_table pg_unattributed]. split; [done|].
  intros Hr owner Hall Hacc. destruct (Hstop Hr) as [Hb Hq]. rewrite Hb, Hq, !app_nil_r in Hf.
  rewrite Hf in Hacc |- *. destruct (stored_all owner (l_flushed l) Hall Hacc) as [-> ->]. done.
Qed.

(** One row the columns refuse costs the whole batch, the readings of every other
    meter in it included. *)
Lemma one_bad_row_drops_batch s owner rows r row o :
  r ∈ rows -> joined owner r = Some row -> columns_accept row = false ->
  pg_flush' s rows {| pf_owner := owner; pf_io := o |} = s.
Proof.
  intros Hr Hj Hrow. etrans; [apply (pg_flush_spec s (rows, _))|]. unfold stored_part, counted_part. cbn [fst snd pf_owner pf_io].
  destruct (forallb columns_accept (omap (joined owner) rows)) eqn:E; [|by destruct s; cbn; rewrite app_nil_r, Z.add_0_r].
  exfalso. rewrite forallb_forall in E. specialize (E row). rewrite Hrow in E.
  discriminate E. apply list_elem_of_In, list_elem_of_omap. eauto.
Qed.

(** ** Write-backs *)

(** [to_timestamp] keeps the order of the milliseconds of the first two centuries of
    the epoch: the column has microsecond resolution and a double still separates
    them. *)
Definition ms_range (ms : Z) : Prop := 0 <= ms < 2 ^ 43.

Hypothesis to_timestamp_mono : forall a b, ms_range a -> ms_range b ->
  (to_timestamp a <? to_timestamp b) = (a <? b).

Context {C : Chrono} {CL : ChronoLaws} {J : SerdeJson}.

(** The window arithmetic of the sink agrees with the aggregator's. *)
Lemma window_agrees t w :
  dt_valid t -> w mod WINDOW_NS = 0 ->
  (get_window_start t = Some w <->
   timestamp_millis w <= timestamp_millis t < timestamp_millis w + WINDOW_MS).
Proof.
  intros Hv Hw. rewrite (get_window_start_valid t Hv). pose proof (window_start_bounds t) as Hb.
  unfold timestamp_millis, WINDOW_MS. cbv zeta in Hb.
  set (w' := t - t mod WINDOW_NS) in *. clearbody w'.
  unfold WINDOW_NS, dur_minutes, WINDOW_MINUTES, NS_PER_MIN, NS_PER_SEC in *. split.
  - intros [= <-]. Z.to_euclidean_division_equations. lia.
  - intros H. f_equal. Z.to_euclidean_division_equations. lia.
Qed.

(** A row of the table that was inserted for a reading. *)
Definition row_of (rd : DeviceReading) (r : reading_rec) : Prop :=
  r.(mr_meter_serial) = canonicalize_serial rd.(serial_number) /\
  r.(mr_reading_timestamp) = to_timestamp (timestamp_millis rd.(timestamp)).

Lemma joined_row_of rd owner rr r :
  reading_to_row rd = Some rr -> joined owner rr = Some r -> row_of rd r.
Proof.
  unfold reading_to_row, joined_row. destruct (metrics rd); [|done..]. intros [= <-]. cbn.
  repeat case_match; intros; simplify_eq; done.
Qed.

(** The reading was billed to this window of a meter with this serial. *)
Definition billed_in (serial : string) (w : Z) (rd : DeviceReading) : bool :=
  String.eqb (canonicalize_serial rd.(serial_number)) (canonicalize_serial serial) &&
  bool_decide (get_window_start rd.(timestamp) = Some w).

Definition usual_time (rd : DeviceReading) : Prop :=
  dt_valid rd.(timestamp) /\ ms_range (timestamp_millis rd.(timestamp)).

Definition usual_window (w : Z) : Prop :=
  w mod WINDOW_NS = 0 /\ ms_range (timestamp_millis w) /\ ms_range (timestamp_millis w + WINDOW_MS).

Lemma in_window_billed rd r serial w :
  row_of rd r -> usual_time rd -> usual_window w ->
  in_window to_timestamp serial (timestamp_millis w) r = billed_in serial w rd.
Proof.
  intros [Hs Ht] [Hv Hr] (Hw & Hr1 & Hr2). unfold in_window, billed_in. rewrite Hs, Ht, <- andb_assoc. f_equal.
  rewrite wrap_i64_id by (unfold ms_range in Hr2; unfold in_i64, i64_min, i64_max; apply andb_true_iff; split; apply Z.leb_le; lia).
  rewrite to_timestamp_mono by done. rewrite Z.leb_antisym, to_timestamp_mono by done.
  symmetry. destruct (negb _ && _)%bool eqn:E.
  - apply bool_decide_eq_true, window_agrees; [done..|]. breflect. lia.
  - apply bool_decide_eq_false. rewrite window_agrees by done. breflect; lia.
Qed.

Lemma update_where_id p f (t : list reading_rec) :
  Forall (fun r => p r = false) t -> update_where p f t IoOk = (t, Ok 0%nat).
Proof.
  intros H. unfold update_where. cbn [io_applies io_succeeds]. f_equal.
  - induction H as [|r t Hr _ IH]; [done|]. csimpl. by rewrite Hr, IH.
  - f_equal. induction H as [|r t Hr _ IH]; [done|]. simpl. by rewrite Hr.
Qed.

Definition mark (serial : string) (w : Z) (sig : string) (slot now : Z) (rd : DeviceReading)
    (r : reading_rec) : reading_rec :=
  if billed_in serial w rd && negb r.(mr_minted) then set_minted sig slot now r else r.

Lemma update_where_zip (p : reading_rec -> bool) q f (rds : list DeviceReading) (t : list reading_rec) :
  Forall2 (fun rd r => p r = q rd r) rds t ->
  update_where p f t IoOk =
  (zip_with (fun rd r => if q rd r then f r else r) rds t,
   Ok (length (List.filter (fun x => q x.1 x.2) (zip rds t)))).
Proof.
  intros H. unfold update_where. cbn [io_applies io_succeeds]. f_equal.
  - induction H as [|rd r rds t Hr _ IH]; [done|]. csimpl. by rewrite Hr, IH.
  - f_equal. induction H as [|rd r rds t Hr _ IH]; [done|]. simpl. rewrite Hr.
    destruct (q rd r); simpl; by rewrite ?IH.
Qed.


(** ** The life of a row *)

Inductive pg_op : Type :=
| OpInsert (rows : list ReadingRow) (f : pg_fate)
| OpMinted (serial : string) (window_start_ms : Z) (sig : string) (slot now : Z) (o : io)
| OpNoSurplus (serial : string) (window_start_ms : Z) (o : io).

Definition pg_exec_op (s : pg_sink) (op : pg_op) : pg_sink :=
  match op with
  | OpInsert rows f => pg_flush' s rows f
  | OpMinted serial ws sig slot now o =>
      {| pg_table := (mark_minted to_timestamp s.(pg_table) serial ws sig slot now o).1;
         pg_unattributed := s.(pg_unattributed) |}
  | OpNoSurplus serial ws o =>
      {| pg_table := (mark_no_surplus to_timestamp s.(pg_table) serial ws o).1;
         pg_unattributed := s.(pg_unattributed) |}
  end.

(** The states a row can be in. *)
Definition row_wf (r : reading_rec) : Prop :=
  if r.(mr_minted) then
    r.(mr_blockchain_status) = "confirmed" /\ r.(mr_on_chain_confirmed) = true /\
    is_Some r.(mr_mint_tx_signature) /\ is_Some r.(mr_on_chain_slot)
  else
    (r.(mr_blockchain_status) = "pending" \/ r.(mr_blockchain_status) = "no_surplus") /\
    r.(mr_on_chain_confirmed) = false /\ r.(mr_mint_tx_signature) = None.

Lemma joined_wf owner rr r : joined owner rr = Some r -> row_wf r.
Proof. unfold joined_row. repeat case_match; intros; simplify_eq. unfold row_wf. simpl. auto. Qed.

Lemma update_keeps p f (t : list reading_rec) o i r :
  (forall r, p r = true -> mr_minted r = false) ->
  t !! i = Some r -> mr_minted r = true -> (update_where p f t o).1 !! i = Some r.
Proof.
  intros Hp Hi Hr. unfold update_where. cbn [fst]. destruct (io_applies o); [|done].
  rewrite list_lookup_fmap, Hi. simpl. destruct (p r) eqn:E; [|done]. apply Hp in E. congruence.
Qed.

Lemma update_wf p f (t : list reading_rec) o :
  (forall r, p r = true -> row_wf r -> row_wf (f r)) ->
  Forall row_wf t -> Forall row_wf (update_where p f t o).1.
Proof.
  intros Hp Ht. unfold update_where. cbn [fst]. destruct (io_applies o); [|done].
  apply Forall_fmap. revert Ht. apply Forall_impl. intros r Hr. simpl. destruct (p r) eqn:E; auto.
Qed.

Lemma no_surplus_unminted r serial ws :
  in_window to_timestamp serial ws r && negb r.(mr_minted) && String.eqb r.(mr_blockchain_status) "pending" = true ->
  mr_minted r = false.
Proof. intros. by breflect. Qed.

Lemma pg_exec_keeps s op i r :
  s.(pg_table) !! i = Some r -> r.(mr_minted) = true -> (pg_exec_op s op).(pg_table) !! i = Some r.
Proof.
  intros Hi Hr. destruct op as [rows f|serial ws sig slot now o|serial ws o]; cbn [pg_exec_op pg_table].
  - etrans; [apply (f_equal (fun s => pg_table s !! i)), (pg_flush_spec s (rows, f))|].
    cbn [pg_table]. by apply lookup_app_l_Some.
  - apply update_keeps; [|done..]. intros. by breflect.
  - apply update_keeps; [|done..]. intros r' E. by apply no_surplus_unminted in E.
Qed.

Lemma pg_exec_wf s op : Forall row_wf s.(pg_table) -> Forall row_wf (pg_exec_op s op).(pg_table).
Proof.
  intros Hs. destruct op as [rows f|serial ws sig slot now o|serial ws o]; cbn [pg_exec_op pg_table].
  - eapply eq_ind_r with (P := fun s => Forall row_wf (pg_table s)); [|apply (pg_flush_spec s (rows, f))].
    cbn [pg_table]. apply Forall_app. split; [done|]. unfold stored_part. case_match; [|done].
    apply List.Forall_forall. intros r Hr%list_elem_of_In. apply list_elem_of_omap in Hr as (rr & _ & Hj).
    by eapply joined_wf.
  - apply update_wf; [|done]. intros r _ _. unfold row_wf. simpl. eauto.
  - apply update_wf; [|done]. intros r E. apply no_surplus_unminted in E.
    unfold row_wf, set_no_surplus. simpl. rewrite E. intuition.
Qed.

(** Whatever inserts and write-backs follow, with whatever
    fates, a row confirmed as minted keeps its place, its transaction signature and
    its slot for ever; and every row is always in one of the documented states:
    pending or no-surplus without a transaction, or confirmed with one. *)
Theorem confirmation_is_final s ops :
  Forall row_wf s.(pg_table) ->
  let s' := fold_left pg_exec_op ops s in
  Forall row_wf s'.(pg_table) /\
  forall i r, s.(pg_table) !! i = Some r -> r.(mr_minted) = true -> s'.(pg_table) !! i = Some r.
Proof.
  revert s. induction ops as [|op ops IH]; intros s Hs; [done|]. simpl.
  destruct (IH (pg_exec_op s op) (pg_exec_wf s op Hs)) as [H1 H2].
  split; [done|]. intros i r Hi Hr. apply H2; [|done]. by apply pg_exec_keeps.
Qed.
End PgProps.

(** ** The InfluxDB history *)

Section InfluxProps.
Context {I : InfluxClient}.

Definition written_part (bf : list TelemetryPoint * io) : list DataPoint :=
  if io_applies bf.2 then omap into_data_point bf.1 else [].

Lemma influx_flush_spec s b o : influx_flush s b o = s ++ written_part (b, o).
Proof.
  unfold influx_flush, written_part, drain_to_data_points. cbn [fst snd].
  destruct b as [|p b]; [by destruct o; cbn; rewrite app_nil_r|].
  destruct (omap into_data_point (p :: b)); destruct (io_applies o); by rewrite ?app_nil_r.
Qed.

(** The bucket receives the buildable points of the accepted ones in order; only a
    failed write loses points, and then those of its batch. *)
Lemma influx_history s es w l :
  fresh_run CHANNEL_CAPACITY BATCH_SIZE influx_flush s es = Some (w, l) ->
  w.(w_sink) = s ++ concat (written_part <$> l.(l_flushed)).
Proof.
  intros H. apply writer_fifo in H as [_ -> _ _ _ _]; [|unfold BATCH_SIZE; lia].
  unfold deliver_all. revert s. induction (l_flushed l) as [|[b o] bs IH]; intros s; csimpl.
  - by rewrite app_nil_r.
  - by rewrite influx_flush_spec, IH, app_assoc.
Qed.
End InfluxProps.

(** ** A run *)

Module SinkRun.
#[local] Existing Instance chrono_ref.
#[local] Existing Instance chrono_ref_laws.
#[local] Existing Instance uuid_ref.
#[local] Existing Instance json_ref.

Definition micros (ms : Z) : Z := ms * 1000.
Definition fits (r : reading_rec) : bool := (String.length r.(mr_meter_serial) <=? 50)%nat.

Definition reading (serial : string) (minute : Z) : DeviceReading := {|
  reading_id := 1%N; device_id := serial; device_type := SmartMeter; serial_number := serial;
  zone_code := None; timestamp := at_min minute;
  metrics := Energy (F64.of_Z 5) (F64.of_Z 2) (F64.of_Z 3); metadata := ∅
|}.

Definition row_for (rd : DeviceReading) : ReadingRow :=
  default {| rr_serial_number := EmptyString; rr_timestamp_ms := 0; rr_generated_kwh := F64.zero;
             rr_consumed_kwh := F64.zero; rr_surplus_kwh := F64.zero; rr_deficit_kwh := F64.zero;
             rr_voltage := None; rr_power_factor := None; rr_frequency := None |} (reading_to_row rd).

Definition owner (serial : string) : option (Uuid * option string) :=
  if String.eqb serial "7" then Some (1%N, Some "wallet"%string) else None.

Definition ok : pg_fate := {| pf_owner := owner; pf_io := IoOk |}.

(** Two readings of one meter (under two spellings of its serial), one of an unknown
    meter, in two batches. *)
Definition rds : list DeviceReading := [reading "007" 1; reading "other" 2; reading "7" 20].

Definition events : list (event ReadingRow pg_fate) :=
  (Record_ <$> (row_for <$> take 2 rds)) ++
  [Receive ok; Receive ok; Tick ok] ++
  (Record_ <$> (row_for <$> drop 2 rds)) ++ [Close; Receive ok; Receive ok].

Definition start : pg_sink := {| pg_table := []; pg_unattributed := 0 |}.

Definition finish : writer ReadingRow pg_sink * log ReadingRow pg_fate :=
  default (writer_start start, {| l_accepted := []; l_flushed := [] |})
    (fresh_run CHANNEL_CAPACITY BATCH_SIZE (pg_flush micros fits) start events).

Lemma finish_run :
  fresh_run CHANNEL_CAPACITY BATCH_SIZE (pg_flush micros fits) start events = Some (finish.1, finish.2).
Proof. rewrite <- surjective_pairing. apply default_is_some. vm_compute. reflexivity. Qed.

Lemma writer_fifo_witness :
  writer_inv CHANNEL_CAPACITY BATCH_SIZE (pg_flush micros fits) start finish.1 finish.2.
Proof.
  apply (writer_fifo CHANNEL_CAPACITY BATCH_SIZE ltac:(unfold BATCH_SIZE; lia) (pg_flush micros fits) start events).
  apply finish_run.
Defined.

Lemma writer_drains_witness :
  exists w' l',
    run CHANNEL_CAPACITY BATCH_SIZE (pg_flush micros fits)
      (writer_start start, {| l_accepted := []; l_flushed := [] |}) (Close :: repeat (Receive ok) 1) = Some (w', l') /\
    w'.(w_running) = false /\ l'.(l_accepted) = [] /\ concat l'.(l_flushed).*1 = [].
Proof.
  apply (writer_drains CHANNEL_CAPACITY BATCH_SIZE ltac:(unfold BATCH_SIZE; lia) (pg_flush micros fits)
           start [] (writer_start start) {| l_accepted := []; l_flushed := [] |} ok); reflexivity.
Defined.

Lemma readings_persisted_witness :
  finish.1.(w_sink).(pg_table) = omap (joined_row micros owner) (row_for <$> rds) /\
  finish.1.(w_sink).(pg_unattributed) = 1.
Proof.
  destruct (readings_persisted micros fits start events finish.1 finish.2 finish_run) as [_ H].
  destruct (H ltac:(vm_compute; reflexivity) owner) as [Ht Hn].
  - repeat constructor.
  - intros r row Hr. apply list_elem_of_In in Hr.
    assert (forallb (fun r => match joined_row micros owner r with Some row => fits row | None => true end)
              finish.2.(l_accepted) = true) as Hall by (vm_compute; reflexivity).
    rewrite forallb_forall in Hall. specialize (Hall r Hr). intros E. by rewrite E in Hall.
  - split; [rewrite Ht|rewrite Hn]; vm_compute; reflexivity.
Defined.

Definition table : list reading_rec := omap (joined_row micros owner) (row_for <$> [reading "007" 1; reading "7" 20]).


Definition minted : pg_sink :=
  {| pg_table := (mark_minted micros table "7" (timestamp_millis (at_min 0)) "sig" 9 5 IoOk).1; pg_unattributed := 0 |}.

Definition later : pg_sink :=
  fold_left (pg_exec_op micros fits)
    [OpMinted "7" (timestamp_millis (at_min 0)) "other" 10 6 IoErrApplied;
     OpNoSurplus "7" (timestamp_millis (at_min 0)) IoOk;
     OpInsert [row_for (reading "7" 3)] ok] minted.

Lemma confirmation_is_final_witness :
  exists r, minted.(pg_table) !! 0%nat = Some r /\ r.(mr_mint_tx_signature) = Some "sig"%string /\
    later.(pg_table) !! 0%nat = Some r.
Proof.
  assert (Forall row_wf minted.(pg_table)) as Hwf by (repeat constructor; vm_compute; eauto).
  destruct (confirmation_is_final micros fits minted
    [OpMinted "7" (timestamp_millis (at_min 0)) "other" 10 6 IoErrApplied;
     OpNoSurplus "7" (timestamp_millis (at_min 0)) IoOk;
     OpInsert [row_for (reading "7" 3)] ok] Hwf) as [_ H].
  eexists. split; [reflexivity|]. split; [vm_compute; reflexivity|].
  apply (H 0%nat); vm_compute; reflexivity.
Defined.

(** The two spellings of one serial are two meters to the aggregator, with a bin
    each, and one meter to the sink: the confirmation of one bin's mint also marks
    the readings of the other. *)
Lemma spelling_shares_confirmation :
  uuid_v5_oid "007" <> uuid_v5_oid "7" /\
  mr_minted <$> (mark_minted micros table "7" (timestamp_millis (at_min 0)) "sig" 9 5 IoOk).1 = [true; false] /\
  serial_number (reading "007" 1) = "007"%string.
Proof. split; [vm_compute; congruence|]. split; vm_compute; reflexivity. Qed.
End SinkRun.
