(* ===== verification/Batcher.v ===== *)
(** * The batch worker (aggregator-api/src/ingester/batcher.rs)

    The worker collects stream entries and, in place of the retired gRPC forward,
    acknowledges a batch in Redis, stream by stream.  The state is the open batch and
    the entries the consumer group still holds as pending. *)

From Stdlib Require Import ZArith Lia Ascii String.
From stdpp Require Import base gmap strings list numbers.
From S2P Require Import Prelude RustStd Stores.

Open Scope bridge_scope.

Definition FORWARD_BATCH_SIZE : nat := 50.

Section Batcher.
(** The forwarded request, which the live path does not read. *)
Context {MeterReading : Type}.

Record BatchEntry : Type := {
  request : MeterReading;
  stream_name : string;
  entry_id : string
}.

Inductive BatchMessage : Type :=
| Add (e : BatchEntry)
| Flush
| Shutdown.

(** [map.entry(stream).or_default().push(id)] over the entries. *)
Definition push_id (m : gmap string (list string)) (e : BatchEntry) : gmap string (list string) :=
  <[e.(stream_name) := default [] (m !! e.(stream_name)) ++ [e.(entry_id)]]> m.

Definition group_entry_ids_by_stream (entries : list BatchEntry) : gmap string (list string) :=
  fold_left push_id entries ∅.

(** The pending entries of the group, as (stream, id). *)
Abbreviation pending_set := (gset (string * string)).

Record BatchWorker : Type := {
  batch : list BatchEntry;
  batch_size : nat;
  bw_running : bool;
  acked : pending_set       (* acknowledged so far *)
}.

Definition spawn : BatchWorker :=
  {| batch := []; batch_size := FORWARD_BATCH_SIZE; bw_running := true; acked := ∅ |}.

(** One [XACK] per stream in the iteration order of the map; the first failure
    leaves the function. *)
Fixpoint xack_streams (acked : pending_set) (groups : list (string * list string))
    (fate : string -> io) : pending_set * outcome redis_error unit :=
  match groups with
  | [] => (acked, Ok ())
  | (stream, ids) :: groups =>
      let acked := if io_applies (fate stream)
                   then acked ∪ list_to_set ((fun id => (stream, id)) <$> ids) else acked in
      if io_succeeds (fate stream) then xack_streams acked groups fate else (acked, Err RedisError)
  end.

(** [order]: the iteration order of the hash map. *)
Definition process_success (acked : pending_set) (entries : list BatchEntry)
    (order : gmap string (list string) -> list (string * list string)) (fate : string -> io)
    : pending_set * outcome redis_error unit :=
  xack_streams acked (order (group_entry_ids_by_stream entries)) fate.

Record flush_env : Type := {
  fe_order : gmap string (list string) -> list (string * list string);
  fe_fate : string -> io
}.

(** The forward is bypassed, so it always succeeds: the batch is taken out before
    the acknowledgement and not put back when that fails. *)
Definition flush (w : BatchWorker) (env : flush_env) : BatchWorker * outcome redis_error unit :=
  match w.(batch) with
  | [] => (w, Ok ())
  | entries =>
      let '(a, r) := process_success w.(acked) entries env.(fe_order) env.(fe_fate) in
      ({| batch := []; batch_size := w.(batch_size); bw_running := w.(bw_running); acked := a |}, r)
  end.

(** What wakes the worker: a message, the closed channel, or the interval. *)
Inductive wake : Type :=
| Message (m : BatchMessage)
| ChannelClosed
| Interval.

Definition set_running (w : BatchWorker) (b : bool) : BatchWorker :=
  {| batch := w.(batch); batch_size := w.(batch_size); bw_running := b; acked := w.(acked) |}.

Definition add_entry (w : BatchWorker) (e : BatchEntry) : BatchWorker :=
  {| batch := w.(batch) ++ [e]; batch_size := w.(batch_size); bw_running := w.(bw_running);
     acked := w.(acked) |}.

(** One turn of the loop; flush errors are logged. *)
Definition run_turn (w : BatchWorker) (k : wake) (env : flush_env) : BatchWorker :=
  if negb w.(bw_running) then w else
  match k with
  | Message (Add e) =>
      let w := add_entry w e in
      if (w.(batch_size) <=? length w.(batch))%nat then (flush w env).1 else w
  | Message Flush => (flush w env).1
  | Message Shutdown => set_running (flush w env).1 false
  | ChannelClosed => set_running w false
  | Interval => match w.(batch) with [] => w | _ => (flush w env).1 end
  end.

Definition run (w : BatchWorker) (ks : list (wake * flush_env)) : BatchWorker :=
  fold_left (fun w k => run_turn w k.1 k.2) ks w.

(** ** Properties *)

Definition entry_key (e : BatchEntry) : string * string := (e.(stream_name), e.(entry_id)).

Definition ids_of (s : string) (es : list BatchEntry) : list string :=
  entry_id <$> List.filter (fun e => String.eqb e.(stream_name) s) es.

Lemma fold_push_lookup es m s :
  fold_left push_id es m !! s =
  match ids_of s es with
  | [] => m !! s
  | ids => Some (default [] (m !! s) ++ ids)
  end.
Proof.
  revert m. induction es as [|e es IH]; intros m; [done|]. simpl. rewrite IH. unfold ids_of. simpl.
  unfold push_id. destruct (String.eqb (stream_name e) s) eqn:E; breflect.
  - subst s. rewrite lookup_insert_eq. csimpl. fold (ids_of (stream_name e) es).
    destruct (ids_of (stream_name e) es); [done|]. by rewrite <- app_assoc.
  - by rewrite lookup_insert_ne.
Qed.

(** The acknowledgement groups hold, for every stream, exactly the
    ids of its entries in the order they were batched; a stream without entries has
    no group. *)
Theorem grouping_exact es s :
  group_entry_ids_by_stream es !! s = match ids_of s es with [] => None | ids => Some ids end.
Proof.
  unfold group_entry_ids_by_stream. rewrite fold_push_lookup.
  by destruct (ids_of s es).
Qed.

Lemma xack_streams_keys acked groups fate a r :
  xack_streams acked groups fate = (a, r) ->
  acked ⊆ a /\
  (forall k, k ∈ a -> k ∈ acked \/ exists ids, (k.1, ids) ∈ groups /\ k.2 ∈ ids) /\
  (r = Ok () -> Forall (fun g => io_succeeds (fate g.1) = true) groups) /\
  (Forall (fun g => io_succeeds (fate g.1) = true) groups ->
   r = Ok () /\ forall s ids id, (s, ids) ∈ groups -> id ∈ ids -> (s, id) ∈ a).
Proof.
  revert acked. induction groups as [|[s ids] groups IH]; intros acked; cbn [xack_streams].
  { intros [= <- <-]. split; [done|]. split; [auto|]. split; [done|]. intros _. split; [done|].
    intros s ids id Hin. by apply elem_of_nil in Hin. }
  set (acked' := if io_applies (fate s) then _ else _).
  assert (acked ⊆ acked') as Hsub by (subst acked'; destruct (io_applies (fate s)); set_solver).
  assert (forall k, k ∈ acked' -> k ∈ acked \/ k.1 = s /\ k.2 ∈ ids) as Hnew.
  { intros k. subst acked'. destruct (io_applies (fate s)); [|auto].
    rewrite elem_of_union, elem_of_list_to_set, list_elem_of_fmap.
    intros [Hk|(id & -> & Hid)]; auto. }
  destruct (io_succeeds (fate s)) eqn:Es.
  - assert (forall id, id ∈ ids -> (s, id) ∈ acked') as Hall.
    { intros id Hid. subst acked'. destruct (fate s); try done. cbn [io_applies].
      apply elem_of_union_r, elem_of_list_to_set, list_elem_of_fmap. eauto. }
    intros H. destruct (IH acked' H) as (IH1 & IH2 & IH3 & IH4). split; [set_solver|]. split; [|split].
    + intros k Hk. destruct (IH2 k Hk) as [Hk'|(ids' & Hin & Hid)].
      * destruct (Hnew k Hk') as [?|[<- ?]]; [auto|]. right. exists ids. split; [left|done].
      * right. exists ids'. split; [by right|done].
    + intros Hr. constructor; [done|]. auto.
    + intros Hf. apply Forall_cons_1 in Hf as [_ Hf]. destruct (IH4 Hf) as [Hr Hin]. split; [done|].
      intros s' ids' id Hs' Hid. apply elem_of_cons in Hs' as [[= -> ->]|Hs']; [|by eapply Hin].
      apply IH1, Hall, Hid.
  - intros [= <- <-]. split; [done|]. split; [|split; [done|]].
    + intros k Hk. destruct (Hnew k Hk) as [?|[<- ?]]; [auto|]. right. exists ids. split; [left|done].
    + intros Hf. apply Forall_cons_1 in Hf as [Hf _]. simpl in Hf. congruence.
Qed.

(** A hash map is iterated once over each of its entries. *)
Definition order_ok (env : flush_env) : Prop := forall m, env.(fe_order) m ≡ₚ map_to_list m.

Definition keys (es : list BatchEntry) : pending_set := list_to_set (entry_key <$> es).

Lemma keys_app es es' : keys (es ++ es') = keys es ∪ keys es'.
Proof. unfold keys. by rewrite fmap_app, list_to_set_app_L. Qed.

Lemma group_keys env es s id ids :
  order_ok env -> (s, ids) ∈ env.(fe_order) (group_entry_ids_by_stream es) -> id ∈ ids -> (s, id) ∈ keys es.
Proof.
  intros Ho Hs Hid. rewrite (Ho _), elem_of_map_to_list, grouping_exact in Hs.
  assert (id ∈ ids_of s es) as H by (destruct (ids_of s es); simplify_eq; done).
  apply list_elem_of_fmap in H as (e & -> & He). apply list_elem_of_In, filter_In in He as [He Hn]. breflect.
  subst s. apply elem_of_list_to_set, list_elem_of_fmap. exists e. split; [done|]. by apply list_elem_of_In.
Qed.

Lemma keys_grouped env es s id :
  order_ok env -> (s, id) ∈ keys es -> exists ids, (s, ids) ∈ env.(fe_order) (group_entry_ids_by_stream es) /\ id ∈ ids.
Proof.
  intros Ho H. apply elem_of_list_to_set, list_elem_of_fmap in H as (e & He & Hin). unfold entry_key in He. simplify_eq.
  assert (entry_id e ∈ ids_of (stream_name e) es) as Hid.
  { apply list_elem_of_fmap. exists e. split; [done|]. apply list_elem_of_In, filter_In.
    split; [by apply list_elem_of_In|]. apply String.eqb_refl. }
  exists (ids_of (stream_name e) es). split; [|done]. rewrite (Ho _), elem_of_map_to_list, grouping_exact.
  destruct (ids_of (stream_name e) es); [by apply elem_of_nil in Hid|done].
Qed.

Lemma flush_spec w env :
  order_ok env ->
  let r := flush w env in
  r.1.(batch) = [] /\ r.1.(batch_size) = w.(batch_size) /\ r.1.(bw_running) = w.(bw_running) /\
  w.(acked) ⊆ r.1.(acked) /\ r.1.(acked) ⊆ w.(acked) ∪ keys w.(batch) /\
  ((forall s, io_succeeds (env.(fe_fate) s) = true) -> r.2 = Ok () /\ r.1.(acked) = w.(acked) ∪ keys w.(batch)).
Proof.
  intros Ho. unfold flush. destruct (batch w) as [|e es] eqn:Eb.
  { cbn [fst snd]. rewrite Eb. unfold keys. simpl. repeat split; set_solver. }
  rewrite <- Eb. clear e es Eb. unfold process_success. set (es := batch w).
  destruct (xack_streams _ _ _) as [a r] eqn:Ex. cbn [fst snd batch batch_size bw_running acked].
  destruct (xack_streams_keys _ _ _ _ _ Ex) as (H1 & H2 & _ & H4).
  assert (a ⊆ acked w ∪ keys es) as Hsub.
  { intros [s id] Hk. destruct (H2 _ Hk) as [?|(ids & Hg & Hid)]; [set_solver|].
    apply elem_of_union_r. by eapply group_keys. }
  repeat (split; [done|]). intros Hf.
  destruct H4 as [Hr Hin]. { apply List.Forall_forall. intros g _. apply Hf. }
  split; [done|]. apply set_eq. intros [s id]. split; [apply Hsub|].
  intros [Hk|Hk]%elem_of_union; [by apply H1|].
  destruct (keys_grouped env es s id Ho Hk) as (ids & Hg & Hid). by eapply Hin.
Qed.

(** The entries the worker takes in: those that arrive before it stops. *)
Fixpoint added (ks : list (wake * flush_env)) : list BatchEntry :=
  match ks with
  | [] => []
  | (Message (Add e), _) :: ks => e :: added ks
  | (Message Shutdown, _) :: _ | (ChannelClosed, _) :: _ => []
  | _ :: ks => added ks
  end.

Definition all_ok (env : flush_env) : Prop := forall s, io_succeeds (env.(fe_fate) s) = true.

(** The invariant, [seen] being the entries taken in so far. *)
Record worker_inv (ok : Prop) (seen : pending_set) (w : BatchWorker) : Prop := {
  wv_size : w.(batch_size) = FORWARD_BATCH_SIZE;
  wv_bound : (length w.(batch) < FORWARD_BATCH_SIZE)%nat;
  wv_only : w.(acked) ∪ keys w.(batch) ⊆ seen;
  wv_all : ok -> w.(acked) ∪ keys w.(batch) = seen
}.

Lemma worker_inv_flush ok seen w env :
  order_ok env -> (ok -> all_ok env) -> w.(batch_size) = FORWARD_BATCH_SIZE ->
  w.(acked) ∪ keys w.(batch) ⊆ seen -> (ok -> w.(acked) ∪ keys w.(batch) = seen) ->
  worker_inv ok seen (flush w env).1.
Proof.
  intros Ho Hok Hs Hsub Hall. destruct (flush_spec w env Ho) as (Hb & Hs' & _ & _ & Ha & He).
  split; rewrite ?Hb, ?Hs'.
  - done.
  - unfold FORWARD_BATCH_SIZE. simpl. lia.
  - unfold keys at 1. simpl. set_solver.
  - intros Hk. destruct (He (Hok Hk)) as [_ ->]. rewrite <- (Hall Hk). unfold keys at 2. simpl. set_solver.
Qed.

Lemma worker_inv_turn (ok : Prop) seen w k env :
  order_ok env -> (ok -> all_ok env) -> w.(bw_running) = true -> worker_inv ok seen w ->
  let w' := run_turn w k env in
  match k with
  | Message (Add e) => worker_inv ok (seen ∪ keys [e]) w' /\ w'.(bw_running) = true
  | Message Flush | Interval => worker_inv ok seen w' /\ w'.(bw_running) = true
  | _ => worker_inv ok seen w' /\ w'.(bw_running) = false
  end.
Proof.
  intros Ho Hok Hr [Hs Hb Hsub Hall]. unfold run_turn. rewrite Hr. cbn [negb].
  pose proof (flush_spec w env Ho) as (_ & _ & Hr' & _).
  pose proof (worker_inv_flush ok seen w env Ho Hok Hs Hsub Hall) as Hf.
  destruct k as [[e| |]| |]; cbv zeta.
  - assert (acked (add_entry w e) ∪ keys (batch (add_entry w e)) = acked w ∪ keys (batch w) ∪ keys [e]) as Heq.
    { cbn [add_entry acked batch]. rewrite keys_app. set_solver. }
    assert (worker_inv ok (seen ∪ keys [e]) (flush (add_entry w e) env).1) as Hfe.
    { apply worker_inv_flush; [done..| |]; rewrite Heq; [set_solver|]. intros Hk. by rewrite (Hall Hk). }
    destruct (_ <=? _)%nat eqn:E.
    + split; [done|]. pose proof (flush_spec (add_entry w e) env Ho) as (_ & _ & -> & _). done.
    + split; [|done]. breflect. cbn [add_entry batch_size batch] in E. rewrite Hs in E.
      split; [done|done| |]; rewrite Heq; [set_solver|]. intros Hk. by rewrite (Hall Hk).
  - split; [done|]. by rewrite Hr'.
  - split; [|done]. by destruct Hf.
  - split; [|done]. by split.
  - destruct (batch w) eqn:Eb; [|split; [done|by rewrite Hr']]. split; [|done]. by split; rewrite ?Eb.
Qed.

Lemma worker_inv_run (ok : Prop) ks seen w :
  Forall (fun k => order_ok k.2 /\ (ok -> all_ok k.2)) ks -> w.(bw_running) = true -> worker_inv ok seen w ->
  worker_inv ok (seen ∪ keys (added ks)) (run w ks).
Proof.
  revert seen w. induction ks as [|[k env] ks IH]; intros seen w Hks Hr Hw.
  { unfold keys. simpl. by rewrite union_empty_r_L. }
  apply Forall_cons_1 in Hks as [[Ho Hok] Hks]. cbn [fst snd] in *.
  pose proof (worker_inv_turn ok seen w k env Ho Hok Hr Hw) as Hturn. cbv zeta in Hturn.
  change (run w ((k, env) :: ks)) with (run (run_turn w k env) ks).
  assert (forall w', bw_running w' = false -> run w' ks = w') as Hstop.
  { intros w' Hw'. clear -Hw'. induction ks as [|[k env] ks IH]; [done|]. unfold run in *. simpl.
    unfold run_turn at 2. by rewrite Hw'. }
  destruct k as [[e| |]| |]; destruct Hturn as [H1 H2]; cbn [added].
  - change (e :: added ks) with ([e] ++ added ks). rewrite keys_app, union_assoc_L. by apply IH.
  - by apply IH.
  - rewrite Hstop by done. unfold keys. simpl. by rewrite union_empty_r_L.
  - rewrite Hstop by done. unfold keys. simpl. by rewrite union_empty_r_L.
  - by apply IH.
Qed.

(** In every run of the worker, whatever the outcome of the
    acknowledgements, the open batch stays below 50 entries and only entries handed
    to the worker are acknowledged, under their own stream; while the
    acknowledgements succeed, every entry taken in is acknowledged or still in the
    batch, and after a shutdown message all of them are acknowledged. *)
Theorem acks_exact ks :
  Forall (fun k => order_ok k.2) ks ->
  let w := run spawn ks in
  (length w.(batch) < FORWARD_BATCH_SIZE)%nat /\
  w.(acked) ⊆ keys (added ks) /\
  (Forall (fun k => all_ok k.2) ks ->
   w.(acked) ∪ keys w.(batch) = keys (added ks) /\
   forall env, order_ok env -> all_ok env -> w.(bw_running) = true ->
     (run_turn w (Message Shutdown) env).(acked) = keys (added ks)).
Proof.
  intros Hks w.
  assert (worker_inv (Forall (fun k => all_ok k.2) ks) (∅ ∪ keys (added ks)) w) as [_ Hb Hsub Hall].
  { apply worker_inv_run; [|done|].
    - clear w. apply List.Forall_forall. intros k Hk. rewrite List.Forall_forall in Hks. split; [by apply Hks|].
      rewrite List.Forall_forall. auto.
    - split; cbn [spawn batch batch_size acked]; [done|unfold FORWARD_BATCH_SIZE; simpl; lia|..];
        unfold keys; simpl; set_solver. }
  rewrite union_empty_l_L in *. split; [done|]. split; [set_solver|]. intros Hok. specialize (Hall Hok).
  split; [done|]. intros env Ho He Hr. unfold run_turn. rewrite Hr. cbn [negb set_running acked].
  destruct (flush_spec w env Ho) as (_ & _ & _ & _ & _ & H). by destruct (H He) as [_ ->].
Qed.

(** A batch whose acknowledgement fails is not put back: its entries stay pending in
    Redis until they are reclaimed. *)
Lemma failed_ack_forgets w env :
  order_ok env -> (flush w env).1.(batch) = [].
Proof. intros Ho. by destruct (flush_spec w env Ho). Qed.
End Batcher.

Arguments BatchEntry : clear implicits.

(** ** A run *)

Module BatchRun.
Definition in_order (m : gmap string (list string)) : list (string * list string) := map_to_list m.
Definition ok : flush_env := {| fe_order := in_order; fe_fate := fun _ => IoOk |}.
Definition entry (s id : string) : BatchEntry unit := {| request := (); stream_name := s; entry_id := id |}.
Definition wakes : list (wake (MeterReading := unit) * flush_env) :=
  [(Message (Add (entry "a" "1-0")), ok); (Message (Add (entry "b" "2-0")), ok); (Interval, ok);
   (Message (Add (entry "a" "3-0")), ok)].

Lemma acks_exact_witness :
  (run_turn (run spawn wakes) (Message Shutdown) ok).(acked) = keys (added wakes).
Proof.
  assert (order_ok ok) as Ho by (intros m; reflexivity).
  assert (all_ok ok) as Ha by (intros s; reflexivity).
  destruct (acks_exact wakes) as (_ & _ & H).
  - apply (Forall_fmap snd order_ok wakes). by apply (Forall_replicate order_ok 4).
  - destruct H as [_ H].
    + apply (Forall_fmap snd all_ok wakes). by apply (Forall_replicate all_ok 4).
    + by apply H.
Defined.
End BatchRun.
