(* ===== verification/Messaging.v ===== *)
(** * The message producers (aggregator-persistence/src/infra: kafka.rs, rabbitmq.rs)

    The Kafka producer counts consecutive delivery failures and replaces its client
    after ten of them; many tasks publish at once, so the replacement is a small
    protocol over an atomic counter and a write lock, modelled as a step relation.
    The RabbitMQ producer rebuilds its channel and retries a failed publish once. *)

From Stdlib Require Import ZArith Lia Ascii String SpecFloat.
From stdpp Require Import base gmap strings list numbers.
From S2P Require Import Prelude RustStd External Stores.

Open Scope Z_scope.
Open Scope bridge_scope.

(** ** Kafka *)

Definition REBUILD_AFTER_FAILURES : Z := 10.

Record MeterReadingEvent : Type := {
  mre_meter_id : string;
  mre_timestamp : Z;
  mre_energy_generated : f64;
  mre_energy_consumed : f64;
  mre_surplus : f64;
  mre_voltage : f64;
  mre_frequency : f64;
  mre_power_factor : f64;
  mre_signature : string;
  mre_verified : bool;
  mre_confidence_score : f64
}.

Record GridStatusEvent : Type := {
  gs_frequency : f64;
  gs_load_kw : f64;
  gs_timestamp : Z
}.

(** A record as it is handed to the client. *)
Record kafka_record : Type := {
  kr_topic : string;
  kr_key : string;
  kr_payload : string;
  kr_headers : list (string * string)
}.

(** The serializers of the two events; [None] is a serialization error. *)
Class EventSerde := {
  reading_json : MeterReadingEvent -> option string;
  grid_json : GridStatusEvent -> option string;
  grid_of_json : string -> option GridStatusEvent
}.

(** The client in use, by generation, and the failure counter ([AtomicU32]). *)
Record AggregatorKafkaProducer : Type := {
  kp_topic : string;
  kp_generation : Z;
  kp_failures : Z
}.

Definition set_producer (p : AggregatorKafkaProducer) (g f : Z) : AggregatorKafkaProducer :=
  {| kp_topic := p.(kp_topic); kp_generation := g; kp_failures := f |}.

Definition mark_success (p : AggregatorKafkaProducer) : AggregatorKafkaProducer :=
  set_producer p p.(kp_generation) 0.

(** Run to completion with no other task in between: the lock is free unless
    [lock_free] says a reader holds it, and the second look at the counter sees the
    first one's value. *)
Definition mark_failure_and_maybe_rebuild (p : AggregatorKafkaProducer) (lock_free build_ok : bool)
    : AggregatorKafkaProducer :=
  let n := wrap 32 (p.(kp_failures) + 1) in
  let p := set_producer p p.(kp_generation) n in
  if n <? REBUILD_AFTER_FAILURES then p
  else if lock_free then
    if p.(kp_failures) <? REBUILD_AFTER_FAILURES then p
    else if build_ok then set_producer p (p.(kp_generation) + 1) 0 else p
  else p.

Section Publish.
Context {E : EventSerde}.

Definition reading_record (p : AggregatorKafkaProducer) (r : MeterReadingEvent) (payload : string)
    : kafka_record := {|
  kr_topic := p.(kp_topic); kr_key := r.(mre_meter_id); kr_payload := payload;
  kr_headers := [("signature", r.(mre_signature));
                 ("verified", if r.(mre_verified) then "true" else "false")]%string
|}.

Definition grid_record (topic payload : string) : kafka_record :=
  {| kr_topic := topic; kr_key := "grid_status"; kr_payload := payload; kr_headers := [] |}.

(** What one publication meets: does the broker confirm, is the lock free, does a
    fresh client build. *)
Record kafka_env : Type := {
  ke_delivers : kafka_record -> bool;
  ke_lock_free : bool;
  ke_build_ok : bool
}.

Definition send (p : AggregatorKafkaProducer) (rec : kafka_record) (env : kafka_env)
    : AggregatorKafkaProducer * outcome string unit :=
  if env.(ke_delivers) rec then (mark_success p, Ok ())
  else (mark_failure_and_maybe_rebuild p env.(ke_lock_free) env.(ke_build_ok), Err "Kafka send error"%string).

Definition publish_meter_reading (p : AggregatorKafkaProducer) (r : MeterReadingEvent) (env : kafka_env)
    : AggregatorKafkaProducer * outcome string unit :=
  match reading_json r with
  | Some payload => send p (reading_record p r payload) env
  | None => (p, Err "serialization"%string)
  end.

Definition publish_grid_status (p : AggregatorKafkaProducer) (topic : string) (e : GridStatusEvent)
    (env : kafka_env) : AggregatorKafkaProducer * outcome string unit :=
  match grid_json e with
  | Some payload => send p (grid_record topic payload) env
  | None => (p, Err "serialization"%string)
  end.

(** [msg]: the received message, with or without a payload. *)
Definition consume_grid_status (msg : outcome string (option string)) : outcome string GridStatusEvent :=
  let? m := msg in
  let? payload := ok_or m "Empty payload"%string in
  ok_or (grid_of_json payload) "undecodable"%string.
End Publish.

(** ** The replacement protocol between tasks *)

(** Where a publishing task is in [mark_failure_and_maybe_rebuild]; [Building]
    remembers how many failures were pending when the counter was looked at under
    the lock. *)
Inductive task : Type :=
| Publishing
| Counted
| Locked
| Building (failures : Z).

Record fleet : Type := {
  k_tasks : list task;
  k_lock : bool;            (* a writer holds the lock *)
  k_failures : Z;           (* the atomic counter *)
  k_generation : Z;
  k_since : Z;              (* failures since the last delivery or replacement *)
  k_rebuilds : list Z       (* for each replacement, the failures it was based on *)
}.

Abbreviation mkf t l f g s r :=
  {| k_tasks := t; k_lock := l; k_failures := f; k_generation := g; k_since := s; k_rebuilds := r |}.

Inductive kafka_step : fleet -> fleet -> Prop :=
| ks_delivered i ts l f g s r :
    ts !! i = Some Publishing ->
    kafka_step (mkf ts l f g s r) (mkf ts l 0 g 0 r)
| ks_failed i ts l f g s r :
    ts !! i = Some Publishing ->
    kafka_step (mkf ts l f g s r)
      (mkf (if wrap 32 (f + 1) <? REBUILD_AFTER_FAILURES then ts else <[i := Counted]> ts)
         l (wrap 32 (f + 1)) g (s + 1) r)
| ks_lock_busy i ts l f g s r :        (* a writer, or a reader cloning the client *)
    ts !! i = Some Counted ->
    kafka_step (mkf ts l f g s r) (mkf (<[i := Publishing]> ts) l f g s r)
| ks_lock i ts f g s r :
    ts !! i = Some Counted ->
    kafka_step (mkf ts false f g s r) (mkf (<[i := Locked]> ts) true f g s r)
| ks_recheck_low i ts l f g s r :
    ts !! i = Some Locked -> f < REBUILD_AFTER_FAILURES ->
    kafka_step (mkf ts l f g s r) (mkf (<[i := Publishing]> ts) false f g s r)
| ks_recheck i ts l f g s r :
    ts !! i = Some Locked -> REBUILD_AFTER_FAILURES <= f ->
    kafka_step (mkf ts l f g s r) (mkf (<[i := Building s]> ts) l f g s r)
| ks_built i ts l f g s r n :
    ts !! i = Some (Building n) ->
    kafka_step (mkf ts l f g s r) (mkf (<[i := Publishing]> ts) false 0 (g + 1) 0 (r ++ [n]))
| ks_build_failed i ts l f g s r n :
    ts !! i = Some (Building n) ->
    kafka_step (mkf ts l f g s r) (mkf (<[i := Publishing]> ts) false f g s r).

(** ** RabbitMQ *)

Record validation_job : Type := {
  vj_meter_id : string;
  vj_timestamp : Z;
  vj_priority : Z
}.

Definition build_validation_payload (meter_id : string) (now : Z) : validation_job :=
  {| vj_meter_id := meter_id; vj_timestamp := timestamp_millis now; vj_priority := 5 |}.

(** One publish: the message may reach the queue although the call fails. *)
Definition publish (q : list validation_job) (j : validation_job) (o : io)
    : list validation_job * outcome redis_error unit :=
  (if io_applies o then q ++ [j] else q, io_result o).

(** [fresh]: whether a new channel can be opened. *)
Definition submit_validation_job (q : list validation_job) (meter_id : string) (now : Z)
    (o1 : io) (fresh : bool) (o2 : io) : list validation_job * outcome redis_error unit :=
  let body := build_validation_payload meter_id now in
  match publish q body o1 with
  | (q, Ok _) => (q, Ok ())
  | (q, _) => if fresh then publish q body o2 else (q, Err RedisError)
  end.

(** ** Properties *)

Definition holder (t : task) : bool := match t with Locked | Building _ => true | _ => false end.

Definition holders (ts : list task) : nat := length (List.filter holder ts).

Lemma holders_insert ts i a b :
  ts !! i = Some a ->
  (holders (<[i := b]> ts) + (if holder a then 1 else 0) = holders ts + (if holder b then 1 else 0))%nat.
Proof.
  revert i. induction ts as [|t ts IH]; intros [|i] H; try done; unfold holders in *.
  - simpl in H. simplify_eq. simpl. destruct (holder a), (holder b); simpl; lia.
  - simpl in H. specialize (IH i H). simpl. destruct (holder t); simpl; lia.
Qed.

Lemma holders_elem ts i a : ts !! i = Some a -> holder a = true -> (1 <= holders ts)%nat.
Proof. intros H Ha. pose proof (holders_insert ts i a Publishing H) as Hi. rewrite Ha in Hi. simpl in Hi. lia. Qed.

Record fleet_inv (k : fleet) : Prop := {
  fi_lock : holders k.(k_tasks) = if k.(k_lock) then 1%nat else 0%nat;
  fi_count : k.(k_failures) = wrap 32 k.(k_since);
  fi_since : 0 <= k.(k_since);
  fi_build : forall i n, k.(k_tasks) !! i = Some (Building n) -> REBUILD_AFTER_FAILURES <= n;
  fi_rebuilds : Forall (Z.le REBUILD_AFTER_FAILURES) k.(k_rebuilds);
  fi_generation : k.(k_generation) = Z.of_nat (length k.(k_rebuilds))
}.

Lemma wrap_le w z : 0 <= z -> 0 < w -> wrap w z <= z.
Proof. intros. unfold wrap. apply Z.mod_le; lia. Qed.

Lemma build_insert ts i t j n :
  (<[i := t]> ts : list task) !! j = Some (Building n) -> t = Building n \/ ts !! j = Some (Building n).
Proof.
  intros H. destruct (decide (i = j)) as [->|Hne].
  - apply list_lookup_insert_Some in H as [(_ & -> & _)|[? _]]; auto. done.
  - rewrite list_lookup_insert_ne in H by done. auto.
Qed.

Ltac fleet_holders :=
  match goal with
  | H : ?ts !! ?i = Some ?a |- context [holders (<[?i := ?b]> ?ts)] =>
      pose proof (holders_insert ts i a b H) as Hholders; cbn [holder] in Hholders
  end.

Lemma fleet_inv_step k k' : fleet_inv k -> kafka_step k k' -> fleet_inv k'.
Proof.
  intros [Hl Hc Hs Hb Hr Hg] H.
  assert (forall i t j n, (<[i := t]> k.(k_tasks) : list task) !! j = Some (Building n) ->
            holder t = false \/ t = Building k.(k_since) /\ REBUILD_AFTER_FAILURES <= k.(k_failures) ->
            REBUILD_AFTER_FAILURES <= n) as Hins.
  { intros i t j n Hj Ht. apply build_insert in Hj as [->|Hj]; [|by eapply Hb].
    destruct Ht as [?|[[= ->] Hf]]; [done|]. rewrite Hc in Hf. pose proof (wrap_le 32 (k_since k)). lia. }
  destruct H; cbn [k_tasks k_lock k_failures k_generation k_since k_rebuilds] in *.
  - split; cbn; try done.
  - split; cbn [k_tasks k_lock k_failures k_generation k_since k_rebuilds]; try done; [|rewrite Hc; by apply wrap_add_l|lia|].
    + destruct (_ <? REBUILD_AFTER_FAILURES); [done|]. fleet_holders. lia.
    + destruct (_ <? REBUILD_AFTER_FAILURES); [done|]. intros j n Hj. apply (Hins _ _ _ _ Hj). by left.
  - split; cbn [k_tasks k_lock k_failures k_generation k_since k_rebuilds]; try done.
    + fleet_holders. lia.
    + intros j n Hj. apply (Hins _ _ _ _ Hj). by left.
  - split; cbn [k_tasks k_lock k_failures k_generation k_since k_rebuilds]; try done.
    + fleet_holders. lia.
    + intros j n Hj. apply build_insert in Hj as [?|Hj]; [done|by eapply Hb].
  - pose proof (holders_elem _ _ _ H eq_refl). split; cbn [k_tasks k_lock k_failures k_generation k_since k_rebuilds]; try done.
    + fleet_holders. destruct l; lia.
    + intros j n Hj. apply (Hins _ _ _ _ Hj). by left.
  - split; cbn [k_tasks k_lock k_failures k_generation k_since k_rebuilds]; try done.
    + fleet_holders. lia.
    + intros j n Hj. apply (Hins _ _ _ _ Hj). by right.
  - pose proof (holders_elem _ _ _ H eq_refl). split; cbn [k_tasks k_lock k_failures k_generation k_since k_rebuilds]; try done.
    + fleet_holders. destruct l; lia.
    + intros j m Hj. apply (Hins _ _ _ _ Hj). by left.
    + apply Forall_app. split; [done|]. apply Forall_singleton. by eapply Hb.
    + rewrite length_app. simpl. lia.
  - pose proof (holders_elem _ _ _ H eq_refl). split; cbn [k_tasks k_lock k_failures k_generation k_since k_rebuilds]; try done.
    + fleet_holders. destruct l; lia.
    + intros j m Hj. apply (Hins _ _ _ _ Hj). by left.
Qed.

Definition fleet_start (n : nat) : fleet := mkf (replicate n Publishing) false 0 0 0 [].

Lemma fleet_inv_start n : fleet_inv (fleet_start n).
Proof.
  split; try done; cbn [fleet_start k_tasks k_lock].
  - by induction n.
  - intros i m H. apply lookup_replicate in H as [? _]. done.
Qed.

(** In every interleaving of any number of publishing tasks, at
    most one task at a time is replacing the client, and each replacement is based on
    at least ten deliveries that failed since the last confirmed one or the last
    replacement; the client in use is replaced exactly once per such decision. *)
Theorem rebuild_justified n k :
  steps kafka_step (fleet_start n) k ->
  (holders k.(k_tasks) <= 1)%nat /\
  Forall (Z.le REBUILD_AFTER_FAILURES) k.(k_rebuilds) /\
  k.(k_generation) = Z.of_nat (length k.(k_rebuilds)).
Proof.
  intros H. assert (fleet_inv k) as [Hl _ _ _ Hr Hg].
  { eapply steps_invariant; [exact fleet_inv_step|apply fleet_inv_start|exact H]. }
  split; [|done]. rewrite Hl. by destruct (k_lock k); [|lia].
Qed.

Lemma failures_count p n env :
  0 <= p.(kp_failures) < REBUILD_AFTER_FAILURES -> env.(ke_lock_free) = true -> env.(ke_build_ok) = true ->
  let p' := Nat.iter n (fun p => mark_failure_and_maybe_rebuild p env.(ke_lock_free) env.(ke_build_ok)) p in
  p'.(kp_failures) = (p.(kp_failures) + Z.of_nat n) mod REBUILD_AFTER_FAILURES /\
  p'.(kp_generation) = p.(kp_generation) + (p.(kp_failures) + Z.of_nat n) / REBUILD_AFTER_FAILURES.
Proof.
  unfold REBUILD_AFTER_FAILURES. intros Hp -> ->. induction n as [|n [IH1 IH2]].
  - simpl. rewrite Z.add_0_r, Z.mod_small, Z.div_small by lia. lia.
  - cbv zeta in IH1, IH2 |- *. simpl Nat.iter. set (q := Nat.iter n _ p) in *. clearbody q.
    unfold mark_failure_and_maybe_rebuild, REBUILD_AFTER_FAILURES.
    rewrite wrap_small by (rewrite IH1; pose proof (Z.mod_pos_bound (kp_failures p + Z.of_nat n) 10); lia).
    cbn [set_producer kp_failures kp_generation]. rewrite Nat2Z.inj_succ.
    destruct (kp_failures q + 1 <? 10) eqn:E; rewrite ?E; breflect;
      cbn [set_producer kp_failures kp_generation]; rewrite ?IH1, ?IH2 in *;
      Z.to_euclidean_division_equations; lia.
Qed.

(** A client that stops delivering is replaced after at most ten
    failed publications (when no reader holds the lock and a fresh client builds),
    and again every ten; a confirmed delivery starts the count afresh. *)
Theorem wedge_recovers p n env :
  0 <= p.(kp_failures) < REBUILD_AFTER_FAILURES -> env.(ke_lock_free) = true -> env.(ke_build_ok) = true ->
  let fail p := mark_failure_and_maybe_rebuild p env.(ke_lock_free) env.(ke_build_ok) in
  let p' := Nat.iter n fail p in
  0 <= p'.(kp_failures) < REBUILD_AFTER_FAILURES /\
  p'.(kp_generation) = p.(kp_generation) + (p.(kp_failures) + Z.of_nat n) / REBUILD_AFTER_FAILURES /\
  (mark_success p').(kp_failures) = 0 /\ (mark_success p').(kp_generation) = p'.(kp_generation).
Proof.
  intros Hp Hl Hb fail p'. destruct (failures_count p n env Hp Hl Hb) as [H1 H2]. subst p' fail.
  cbv zeta in H1, H2. rewrite H1, H2. unfold REBUILD_AFTER_FAILURES. split; [apply Z.mod_pos_bound; lia|done].
Qed.

Lemma wedge_recovers_witness :
  let env := {| ke_delivers := fun _ => false; ke_lock_free := true; ke_build_ok := true |} in
  let p := {| kp_topic := "t"; kp_generation := 0; kp_failures := 3 |} in
  (Nat.iter 17 (fun p => mark_failure_and_maybe_rebuild p env.(ke_lock_free) env.(ke_build_ok)) p).(kp_generation) = 2.
Proof.
  intros env p. destruct (wedge_recovers p 17 env) as (_ & H & _);
    [unfold REBUILD_AFTER_FAILURES; cbn; lia|reflexivity..|].
  rewrite H. vm_compute. reflexivity.
Defined.

Lemma rebuild_justified_witness :
  let k := mkf [Publishing; Counted] false 10 0 10 [] in
  (holders k.(k_tasks) <= 1)%nat.
Proof.
  intros k. apply (rebuild_justified 2 k).
  assert (forall m, (m <= 9)%nat -> steps kafka_step (fleet_start 2) (mkf [Publishing; Publishing] false (Z.of_nat m) 0 (Z.of_nat m) [])) as H.
  { induction m as [|m IH]; intros Hm; [apply steps_refl|].
    eapply steps_next; [apply IH; lia|]. rewrite Nat2Z.inj_succ.
    pose proof (ks_failed 1 [Publishing; Publishing] false (Z.of_nat m) 0 (Z.of_nat m) [] eq_refl) as Hs.
    rewrite wrap_small in Hs by lia. unfold REBUILD_AFTER_FAILURES in Hs.
    rewrite (proj2 (Z.ltb_lt _ _)) in Hs by lia. exact Hs. }
  eapply steps_next; [apply (H 9%nat); lia|].
  exact (ks_failed 1 [Publishing; Publishing] false 9 0 9 [] eq_refl).
Defined.

(** A job that is reported as submitted is in the queue, once or (when the first
    publish reached the broker but failed) twice; one that is reported as failed may
    still be there, but never more than twice. *)
Lemma submitted_job_queued q meter now o1 fresh o2 :
  let j := build_validation_payload meter now in
  let r := submit_validation_job q meter now o1 fresh o2 in
  exists n, r.1 = q ++ replicate n j /\ (n <= 2)%nat /\ (r.2 = Ok () -> (1 <= n)%nat).
Proof.
  unfold submit_validation_job, publish, io_result.
  destruct o1, fresh, o2; cbn;
    first [exists 0%nat; split; [by rewrite ?app_nil_r|split; [lia|done]]
          |exists 1%nat; split; [done|split; lia]
          |exists 2%nat; split; [by rewrite <- app_assoc|split; lia]].
Qed.
