(* ===== verification/StreamKey.v ===== *)
(** * The stream key (aggregator-persistence/src/infra: stream_cipher.rs, vault.rs)

    The bridges of a fleet share one stream encryption key, kept in Redis wrapped by
    a Vault Transit key.  Each bridge loads or creates it at boot.  The Transit
    client is modelled down to its HTTP exchanges; the boot of many bridges is a step
    relation over the one Redis key, a step per Redis command. *)

From Stdlib Require Import ZArith Lia Ascii String.
From stdpp Require Import base gmap strings list numbers.
From S2P Require Import Prelude RustStd External Models Stores Router.

Open Scope Z_scope.
Open Scope bridge_scope.

(** ** The Transit client *)

Inductive http : Type :=
| NoResponse
| Response (status : Z) (body : string).

Definition is_success (status : Z) : bool := (200 <=? status) && (status <? 300).

Inductive vault_error : Type :=
| VaultRequestFailed
| VaultStatus (status : Z)
| VaultBadBody
| VaultEmptyCiphertext
| VaultBadBase64
| VaultKeyLength (n : nat).

Section Vault.
Context {J : SerdeJson} {K : Crypto} {SS : StreamSerde}.

Record VaultTransitClient : Type := {
  v_addr : string;
  v_token : string;
  v_kek_name : string
}.

Definition vault_new (addr token kek_name : string) : VaultTransitClient :=
  {| v_addr := trim_end_matches (Ascii.eqb "/"%char) addr; v_token := token; v_kek_name := kek_name |}.

Definition vault_from_env (env : string -> option string) : option VaultTransitClient :=
  addr ← env "VAULT_ADDR"%string;
  if is_empty addr then None else
  Some (vault_new addr (default EmptyString (env "VAULT_TOKEN"%string))
          (default "gridtokenx-meter-kek"%string (env "VAULT_METER_KEK_NAME"%string))).

(** A POST with the token header; [vr_body] is absent where none is sent. *)
Record vault_request : Type := {
  vr_url : string;
  vr_token : string;
  vr_body : option Value
}.

Definition vault_post (c : VaultTransitClient) (path : string) (body : option Value) : vault_request :=
  {| vr_url := c.(v_addr) +:+ path; vr_token := c.(v_token); vr_body := body |}.

Definition one_field (name v : string) : Value := value_of_object [(name, value_of_str v)].

Definition data_field (name body : string) : option string :=
  v ← json_parse body; d ← jget "data" v; s ← jget name d; as_str s.

(** The engine step tolerates every answer but none; the key step does not. *)
Definition ensure_kek (c : VaultTransitClient) (send : vault_request -> http) : outcome vault_error unit :=
  match send (vault_post c "/v1/sys/mounts/transit" (Some (one_field "type" "transit"))) with
  | NoResponse => Err VaultRequestFailed
  | Response _ _ =>
      match send (vault_post c ("/v1/transit/keys/" +:+ c.(v_kek_name)) None) with
      | NoResponse => Err VaultRequestFailed
      | Response status _ => ensure (is_success status) (VaultStatus status)
      end
  end.

Definition vault_wrap (c : VaultTransitClient) (send : vault_request -> http) (plaintext : list Z)
    : outcome vault_error string :=
  match send (vault_post c ("/v1/transit/encrypt/" +:+ c.(v_kek_name))
                (Some (one_field "plaintext" (base64_encode plaintext)))) with
  | NoResponse => Err VaultRequestFailed
  | Response status body =>
      let? _ := ensure (is_success status) (VaultStatus status) in
      let? ciphertext := ok_or (data_field "ciphertext" body) VaultBadBody in
      let? _ := ensure (negb (is_empty ciphertext)) VaultEmptyCiphertext in
      Ok ciphertext
  end.

Definition vault_unwrap (c : VaultTransitClient) (send : vault_request -> http) (ciphertext : string)
    : outcome vault_error (list Z) :=
  match send (vault_post c ("/v1/transit/decrypt/" +:+ c.(v_kek_name))
                (Some (one_field "ciphertext" ciphertext))) with
  | NoResponse => Err VaultRequestFailed
  | Response status body =>
      let? _ := ensure (is_success status) (VaultStatus status) in
      let? plaintext := ok_or (data_field "plaintext" body) VaultBadBody in
      let? raw := ok_or (base64_decode (trim plaintext)) VaultBadBase64 in
      let? _ := ensure (length raw =? 32)%nat (VaultKeyLength (length raw)) in
      Ok raw
  end.

(** Whatever Vault answers, an unwrapped key has 32 bytes. *)
Lemma vault_unwrap_length c send ct sek : vault_unwrap c send ct = Ok sek -> length sek = 32%nat.
Proof.
  unfold vault_unwrap. destruct (send _) as [|status body]; [done|].
  destruct (ensure (is_success status) _); [|done|done]. cbn [obind].
  destruct (ok_or (data_field _ _) _) as [p| |]; [|done|done]. cbn [obind].
  destruct (ok_or (base64_decode _) _) as [raw| |]; [|done|done]. cbn [obind]. unfold ensure.
  destruct (length raw =? 32)%nat eqn:E; [|done]. intros [= <-]. by breflect.
Qed.
End Vault.

(** ** Loading or creating the key *)

(** Where a bridge is in [load_or_create_stream_cipher]. *)
Inductive boot : Type :=
| Start
| NeedKey (rotate_dead_blob : bool)
| HaveKey (rotate_dead_blob : bool) (sek : list Z) (wrapped : string)
| LostRace
| Ready (sek : list Z)
| Failed.

Section Boot.
(** One call of [unwrap] or [wrap], as a function of its argument. *)
Local Abbreviation unwrap_fn := (string -> outcome vault_error (list Z)).
Local Abbreviation wrap_fn := (list Z -> outcome vault_error string).

(** The first [GET]. *)
Definition on_read (u : unwrap_fn) (r : outcome redis_error (option string)) : boot :=
  match r with
  | Ok (Some wrapped) => match u (trim wrapped) with Ok sek => Ready sek | _ => NeedKey true end
  | Ok None => NeedKey false
  | _ => Failed
  end.

(** [rng]: 32 random bytes, or the generator's failure. *)
Definition on_generate (rng : option (list Z)) (wr : wrap_fn) (rotate : bool) : boot :=
  match rng with
  | Some sek => match wr sek with Ok wrapped => HaveKey rotate sek wrapped | _ => Failed end
  | None => Failed
  end.

(** [SET] over a dead blob, [SET NX] otherwise. *)
Definition on_store (slot : option string) (o : io) (rotate : bool) (sek : list Z) (wrapped : string)
    : option string * boot :=
  if rotate || negb (is_someb slot) then
    (if io_applies o then Some wrapped else slot, if io_succeeds o then Ready sek else Failed)
  else (slot, if io_succeeds o then LostRace else Failed).

(** The [GET] after a lost race; a missing value does not convert to a string. *)
Definition on_reread (u : unwrap_fn) (r : outcome redis_error (option string)) : boot :=
  match r with
  | Ok (Some wrapped) => match u (trim wrapped) with Ok sek => Ready sek | _ => Failed end
  | _ => Failed
  end.

(** What one boot meets, when nothing interleaves with it. *)
Record boot_env : Type := {
  be_read : bool; be_unwrap : unwrap_fn; be_rng : option (list Z); be_wrap : wrap_fn;
  be_store : io; be_reread : bool; be_unwrap2 : unwrap_fn
}.

Definition get (slot : option string) (ok : bool) : outcome redis_error (option string) :=
  if ok then Ok slot else Err RedisError.

Definition load_or_create_stream_cipher (env : boot_env) (slot : option string) : option string * boot :=
  match on_read env.(be_unwrap) (get slot env.(be_read)) with
  | NeedKey rotate =>
      match on_generate env.(be_rng) env.(be_wrap) rotate with
      | HaveKey rotate sek wrapped =>
          match on_store slot env.(be_store) rotate sek wrapped with
          | (slot, LostRace) => (slot, on_reread env.(be_unwrap2) (get slot env.(be_reread)))
          | r => r
          end
      | b => (slot, b)
      end
  | b => (slot, b)
  end.

(** ** The fleet *)

(** [transit]: what a stored blob decrypts to under the Transit key. *)
Context (transit : string -> option (list Z)).

(** The answers of a Vault that holds the key: a wrapped key unwraps to itself, and
    while it answers it unwraps every blob it wrapped. *)
Definition vault_answers (u : unwrap_fn) : Prop := forall ct sek, u ct = Ok sek <-> transit ct = Some sek.
Definition vault_wraps (wr : wrap_fn) : Prop := forall sek ct, wr sek = Ok ct -> transit (trim ct) = Some sek.

Record fleet : Type := { f_slot : option string; f_boots : list boot }.

Abbreviation mkfleet s b := {| f_slot := s; f_boots := b |}.

(** A step per Redis or Vault call of some bridge, in any order; bridges restart. *)
Inductive boot_step : fleet -> fleet -> Prop :=
| bs_read i u ok s bs :
    bs !! i = Some Start -> vault_answers u ->
    boot_step (mkfleet s bs) (mkfleet s (<[i := on_read u (get s ok)]> bs))
| bs_generate i rng wr rotate s bs :
    bs !! i = Some (NeedKey rotate) -> vault_wraps wr ->
    boot_step (mkfleet s bs) (mkfleet s (<[i := on_generate rng wr rotate]> bs))
| bs_store i o rotate sek wrapped s bs :
    bs !! i = Some (HaveKey rotate sek wrapped) ->
    boot_step (mkfleet s bs)
      (mkfleet (on_store s o rotate sek wrapped).1 (<[i := (on_store s o rotate sek wrapped).2]> bs))
| bs_reread i u ok s bs :
    bs !! i = Some LostRace -> vault_answers u ->
    boot_step (mkfleet s bs) (mkfleet s (<[i := on_reread u (get s ok)]> bs))
| bs_restart i b s bs :
    bs !! i = Some b ->
    boot_step (mkfleet s bs) (mkfleet s (<[i := Start]> bs)).

Definition slot_key (s : option string) : option (list Z) := s ≫= fun w => transit (trim w).

Definition slot_live (s : option string) : Prop := forall w, s = Some w -> is_Some (transit (trim w)).

(** What the invariant says of one bridge: a key in use is the stored one, and none
    sets out to replace the stored one. *)
Definition boot_ok (s : option string) (b : boot) : Prop :=
  match b with
  | NeedKey rotate => rotate = false
  | HaveKey rotate sek wrapped => rotate = false /\ transit (trim wrapped) = Some sek
  | Ready sek => slot_key s = Some sek
  | _ => True
  end.

Definition fleet_ok (f : fleet) : Prop := slot_live f.(f_slot) /\ Forall (boot_ok f.(f_slot)) f.(f_boots).

Lemma boot_ok_mono s s' b :
  (forall w, s = Some w -> s' = s) -> boot_ok s b -> boot_ok s' b.
Proof.
  intros H. destruct b; try done. cbn [boot_ok]. unfold slot_key. destruct s as [w|]; [|done].
  by rewrite (H w eq_refl).
Qed.

Lemma boots_insert s s' bs i b :
  (forall w, s = Some w -> s' = s) -> Forall (boot_ok s) bs -> boot_ok s' b ->
  Forall (boot_ok s') (<[i := b]> bs).
Proof.
  intros H Hbs Hb. apply Forall_insert; [|done]. revert Hbs. apply Forall_impl. intros b'. by apply boot_ok_mono.
Qed.

Lemma live_read u s ok : slot_live s -> vault_answers u -> boot_ok s (on_read u (get s ok)).
Proof.
  intros Hl Hu. unfold get. destruct ok; [|done]. destruct s as [w|]; [|done]. cbn [on_read].
  destruct (Hl w eq_refl) as [sek Hs]. by rewrite (proj2 (Hu _ _) Hs).
Qed.

Lemma live_reread u s ok : vault_answers u -> boot_ok s (on_reread u (get s ok)).
Proof.
  intros Hu. unfold get. destruct ok; [|done]. destruct s as [w|]; [|done]. cbn [on_reread].
  destruct (u (trim w)) as [sek| |] eqn:E; [|done|done]. by apply Hu in E.
Qed.

Lemma fleet_ok_step f f' : fleet_ok f -> boot_step f f' -> fleet_ok f'.
Proof.
  intros [Hl Hb] H. destruct H as [i u ok s bs Hi Hu|i rng wr rotate s bs Hi Hw|i o rotate sek wrapped s bs Hi|i u ok s bs Hi Hu|i b s bs Hi];
    cbn [f_slot f_boots] in *.
  - split; [done|]. apply (boots_insert s s); [done..|]. by apply live_read.
  - split; [done|]. apply (boots_insert s s); [done..|].
    rewrite Forall_lookup in Hb. apply Hb in Hi. cbn [boot_ok] in Hi. subst rotate.
    unfold on_generate. destruct rng as [sek|]; [|done]. destruct (wr sek) eqn:E; [|done|done].
    split; [done|]. by apply Hw.
  - pose proof Hb as Hb'. rewrite Forall_lookup in Hb'. apply Hb' in Hi as [-> Ht]. unfold on_store, fleet_ok. cbn [orb].
    destruct s as [w|]; cbn [is_someb negb fst snd f_slot f_boots].
    + split; [done|]. apply (boots_insert (Some w) (Some w)); [done..|]. by destruct (io_succeeds o).
    + split.
      * intros w Hw. destruct (io_applies o); simplify_eq. eauto.
      * apply (boots_insert None); [done..|]. by destruct o.
  - split; [done|]. apply (boots_insert s s); [done..|]. by apply live_reread.
  - split; [done|]. by apply (boots_insert s s).
Qed.

(** C27: while Vault answers and the stored blob (if any) is one it can
    unwrap, in every interleaving of the boots and restarts of any number of bridges,
    a bridge that comes up holds the key stored in Redis, so all bridges hold the
    same key; and the stored key, once there, is never replaced. *)
Theorem keys_converge n s f :
  slot_live s -> steps boot_step (mkfleet s (replicate n Start)) f ->
  (forall i sek, f.(f_boots) !! i = Some (Ready sek) -> slot_key f.(f_slot) = Some sek) /\
  (forall i j sek sek', f.(f_boots) !! i = Some (Ready sek) -> f.(f_boots) !! j = Some (Ready sek') -> sek = sek') /\
  (forall w, s = Some w -> f.(f_slot) = Some w).
Proof.
  intros Hl H.
  assert (fleet_ok f /\ forall w, s = Some w -> f.(f_slot) = Some w) as [[_ Hb] Hs].
  { eapply (steps_invariant boot_step (fun f => fleet_ok f /\ forall w, s = Some w -> f.(f_slot) = Some w)); [..|exact H].
    - intros f1 f2 [Hok Hkeep] Hstep. split; [by eapply fleet_ok_step|]. intros w Hw. specialize (Hkeep w Hw).
      destruct Hstep as [| |i o rotate sek wrapped s2 bs Hi| |]; cbn [f_slot] in *; try done.
      destruct Hok as [_ Hok]. cbn [f_boots f_slot] in Hok. rewrite Forall_lookup in Hok. apply Hok in Hi as [-> _].
      by rewrite Hkeep.
    - split; [|done]. split; [done|]. by apply Forall_replicate. }
  assert (forall i sek, f.(f_boots) !! i = Some (Ready sek) -> slot_key f.(f_slot) = Some sek) as Hkey.
  { intros i sek Hi. rewrite Forall_lookup in Hb. by apply Hb in Hi. }
  split; [done|]. split; [|done]. intros i j sek sek' Hi Hj. apply Hkey in Hi, Hj. congruence.
Qed.

(** A bridge that boots alone against working Redis, Vault and
    random generator comes up, with the stored key when one was stored and with a
    fresh key that is now stored otherwise; a stored blob the Vault cannot unwrap is
    replaced by the fresh key. *)
Theorem boot_loads_key env s fresh :
  env.(be_read) = true -> env.(be_store) = IoOk -> env.(be_rng) = Some fresh ->
  vault_answers env.(be_unwrap) -> vault_wraps env.(be_wrap) -> is_ok (env.(be_wrap) fresh) = true ->
  exists s' sek, load_or_create_stream_cipher env s = (s', Ready sek) /\
    slot_key s' = Some sek /\
    match slot_key s with Some key => s' = s /\ sek = key | None => sek = fresh end.
Proof.
  intros Hr Hs Hrng Hu Hw Hok. unfold load_or_create_stream_cipher. rewrite Hr, Hrng, Hs. cbn [get].
  destruct (be_wrap env fresh) as [ct| |] eqn:Ew; [|done|done]. apply Hw in Ew as Hct.
  assert (forall rotate, rotate || negb (is_someb s) = true ->
    match on_generate (Some fresh) (be_wrap env) rotate with
    | HaveKey rotate sek wrapped =>
        match on_store s IoOk rotate sek wrapped with
        | (slot, LostRace) => (slot, on_reread (be_unwrap2 env) (get slot (be_reread env)))
        | r => r
        end
    | b => (s, b)
    end = (Some ct, Ready fresh)) as Hfresh.
  { intros rotate Hrot. unfold on_generate. rewrite Ew. unfold on_store. by rewrite Hrot. }
  destruct s as [w|]; cbn [on_read].
  - destruct (be_unwrap env (trim w)) as [sek|e|] eqn:E.
    + apply Hu in E as E'. exists (Some w), sek. unfold slot_key. cbn [mbind option_bind]. by rewrite E'.
    + rewrite Hfresh by done. exists (Some ct), fresh. unfold slot_key. cbn [mbind option_bind].
      split; [done|]. split; [done|]. destruct (transit (trim w)) as [k|] eqn:Et; [|done]. apply Hu in Et. congruence.
    + rewrite Hfresh by done. exists (Some ct), fresh. unfold slot_key. cbn [mbind option_bind].
      split; [done|]. split; [done|]. destruct (transit (trim w)) as [k|] eqn:Et; [|done]. apply Hu in Et. congruence.
  - rewrite Hfresh by done. exists (Some ct), fresh. by unfold slot_key.
Qed.

(** A failed request (a timeout, a 503) is not told apart from a blob the key cannot
    open: the bridge replaces a key the rest of the fleet is using. *)
Lemma failed_unwrap_rotates env w fresh ct :
  env.(be_read) = true -> env.(be_store) = IoOk -> env.(be_rng) = Some fresh ->
  env.(be_unwrap) (trim w) = Err VaultRequestFailed -> env.(be_wrap) fresh = Ok ct ->
  load_or_create_stream_cipher env (Some w) = (Some ct, Ready fresh).
Proof.
  intros Hr Hs Hrng Hu Hw. unfold load_or_create_stream_cipher. rewrite Hr. cbn [get on_read].
  rewrite Hu, Hrng. cbn [on_generate]. rewrite Hw. by rewrite Hs.
Qed.
End Boot.

(** ** Start-up wiring (main.rs) *)

Inductive start_error : Type := StartFailed (what : string).

(** At-rest encryption was asked for: the Transit key is ensured first, and nothing
    falls back to plaintext.  [load] is the boot above. *)
Definition stream_cipher_of (env : string -> option string) (vault : option (outcome vault_error unit))
    (redis : bool) (load : boot) : outcome start_error (option (list Z)) :=
  if String.eqb (default EmptyString (env "AGGREGATOR_ENCRYPT_STREAMS"%string)) "true" then
    match vault, redis with
    | Some ensured, true =>
        match ensured, load with
        | Ok _, Ready sek => Ok (Some sek)
        | Ok _, _ => Err (StartFailed "Failed to bootstrap stream encryption key (SEK)")
        | _, _ => Err (StartFailed "Failed to ensure Vault Transit KEK before SEK bootstrap")
        end
    | _, _ => Err (StartFailed "AGGREGATOR_ENCRYPT_STREAMS=true but Vault (VAULT_ADDR) or Redis is unavailable")
    end
  else Ok None.

(** The service that starts with encryption asked for has a key. *)
Lemma encryption_never_skipped env vault redis load c :
  env "AGGREGATOR_ENCRYPT_STREAMS"%string = Some "true"%string ->
  stream_cipher_of env vault redis load = Ok c -> exists sek, c = Some sek /\ load = Ready sek.
Proof.
  unfold stream_cipher_of. intros ->. cbn. intros H.
  destruct vault as [[[]| |]|], redis; try done. destruct load; simplify_eq. eauto.
Qed.

(** ** A run *)

Module KeyRun.
(** A toy Transit: a wrapped key is its length in unary after a prefix. *)
Fixpoint ones (n : nat) : string := match n with O => EmptyString | S n => String "1" (ones n) end.
Definition wrap_toy (sek : list Z) : outcome vault_error string := Ok ("v" +:+ ones (length sek))%string.
Definition transit (ct : string) : option (list Z) :=
  match ct with
  | String "v" s => Some (replicate (String.length s) 0)
  | _ => None
  end.
Definition unwrap_toy (ct : string) : outcome vault_error (list Z) := ok_or (transit ct) VaultBadBody.

Lemma toy_answers : vault_answers transit unwrap_toy.
Proof. intros ct sek. unfold unwrap_toy. destruct (transit ct); simpl; split; congruence. Qed.

Definition key : list Z := replicate 3 0.
Definition toy_wrap (sek : list Z) : outcome vault_error string :=
  if bool_decide (sek = key) then wrap_toy sek else Err VaultRequestFailed.

Lemma toy_wraps : vault_wraps transit toy_wrap.
Proof. intros sek ct. unfold toy_wrap. case_bool_decide; [|done]. subst. intros [= <-]. reflexivity. Qed.

Definition blob : string := "v111".

(** Two bridges boot; the second loses the race and adopts the first one's key. *)
Lemma race : steps (boot_step transit) {| f_slot := None; f_boots := replicate 2 Start |}
  {| f_slot := Some blob; f_boots := [Ready key; Ready key] |}.
Proof.
  eapply steps_next; [eapply steps_next; [eapply steps_next; [eapply steps_next; [eapply steps_next;
    [eapply steps_next; [eapply steps_next; [apply steps_refl|]|]|]|]|]|]|].
  - exact (bs_read transit 0 unwrap_toy true None [Start; Start] eq_refl toy_answers).
  - exact (bs_read transit 1 unwrap_toy true None [NeedKey false; Start] eq_refl toy_answers).
  - exact (bs_generate transit 0 (Some key) toy_wrap false None [NeedKey false; NeedKey false] eq_refl toy_wraps).
  - exact (bs_generate transit 1 (Some key) toy_wrap false None [HaveKey false key blob; NeedKey false] eq_refl toy_wraps).
  - exact (bs_store transit 0 IoOk false key blob None [HaveKey false key blob; HaveKey false key blob] eq_refl).
  - exact (bs_store transit 1 IoOk false key blob (Some blob) [Ready key; HaveKey false key blob] eq_refl).
  - exact (bs_reread transit 1 unwrap_toy true (Some blob) [Ready key; LostRace] eq_refl toy_answers).
Qed.

Lemma keys_converge_witness : slot_key transit (Some blob) = Some key.
Proof.
  assert (slot_live transit None) as Hl by (intros w Hw; discriminate Hw).
  destruct (keys_converge transit 2 None _ Hl race) as [H _]. exact (H 1%nat key eq_refl).
Defined.

Definition lone : boot_env := {|
  be_read := true; be_unwrap := unwrap_toy; be_rng := Some key; be_wrap := toy_wrap;
  be_store := IoOk; be_reread := true; be_unwrap2 := unwrap_toy |}.

(** A blob of a destroyed Transit key is replaced. *)
Lemma boot_loads_key_witness :
  exists s' sek, load_or_create_stream_cipher lone (Some "dead"%string) = (s', Ready sek) /\
    slot_key transit s' = Some sek /\ sek = key.
Proof.
  apply (boot_loads_key transit lone (Some "dead"%string) key); try reflexivity;
    [apply toy_answers|apply toy_wraps].
Defined.
End KeyRun.
