(* ===== verification/Metrics.v ===== *)
(** * Metrics (aggregator-logic/src/metrics/mod.rs, aggregator-persistence/src/metrics.rs,
      aggregator-api/src/state.rs, and the calls in main.rs, mint_settlement.rs, auth.rs)

    A recorder holds counters, gauges and histograms by name and labels; before one is
    installed every emission is dropped.  A [record_*] function is the list of its
    emissions.  The outcome labels of a settled bin, of a batched attempt and of an
    authenticated request are read off the code beside the models of those parts, so
    that what a dashboard shows can be compared with what happened. *)

From Stdlib Require Import ZArith Lia Ascii String SpecFloat.
From stdpp Require Import base gmap strings list numbers.
From S2P Require Import Prelude RustStd External Models Aggregator Stores Mint MintProps Settlement Auth.

Open Scope string_scope.
Open Scope list_scope.
Open Scope Z_scope.
Open Scope bridge_scope.

(** ** The recorder *)

(** Name and labels of a series. *)
Abbreviation labels := (list (string * string)).
Abbreviation series := (string * labels)%type.

Inductive emission : Type :=
| Count (k : series) (n : Z)          (* counter!(..).increment(n), a u64 *)
| GaugeSet (k : series) (v : f64)
| GaugeAdd (k : series) (v : f64)
| Sample (k : series) (v : f64).      (* histogram!(..).record(v) *)

Record recorder : Type := {
  rc_counters : gmap series Z;
  rc_gauges : gmap series f64;
  rc_samples : gmap series (list f64)
}.

Definition empty_recorder : recorder := {| rc_counters := ∅; rc_gauges := ∅; rc_samples := ∅ |}.

Definition counter (r : recorder) (k : series) : Z := default 0 (r.(rc_counters) !! k).
Definition gauge (r : recorder) (k : series) : f64 := default F64.zero (r.(rc_gauges) !! k).

Definition apply_emission (r : recorder) (e : emission) : recorder :=
  match e with
  | Count k n =>
      {| rc_counters := <[k := wrap 64 (counter r k + n)]> r.(rc_counters);
         rc_gauges := r.(rc_gauges); rc_samples := r.(rc_samples) |}
  | GaugeSet k v =>
      {| rc_counters := r.(rc_counters); rc_gauges := <[k := v]> r.(rc_gauges); rc_samples := r.(rc_samples) |}
  | GaugeAdd k v =>
      {| rc_counters := r.(rc_counters); rc_gauges := <[k := F64.add (gauge r k) v]> r.(rc_gauges);
         rc_samples := r.(rc_samples) |}
  | Sample k v =>
      {| rc_counters := r.(rc_counters); rc_gauges := r.(rc_gauges);
         rc_samples := <[k := default [] (r.(rc_samples) !! k) ++ [v]]> r.(rc_samples) |}
  end.

(** The global recorder: nothing is kept until [set_global_recorder]. *)
Definition emit (g : option recorder) (es : list emission) : option recorder :=
  (fun r => fold_left apply_emission es r) <$> g.

(** ** The record functions *)

Definition show_bool (b : bool) : string := if b then "true" else "false".

(** [as u64] of a usize, [as f64] of a u64. *)
Definition f64_of_u64 (n : Z) : f64 := F64.of_Z n.

Definition record_ingestion_request (device_type : string) (success : bool) (duration_ms : f64) : list emission :=
  [Count ("aggregator_ingestion_requests_total", [("device_type", device_type); ("success", show_bool success)]) 1;
   Sample ("aggregator_ingestion_request_duration_ms", [("device_type", device_type)]) duration_ms].

Definition record_late_reading : list emission := [Count ("aggregator_late_readings_dropped_total", []) 1].

Definition record_meter_reading (success : bool) (duration_ms : f64) : list emission :=
  ([Count ("aggregator_meter_readings_total", [("success", show_bool success)]) 1;
    Sample ("aggregator_meter_reading_duration_ms", []) duration_ms]
   ++ (if success then [] else [Count ("aggregator_meter_reading_failures_total", []) 1])).

Definition record_ev_charger_data (success : bool) (duration_ms : f64) : list emission :=
  [Count ("aggregator_ev_charger_data_total", [("success", show_bool success)]) 1;
   Sample ("aggregator_ev_charger_data_duration_ms", []) duration_ms].

Definition record_battery_data (success : bool) (duration_ms : f64) : list emission :=
  [Count ("aggregator_battery_data_total", [("success", show_bool success)]) 1;
   Sample ("aggregator_battery_data_duration_ms", []) duration_ms].

Definition record_redis_stream_processing (stream_name : string) (messages_processed : Z) (success : bool)
    (duration_ms : f64) : list emission :=
  ([Count ("aggregator_redis_stream_processed_total", [("stream", stream_name); ("success", show_bool success)])
      messages_processed;
    Sample ("aggregator_redis_stream_processing_duration_ms", [("stream", stream_name)]) duration_ms]
   ++ (if success then []
       else [Count ("aggregator_redis_stream_processing_failures_total", [("stream", stream_name)]) 1])).

Definition record_aggregator_forwarding (success : bool) (duration_ms : f64) : list emission :=
  ([Count ("aggregator_forwarding_total", [("success", show_bool success)]) 1;
    Sample ("aggregator_forwarding_duration_ms", []) duration_ms]
   ++ (if success then [] else [Count ("aggregator_forwarding_failures_total", []) 1])).

Definition record_device_connection (device_type : string) (connected : bool) : list emission :=
  if connected then [Count ("aggregator_device_connections_total", [("device_type", device_type)]) 1]
  else [Count ("aggregator_device_disconnections_total", [("device_type", device_type)]) 1].

Definition record_active_devices (device_type : string) (count : Z) : list emission :=
  [GaugeSet ("aggregator_active_devices", [("device_type", device_type)]) (f64_of_u64 count)].

Definition record_data_validation (valid : bool) (reason : string) : list emission :=
  ([Count ("aggregator_data_validations_total", [("valid", show_bool valid); ("reason", reason)]) 1]
   ++ (if valid then [] else [Count ("aggregator_data_validation_failures_total", [("reason", reason)]) 1])).

Definition record_protocol_adapter (protocol operation : string) (success : bool) (duration_ms : f64) : list emission :=
  [Count ("aggregator_protocol_adapter_operations_total",
          [("protocol", protocol); ("operation", operation); ("success", show_bool success)]) 1;
   Sample ("aggregator_protocol_adapter_operation_duration_ms",
           [("protocol", protocol); ("operation", operation)]) duration_ms].

Definition record_grpc_client_call (service method : string) (success : bool) (duration_ms : f64) : list emission :=
  [Count ("aggregator_grpc_client_calls_total",
          [("service", service); ("method", method); ("success", show_bool success)]) 1;
   Sample ("aggregator_grpc_client_call_duration_ms", [("service", service); ("method", method)]) duration_ms].

Definition record_api_key_auth (success : bool) (duration_ms : f64) (source : string) : list emission :=
  ([Count ("aggregator_api_key_authentications_total", [("success", show_bool success); ("source", source)]) 1;
    Sample ("aggregator_api_key_authentication_duration_ms", [("source", source)]) duration_ms]
   ++ (if success then []
       else [Count ("aggregator_api_key_authentication_failures_total", [("source", source)]) 1])).

Definition record_energy_reading (reading_type : string) (value_kwh : f64) (device_id : string) : list emission :=
  [Count ("aggregator_energy_readings_total", [("reading_type", reading_type); ("device_id", device_id)]) 1;
   Sample ("aggregator_energy_reading_value_kwh", [("reading_type", reading_type); ("device_id", device_id)]) value_kwh].

(** *** HTTP requests in flight *)

Record HttpMetricsTimer : Type := { ht_start : Z; ht_method : string; ht_path : string }.

Definition http_series (name : string) (t : HttpMetricsTimer) (status : option Z) : series :=
  (name, [("method", t.(ht_method)); ("path", t.(ht_path))]
         ++ option_list ((fun s => ("status", show_Z s)) <$> status)).

Definition timer_new (method path : string) (now : Z) : HttpMetricsTimer * list emission :=
  let t := {| ht_start := now; ht_method := method; ht_path := path |} in
  (t, [GaugeAdd (http_series "aggregator_http_requests_in_flight" t None) (F64.of_Z 1)]).

(** [elapsed.as_secs_f64()]: whole seconds plus the nanoseconds. *)
Definition as_secs_f64 (ns : Z) : f64 :=
  F64.add (F64.of_Z (ns / NS_PER_SEC)) (F64.div (F64.of_Z (ns mod NS_PER_SEC)) (F64.of_Z NS_PER_SEC)).

Definition timer_finish (t : HttpMetricsTimer) (status now : Z) : list emission :=
  let secs := as_secs_f64 (now - t.(ht_start)) in
  [GaugeAdd (http_series "aggregator_http_requests_in_flight" t None) (F64.opp (F64.of_Z 1));
   Count (http_series "aggregator_http_requests_total" t (Some status)) 1;
   Sample (http_series "aggregator_http_request_duration_seconds" t (Some status)) secs;
   Sample (http_series "aggregator_http_request_duration_ms" t (Some status)) (F64.mul secs (F64.of_Z 1000))]
  ++ (if 500 <=? status then [Count (http_series "aggregator_http_errors_total" t (Some status)) 1] else []).

(** *** Dispatch, settlement, batches, caches *)

Definition record_dispatch_outcome (action adapter outcome : string) : list emission :=
  [Count ("aggregator_dispatch_total", [("action", action); ("adapter", adapter); ("outcome", outcome)]) 1].

Definition record_ven_event (outcome : string) : list emission :=
  [Count ("aggregator_openleadr_ven_events_total", [("outcome", outcome)]) 1].

Definition mint_series (outcome reason : string) : series :=
  ("aggregator_mint_total", [("outcome", outcome); ("reason", reason)]).

Definition record_mint_outcome (outcome reason : string) : list emission := [Count (mint_series outcome reason) 1].

Definition settlement_paths : list string := ["nats"; "grpc"; "disabled"].

Definition path_series (p : string) : series := ("aggregator_settlement_path", [("path", p)]).

Definition record_settlement_path (path : string) : list emission :=
  (fun candidate => GaugeSet (path_series candidate) (if String.eqb candidate path then F64.of_Z 1 else F64.zero))
    <$> settlement_paths.

Definition record_batch_forward (batch_size accepted rejected : Z) (duration_ms : f64) : list emission :=
  [Count ("aggregator_batch_forwarded_total", [("success", "true")]) accepted;
   Count ("aggregator_batch_forwarded_total", [("success", "false")]) rejected;
   Count ("aggregator_batch_flushes_total", []) 1;
   Sample ("aggregator_batch_size", []) (f64_of_u64 batch_size);
   Sample ("aggregator_batch_forward_duration_ms", []) duration_ms].

Definition record_batch_failure (reason : string) : list emission :=
  [Count ("aggregator_batch_failures_total", [("reason", reason)]) 1].

Definition record_cache_lookup (cache : string) (hit : bool) : list emission :=
  [Count ("aggregator_cache_lookups_total",
          [("cache", cache); ("result", if hit then "hit" else "miss")]) 1].

Definition record_unattributed_readings (dropped : Z) : list emission :=
  if 0 <? dropped then [Count ("aggregator_readings_unattributed_total", []) dropped] else [].

(** ** The outcome labels of settlement *)

Section SettlementLabels.
Context {C : Chrono} {D : RustDecimal} {U : UuidText} {K : Crypto}.
Context {BC : Codec BillingBin} {PC : Codec PendingMint}.

(** The owner gate of the sweep. *)
Definition owner_metrics (e : sweep_env) : list (string * string) :=
  match e.(se_owner) with
  | Ok None =>
      match e.(se_truth) with
      | Ok (Some _) => [("queued", "readmodel_stale")]
      | Ok None => [("skipped", "unattributed_meter")]
      | _ => []
      end
  | _ => []
  end.

Definition LOST : string * string := ("lost", "outbox_and_mint_failed").
Definition QUEUED : string * string := ("queued", "ok").

(** The hand-off; the attempt of a spawned task counts for itself. *)
Definition hand_off_metrics (e : sweep_env) (r : Redis) (p : PendingMint) : list (string * string) :=
  if e.(se_has_outbox) then
    match enqueue r p e.(se_enqueue1) with
    | (_, Ok _) => [QUEUED]
    | (r1, _) =>
        match enqueue r1 p e.(se_enqueue2) with
        | (_, Ok _) => [QUEUED]
        | _ =>
            let a := attempt_mint e.(se_gateway) e.(se_wallet) e.(se_round_trip) e.(se_inflight)
                       e.(se_has_writeback) p in
            a.(at_metric) :: (if a.(at_confirmed) then [] else [LOST])
        end
    end
  else [].

Definition settle_metrics (e : sweep_env) (r : Redis) (b : BillingBin) : list (string * string) :=
  match plan_mint b (is_enabled e.(se_gateway)) with
  | Ok (Surplus kwh) =>
      owner_metrics e ++ (if owner_known e then hand_off_metrics e r (pending_of b kwh e.(se_now)) else [])
  | Ok NoSurplus => [("no_surplus", "ok")]
  | _ => []
  end.

(** The labels of a whole sweep, each bin on the store the one before it left. *)
Fixpoint sweep_metrics (r : Redis) (bs : list (BillingBin * sweep_env)) : list (string * string) :=
  match bs with
  | [] => []
  | (b, e) :: bs =>
      settle_metrics e r b ++
      match settle_bin e r b with Ok sr => sweep_metrics sr.(sr_redis) bs | _ => [] end
  end.

(** *** The batched attempt *)

Definition deferral_label (d : deferral) : string * string :=
  ("skipped", match d with
              | DInFlight => "in_flight"
              | DNoWallet => "no_wallet"
              | DInvalidWallet => "invalid_wallet"
              | DResolveErr => "resolve_err"
              end).

Definition claim_metric (c : claim_state) (pw : PendingMint * outcome lookup_error (option string))
    : list (string * string) :=
  match try_begin c.(cs_inflight) (field pw.1) with
  | None => [deferral_label DInFlight]
  | Some _ =>
      match pw.2 with
      | Ok (Some w) => if negb (wallet_is_valid w) then [deferral_label DInvalidWallet] else []
      | Ok None => [deferral_label DNoWallet]
      | _ => [deferral_label DResolveErr]
      end
  end.

Fixpoint claim_metrics (c : claim_state) (pws : list (PendingMint * outcome lookup_error (option string)))
    : list (string * string) :=
  match pws with
  | [] => []
  | pw :: pws => claim_metric c pw ++ claim_metrics (claim_one c pw) pws
  end.

Definition batch_metrics (g : MintGateway) (rt : round_trip (list MintBatchItemResult)) (s : MintInFlight)
    (pending : list (PendingMint * outcome lookup_error (option string))) : list (string * string) :=
  let inputs := (claim_batch s pending).(cs_inputs) in
  claim_metrics (claim_start s) pending ++
  match inputs with
  | [] => []
  | _ =>
      match (gateway_mint_batch g rt inputs).2 with
      | Ok results =>
          let c := classify_batch_results results in
          replicate c.(confirmed) ("settled", "ok") ++ replicate c.(failed) ("failed", "mint_err")
      | Err e => replicate (length inputs) ("failed", mint_failure_reason e)
      | Panic => []
      end
  end.
End SettlementLabels.

(** ** Request counters of the API (state.rs) *)

Record RequestMetrics : Type := {
  total_requests : Z;
  authorized_requests : Z;
  failed_requests : Z;
  last_grpc_latency_us : Z;
  total_grpc_latency_us : Z
}.

Definition metrics_new : RequestMetrics :=
  {| total_requests := 0; authorized_requests := 0; failed_requests := 0;
     last_grpc_latency_us := 0; total_grpc_latency_us := 0 |}.

(** [record_request] is four atomic operations; calls run concurrently. *)
Inductive request_phase : Type := Entered | Counted | Classified | Stored | Recorded.

Record request_call : Type := { rc_authorized : bool; rc_latency_us : Z; rc_phase : request_phase }.

Definition at_phase (c : request_call) (p : request_phase) : request_call :=
  {| rc_authorized := c.(rc_authorized); rc_latency_us := c.(rc_latency_us); rc_phase := p |}.

Definition fetch_add (v n : Z) : Z := wrap 64 (v + n).

(** The next atomic operation of a call. *)
Definition record_request_step (m : RequestMetrics) (c : request_call) : RequestMetrics * request_call :=
  match c.(rc_phase) with
  | Entered =>
      ({| total_requests := fetch_add m.(total_requests) 1; authorized_requests := m.(authorized_requests);
          failed_requests := m.(failed_requests); last_grpc_latency_us := m.(last_grpc_latency_us);
          total_grpc_latency_us := m.(total_grpc_latency_us) |}, at_phase c Counted)
  | Counted =>
      ({| total_requests := m.(total_requests);
          authorized_requests := if c.(rc_authorized) then fetch_add m.(authorized_requests) 1 else m.(authorized_requests);
          failed_requests := if c.(rc_authorized) then m.(failed_requests) else fetch_add m.(failed_requests) 1;
          last_grpc_latency_us := m.(last_grpc_latency_us);
          total_grpc_latency_us := m.(total_grpc_latency_us) |}, at_phase c Classified)
  | Classified =>
      ({| total_requests := m.(total_requests); authorized_requests := m.(authorized_requests);
          failed_requests := m.(failed_requests); last_grpc_latency_us := c.(rc_latency_us);
          total_grpc_latency_us := m.(total_grpc_latency_us) |}, at_phase c Stored)
  | Stored =>
      ({| total_requests := m.(total_requests); authorized_requests := m.(authorized_requests);
          failed_requests := m.(failed_requests); last_grpc_latency_us := m.(last_grpc_latency_us);
          total_grpc_latency_us := fetch_add m.(total_grpc_latency_us) c.(rc_latency_us) |}, at_phase c Recorded)
  | Recorded => (m, c)
  end.

(** A handler enters [record_request], or a running call makes its next operation. *)
Inductive metrics_step : RequestMetrics * list request_call -> RequestMetrics * list request_call -> Prop :=
| ms_enter m cs authorized latency :
    metrics_step (m, cs) (m, cs ++ [{| rc_authorized := authorized; rc_latency_us := latency; rc_phase := Entered |}])
| ms_step m cs i c :
    cs !! i = Some c ->
    metrics_step (m, cs) ((record_request_step m c).1, <[i := (record_request_step m c).2]> cs).

Section AuthRecords.
Context {breaker : Type} (should_allow : breaker -> breaker * bool).
Context (api_keys : list string).

(** The [record_request] calls of one pass of the API-key middleware. *)
Definition auth_records (s : Auth.state) (r : request) : list bool :=
  match r.(rq_key) with
  | None => [false]
  | Some key =>
      match (cache_lookup s.(st_cache) key r.(rq_lookup)).2 with
      | Some v => [v]
      | None =>
          let static := existsb (String.eqb key) api_keys in
          if (breaker_allows should_allow s.(st_breaker)).2 then
            match r.(rq_iam) with
            | Some (Ok v) => [v]
            | Some _ => [false; static]
            | None => [static]
            end
          else [static]
      end
  end.
End AuthRecords.
