(* ===== verification/MetricsProps.v ===== *)
(** * Properties of the metrics

    A counter is the number of emissions it received; the settlement counters name
    the fate of every bin and of every batched entry exactly; the request counters
    agree whenever no call is in progress, however the calls interleave. *)

From Stdlib Require Import ZArith Lia Ascii String SpecFloat.
From stdpp Require Import base gmap strings list numbers.
From S2P Require Import Prelude RustStd External Models BinaryDecoder Aggregator Stores Mint MintProps Settlement SettlementSafety Auth Metrics.

Open Scope string_scope.
Open Scope list_scope.
Open Scope Z_scope.
Open Scope bridge_scope.

(** ** Counters *)

(** What a list of emissions adds to a series. *)
Definition amount1 (k : series) (e : emission) : Z :=
  match e with Count k' n => if decide (k' = k) then n else 0 | _ => 0 end.

Definition amount (k : series) (es : list emission) : Z := foldr (fun e a => amount1 k e + a) 0 es.

Definition counters_wf (r : recorder) : Prop := forall k, wrap 64 (counter r k) = counter r k.

Lemma counter_apply r e k :
  counters_wf r -> counter (apply_emission r e) k = wrap 64 (counter r k + amount1 k e).
Proof.
  intros Hr. destruct e as [k' n|k' v|k' v|k' v]; cbn [amount1]; rewrite ?Z.add_0_r; try (by rewrite Hr).
  unfold counter at 1. cbn [apply_emission rc_counters]. case_decide as Hk.
  - subst k'. by rewrite lookup_insert_eq.
  - rewrite lookup_insert_ne by done. rewrite Z.add_0_r, Hr. done.
Qed.

Lemma wrap_wrap z : wrap 64 (wrap 64 z) = wrap 64 z.
Proof. unfold wrap. by rewrite Z.mod_mod. Qed.

Lemma counters_wf_apply r e : counters_wf r -> counters_wf (apply_emission r e).
Proof. intros Hr k. rewrite counter_apply by done. apply wrap_wrap. Qed.

Lemma counter_fold es r k :
  counters_wf r -> counter (fold_left apply_emission es r) k = wrap 64 (counter r k + amount k es).
Proof.
  revert r. induction es as [|e es IH]; intros r Hr; cbn [fold_left amount foldr].
  - by rewrite Z.add_0_r, Hr.
  - rewrite IH by (by apply counters_wf_apply). rewrite counter_apply by done. fold (amount k es).
    rewrite wrap_add_l by lia. f_equal. lia.
Qed.

Lemma counters_wf_empty : counters_wf empty_recorder.
Proof. intros k. done. Qed.

Lemma counter_from_empty es k : counter (fold_left apply_emission es empty_recorder) k = wrap 64 (amount k es).
Proof. rewrite counter_fold by apply counters_wf_empty. done. Qed.

Lemma amount_cons k e es : amount k (e :: es) = amount1 k e + amount k es.
Proof. done. Qed.

Lemma amount_app k l1 l2 : amount k (l1 ++ l2) = amount k l1 + amount k l2.
Proof. induction l1 as [|e l1 IH]; [done|]. cbn [app]. rewrite !amount_cons. lia. Qed.

(** The labels of a run of [record_mint_outcome] calls. *)
Definition mint_emissions (ls : list (string * string)) : list emission := (fun l => Count (mint_series l.1 l.2) 1) <$> ls.

Lemma mint_series_inj o r o' r' : mint_series o r = mint_series o' r' -> (o, r) = (o', r').
Proof. unfold mint_series. congruence. Qed.

Definition occurrences (l : string * string) (ls : list (string * string)) : nat :=
  length (List.filter (fun x => bool_decide (x = l)) ls).

Lemma amount_mint l ls : amount (mint_series l.1 l.2) (mint_emissions ls) = Z.of_nat (occurrences l ls).
Proof.
  unfold occurrences. induction ls as [|x ls IH]; [done|].
  change (mint_emissions (x :: ls)) with (Count (mint_series x.1 x.2) 1 :: mint_emissions ls).
  rewrite amount_cons, IH. cbn [amount1 List.filter].
  destruct (decide (x = l)) as [->|Hne].
  - rewrite decide_True, bool_decide_true by done. cbn [length]. lia.
  - rewrite (bool_decide_false (x = l)) by done. rewrite decide_False; [done|]. destruct x, l. cbn [fst snd]. intros ?%mint_series_inj. congruence.
Qed.

(** ** Failure counters *)

(** The families that keep a separate failure counter. *)
Inductive failing_call : Type :=
| MeterReadingCall (success : bool) (ms : f64)
| ForwardingCall (success : bool) (ms : f64)
| ApiKeyCall (success : bool) (ms : f64) (source : string)
| ValidationCall (valid : bool) (reason : string).

Definition call_emissions (c : failing_call) : list emission :=
  match c with
  | MeterReadingCall s ms => record_meter_reading s ms
  | ForwardingCall s ms => record_aggregator_forwarding s ms
  | ApiKeyCall s ms src => record_api_key_auth s ms src
  | ValidationCall v reason => record_data_validation v reason
  end.

(** Each family: its failure series and the failing part of its total. *)
Definition failure_pairs (source reason : string) : list (series * series) :=
  [(("aggregator_meter_reading_failures_total", []), ("aggregator_meter_readings_total", [("success", "false")]));
   (("aggregator_forwarding_failures_total", []), ("aggregator_forwarding_total", [("success", "false")]));
   (("aggregator_api_key_authentication_failures_total", [("source", source)]),
    ("aggregator_api_key_authentications_total", [("success", "false"); ("source", source)]));
   (("aggregator_data_validation_failures_total", [("reason", reason)]),
    ("aggregator_data_validations_total", [("valid", "false"); ("reason", reason)]))].

Lemma call_amounts c source reason p :
  p ∈ failure_pairs source reason -> amount p.1 (call_emissions c) = amount p.2 (call_emissions c).
Proof.
  intros Hp. unfold failure_pairs in Hp. rewrite !elem_of_cons, elem_of_nil in Hp.
  destruct Hp as [->|[->|[->|[->|[]]]]]; destruct c as [[] ms|[] ms|[] ms src|[] why];
    cbn [call_emissions record_meter_reading record_aggregator_forwarding record_api_key_auth record_data_validation
         app amount foldr amount1 fst snd show_bool]; repeat case_decide; try congruence; try lia.
Qed.

(** Over any sequence of calls, a failure counter is the failing part of its total. *)
Theorem failure_counters_exact calls source reason p :
  p ∈ failure_pairs source reason ->
  let r := fold_left apply_emission (concat (call_emissions <$> calls)) empty_recorder in
  counter r p.1 = counter r p.2.
Proof.
  intros Hp r. subst r. rewrite !counter_from_empty. f_equal.
  induction calls as [|c calls IH]; [done|]. cbn [fmap list_fmap concat]. rewrite !amount_app.
  by rewrite IH, (call_amounts c source reason).
Qed.

(** ** The settlement path *)

(** Whatever was shown before, after [record_settlement_path] exactly the named mode
    reads one, so no stale mode lingers. *)
Theorem settlement_path_one_hot r path p :
  p ∈ settlement_paths ->
  gauge (fold_left apply_emission (record_settlement_path path) r) (path_series p)
    = (if String.eqb p path then F64.of_Z 1 else F64.zero).
Proof.
  unfold settlement_paths. rewrite !elem_of_cons, elem_of_nil.
  intros [->|[->|[->|[]]]]; unfold gauge, record_settlement_path, settlement_paths;
    cbn [fmap list_fmap fold_left apply_emission rc_gauges];
    rewrite ?lookup_insert_ne by (unfold path_series; congruence); by rewrite lookup_insert_eq.
Qed.

(** ** Settlement *)

Section Settlement.
Context {C : Chrono} {D : RustDecimal} {U : UuidText} {K : Crypto}.
Context {BC : Codec BillingBin} {PC : Codec PendingMint}.

(** The label of an attempt never claims a hand-off. *)
Lemma attempt_label g w rt s wb p l :
  l ∈ [LOST; QUEUED] -> (attempt_mint g w rt s wb p).(at_metric) <> l.
Proof.
  rewrite !elem_of_cons, elem_of_nil. unfold attempt_mint, LOST, QUEUED. intros Hl Ha.
  destruct (try_begin s (field p)); [|subst; naive_solver].
  destruct w as [[w|]| |]; cbn [at_metric] in Ha; [|subst; naive_solver..].
  destruct (negb (wallet_is_valid w)); cbn [at_metric] in Ha; [subst; naive_solver|].
  destruct (mint_to g rt w p) as [pub [out|err|]]; cbn [at_metric] in Ha; subst; naive_solver.
Qed.

Definition count_handoff (h : MintHandoff) (l : string * string) : nat :=
  match h with
  | Lost => if decide (l = LOST) then 1 else 0
  | Enqueued => if decide (l = QUEUED) then 1 else 0
  | _ => 0
  end.

Lemma occurrences_app l l1 l2 : occurrences l (l1 ++ l2) = (occurrences l l1 + occurrences l l2)%nat.
Proof. unfold occurrences. by rewrite List.filter_app, length_app. Qed.

Lemma occurrences_one l x : occurrences l [x] = if decide (x = l) then 1%nat else 0%nat.
Proof. unfold occurrences. cbn [List.filter]. case_bool_decide; by case_decide. Qed.

Lemma hand_off_counted e r p l :
  l ∈ [LOST; QUEUED] -> occurrences l (hand_off_metrics e r p) = count_handoff (hand_off e r p).1.2 l.
Proof.
  intros Hl. pose proof (attempt_label e.(se_gateway) e.(se_wallet) e.(se_round_trip) e.(se_inflight) e.(se_has_writeback) p l Hl) as Ha.
  unfold hand_off_metrics, hand_off. destruct (se_has_outbox e); [|done].
  destruct (enqueue r p (se_enqueue1 e)) as [r1 [[]|x|]]; cbn [fst snd count_handoff].
  1: rewrite occurrences_one; repeat case_decide; congruence.
  all: destruct (enqueue r1 p (se_enqueue2 e)) as [r2 [[]|x'|]]; cbn [fst snd count_handoff];
    [rewrite occurrences_one; repeat case_decide; congruence|..];
    change (?a :: ?b) with ([a] ++ b); rewrite occurrences_app, occurrences_one, decide_False by exact Ha;
    (destruct (at_confirmed _); cbn [fst snd count_handoff Nat.add];
     [done|rewrite occurrences_one; repeat case_decide; congruence]).
Qed.

Lemma owner_not_handoff e l : l ∈ [LOST; QUEUED] -> occurrences l (owner_metrics e) = 0%nat.
Proof.
  rewrite !elem_of_cons, elem_of_nil. unfold owner_metrics, LOST, QUEUED. intros Hl.
  destruct (se_owner e) as [[u|]| |]; try done. destruct (se_truth e) as [[u|]| |]; try done;
    (rewrite occurrences_one; case_decide; [subst; naive_solver|done]).
Qed.

(** One bin: the labels [lost] and [queued] are exactly its fate. *)
Lemma settle_counted e r b sr l :
  l ∈ [LOST; QUEUED] -> settle_bin e r b = Ok sr ->
  occurrences l (settle_metrics e r b) = count_handoff sr.(sr_handoff) l.
Proof.
  intros Hl. unfold settle_bin, settle_metrics.
  destruct (plan_mint b _) as [[kwh| |]|[]|]; cbn [obind]; [|intros [= <-]..|done].
  - pose proof (hand_off_counted e r (pending_of b kwh (se_now e)) l Hl) as Hh.
    rewrite occurrences_app, (owner_not_handoff e l Hl). cbn [Nat.add].
    destruct (owner_known e); [|by intros [= <-]].
    destruct (hand_off e r _) as [[r1 h] sp]. by intros [= <-].
  - rewrite occurrences_one. rewrite !elem_of_cons, elem_of_nil in Hl. cbn [sr_handoff count_handoff].
    case_decide; [|done]. subst l. unfold LOST, QUEUED in Hl. naive_solver.
  - done.
Qed.

Definition with_handoff (h : MintHandoff) (srs : list sweep_result) : list sweep_result :=
  List.filter (fun sr => match h, sr.(sr_handoff) with
                         | Lost, Lost | Enqueued, Enqueued => true | _, _ => false end) srs.

Lemma sweep_counted r bs r' srs h l :
  (h, l) ∈ [(Lost, LOST); (Enqueued, QUEUED)] -> settle_bins r bs = Ok (r', srs) ->
  occurrences l (sweep_metrics r bs) = length (with_handoff h srs).
Proof.
  intros Hh. assert (Hl : l ∈ [LOST; QUEUED]) by (revert Hh; rewrite !elem_of_cons, !elem_of_nil; naive_solver).
  revert r r' srs. induction bs as [|[b e] bs IH]; intros r r' srs; cbn [settle_bins sweep_metrics]; [by intros [= _ <-]|].
  destruct (settle_bin e r b) as [sr|[]|] eqn:E; cbn [obind]; [|done].
  destruct (settle_bins (sr_redis sr) bs) as [[r1 rest]|[]|] eqn:Eb; cbn [obind]; [|done]. intros [= _ <-].
  rewrite occurrences_app, (settle_counted e r b sr l Hl E), (IH _ _ _ Eb).
  unfold with_handoff. cbn [List.filter]. rewrite !elem_of_cons, elem_of_nil in Hh.
  destruct Hh as [[= -> ->]|[[= -> ->]|[]]]; destruct (sr_handoff sr); cbn [count_handoff length];
    rewrite ?decide_True by done; rewrite ?decide_False by (unfold LOST, QUEUED; congruence); done.
Qed.

(** *** Batches *)

Lemma claim_metric_deferred c pw :
  total (claim_one c pw).(cs_deferred) = (length (claim_metric c pw) + total c.(cs_deferred))%nat.
Proof.
  destruct pw as [p w]. unfold claim_one, claim_metric. cbn [fst snd].
  destruct (try_begin (cs_inflight c) (field p)); cbn [cs_deferred length]; [|by rewrite defer_total].
  destruct w as [[w|]| |]; cbn [cs_deferred length]; [|by rewrite defer_total..].
  destruct (negb (wallet_is_valid w)); cbn [cs_deferred length]; [by rewrite defer_total|done].
Qed.

Lemma claim_metrics_deferred pws c :
  total (fold_left claim_one pws c).(cs_deferred) = (length (claim_metrics c pws) + total c.(cs_deferred))%nat.
Proof.
  revert c. induction pws as [|pw pws IH]; intros c; [done|]. cbn [fold_left claim_metrics].
  rewrite IH, length_app, claim_metric_deferred. lia.
Qed.

Lemma claim_metric_skips c pw o : ("settled", o) ∉ claim_metric c pw.
Proof.
  unfold claim_metric. destruct (try_begin _ _); [destruct pw.2 as [[w|]| |]; [destruct (negb _)|..]|];
    rewrite ?list_elem_of_singleton, ?elem_of_nil; unfold deferral_label; try tauto; congruence.
Qed.

Lemma claim_metrics_skips pws c o : ("settled", o) ∉ claim_metrics c pws.
Proof.
  revert c. induction pws as [|pw pws IH]; intros c; cbn [claim_metrics]; [apply not_elem_of_nil|].
  rewrite elem_of_app. intros [?%claim_metric_skips|?%IH]; done.
Qed.

Lemma occurrences_none l ls : l ∉ ls -> occurrences l ls = 0%nat.
Proof.
  unfold occurrences. induction ls as [|x ls IH]; [done|]. rewrite not_elem_of_cons. intros [Hx Hn].
  cbn [List.filter]. rewrite bool_decide_false by congruence. auto.
Qed.

Lemma occurrences_replicate l x n : occurrences l (replicate n x) = if decide (x = l) then n else 0%nat.
Proof.
  unfold occurrences. induction n as [|n IH]; cbn [replicate List.filter]; [by case_decide|].
  case_decide; [rewrite bool_decide_true by done|rewrite bool_decide_false by done]; cbn [length]; lia.
Qed.

Lemma request_no_panic {R} (rt : round_trip R) : Mint.request rt <> Panic.
Proof.
  unfold Mint.request. destruct (rt_subscribe_ok rt), (rt_publish_ok rt), (rt_ack_ok rt); try done. by destruct (rt_reply rt).
Qed.

Lemma batch_no_panic g rt inputs : (gateway_mint_batch g rt inputs).2 <> Panic.
Proof. unfold gateway_mint_batch. destruct g; [destruct inputs; [done|apply request_no_panic]|done]. Qed.

(** a batched attempt counts every entry of the batch exactly once, as deferred,
    settled or failed, when the bridge answers once per submitted entry; and it counts
    as settled exactly the entries it reports for removal from the outbox. *)
Theorem batch_counted_once g rt s wb pending :
  (forall results, (gateway_mint_batch g rt (claim_batch s pending).(cs_inputs)).2 = Ok results ->
     length results = length (claim_batch s pending).(cs_inputs)) ->
  length (batch_metrics g rt s pending) = length pending /\
  occurrences ("settled", "ok") (batch_metrics g rt s pending) =
    length (attempt_mint_batch g rt s wb pending).(ba_confirmed).
Proof.
  intros Hreply. pose proof (claim_metrics_deferred pending (claim_start s)) as Hd.
  fold (claim_batch s pending) in Hd. change (total (cs_deferred (claim_start s))) with 0%nat in Hd.
  destruct (claim_batch_inv s pending) as [_ _ _ _ _ Htot]. unfold batch_metrics, attempt_mint_batch.
  rewrite length_app, occurrences_app, (occurrences_none _ (claim_metrics _ _)) by apply claim_metrics_skips.
  pose proof (batch_no_panic g rt (claim_batch s pending).(cs_inputs)) as Hp.
  revert Hreply Hp Htot. destruct (cs_inputs (claim_batch s pending)) as [|i inputs]; intros Hreply Hp Htot.
  { cbn [length ba_confirmed Nat.add] in *. split; [lia|done]. }
  destruct (gateway_mint_batch g rt (i :: inputs)) as [pub [results|err|]]; cbn [snd] in *; [| |done].
  - destruct (classify_spec results) as [Hf Hn]. specialize (Hreply results eq_refl).
    rewrite length_app, !length_replicate, occurrences_app, !occurrences_replicate, decide_True by done.
    rewrite decide_False by done. cbn [ba_confirmed]. rewrite !Nat.add_0_r. split; [lia|].
    rewrite Hf, length_fmap. unfold classify_batch_results. rewrite classify_fold. cbn. by rewrite length_fmap.
  - rewrite length_replicate, occurrences_replicate, decide_False by done. cbn [ba_confirmed length] in *. split; [lia|done].
Qed.
End Settlement.

(** ** Request counters *)

Definition holds (f : request_call -> bool) (c : request_call) : Z := if f c then 1 else 0.
Definition tally (f : request_call -> Z) (cs : list request_call) : Z := foldr (fun c a => f c + a) 0 cs.

Definition started (c : request_call) : bool := match c.(rc_phase) with Entered => false | _ => true end.
Definition classified (c : request_call) : bool :=
  match c.(rc_phase) with Entered | Counted => false | _ => true end.
Definition between (c : request_call) : bool := match c.(rc_phase) with Counted => true | _ => false end.
Definition latency_of (c : request_call) : Z := match c.(rc_phase) with Recorded => c.(rc_latency_us) | _ => 0 end.

Lemma tally_app f l1 l2 : tally f (l1 ++ l2) = tally f l1 + tally f l2.
Proof. induction l1 as [|c l1 IH]; [done|]. cbn [app]. unfold tally in *. cbn [foldr]. lia. Qed.

Lemma tally_insert f cs i c c' : cs !! i = Some c -> tally f (<[i := c']> cs) = tally f cs - f c + f c'.
Proof.
  intros Hi. pose proof (lookup_lt_Some _ _ _ Hi) as Hl. rewrite insert_take_drop by done.
  rewrite <- (take_drop_middle cs i c Hi) at 3. rewrite !tally_app. unfold tally. cbn [foldr]. lia.
Qed.

Record request_inv (m : RequestMetrics) (cs : list request_call) : Prop := {
  rv_total : m.(total_requests) = wrap 64 (tally (holds started) cs);
  rv_authorized : m.(authorized_requests) = wrap 64 (tally (holds (fun c => classified c && c.(rc_authorized))) cs);
  rv_failed : m.(failed_requests) = wrap 64 (tally (holds (fun c => classified c && negb c.(rc_authorized))) cs);
  rv_latency : m.(total_grpc_latency_us) = wrap 64 (tally latency_of cs)
}.

Lemma fetch_add_tally v z n z' : v = wrap 64 z -> z' = z + n -> fetch_add v n = wrap 64 z'.
Proof. intros -> ->. unfold fetch_add. by rewrite wrap_add_l by lia. Qed.

Lemma request_inv_step s s' : request_inv s.1 s.2 -> metrics_step s s' -> request_inv s'.1 s'.2.
Proof.
  intros [H1 H2 H3 H4] Hs. destruct Hs as [m cs a l|m cs i [a l ph] Hi]; cbn [fst snd] in *.
  - constructor; rewrite tally_app; cbn; rewrite Z.add_0_r; done.
  - constructor; rewrite (tally_insert _ _ _ _ _ Hi); destruct ph, a; cbn;
      first [done | by f_equal; lia | (by eapply fetch_add_tally; [eassumption|]; cbn; lia) | (rewrite ?H1, ?H2, ?H3, ?H4; f_equal; lia)].
Qed.

Lemma tally_split cs :
  tally (holds started) cs =
    tally (holds (fun c => classified c && c.(rc_authorized))) cs +
    tally (holds (fun c => classified c && negb c.(rc_authorized))) cs + tally (holds between) cs.
Proof.
  induction cs as [|[a l ph] cs IH]; [done|]. unfold tally in *. cbn [foldr]. rewrite IH.
  destruct ph, a; cbn; lia.
Qed.

(** however concurrent [record_request] calls interleave, the request total is the
    authorized plus the failed requests plus the calls between their two counts; so
    whenever no call is in progress the three counters agree, and the latency total is
    the sum of the recorded latencies. *)
Theorem request_counters_agree m cs :
  steps metrics_step (metrics_new, []) (m, cs) ->
  m.(total_requests) = wrap 64 (m.(authorized_requests) + m.(failed_requests) + tally (holds between) cs) /\
  m.(total_grpc_latency_us) = wrap 64 (tally latency_of cs).
Proof.
  intros Hs. assert (Hi : request_inv m cs).
  { apply (steps_invariant metrics_step (fun s => request_inv s.1 s.2) _ _ request_inv_step) in Hs; [done|by constructor]. }
  destruct Hi as [H1 H2 H3 H4]. split; [|done]. rewrite H1, H2, H3, tally_split. unfold wrap.
  rewrite (Z.add_mod (_ mod _ + _ mod _)) by lia. rewrite <- (Z.add_mod (tally _ cs) (tally _ cs)) by lia.
  by rewrite <- Z.add_mod by lia.
Qed.

(** ** Authentication *)

Section Auth.
Context {breaker : Type} (should_allow : breaker -> breaker * bool).
Context (record_success record_failure : breaker -> breaker).
Context (positive_ttl negative_ttl : Z) (api_keys : list string).

Abbreviation authenticate := (api_key_auth should_allow record_success record_failure positive_ttl negative_ttl api_keys).
Abbreviation records := (auth_records should_allow api_keys).

(** The last count of a request is its verdict, and a request is counted once unless
    IAM was called and failed: then it is counted a second time, as a failure. *)
Theorem auth_counted s r :
  records s r =
    (match r.(rq_iam), (authenticate s r).2.2 with Some (Err _), true | Some Panic, true => [false] | _, _ => [] end)
    ++ [match (authenticate s r).2.1 with Next => true | Unauthorized => false end].
Proof.
  unfold auth_records, api_key_auth. destruct (rq_key r) as [key|]; [|cbn; by destruct (rq_iam r) as [[]|]].
  destruct (cache_lookup (st_cache s) key (rq_lookup r)) as [c [[]|]]; cbn [snd fst];
    [by destruct (rq_iam r) as [[]|]..|].
  unfold consult_iam. destruct (breaker_allows should_allow (st_breaker s)) as [b ok]. cbn [snd]. unfold static_fallback.
  destruct ok; cbn [negb]; [|cbn; destruct (existsb _ _); cbn; by destruct (rq_iam r) as [[]|]].
  destruct (rq_iam r) as [[[]| |]|]; cbn; try done; by destruct (existsb _ _).
Qed.
End Auth.

(** ** A sweep, a batch and three requests *)

Section Witnesses.
#[local] Existing Instance chrono_ref.
#[local] Existing Instance decimal_ref.
#[local] Existing Instance uuid_ref.
#[local] Existing Instance crypto_ref.
#[local] Existing Instance bin_codec_ref.
#[local] Existing Instance pending_codec_ref.

(** One bin is queued, one finds every way closed. *)
Definition swept : list (BillingBin * sweep_env) := [(surplus_bin, good_env); (surplus_bin, worst_env)].
Definition sweep_end : Redis * list sweep_result :=
  default (empty_redis, []) (ok_of (settle_bins empty_redis swept)).


Lemma batch_counted_once_witness :
  length (batch_metrics gw0 (rt0 (ReplyMsg batch_reply)) ∅ batch0) = 4%nat /\
  occurrences ("settled", "ok") (batch_metrics gw0 (rt0 (ReplyMsg batch_reply)) ∅ batch0) = 1%nat.
Proof.
  destruct (batch_counted_once gw0 (rt0 (ReplyMsg batch_reply)) ∅ true batch0) as [H1 H2].
  - intros results H. vm_compute in H. injection H as <-. vm_compute. reflexivity.
  - split; [exact H1|]. rewrite H2. vm_compute. reflexivity.
Defined.

(** Two overlapping calls, the second finished first. *)
Definition call (a : bool) (l : Z) (p : request_phase) : request_call :=
  {| rc_authorized := a; rc_latency_us := l; rc_phase := p |}.

Definition counts (t a f l sum : Z) : RequestMetrics :=
  {| total_requests := t; authorized_requests := a; failed_requests := f; last_grpc_latency_us := l;
     total_grpc_latency_us := sum |}.

Lemma overlap_reached :
  steps metrics_step (metrics_new, []) (counts 2 0 1 50 50, [call true 120 Counted; call false 50 Recorded]).
Proof.
  eapply steps_next; [|exact (ms_step (counts 2 0 1 50 0) [call true 120 Counted; call false 50 Stored] 1 _ eq_refl)].
  eapply steps_next; [|exact (ms_step (counts 2 0 1 0 0) [call true 120 Counted; call false 50 Classified] 1 _ eq_refl)].
  eapply steps_next; [|exact (ms_step (counts 2 0 0 0 0) [call true 120 Counted; call false 50 Counted] 1 _ eq_refl)].
  eapply steps_next; [|exact (ms_step (counts 1 0 0 0 0) [call true 120 Counted; call false 50 Entered] 1 _ eq_refl)].
  eapply steps_next; [|exact (ms_step metrics_new [call true 120 Entered; call false 50 Entered] 0 _ eq_refl)].
  eapply steps_next; [|exact (ms_enter metrics_new [call true 120 Entered] false 50)].
  eapply steps_next; [|exact (ms_enter metrics_new [] true 120)]. apply steps_refl.
Qed.

Lemma request_counters_agree_witness : wrap 64 (0 + 1 + 1) = 2 /\ wrap 64 50 = 50.
Proof. destruct (request_counters_agree _ _ overlap_reached) as [H1 H2]. split; symmetry; [exact H1|exact H2]. Defined.

(** IAM is unreachable and the key is a static one: the request is admitted and
    counted both as failed and as authorized. *)
Example iam_error_counts_twice :
  let r := {| rq_key := Some "k"; rq_lookup := 0; rq_store := 0; rq_iam := Some (Err ()) |} in
  let s := {| st_cache := ∅; st_breaker := None |} in
  auth_records (breaker := unit) (fun b => (b, true)) ["k"] s r = [false; true] /\
  (api_key_auth (fun b => (b, true)) (fun b => b) (fun b => b) 60 10 ["k"] s r).2.1 = Next.
Proof. split; reflexivity. Qed.
End Witnesses.
