(* ===== verification/Gateway.v ===== *)
(** * The REST gateway, request to response (aggregator-api/src/handlers.rs)

    The handlers of Handlers decide what becomes of a request; here their verdict
    meets the router: [disseminate_reading] publishes the reading and, when it is on
    the stream, spawns the Kafka and RabbitMQ publications, and the three handlers
    answer with the codes and bodies of the source, as do the gRPC calls.  A batch is disseminated with
    bounded concurrency by [buffered], modelled as a step relation.  Error texts are
    not modelled. *)

From Stdlib Require Import ZArith Lia Ascii String SpecFloat.
From stdpp Require Import base gmap strings list numbers.
From S2P Require Import Prelude RustStd External Stores Models DeviceKeys Dlms Handlers GrpcService Router Messaging.

Open Scope string_scope.
Open Scope list_scope.
Open Scope Z_scope.
Open Scope bridge_scope.

(** ** Bounded concurrency that keeps the order

    [futures::StreamExt::buffered]: the futures of the input are started in order,
    at most [limit] are in flight, they finish in any order, and a result leaves when
    every earlier one has left. *)

Section Buffered.
Context {St In Out Ans : Type} (work : St -> In -> Ans -> St * outcome Empty_set Out) (limit : nat).

(** A slot in flight: its input, with its result once it has finished. *)
Record buffered : Type := {
  bf_waiting : list In;
  bf_flight : list (In * option Out);
  bf_done : list Out;
  bf_state : St
}.

Definition buffered_start (s : St) (xs : list In) : buffered :=
  {| bf_waiting := xs; bf_flight := []; bf_done := []; bf_state := s |}.

(** The work of a slot is one step, at the moment it takes effect. *)
Inductive buffered_step : buffered -> buffered -> Prop :=
| bs_start x xs fl done s :
    (length fl < limit)%nat ->
    buffered_step {| bf_waiting := x :: xs; bf_flight := fl; bf_done := done; bf_state := s |}
                  {| bf_waiting := xs; bf_flight := fl ++ [(x, None)]; bf_done := done; bf_state := s |}
| bs_finish i x xs fl done s ans s' o :
    fl !! i = Some (x, None) -> work s x ans = (s', Ok o) ->
    buffered_step {| bf_waiting := xs; bf_flight := fl; bf_done := done; bf_state := s |}
                  {| bf_waiting := xs; bf_flight := <[i := (x, Some o)]> fl; bf_done := done; bf_state := s' |}
| bs_yield x o xs fl done s :
    buffered_step {| bf_waiting := xs; bf_flight := (x, Some o) :: fl; bf_done := done; bf_state := s |}
                  {| bf_waiting := xs; bf_flight := fl; bf_done := done ++ [o]; bf_state := s |}.

(** A future that panics ends the whole run. *)
Inductive buffered_panics : buffered -> St -> Prop :=
| bp_panic i x xs fl done s ans s' :
    fl !! i = Some (x, None) -> work s x ans = (s', Panic) ->
    buffered_panics {| bf_waiting := xs; bf_flight := fl; bf_done := done; bf_state := s |} s'.
End Buffered.

(** ** Responses *)

Record IngestResponse : Type := {
  ir_status : string;
  ir_reading_id : Uuid;
  ir_device_type : DeviceType;
  ir_stream : string
}.

Inductive body : Type :=
| Healthy
| Acknowledged (r : IngestResponse)
| Acknowledgements (rs : list IngestResponse)
| Processed
| Problem.

#[export] Instance StatusCode_eq_dec : EqDecision StatusCode.
Proof. solve_decision. Defined.

Record response : Type := { rs_code : StatusCode; rs_body : body }.

Definition health : response := {| rs_code := OK; rs_body := Healthy |}.

(** ** The shared state of the handlers *)

(** A publication the response does not wait for. *)
Inductive side_task : Type :=
| PublishReading (event : MeterReadingEvent)
| ValidateMeter (meter_id : string).

Record gateway : Type := {
  gw_router : Router;
  gw_sinks : sinks;
  gw_kafka : bool;                  (* the producers configured at start-up *)
  gw_rabbitmq : bool;
  gw_spawned : list side_task       (* spawned so far, in order *)
}.

Definition DISSEMINATE_CONCURRENCY : nat := 64.

Section Gateway.
Context {J : SerdeJson} {K : Crypto} {SS : StreamSerde} {C : Chrono} {FT : F64Text} {L : LuaNumber}.

Definition ingest_response (status : string) (r : DeviceReading) : IngestResponse := {|
  ir_status := status; ir_reading_id := r.(reading_id); ir_device_type := r.(device_type);
  ir_stream := target_stream r.(device_type) |}.

(** The event of a reading; a device that is no meter reports no energy. *)
Definition kafka_event (r : DeviceReading) (is_verified : bool) : MeterReadingEvent :=
  let '(gen, con, net) :=
    match r.(metrics) with
    | Energy generated_kwh consumed_kwh net_kwh => (generated_kwh, consumed_kwh, net_kwh)
    | _ => (F64.zero, F64.zero, F64.zero)
    end in
  let meta k dflt := default dflt (r.(metadata) !! k ≫= as_f64) in
  {| mre_meter_id := r.(device_id); mre_timestamp := timestamp_millis r.(timestamp);
     mre_energy_generated := gen; mre_energy_consumed := con; mre_surplus := net;
     mre_voltage := meta "voltage_v" (F64.of_Z 230);
     mre_frequency := meta "frequency_hz" (F64.of_Z 50);
     mre_power_factor := meta "power_factor" (F64.of_Z 1);
     mre_signature := default EmptyString (r.(metadata) !! "signature" ≫= as_str);
     mre_verified := is_verified;
     mre_confidence_score := if is_verified then F64.of_Z 1 else F64.zero |}.

Definition side_tasks (g : gateway) (r : DeviceReading) (is_verified : bool) : list side_task :=
  (if g.(gw_kafka) then [PublishReading (kafka_event r is_verified)] else []) ++
  (if g.(gw_rabbitmq) then [ValidateMeter r.(device_id)] else []).

Definition set_gateway (g : gateway) (r : Router) (k : sinks) (spawned : list side_task) : gateway :=
  {| gw_router := r; gw_sinks := k; gw_kafka := g.(gw_kafka); gw_rabbitmq := g.(gw_rabbitmq);
     gw_spawned := g.(gw_spawned) ++ spawned |}.

(** [Panic]: the router has no zones. *)
Definition disseminate_reading (g : gateway) (e : dissem_env) (r : DeviceReading) (is_verified : bool)
    : gateway * outcome Empty_set response :=
  match disseminate g.(gw_router) g.(gw_sinks) e r with
  | (rt, k, Ok _) =>
      (set_gateway g rt k (side_tasks g r is_verified),
       Ok {| rs_code := ACCEPTED; rs_body := Acknowledged (ingest_response "accepted" r) |})
  | (rt, k, Err _) => (set_gateway g rt k [], Ok {| rs_code := INTERNAL_SERVER_ERROR; rs_body := Problem |})
  | (rt, k, Panic) => (set_gateway g rt k [], Panic)
  end.

Context (verify : string -> list Z -> string -> outcome key_error bool).

(** ** The single frame *)

Definition handle_single (c : config) (de : decrypt_env) (store : gmap string Z) (rid : Uuid) (now : Z)
    (e : dissem_env) (g : gateway) (p : PrivateNetworkPayload)
    : gmap string Z * gateway * outcome Empty_set response :=
  let '(store, verdict) := ingest_private_network verify c de store rid now p in
  match verdict with
  | Rejected code => (store, g, Ok {| rs_code := code; rs_body := Problem |})
  | NoReading => (store, g, Ok {| rs_code := OK; rs_body := Processed |})
  | Disseminate r is_verified =>
      let '(g, resp) := disseminate_reading g e r is_verified in (store, g, resp)
  end.

(** ** Batches *)

(** One reading of a batch: the router alone, [status] in the acknowledgement. *)
Definition disseminate_one (g : gateway) (r : DeviceReading) (e : dissem_env)
    : gateway * outcome Empty_set IngestResponse :=
  match disseminate g.(gw_router) g.(gw_sinks) e r with
  | (rt, k, Ok _) => (set_gateway g rt k [], Ok (ingest_response "accepted" r))
  | (rt, k, Err _) => (set_gateway g rt k [], Ok (ingest_response "failed" r))
  | (rt, k, Panic) => (set_gateway g rt k [], Panic)
  end.

(** A run of the batch handler: rejected, or every accepted reading disseminated
    with bounded concurrency, in some interleaving. *)
Inductive handle_batch (c : config) (now : Z) (top : string) (items : list (Uuid * Value))
    : gateway -> gateway -> outcome Empty_set response -> Prop :=
| hb_rejected g code :
    ingest_private_network_batch verify c now top items = inl code ->
    handle_batch c now top items g g (Ok {| rs_code := code; rs_body := Problem |})
| hb_done g readings b :
    ingest_private_network_batch verify c now top items = inr readings ->
    steps (buffered_step disseminate_one DISSEMINATE_CONCURRENCY) (buffered_start g readings) b ->
    b.(bf_waiting) = [] -> b.(bf_flight) = [] ->
    handle_batch c now top items g b.(bf_state)
      (Ok {| rs_code := OK; rs_body := Acknowledgements b.(bf_done) |})
| hb_panicked g readings b g' :
    ingest_private_network_batch verify c now top items = inr readings ->
    steps (buffered_step disseminate_one DISSEMINATE_CONCURRENCY) (buffered_start g readings) b ->
    buffered_panics disseminate_one b g' ->
    handle_batch c now top items g g' Panic.

(** [ingest_legacy_batch]: one after the other. *)
Fixpoint disseminate_all (g : gateway) (rs : list (DeviceReading * dissem_env))
    : gateway * outcome Empty_set (list IngestResponse) :=
  match rs with
  | [] => (g, Ok [])
  | (r, e) :: rs =>
      match disseminate_one g r e with
      | (g, Ok a) => let '(g, o) := disseminate_all g rs in (g, let? rest := o in Ok (a :: rest))
      | (g, _) => (g, Panic)
      end
  end.

Definition handle_legacy (c : config) (now : Z) (rids : nat -> Uuid) (es : nat -> dissem_env) (g : gateway)
    (payload : Value) : gateway * outcome Empty_set response :=
  match ingest_legacy_batch c now rids payload with
  | inl code => (g, Ok {| rs_code := code; rs_body := Problem |})
  | inr readings =>
      let '(g, o) := disseminate_all g (imap (fun i r => (r, es i)) readings) in
      (g, let? rs := o in Ok {| rs_code := OK; rs_body := Acknowledgements rs |})
  end.
End Gateway.

(** ** The gRPC calls on the same gateway *)

Section Grpc.
Context {J : SerdeJson} {K : Crypto} {SS : StreamSerde} {C : Chrono} {FT : F64Text} {U : UuidText}.
Context {SV : SignatureVerifier}.
Context (get_device_aes_key : string -> outcome key_error (option (list Z))).

(** [res.status().is_success()] *)
Definition is_success (o : outcome Empty_set response) : bool :=
  match o with
  | Ok resp => match resp.(rs_code) with OK | ACCEPTED => true | _ => false end
  | _ => false
  end.

(** [ingest]: the caller is told whether the reading was disseminated. *)
Definition handle_grpc_ingest (ge : grpc_env) (e : dissem_env) (rid : Uuid) (now : Z) (g : gateway)
    (r : GrpcService.MeterReading) : gateway * outcome connect_error unit :=
  let '(handed, resp) :=
    GrpcService.ingest get_device_aes_key
      (fun reading verified => is_success (disseminate_reading g e reading verified).2) ge rid now r in
  match handed with
  | Some (reading, verified) =>
      match disseminate_reading g e reading verified with
      | (g, Panic) => (g, Panic)
      | (g, _) => (g, resp)
      end
  | None => (g, resp)
  end.

(** The last step of [bulk_raw_ingest]: the outcome of a dissemination is dropped and
    the reading counted. *)
Fixpoint disseminate_bulk (g : gateway) (rs : list (DeviceReading * dissem_env))
    : gateway * outcome Empty_set Z :=
  match rs with
  | [] => (g, Ok 0)
  | (r, e) :: rs =>
      match disseminate_reading g e r true with
      | (g, Ok _) => let '(g, n) := disseminate_bulk g rs in (g, let? n := n in Ok (n + 1))
      | (g, _) => (g, Panic)
      end
  end.
End Grpc.

(** ** The spawned publications *)

Section SideTasks.
Context {E : EventSerde}.

(** What the tasks act on: the Kafka producer and the validation queue. *)
Record brokers : Type := { bk_kafka : AggregatorKafkaProducer; bk_queue : list validation_job }.

Record side_env : Type := {
  sd_kafka : kafka_env;
  sd_now : Z;
  sd_publish1 : io;
  sd_fresh : bool;
  sd_publish2 : io
}.

(** One task, to its end; a failure is logged. *)
Definition run_task (b : brokers) (t : side_task) (e : side_env) : brokers :=
  match t with
  | PublishReading event =>
      {| bk_kafka := (publish_meter_reading b.(bk_kafka) event e.(sd_kafka)).1; bk_queue := b.(bk_queue) |}
  | ValidateMeter meter_id =>
      {| bk_kafka := b.(bk_kafka);
         bk_queue := (submit_validation_job b.(bk_queue) meter_id e.(sd_now) e.(sd_publish1) e.(sd_fresh)
                        e.(sd_publish2)).1 |}
  end.
End SideTasks.
