(* ===== verification/GatewayProps.v ===== *)
(** * Properties of the gateway

    What a response of the gateway says about the streams and the sinks: an accepted
    frame is the newest entry of its zone, a batch is acknowledged in the order it
    was sent whatever the order its disseminations finish in, and bounded concurrency
    terminates. *)

From Stdlib Require Import ZArith Lia Ascii String SpecFloat.
From stdpp Require Import base gmap strings list numbers.
From S2P Require Import Prelude RustStd External Stores Models DeviceKeys BinaryDecoder Dlms Handlers HandlersProps GrpcService Router WireRef ZoneIngester ZoneIngesterProps Messaging Gateway.

Open Scope string_scope.
Open Scope list_scope.
Open Scope Z_scope.
Open Scope bridge_scope.

(** ** Bounded concurrency *)

Section Buffered.
Context {St In Out Ans : Type} (work : St -> In -> Ans -> St * outcome Empty_set Out) (limit : nat).

Definition slot_weight (sl : In * option Out) : nat := match sl.2 with None => 2 | Some _ => 1 end.

Definition flight_weight (fl : list (In * option Out)) : nat := sum_list (slot_weight <$> fl).

Definition weight (b : @buffered St In Out) : nat := (3 * length b.(bf_waiting) + flight_weight b.(bf_flight))%nat.

Lemma flight_weight_app l k : flight_weight (l ++ k) = (flight_weight l + flight_weight k)%nat.
Proof. unfold flight_weight. induction l as [|sl l IH]; [done|]. cbn in IH |- *. rewrite IH. lia. Qed.

Lemma flight_weight_split fl i sl :
  fl !! i = Some sl -> flight_weight fl = (flight_weight (take i fl) + slot_weight sl + flight_weight (drop (S i) fl))%nat.
Proof.
  intros H. rewrite <- (take_drop_middle fl i sl H) at 1. rewrite flight_weight_app.
  change (flight_weight (sl :: drop (S i) fl)) with (slot_weight sl + flight_weight (drop (S i) fl))%nat. lia.
Qed.

Lemma flight_weight_insert fl i sl sl' :
  fl !! i = Some sl ->
  (flight_weight (<[i := sl']> fl) + slot_weight sl = flight_weight fl + slot_weight sl')%nat.
Proof.
  intros H. pose proof (lookup_lt_Some _ _ _ H) as Hl.
  rewrite (flight_weight_split fl i sl H), (flight_weight_split (<[i := sl']> fl) i sl').
  - rewrite take_insert_ge, drop_insert_lt by lia. lia.
  - by rewrite list_lookup_insert_eq.
Qed.

(** Every step brings the run closer to its end. *)
Lemma buffered_decreases b b' : buffered_step work limit b b' -> (weight b' < weight b)%nat.
Proof.
  destruct 1 as [x xs fl dn s Hl|i x xs fl dn s ans s' o Hi Hw|x o xs fl dn s]; unfold weight; cbn [bf_waiting bf_flight].
  - rewrite flight_weight_app. cbn. lia.
  - pose proof (flight_weight_insert fl i _ (x, Some o) Hi) as H. cbn in H. lia.
  - change (flight_weight ((x, Some o) :: fl)) with (1 + flight_weight fl)%nat. lia.
Qed.

(** A run over [xs] has at most three steps per input, and where it can neither go on
    nor panic it is complete. *)
Lemma buffered_ends (ans : Ans) s xs k b :
  (0 < limit)%nat -> nsteps (buffered_step work limit) k (buffered_start s xs) b ->
  (k <= 3 * length xs)%nat /\
  ((exists b', buffered_step work limit b b') \/ (exists s', buffered_panics work b s') \/
   (b.(bf_waiting) = [] /\ b.(bf_flight) = [])).
Proof.
  intros Hl Hk. split.
  - enough (k + weight b <= weight (buffered_start (Out := Out) s xs))%nat as H.
    { unfold weight in H at 2. cbn in H. lia. }
    induction Hk as [|k b1 b2 b3 Hs _ IH]; [lia|]. apply buffered_decreases in Hs. lia.
  - destruct b as [w fl dn s']. cbn [bf_waiting bf_flight]. destruct fl as [|[x [o|]] fl].
    + destruct w as [|x w]; [auto|]. left. eexists. by apply bs_start.
    + left. eexists. apply bs_yield.
    + destruct (work s' x ans) as [s2 [o|[]|]] eqn:Ew.
      * left. eexists. by eapply (bs_finish work limit 0).
      * right. left. eexists. by eapply (bp_panic work 0).
Qed.

Lemma flight_inputs (fl : list (In * option Out)) i x r r' :
  fl !! i = Some (x, r) -> fst <$> <[i := (x, r')]> fl = fst <$> fl.
Proof. intros H. rewrite list_fmap_insert. apply list_insert_id. by rewrite list_lookup_fmap, H. Qed.

(** Where the inputs are: acknowledged, in flight, or waiting, in this order. *)
Record lined_up (xs : list In) (b : @buffered St In Out) (P : In -> Out -> Prop) (taken : list In) : Prop := {
  lu_order : xs = taken ++ (fst <$> b.(bf_flight)) ++ b.(bf_waiting);
  lu_done : Forall2 P taken b.(bf_done);
  lu_flight : Forall (fun sl => forall o, sl.2 = Some o -> P sl.1 o) b.(bf_flight)
}.

Lemma lined_up_step xs (P : In -> Out -> Prop) b b' taken :
  (forall s x ans s' o, work s x ans = (s', Ok o) -> P x o) ->
  buffered_step work limit b b' -> lined_up xs b P taken -> exists taken', lined_up xs b' P taken'.
Proof.
  intros HP Hs [Ho Hd Hf]. destruct Hs as [x w fl dn s Hl|i x w fl dn s ans s' o Hi Hw|x o w fl dn s];
    cbn [bf_waiting bf_flight bf_done] in *.
  - exists taken. split; cbn [bf_waiting bf_flight bf_done]; [|done|].
    + rewrite Ho, fmap_app, <- !app_assoc. done.
    + apply Forall_app. split; [done|]. by apply Forall_singleton.
  - exists taken. split; cbn [bf_waiting bf_flight bf_done]; [|done|].
    + by rewrite (flight_inputs fl i x None).
    + apply Forall_insert; [done|]. cbn. intros o' [= <-]. by eapply HP.
  - exists (taken ++ [x]). apply Forall_cons_1 in Hf as [Hx Hf]. split; cbn [bf_waiting bf_flight bf_done]; [|..|done].
    + rewrite Ho. cbn. by rewrite <- app_assoc.
    + apply Forall2_app; [done|]. constructor; [|done]. by apply Hx.
Qed.

Lemma lined_up_run xs (P : In -> Out -> Prop) s b :
  (forall s x ans s' o, work s x ans = (s', Ok o) -> P x o) ->
  steps (buffered_step work limit) (buffered_start s xs) b -> exists taken, lined_up xs b P taken.
Proof.
  intros HP Hs. eapply (steps_invariant _ (fun b => exists taken, lined_up xs b P taken)); [|..|exact Hs].
  - intros a c [taken Ha] Hac. by eapply lined_up_step.
  - exists []. split; [done|constructor..].
Qed.

(** Something the work adds to the state is, at the end, what the results account
    for, in some order. *)
Lemma buffered_accounts {X : Type} (I : St -> Prop) (log : St -> list X) (credit : In -> Out -> list X) xs s b :
  (forall s x ans s' o, I s -> work s x ans = (s', Ok o) -> I s' /\ log s' = log s ++ credit x o) -> I s ->
  steps (buffered_step work limit) (buffered_start s xs) b -> b.(bf_waiting) = [] -> b.(bf_flight) = [] ->
  log b.(bf_state) ≡ₚ log s ++ concat (zip_with credit xs b.(bf_done)).
Proof.
  intros Hc HI Hs Hw Hfl.
  pose (pending := fun sl : In * option Out => match sl.2 with Some o => credit sl.1 o | None => [] end).
  enough (exists taken, xs = taken ++ (fst <$> b.(bf_flight)) ++ b.(bf_waiting) /\ length taken = length b.(bf_done) /\
    log b.(bf_state) ≡ₚ log s ++ concat (zip_with credit taken b.(bf_done)) ++ concat (pending <$> b.(bf_flight)) /\ I b.(bf_state)) as H.
  { destruct H as (taken & -> & _ & H & _). rewrite Hw, Hfl in *. cbn in *. rewrite !app_nil_r in *. done. }
  clear Hw Hfl.
  eapply (steps_invariant _ (fun b => exists taken, xs = taken ++ (fst <$> b.(bf_flight)) ++ b.(bf_waiting) /\
    length taken = length b.(bf_done) /\
    log b.(bf_state) ≡ₚ log s ++ concat (zip_with credit taken b.(bf_done)) ++ concat (pending <$> b.(bf_flight)) /\ I b.(bf_state)));
    [|..|exact Hs].
  - clear b Hs. intros b b' (taken & Ho & Hlen & Hp & HIb) Hs.
    destruct Hs as [x w fl dn s1 Hl|i x w fl dn s1 ans s' o Hi Hwk|x o w fl dn s1];
      cbn [bf_waiting bf_flight bf_done bf_state] in *.
    + exists taken. split; [|split; [done|split; [|done]]].
      * rewrite Ho, fmap_app, <- !app_assoc. done.
      * rewrite fmap_app, concat_app. cbn. by rewrite !app_nil_r.
    + destruct (Hc _ _ _ _ _ HIb Hwk) as [HI' Hlog].
      exists taken. split; [|split; [done|split; [|done]]].
      * by rewrite (flight_inputs fl i x None).
      * rewrite Hlog, Hp, <- !app_assoc. do 2 f_equiv.
        pose proof (lookup_lt_Some _ _ _ Hi).
        rewrite <- (take_drop_middle fl i _ Hi) at 1.
        rewrite insert_take_drop by done.
        rewrite !fmap_app, !fmap_cons, !concat_app. cbn [concat pending snd fst]. cbn [app].
        rewrite <- app_assoc. f_equiv. apply Permutation_app_comm.
    + exists (taken ++ [x]). split; [|split; [|split; [|done]]].
      * rewrite Ho. cbn. by rewrite <- app_assoc.
      * rewrite !length_app. cbn. lia.
      * rewrite Hp, zip_with_app by done. rewrite concat_app. cbn. by rewrite app_nil_r, <- app_assoc.
  - exists []. split; [done|]. split; [done|]. split; [cbn; by rewrite app_nil_r|done].
Qed.
End Buffered.

(** ** The gateway *)

Section Gateway.
Context {J : SerdeJson} {K : Crypto} {SS : StreamSerde} {C : Chrono} {FT : F64Text} {L : LuaNumber}.

(** The router changes only its cached connection. *)
Lemma publish_router r e s name json r' s' res :
  Router.publish r e s name json = (r', s', res) -> exists c, r' = set_cached r c.
Proof.
  unfold Router.publish. destruct (io_succeeds (de_xadd1 e)).
  - intros [= <- <- <-]. exists r.(rt_cached). by destruct r.
  - destruct (get_or_build _ _) as [c [[]| |]]; intros [= <- <- <-]; eauto.
Qed.

Lemma set_cached_twice r c d : set_cached (set_cached r c) d = set_cached r d.
Proof. done. Qed.

Lemma disseminate_router r k e reading r' k' res :
  disseminate r k e reading = (r', k', res) -> exists c, r' = set_cached r c.
Proof.
  unfold disseminate. destruct (get_or_build _ (de_build1 e)) as [c [[]| |]]; try (intros [= <- <- <-]; eauto; fail).
  destruct (calculate_zone_index _ _); [|intros [= <- <- <-]; eauto].
  destruct (seal_reading _ _ _); try (intros [= <- <- <-]; eauto; fail).
  destruct (Router.publish _ _ _ _ _) as [[r1 s1] [[]| |]] eqn:Ep; apply publish_router in Ep as [c1 ->];
    rewrite set_cached_twice; intros [= <- <- <-]; eauto.
Qed.

(** What a successful dissemination went through. *)
Lemma disseminate_ok r k e reading r' k' :
  disseminate r k e reading = (r', k', Ok ()) ->
  exists idx json, calculate_zone_index r.(rt_num_zones) reading = Some idx /\
    seal_reading r.(rt_cipher) e.(de_nonce) reading = Ok json.
Proof.
  unfold disseminate. destruct (get_or_build _ (de_build1 e)) as [c [[]| |]]; try done.
  cbn [set_cached rt_num_zones rt_cipher].
  destruct (calculate_zone_index _ _) as [idx|]; [|done]. destruct (seal_reading _ _ _) as [json| |]; try done.
  intros _. by exists idx, json.
Qed.

(** The Postgres rows: one for each success, none for a failure. *)
Lemma disseminate_rows r k e reading r' k' res :
  disseminate r k e reading = (r', k', res) ->
  k'.(sk_pg) = k.(sk_pg) ++
    (if r.(rt_pg_readings) && match res with Ok _ => true | _ => false end
     then option_list (reading_to_row reading) else []).
Proof.
  unfold disseminate. destruct (get_or_build _ (de_build1 e)) as [c [[]| |]];
    try (intros [= <- <- <-]; cbn; by rewrite andb_false_r, app_nil_r).
  destruct (calculate_zone_index _ _); [|intros [= <- <- <-]; cbn; by rewrite andb_false_r, app_nil_r].
  destruct (seal_reading _ _ _); try (intros [= <- <- <-]; cbn; by rewrite andb_false_r, app_nil_r).
  destruct (Router.publish _ _ _ _ _) as [[r1 s1] [[]| |]] eqn:Ep; apply publish_router in Ep as [c1 ->];
    intros [= <- <- <-]; cbn; rewrite ?andb_false_r, ?andb_true_r, ?app_nil_r; try done.
  by destruct (rt_pg_readings r); rewrite ?app_nil_r.
Qed.

Definition accepted (a : IngestResponse) : bool := String.eqb a.(ir_status) "accepted".

(** The rows a batch acknowledges. *)
Definition credited (on : bool) (r : DeviceReading) (a : IngestResponse) : list ReadingRow :=
  if on && accepted a then option_list (reading_to_row r) else [].

Lemma disseminate_one_rows on g r e g' a :
  g.(gw_router).(rt_pg_readings) = on -> disseminate_one g r e = (g', Ok a) ->
  g'.(gw_router).(rt_pg_readings) = on /\ g'.(gw_sinks).(sk_pg) = g.(gw_sinks).(sk_pg) ++ credited on r a.
Proof.
  intros <-. unfold disseminate_one, credited.
  destruct (disseminate _ _ e r) as [[rt k] res] eqn:Ed.
  pose proof (disseminate_rows _ _ _ _ _ _ _ Ed) as Hk. apply disseminate_router in Ed as [c ->].
  destruct res as [[]| |]; intros [= <- <-]; cbn; by rewrite Hk.
Qed.

Lemma disseminate_one_spawns g r e g' o : disseminate_one g r e = (g', o) -> g'.(gw_spawned) = g.(gw_spawned).
Proof.
  unfold disseminate_one. destruct (disseminate _ _ e r) as [[rt k] [[]| |]]; intros [= <- <-]; cbn; by rewrite app_nil_r.
Qed.

(** The acknowledgement of a reading. *)
Definition acknowledges (r : DeviceReading) (a : IngestResponse) : Prop :=
  a = ingest_response "accepted" r \/ a = ingest_response "failed" r.

Lemma disseminate_one_acknowledges g r e g' a : disseminate_one g r e = (g', Ok a) -> acknowledges r a.
Proof.
  unfold disseminate_one. destruct (disseminate _ _ e r) as [[rt k] [[]| |]]; intros [= <- <-]; [by left|by right].
Qed.

Context (verify : string -> list Z -> string -> outcome key_error bool).


(** Every run of a batch over [n] readings ends within [3 n]
    steps, whatever order they are scheduled in: where it stops, every reading has
    been acknowledged or the handler has panicked. *)
Theorem batch_terminates g readings k b :
  nsteps (buffered_step disseminate_one DISSEMINATE_CONCURRENCY) k (buffered_start g readings) b ->
  (k <= 3 * length readings)%nat /\
  ((exists b', buffered_step disseminate_one DISSEMINATE_CONCURRENCY b b') \/
   (exists g', buffered_panics disseminate_one b g') \/
   (b.(bf_waiting) = [] /\ b.(bf_flight) = [])).
Proof.
  apply (buffered_ends disseminate_one DISSEMINATE_CONCURRENCY
           {| de_build1 := Ok (); de_build2 := Ok (); de_xadd1 := IoOk; de_xadd2 := IoOk; de_unified := IoOk;
              de_evict := 0; de_nonce := None |}).
  unfold DISSEMINATE_CONCURRENCY. lia.
Qed.
End Gateway.

(** ** Accepted means published *)

Section Published.
Context {J : SerdeJson} {K : Crypto} {SS : StreamSerde} {C : Chrono} {FT : F64Text} {L : LuaNumber}.
Context {CL : CryptoLaws} {json_dom : Value -> Prop} {wire_dom : DeviceReading -> Prop}.
Context {SL : StreamLaws json_dom wire_dom}.

(** A router as start-up builds it, and a generator that returns whole nonces. *)
Record router_ok (r : Router) (e : dissem_env) : Prop := {
  ro_len : 0 < r.(rt_max_stream_len);
  ro_key : forall sek, r.(rt_cipher) = Some sek -> length sek = 32%nat;
  ro_nonce : forall n, e.(de_nonce) = Some n -> length n = 12%nat
}.

(** The newest entry of the reading's zone is the reading. *)
Definition published (r : Router) (k : sinks) (reading : DeviceReading) : Prop :=
  exists idx l entry, calculate_zone_index r.(rt_num_zones) reading = Some idx /\
    k.(sk_streams) !! zone_stream idx = Some (l ++ [entry]) /\
    (decode_entry entry r.(rt_cipher) ≫= event_from_str) = Some (EvReading reading).

Lemma disseminate_published r k e reading r' k' :
  router_ok r e -> wire_dom reading -> disseminate r k e reading = (r', k', Ok ()) -> published r' k' reading.
Proof.
  intros [Hlen Hkey Hnonce] Hw Ed.
  destruct (disseminate_ok _ _ _ _ _ _ Ed) as (idx & json & Hz & Hj).
  destruct (disseminate_publishes _ _ _ _ _ _ _ idx json Hlen Hz Hj Ed) as [[l Hl] _].
  apply disseminate_router in Ed as [c ->]. exists idx, l, json. split; [done|]. split; [done|].
  destruct (decode_sealed reading _ _ json Hw Hkey Hnonce Hj) as (text & Ht & Hev).
  cbn [set_cached rt_cipher]. by rewrite Ht.
Qed.

Lemma disseminate_reading_spec g e r v g' resp :
  router_ok g.(gw_router) e -> wire_dom r -> disseminate_reading g e r v = (g', Ok resp) ->
  (resp = {| rs_code := ACCEPTED; rs_body := Acknowledged (ingest_response "accepted" r) |} /\
   published g'.(gw_router) g'.(gw_sinks) r /\ g'.(gw_spawned) = g.(gw_spawned) ++ side_tasks g r v) \/
  (resp = {| rs_code := INTERNAL_SERVER_ERROR; rs_body := Problem |} /\
   g'.(gw_sinks).(sk_pg) = g.(gw_sinks).(sk_pg) /\ g'.(gw_sinks).(sk_influx) = g.(gw_sinks).(sk_influx) /\
   g'.(gw_spawned) = g.(gw_spawned)).
Proof.
  intros Hok Hw. unfold disseminate_reading.
  destruct (disseminate (gw_router g) (gw_sinks g) e r) as [[rt k] res] eqn:Ed.
  destruct res as [[]|x|]; intros [= <- <-].
  - left. split; [done|]. split; [|done]. by eapply disseminate_published.
  - right. split; [done|]. cbn [set_gateway gw_sinks gw_spawned]. rewrite app_nil_r.
    pose proof (disseminate_rows _ _ _ _ _ _ _ Ed) as Hp. rewrite andb_false_r, app_nil_r in Hp.
    split; [done|]. split; [|done]. clear Hp. revert Ed. unfold disseminate.
    destruct (get_or_build _ (de_build1 e)) as [c [[]| |]]; [|by intros [= _ <- _]|done].
    destruct (calculate_zone_index _ _); [|done]. destruct (seal_reading _ _ _); [|by intros [= _ <- _]|done].
    destruct (Router.publish _ _ _ _ _) as [[r1 s1] [[]| |]]; [done|by intros [= _ <- _]|done].
Qed.

Context (verify : string -> list Z -> string -> outcome key_error bool).

Lemma frame_rejection c rid now enc p code : ingest_frame verify c rid now enc p = Rejected code -> code <> ACCEPTED.
Proof.
  unfold ingest_frame, secure_mode_gate, sig_failure_status. intros H.
  repeat (case_match; simplify_eq; try discriminate).
Qed.

Lemma rejected_not_accepted c de store rid now p s code :
  ingest_private_network verify c de store rid now p = (s, Rejected code) -> code <> ACCEPTED.
Proof.
  unfold ingest_private_network. destruct (is_encrypted p).
  - destruct (decrypt_dlms_envelope _ _ _ _) as [s1 [obis| |]]; intros [= <- H]; try (by subst).
    by eapply frame_rejection.
  - intros [= <- H]. by eapply frame_rejection.
Qed.

Lemma disseminates_verified c de store rid now p s r v :
  signature_enforcement_disabled c = false ->
  ingest_private_network verify c de store rid now p = (s, Disseminate r v) -> v = true.
Proof.
  intros Hd. unfold ingest_private_network. destruct (is_encrypted p).
  - destruct (decrypt_dlms_envelope _ _ _ _) as [s1 [obis| |]]; intros [= <- H]; try done.
    apply ingest_frame_disseminates in H as [_ H]. by destruct (H Hd).
  - intros [= <- H]. apply ingest_frame_disseminates in H as [_ H]. by destruct (H Hd).
Qed.

End Published.

(** ** The same for gRPC *)

Section GrpcPublished.
Context {J : SerdeJson} {K : Crypto} {SS : StreamSerde} {C : Chrono} {FT : F64Text} {U : UuidText}.
Context {SV : SignatureVerifier} {CL : CryptoLaws} {json_dom : Value -> Prop} {wire_dom : DeviceReading -> Prop}.
Context {SL : StreamLaws json_dom wire_dom}.
Context (get_device_aes_key : string -> outcome key_error (option (list Z))).

(** An [ingest] call that succeeds has left its reading as the newest entry of its
    zone, with its side publications spawned; one that fails has recorded nothing in
    the history sinks and spawned nothing. *)
Lemma grpc_accepted_is_published ge e rid now g r g' res :
  router_ok g.(gw_router) e -> (forall f, wire_dom (request_reading rid now frame_metadata r f)) ->
  handle_grpc_ingest get_device_aes_key ge e rid now g r = (g', res) -> res <> Panic ->
  match res with
  | Ok _ => exists f v, ingest_gate ge r = Ok v /\
      published g'.(gw_router) g'.(gw_sinks) (request_reading rid now frame_metadata r f) /\
      g'.(gw_spawned) = g.(gw_spawned) ++ side_tasks g (request_reading rid now frame_metadata r f) v
  | _ => g'.(gw_sinks).(sk_pg) = g.(gw_sinks).(sk_pg) /\ g'.(gw_spawned) = g.(gw_spawned)
  end.
Proof.
  intros Hok Hw. unfold handle_grpc_ingest, GrpcService.ingest.
  destruct (ingest_gate ge r) as [v|c|]; [|intros [= <- <-]; done|intros [= <- <-]; done].
  destruct (request_frame get_device_aes_key ge r) as [f| |]; [|intros [= <- <-]; done..].
  destruct (disseminate_reading g e _ v) as [g1 [resp|[]|]] eqn:Ed; [|by intros [= <- <-]].
  destruct (disseminate_reading_spec g e _ v g1 resp Hok (Hw f) Ed) as [(-> & Hp & Hs)|(-> & Hp & Hi & Hs)];
    cbn [snd is_success rs_code]; intros [= <- <-] _; [|done].
  exists f, v. done.
Qed.
End GrpcPublished.

(** ** What the batch paths leave out *)

Section Omissions.
Context {J : SerdeJson} {K : Crypto} {SS : StreamSerde} {C : Chrono} {FT : F64Text} {L : LuaNumber}.
Context (verify : string -> list Z -> string -> outcome key_error bool).

Lemma buffered_spawns g readings b :
  steps (buffered_step disseminate_one DISSEMINATE_CONCURRENCY) (buffered_start g readings) b ->
  b.(bf_state).(gw_spawned) = g.(gw_spawned).
Proof.
  apply (steps_invariant _ (fun b => b.(bf_state).(gw_spawned) = g.(gw_spawned))); [|done].
  intros b1 b2 H1 Hs. destruct Hs as [|? ? ? ? ? ? ? ? ? _ Hw|]; cbn [bf_state] in *; [done| |done].
  apply disseminate_one_spawns in Hw. congruence.
Qed.

(** Neither batch path publishes to Kafka or asks for a validation: the same reading
    sent alone reaches both brokers, sent in a batch it reaches none. *)
Lemma batch_skips_brokers c now top items g g' o :
  handle_batch verify c now top items g g' o -> g'.(gw_spawned) = g.(gw_spawned).
Proof.
  intros [g0 code _|g0 readings b _ Hs _ _|g0 readings b g1 _ Hs Hp]; [done|by eapply buffered_spawns|].
  apply buffered_spawns in Hs. destruct Hp as [? ? ? ? ? ? ? ? _ Hw]. apply disseminate_one_spawns in Hw. cbn in Hs.
  congruence.
Qed.

Lemma disseminate_all_spawns rs g g' o : disseminate_all g rs = (g', o) -> g'.(gw_spawned) = g.(gw_spawned).
Proof.
  revert g o. induction rs as [|[r e] rs IH]; intros g o; cbn [disseminate_all]; [by intros [= <- <-]|].
  destruct (disseminate_one g r e) as [g1 a] eqn:E1. apply disseminate_one_spawns in E1.
  destruct a as [a| |]; [|by intros [= <- <-]..].
  destruct (disseminate_all g1 rs) as [g2 o2] eqn:E2. intros [= <- <-]. apply IH in E2. congruence.
Qed.

Lemma legacy_skips_brokers c now rids es g payload :
  (handle_legacy c now rids es g payload).1.(gw_spawned) = g.(gw_spawned).
Proof.
  unfold handle_legacy. destruct (ingest_legacy_batch _ _ _ _) as [code|readings]; [done|].
  destruct (disseminate_all g _) as [g' o] eqn:E. by apply disseminate_all_spawns in E.
Qed.

(** Redis cannot be reached and no connection is cached. *)
Definition unreachable (g : gateway) (e : dissem_env) : Prop :=
  g.(gw_router).(rt_cached) = None /\ exists x, e.(de_build1) = Err x.

(** A bulk call that returns counts every verified frame as processed, and reports
    success, also when not one of them could be published. *)
Lemma bulk_counts_unpublished g rs :
  (forall g' n, disseminate_bulk g rs = (g', Ok n) -> n = Z.of_nat (length rs)) /\
  (Forall (fun re => unreachable g re.2) rs ->
   exists g', disseminate_bulk g rs = (g', Ok (Z.of_nat (length rs))) /\ g'.(gw_sinks) = g.(gw_sinks)).
Proof.
  split.
  - revert g. induction rs as [|[r e] rs IH]; intros g g' n; cbn [disseminate_bulk]; [by intros [= <- <-]|].
    destruct (disseminate_reading g e r true) as [g1 [resp| |]]; [|done..].
    destruct (disseminate_bulk g1 rs) as [g2 [m|[]|]] eqn:E; [|done]. intros [= <- <-]. apply IH in E. cbn. lia.
  - revert g. induction rs as [|[r e] rs IH]; intros g Hu; [by exists g|].
    apply Forall_cons_1 in Hu as [[Hc [x Hx]] Hu]. cbn [disseminate_bulk snd] in *.
    unfold disseminate_reading, disseminate. rewrite Hc, Hx. cbn [get_or_build].
    destruct (IH (set_gateway g (set_cached (gw_router g) None) (gw_sinks g) [])) as (g' & -> & Hg').
    { eapply Forall_impl; [|exact Hu]. intros re [_ H]. by split. }
    exists g'. split; [|done]. cbn. do 2 f_equal. lia.
Qed.
End Omissions.

(** ** The voltage of a binary frame *)

Section Voltage.
Context {J : SerdeJson}.

Lemma frame_no_voltage_l1 f : frame_metadata f !! "voltage_l1_v" = None.
Proof.
  unfold frame_metadata, put_opt. destruct (battery_soc_bps f), (current_ma f), (voltage_cv f);
    rewrite ?lookup_insert_ne by done; apply lookup_empty.
Qed.

(** The voltage a bulk frame measured reaches neither the Postgres row nor the
    InfluxDB point: the frame's metadata names it [voltage_v], and both read
    [voltage_l1_v]. *)
Lemma frame_voltage_dropped rid d :
  (reading_to_row (bulk_reading rid d) ≫= rr_voltage) = None /\
  forall x, ("voltage_l1_v", x) ∉ extra_fields (bulk_reading rid d).
Proof.
  assert (Hm : meta_f64 (bulk_reading rid d) "voltage_l1_v" = None).
  { unfold meta_f64, bulk_reading. cbn [metadata]. rewrite lookup_insert_ne by done. by rewrite frame_no_voltage_l1. }
  split; [exact Hm|].
  intros x (name & _ & Hn)%list_elem_of_omap. destruct (meta_f64 _ name) as [v|] eqn:E; [|done].
  cbn in Hn. injection Hn as -> _. congruence.
Qed.
End Voltage.

(** ** Samples *)

Section Witnesses.
#[local] Existing Instance json_wire_ref.
#[local] Existing Instance stream_serde_ref.
#[local] Existing Instance crypto_wire_ref.
#[local] Existing Instance crypto_wire_ref_laws.
#[local] Existing Instance stream_laws_ref.
#[local] Existing Instance chrono_ref.
#[local] Instance no_text : F64Text := {| f64_show _ := EmptyString; f64_parse _ := None |}.
#[local] Instance lua_int : LuaNumber := {| lua_num := Z; tonumber z := z; lua_ge := Z.geb |}.

Definition open_config : config := {| env_require_secure := None; env_allow_unverified := None |}.

Definition no_keys : decrypt_env := {|
  dv_legacy_key _ := Ok None; dv_versioned_key _ _ := Ok None;
  dv_link := {| lk_url := true; lk_conn := true |}; dv_connected := true; dv_reachable := true |}.

Definition refuse (_ : string) (_ : list Z) (_ : string) : outcome key_error bool := Ok false.

Definition zoned (extra : list (string * jval)) : jval := JObj (("zone_code", JStr "ZONE5") :: extra).

Definition sim_frame : PrivateNetworkPayload :=
  {| pn_protocol := "simulator"; pn_device_id := "M1"; pn_payload := zoned [] |}.

Definition sample_gateway : gateway := {|
  gw_router := sample_router; gw_sinks := no_sinks; gw_kafka := true; gw_rabbitmq := true; gw_spawned := [] |}.

Definition sim_reading (rid : Uuid) (device : string) (payload : jval) : DeviceReading :=
  simulator_reading rid 5 device payload.

Lemma sim_disseminated rid device extra :
  exists rt k, disseminate sample_router no_sinks retry_env (sim_reading rid device (zoned extra)) = (rt, k, Ok ()).
Proof.
  pose proof (disseminate_succeeds sample_router no_sinks retry_env (sim_reading rid device (zoned extra)) 5
    (default EmptyString (ok_of (seal_reading zone_cipher (Some zone_nonce) (sim_reading rid device (zoned extra)))))) as H.
  destruct (disseminate _ _ _ _) as [[rt k] res]. exists rt, k. f_equal. apply H; [reflexivity..| |reflexivity].
  apply ok_is_ok. reflexivity.
Qed.

Lemma sample_router_ok : router_ok sample_router retry_env.
Proof. split; [done|..]; by intros ? [= <-]. Qed.


(** Two readings of one batch: the second is published first, the first fails to be
    sealed (no nonce). *)
Definition no_nonce : dissem_env := {|
  de_build1 := Ok (); de_build2 := Ok (); de_xadd1 := IoOk; de_xadd2 := IoOk; de_unified := IoOk; de_evict := 0;
  de_nonce := None |}.

Definition batch_items : list (Uuid * jval) := [(1%N, zoned [("device_id", JStr "M1")]); (2%N, zoned [("device_id", JStr "M2")])].

Definition batch_first : DeviceReading := sim_reading 1%N "M1" (zoned [("device_id", JStr "M1")]).
Definition batch_second : DeviceReading := sim_reading 2%N "M2" (zoned [("device_id", JStr "M2")]).

Lemma batch_run :
  exists g', handle_batch refuse open_config 5 "simulator" batch_items sample_gateway g'
    (Ok {| rs_code := OK; rs_body := Acknowledgements [ingest_response "failed" batch_first; ingest_response "accepted" batch_second] |}).
Proof.
  destruct (sim_disseminated 2%N "M2" [("device_id", JStr "M2")]) as (rt & k & Hd).
  assert (Hc : exists c, rt = set_cached sample_router c) by (by eapply disseminate_router).
  assert (H2 : disseminate_one sample_gateway batch_second retry_env =
               (set_gateway sample_gateway rt k [], Ok (ingest_response "accepted" batch_second))).
  { unfold disseminate_one. cbn [gw_router gw_sinks sample_gateway]. unfold batch_second. by rewrite Hd. }
  assert (H1 : exists g1, disseminate_one (set_gateway sample_gateway rt k []) batch_first no_nonce =
               (g1, Ok (ingest_response "failed" batch_first))).
  { destruct Hc as [c ->]. unfold disseminate_one, disseminate. cbn [gw_router set_gateway].
    eexists. destruct c as [[]|]; reflexivity. }
  destruct H1 as [g1 H1]. exists g1.
  apply (hb_done (J := json_wire_ref) refuse open_config 5 "simulator" batch_items sample_gateway [batch_first; batch_second]
           {| bf_waiting := []; bf_flight := [];
              bf_done := [ingest_response "failed" batch_first; ingest_response "accepted" batch_second]; bf_state := g1 |});
    [reflexivity| |reflexivity..].
  eapply steps_next; [|exact (bs_yield disseminate_one _ batch_second (ingest_response "accepted" batch_second) [] []
                                [ingest_response "failed" batch_first] g1)].
  eapply steps_next; [|exact (bs_yield disseminate_one _ batch_first (ingest_response "failed" batch_first) []
                                [(batch_second, Some (ingest_response "accepted" batch_second))] [] g1)].
  eapply steps_next; [|exact (bs_finish disseminate_one _ 0 batch_first []
                                [(batch_first, None); (batch_second, Some (ingest_response "accepted" batch_second))] []
                                _ no_nonce g1 _ eq_refl H1)].
  eapply steps_next; [|exact (bs_finish disseminate_one _ 1 batch_second [] [(batch_first, None); (batch_second, None)] []
                                _ retry_env _ _ eq_refl H2)].
  unfold DISSEMINATE_CONCURRENCY.
  eapply steps_next; [|apply (bs_start disseminate_one _ batch_second [] [(batch_first, None)]); cbn; lia].
  eapply steps_next; [apply steps_refl|]. apply (bs_start disseminate_one _ batch_first [batch_second] []). cbn. lia.
Qed.


Lemma batch_terminates_witness :
  let b := {| bf_waiting := [batch_second]; bf_flight := [(batch_first, None)]; bf_done := []; bf_state := sample_gateway |} in
  (exists b', buffered_step disseminate_one DISSEMINATE_CONCURRENCY b b') \/
  (exists g', buffered_panics disseminate_one b g') \/ (b.(bf_waiting) = [] /\ b.(bf_flight) = []).
Proof.
  apply (batch_terminates sample_gateway [batch_first; batch_second] 1).
  eapply nsteps_l; [|apply nsteps_O]. apply (bs_start disseminate_one _ batch_first [batch_second] [] []).
  unfold DISSEMINATE_CONCURRENCY. cbn. lia.
Defined.
End Witnesses.
