(* ===== verification/Boot.v ===== *)
(** * The boot of the bridge (src/main.rs: main; the constructors of mint.rs,
      rabbitmq.rs, kafka.rs, router.rs, zone_ingester.rs, grpc_client.rs; migrate.rs)

    [main] as a function from the environment and the answers of the outside world to
    the running bridge or the error it exits with.  Parts that degrade become [None]
    or [false]; an error of a mandatory part ends the boot.  The parts themselves are
    the definitions of the other files. *)

From Stdlib Require Import ZArith Lia Ascii String SpecFloat.
From stdpp Require Import base gmap strings list numbers.
From S2P Require Import Prelude RustStd External Models Aggregator Stores Auth Mint GridStatus Dispatch OpenLeadr Ven Router ZoneIngester Delivery StreamKey Sinks Messaging OwnerReadModel Startup Metrics.

Open Scope string_scope.
Open Scope list_scope.
Open Scope Z_scope.
Open Scope bridge_scope.

(** ** The mint gateway *)

(** [ConnectOptions]: the credentials of the URL, when it has any, and the URL. *)
Definition connect_with_url_creds (dial : option (string * string) -> string -> bool) (url : string) : bool :=
  match url_userinfo url with
  | Some creds => dial (Some creds) url
  | None => dial None url
  end.

Definition mint_reply_timeout_secs (env : Env) : Z :=
  parse_or (parse_unsigned 64) env "AGGREGATOR_MINT_REPLY_TIMEOUT_SECS" 30.

(** [signer]: what [EnvelopeSigner::from_env_paths] returns. *)
Definition gateway_connect (dial : option (string * string) -> string -> bool)
    (signer : option ((MintEnergyMessage -> string) * (MintEnergyBatchMessage -> string)))
    (via_chain_bridge : bool) (url : option string) (service_identity : string) : MintGateway :=
  match via_chain_bridge, url with
  | true, Some url =>
      if connect_with_url_creds dial url
      then Nats {| gw_service_identity := service_identity; gw_sign_mint := fst <$> signer; gw_sign_batch := snd <$> signer |}
      else Disabled
  | _, _ => Disabled
  end.

(** ** The message brokers *)

(** The calls that open a RabbitMQ channel, in the order they are made. *)
Inductive amqp_call : Type :=
| AmqpConnect
| AmqpChannel
| ExchangeDeclare (name : string)
| QueueDeclare (name : string)
| QueueBind (queue exchange routing_key : string).

Definition amqp_setup : list amqp_call :=
  [AmqpConnect; AmqpChannel; ExchangeDeclare "aggregator"; QueueDeclare "meter.validation";
   QueueBind "meter.validation" "aggregator" "meter.validate"].

(** The calls made, up to the first that fails, and whether there is a channel. *)
Fixpoint amqp_connect_calls (answers : amqp_call -> bool) (cs : list amqp_call) : list amqp_call * bool :=
  match cs with
  | [] => ([], true)
  | c :: cs => if answers c then let '(done, ok) := amqp_connect_calls answers cs in (c :: done, ok) else ([c], false)
  end.

Definition amqp_connect (answers : amqp_call -> bool) : list amqp_call * bool := amqp_connect_calls answers amqp_setup.

Definition kafka_producer_config (brokers : string) : list (string * string) :=
  [("bootstrap.servers", brokers); ("socket.keepalive.enable", "true"); ("message.timeout.ms", "30000");
   ("reconnect.backoff.ms", "500"); ("reconnect.backoff.max.ms", "10000"); ("acks", "all")].

Definition kafka_producer_new (creates : list (string * string) -> bool) (brokers topic : string)
    : option AggregatorKafkaProducer :=
  if creates (kafka_producer_config brokers)
  then Some {| kp_topic := topic; kp_generation := 0; kp_failures := 0 |} else None.

Definition kafka_consumer_config (brokers group_id : string) : list (string * string) :=
  [("bootstrap.servers", brokers); ("group.id", group_id); ("auto.offset.reset", "latest")].

Definition kafka_consumer_new (creates : list (string * string) -> bool) (subscribes : string -> bool)
    (brokers group_id topic : string) : bool :=
  creates (kafka_consumer_config brokers group_id) && subscribes topic.

(** ** The router and the ingester *)

Definition DEFAULT_MAX_STREAM_LEN : Z := 100000.

(** [Router::new]: without a connection there is no router. *)
Definition router_new (env : Env) (url_ok connects : bool) (num_zones : Z) (influx : bool)
    : outcome router_error Router :=
  let? _ := ensure url_ok ConnectFailed in
  let? _ := ensure connects ConnectFailed in
  Ok {| rt_cached := Some (); rt_max_stream_len := parse_or (parse_unsigned 64) env "REDIS_STREAM_MAXLEN" DEFAULT_MAX_STREAM_LEN;
        rt_num_zones := num_zones; rt_influx := influx; rt_cipher := None; rt_pg_readings := false |}.

Definition with_stream_cipher (r : Router) (cipher : option (list Z)) : Router :=
  {| rt_cached := r.(rt_cached); rt_max_stream_len := r.(rt_max_stream_len); rt_num_zones := r.(rt_num_zones);
     rt_influx := r.(rt_influx); rt_cipher := cipher; rt_pg_readings := r.(rt_pg_readings) |}.

Definition with_pg_readings (r : Router) (writer : bool) : Router :=
  {| rt_cached := r.(rt_cached); rt_max_stream_len := r.(rt_max_stream_len); rt_num_zones := r.(rt_num_zones);
     rt_influx := r.(rt_influx); rt_cipher := r.(rt_cipher); rt_pg_readings := writer |}.

Record ZoneEventIngester : Type := {
  zi_streams : list string;
  zi_group : string;
  zi_consumer : string;
  zi_platform : bool;              (* the gRPC client, which the live path does not use *)
  zi_config : zone_config
}.

(** [ZoneEventIngester::new]: [uuid] is the fresh consumer suffix. *)
Definition ingester_new (url_ok : bool) (answers : nat -> conn_attempt) (platform : bool) (num_zones : Z)
    (uuid : string) (cfg : zone_config) : outcome redis_error ZoneEventIngester :=
  let? _ := ensure url_ok RedisError in
  let? _ := (create_connection_manager answers).1 in
  Ok {| zi_streams := zone_streams num_zones; zi_group := "aggregator_bridge_zone_group";
        zi_consumer := "zone_consumer_" +:+ uuid; zi_platform := platform; zi_config := cfg |}.

(** ** The dispatch client *)

Definition DISPATCH_FALLBACK : string := "http://127.0.0.1:50051".

(** [DispatchClient::new] fails on an address that is no URI; the fallback is tried then. *)
Definition dispatch_client (uri_ok : string -> bool) (env : Env) : option string :=
  let url := default DISPATCH_FALLBACK (env "DISPATCH_GRPC_URL") in
  if uri_ok url then Some url
  else if uri_ok DISPATCH_FALLBACK then Some DISPATCH_FALLBACK else None.

(** ** Limits and lifetimes read from the environment *)

(** How many mint attempts may run at once; a zero is refused. *)
Definition mint_inflight_limit (env : Env) : Z :=
  match env "MINT_INFLIGHT_LIMIT" ≫= parse_unsigned 64 with
  | Some n => if 0 <? n then n else 128
  | None => 128
  end.

(** Failure threshold and cooldown of the IAM circuit breaker, when it is on. *)
Definition iam_breaker (env : Env) : option (Z * Z) :=
  match env "AGGREGATOR_IAM_CIRCUIT_BREAKER_ENABLED" with
  | Some v =>
      if existsb (String.eqb (trim v)) ["1"; "true"; "TRUE"] then
        Some (parse_or (fun s => parse_unsigned 32 (trim s)) env "AGGREGATOR_IAM_CB_FAILURE_THRESHOLD" 5,
              parse_or (fun s => parse_unsigned 64 (trim s)) env "AGGREGATOR_IAM_CB_COOLDOWN_SECS" 5)
      else None
  | None => None
  end.

Definition ttl_from_env (env : Env) (var : string) (default_secs : Z) : Z :=
  parse_or (fun s => parse_unsigned 64 (trim s)) env var default_secs * NS_PER_SEC.

(** How often a persistent reason to defer mints is logged, in seconds. *)
Definition defer_log_interval (env : Env) : Z :=
  default 60 (env "MINT_DEFER_LOG_INTERVAL_SECS" ≫= parse_unsigned 64).

Definition api_key_positive_ttl (env : Env) : Z := ttl_from_env env "API_KEY_POS_CACHE_TTL_SECS" API_KEY_POSITIVE_TTL_SECS.
Definition api_key_negative_ttl (env : Env) : Z := ttl_from_env env "API_KEY_NEG_CACHE_TTL_SECS" API_KEY_NEGATIVE_TTL_SECS.

(** ** The migration job *)

Definition migrate_url (env : Env) : option string :=
  match env "METER_DATABASE_URL" with Some u => Some u | None => env "DATABASE_URL" end.

(** Exit with success when both the pool and the migrations succeed. *)
Definition migrate (env : Env) (connects migrates : string -> bool) : bool :=
  match migrate_url env with Some url => connects url && migrates url | None => false end.

(** ** The certificate files of the gateway *)

(** rustls_pemfile and rustls: the blocks of a PEM file (a block that does not parse
    is [None]), the private key of a file that opens ([Some None]: it does not parse;
    [Some (Some None)]: there is none in it), whether a certificate can be a root, whether the roots make a
    verifier, whether the chain and the key make a server, and whether the TLS
    library loads a certificate file and a key file itself. *)
Record tls_lib : Type := {
  tl_certs : string -> option (list (option string));
  tl_key : string -> option (option (option string));
  tl_root : string -> bool;
  tl_verifier : list string -> bool;
  tl_single_cert : list string -> string -> bool;
  tl_from_pem_file : string -> string -> bool
}.

Record server_config : Type := { sc_roots : list string; sc_chain : list string; sc_key : string }.

(** The roots in the order of the file; the first bad block or refused root ends it. *)
Fixpoint add_roots (t : tls_lib) (roots : list string) (cas : list (option string)) : outcome string (list string) :=
  match cas with
  | [] => Ok roots
  | None :: _ => Err "parse client CA cert"
  | Some ca :: cas => if t.(tl_root) ca then add_roots t (roots ++ [ca]) cas else Err "add client CA root"
  end.

Definition build_mtls_server_config (t : tls_lib) (cert_path key_path client_ca_path : string)
    : outcome string server_config :=
  let? blocks := ok_or (t.(tl_certs) cert_path) ("open server cert " +:+ cert_path) in
  let? chain := ok_or (mapM id blocks) "parse server cert chain" in
  let? parsed := ok_or (t.(tl_key) key_path) ("open server key " +:+ key_path) in
  let? found := ok_or parsed "parse server key" in
  let? key := ok_or found ("no private key in " +:+ key_path) in
  let? cas := ok_or (t.(tl_certs) client_ca_path) ("open client CA " +:+ client_ca_path) in
  let? roots := add_roots t [] cas in
  let? _ := ensure (t.(tl_verifier) roots) "build client cert verifier" in
  let? _ := ensure (t.(tl_single_cert) chain key) "build mTLS server config" in
  Ok {| sc_roots := roots; sc_chain := chain; sc_key := key |}.

(** What the gateway needs before it can serve in its mode. *)
Definition gateway_tls (t : tls_lib) (mode : gateway_mode) : bool :=
  match mode with
  | PlainHttp => true
  | Tls cert key => t.(tl_from_pem_file) cert key
  | MutualTls cert key ca => match build_mtls_server_config t cert key ca with Ok _ => true | _ => false end
  end.

(** ** The outside world during a boot *)

Record world : Type := {
  w_redis_url : string -> bool;                          (* the URL parses *)
  w_redis_early : bool;                                  (* the probe of at most three seconds *)
  w_postgres : string -> bool;                           (* likewise *)
  w_vault_kek : outcome vault_error unit;                (* ensure_kek *)
  w_sek : StreamKey.boot;                                (* load_or_create_stream_cipher *)
  w_ingester : nat -> conn_attempt;
  w_platform : bool;
  w_consumer_id : string;
  w_feed_consumer : string -> bool;                      (* a read-model consumer, by group *)
  w_influx : influx_config -> bool;
  w_router_redis : bool;                                 (* the router's own connection *)
  w_nats : option (string * string) -> string -> bool;
  w_signer : option ((MintEnergyMessage -> string) * (MintEnergyBatchMessage -> string));
  w_kafka : list (string * string) -> bool;              (* a client with this configuration *)
  w_subscribe : string -> bool;
  w_uri : string -> bool;
  w_amqp : string -> amqp_call -> bool;
  w_iam : string -> bool;
  w_recorder : bool;                                     (* quantiles accepted, no recorder installed *)
  w_bind : Z -> bool;
  w_socket_addr : string -> bool;
  w_tls : tls_lib;
  w_first_instant : Z
}.

Inductive boot_error : Type :=
| InvalidRedisUrl
| StreamEncryption (e : start_error)
| RouterInit
| DispatchUri
| MetricsRecorder
| GatewayBind
| GrpcAddress
| TlsConfig.

(** The running bridge: its parts and its background tasks. *)
Record bridge `{Chrono, RustDecimal, UuidText, VtnConfig} : Type := {
  br_settings : settings;
  br_redis : bool;
  br_pool : bool;
  br_read_model : bool;
  br_bin_store : bool;
  br_aggregator : Aggregator;
  br_ingester : option ZoneEventIngester;
  br_feed : list (string * string * list string);
  br_router : Router;
  br_mint : MintGateway;
  br_outbox : bool;
  br_settlement : periodic;
  br_drain : periodic;
  br_kafka : option AggregatorKafkaProducer;
  br_publisher : periodic;
  br_dispatch : string;
  br_listener : bool;                                    (* dispatch listener *)
  br_ven : option OpenLeadrVenListener;
  br_rabbitmq : bool;
  br_vault : bool;                                       (* versioned device keys *)
  br_api_keys : list string;
  br_iam : bool;
  br_wallet_repair : bool;
  br_recorder : recorder;
  br_mode : gateway_mode;
  br_grpc_port : string
}.

Section Boot.
Context {C : Chrono} {D : RustDecimal} {U : UuidText} {V : VtnConfig} {BC : Codec BillingBin}.
Context (env : Env) (w : world) (loaded : outcome redis_error (list BillingBin)).

(** The stream cipher, when it is asked for. *)
Definition boot_cipher : outcome boot_error (option (list Z)) :=
  match stream_cipher_of env ((fun _ => w.(w_vault_kek)) <$> vault_from_env env) w.(w_redis_early) w.(w_sek) with
  | Ok c => Ok c
  | Err e => Err (StreamEncryption e)
  | Panic => Panic
  end.

Definition zone_config_of (cipher : option (list Z)) : zone_config := {|
  zc_cipher := cipher; zc_durable := bin_store_on env w.(w_redis_early);
  zc_monitor := is_someb (frequency_window_secs env); zc_first_instant := w.(w_first_instant);
  zc_freq_window := default 60 (frequency_window_secs env) * NS_PER_SEC |}.

Definition boot_ingester (st : settings) (cipher : option (list Z)) : option ZoneEventIngester :=
  ok_of (ingester_new (w.(w_redis_url) st.(redis_url)) w.(w_ingester) w.(w_platform) st.(num_zones) w.(w_consumer_id)
           (zone_config_of cipher)).

Definition boot_feed (pool : bool) : list (string * string * list string) :=
  let plan := feed_plan env pool in
  if forallb (fun p => w.(w_feed_consumer) p.1.2) plan then plan else [].

Definition boot_router (st : settings) (influx pg_readings : bool) (cipher : option (list Z))
    : outcome boot_error Router :=
  match router_new env (w.(w_redis_url) st.(redis_url)) w.(w_router_redis) st.(num_zones) influx with
  | Ok r => Ok (with_pg_readings (with_stream_cipher r cipher) pg_readings)
  | _ => Err RouterInit
  end.

Definition boot_mint : MintGateway :=
  let ms := mint_settings_of env in
  gateway_connect w.(w_nats) w.(w_signer) ms.(mint_via_chain_bridge) ms.(nats_url) ms.(mint_identity).

Definition boot_kafka : option AggregatorKafkaProducer :=
  brokers ← env "KAFKA_BOOTSTRAP_SERVERS";
  kafka_producer_new w.(w_kafka) brokers (default "meter.readings" (env "KAFKA_TOPIC_METER_READINGS")).

Definition boot_listener : bool :=
  match env "KAFKA_BOOTSTRAP_SERVERS" with
  | Some brokers => kafka_consumer_new w.(w_kafka) w.(w_subscribe) brokers "aggregator-bridge-group" (grid_topic env)
  | None => false
  end.

Definition boot_rabbitmq : bool :=
  match env "RABBITMQ_URL" with Some url => (amqp_connect (w.(w_amqp) url)).2 | None => false end.

Definition boot_iam (st : settings) : bool := w.(w_uri) st.(iam_service_url) && w.(w_iam) st.(iam_service_url).

Definition grpc_port : string := default "5030" (env "GRPC_PORT").

(** [main], once the settings are known and the Redis URL has been parsed. *)
Definition boot_with (st : settings) (database : string * bool) : outcome boot_error bridge :=
  let redis := w.(w_redis_early) in
  let pool := w.(w_postgres) database.1 in
  let pg_readings := pg_start env pool in
  let bin_store := bin_store_on env redis in
  let? cipher := boot_cipher in
  let influx := is_someb (influx_connect env w.(w_influx)) in
  let? router := boot_router st influx pg_readings cipher in
  let mint := boot_mint in
  let outbox := outbox_on (is_enabled mint) redis in
  let kafka := boot_kafka in
  let? dispatch := ok_or (dispatch_client w.(w_uri) env) DispatchUri in
  let iam := boot_iam st in
  let? _ := ensure w.(w_recorder) MetricsRecorder in
  let path := if is_enabled mint then "nats" else "disabled" in
  let? _ := ensure (w.(w_bind) st.(gateway_port)) GatewayBind in
  let? _ := ensure (w.(w_socket_addr) ("0.0.0.0:" +:+ grpc_port)) GrpcAddress in
  let? _ := ensure (gateway_tls w.(w_tls) (gateway_mode_of env)) TlsConfig in
  Ok {| br_settings := st; br_redis := redis; br_pool := pool; br_read_model := database.2;
        br_bin_store := bin_store; br_aggregator := boot_aggregator env redis loaded;
        br_ingester := boot_ingester st cipher; br_feed := boot_feed pool; br_router := router;
        br_mint := mint; br_outbox := outbox; br_settlement := settlement_task env influx (is_enabled mint);
        br_drain := drain_task env outbox; br_kafka := kafka;
        br_publisher := publisher_task env (is_someb (frequency_window_secs env) && is_someb kafka);
        br_dispatch := dispatch; br_listener := boot_listener; br_ven := ven_listener env w.(w_uri);
        br_rabbitmq := boot_rabbitmq; br_vault := is_someb (vault_from_env env);
        br_api_keys := parse_api_keys (default EmptyString (env "GRIDTOKENX_API_KEYS")); br_iam := iam;
        br_wallet_repair := feed_enabled env && pool && iam;
        br_recorder := foldl apply_emission empty_recorder (record_settlement_path path);
        br_mode := gateway_mode_of env; br_grpc_port := grpc_port |}.

(** [None]: the expansion of a setting has not ended. *)
Definition boot (fuel : nat) : option (outcome boot_error bridge) :=
  st ← settings_of fuel env;
  if w.(w_redis_url) st.(redis_url) then
    database ← database_choice fuel env;
    Some (boot_with st database)
  else Some (Err InvalidRedisUrl).
End Boot.
