(* ===== verification/Loops.v ===== *)
(** * The two polling tasks (openleadr_ven.rs: ensure_registered, run;
      owner_read_model.rs: OwnerReadModelConsumer::new, connect, run)

    The loop around the OpenADR listener's poll and the loop around the owner feed's
    consumer: what a failed turn does to the turns after it, until the shutdown ends
    them. *)

From Stdlib Require Import ZArith Lia Ascii String SpecFloat.
From stdpp Require Import base gmap strings list numbers sorting.
From S2P Require Import Prelude RustStd External Models Stores Dispatch OpenLeadr Ven VenProps OwnerReadModel OwnerReadModelProps.

Open Scope string_scope.
Open Scope bridge_scope.
Open Scope Z_scope.

(** ** The OpenADR listener *)

Section VenLoop.
Context {O : OpenAdr} {C : Chrono} (to_rfc3339 : Z -> string).

Inductive vtn_call : Type :=
| GetVenByName (name : string)
| CreateVen (name : string).

(** The requests made; [answers] says which succeed.  Whatever they answer, the
    listener goes on to poll. *)
Definition ensure_registered (l : OpenLeadrVenListener) (answers : vtn_call -> bool) : list vtn_call :=
  if negb l.(register) then []
  else
    let get := GetVenByName l.(client_name) in
    if answers get then [get] else [get; CreateVen l.(client_name)].

(** How the task has ended, if it has. *)
Inductive ven_end : Type := PollsOn | ShutDown | Panicked.

Record ven_loop : Type := {
  vl_listener : OpenLeadrVenListener;
  vl_store : rhash;
  vl_execs : list execution;
  vl_reports : list report;
  vl_errors : nat;                    (* polls that failed and were logged *)
  vl_end : ven_end
}.

(** One turn of the [select!]: the shutdown, or a tick and its poll. *)
Inductive ven_turn : Type :=
| VenShutdown
| VenTick (p : poll_io).

Definition ven_turn_step (v : ven_loop) (t : ven_turn) : ven_loop :=
  match v.(vl_end) with
  | PollsOn =>
      match t with
      | VenShutdown =>
          {| vl_listener := v.(vl_listener); vl_store := v.(vl_store); vl_execs := v.(vl_execs);
             vl_reports := v.(vl_reports); vl_errors := v.(vl_errors); vl_end := ShutDown |}
      | VenTick p =>
          let '(s, r) := poll_once to_rfc3339 v.(vl_listener) v.(vl_store) p in
          {| vl_listener := s.(ps_l); vl_store := s.(ps_h); vl_execs := v.(vl_execs) ++ s.(ps_execs);
             vl_reports := v.(vl_reports) ++ s.(ps_reports);
             vl_errors := (v.(vl_errors) + match r with Err _ => 1 | _ => 0 end)%nat;
             vl_end := match r with Panic => Panicked | _ => PollsOn end |}
      end
  | _ => v
  end.

Definition ven_loop_start (l : OpenLeadrVenListener) (h : rhash) : ven_loop :=
  {| vl_listener := l; vl_store := h; vl_execs := []; vl_reports := []; vl_errors := 0; vl_end := PollsOn |}.

(** [run], the registration first. *)
Definition ven_run (l : OpenLeadrVenListener) (h : rhash) (answers : vtn_call -> bool) (ts : list ven_turn)
    : list vtn_call * ven_loop :=
  (ensure_registered l answers, fold_left ven_turn_step ts (ven_loop_start l h)).
End VenLoop.

(** ** The owner feed's consumer *)

Definition feed_consumer_config (brokers group_id : string) : list (string * string) :=
  [("bootstrap.servers", brokers); ("group.id", group_id); ("auto.offset.reset", "earliest")].

(** [connect]: build, then subscribe. *)
Definition feed_connect (creates : list (string * string) -> bool) (subscribes : list string -> bool)
    (brokers group_id : string) (topics : list string) : outcome string unit :=
  if creates (feed_consumer_config brokers group_id) then
    if subscribes topics then Ok () else Err "owner read-model consumer subscribe failed"
  else Err "owner read-model consumer create failed".

Record OwnerReadModelConsumer : Type := {
  oc_brokers : string;
  oc_group_id : string;
  oc_topics : list string
}.

Definition feed_consumer_new (creates : list (string * string) -> bool) (subscribes : list string -> bool)
    (brokers group_id : string) (topics : list string) : outcome string OwnerReadModelConsumer :=
  let? _ := feed_connect creates subscribes brokers group_id topics in
  Ok {| oc_brokers := brokers; oc_group_id := group_id; oc_topics := topics |}.

Section FeedLoop.
Context {F : FeedDecoder} (canon : string -> string).

(** A turn of the loop: a message with the clock and the fate of its statement, a
    failed receive with what a rebuild would meet, or the shutdown. *)
Inductive feed_turn : Type :=
| FeedMessage (payload : option string) (now : Z) (o : io)
| FeedError (creates : list (string * string) -> bool) (subscribes : list string -> bool)
| FeedShutdown.

Record feed_loop : Type := {
  fl_model : ReadModel;
  fl_count : consumer;
  fl_running : bool
}.

Definition feed_turn_step (oc : OwnerReadModelConsumer) (f : feed_loop) (t : feed_turn) : feed_loop :=
  if negb f.(fl_running) then f
  else
    match t with
    | FeedShutdown => {| fl_model := f.(fl_model); fl_count := f.(fl_count); fl_running := false |}
    | FeedMessage payload now o =>
        {| fl_model := match payload with Some p => dispatch canon f.(fl_model) p now o | None => f.(fl_model) end;
           fl_count := consumer_step f.(fl_count) (RecvMessage payload); fl_running := true |}
    | FeedError creates subscribes =>
        let rebuilt := match feed_connect creates subscribes oc.(oc_brokers) oc.(oc_group_id) oc.(oc_topics) with
                       | Ok _ => true | _ => false end in
        {| fl_model := f.(fl_model); fl_count := consumer_step f.(fl_count) (RecvError rebuilt); fl_running := true |}
    end.

Definition feed_run (oc : OwnerReadModelConsumer) (rm : ReadModel) (ts : list feed_turn) : feed_loop :=
  fold_left (feed_turn_step oc) ts
    {| fl_model := rm; fl_count := {| consecutive_errors := 0; generation := 0 |}; fl_running := true |}.
End FeedLoop.

(** ** What a failed turn leaves behind *)

Section VenLoopProps.
Context {O : OpenAdr} {C : Chrono} (to_rfc3339 : Z -> string).
#[local] Notation turn := (ven_turn_step to_rfc3339).

(** The VTN refused or did not answer. *)
Definition outage (t : ven_turn) : bool :=
  match t with VenTick p => match p.(pi_listing) with Err _ => true | _ => false end | VenShutdown => false end.

(** Equal but for the count of logged errors. *)
Definition same_work (v v' : ven_loop) : Prop :=
  v.(vl_listener) = v'.(vl_listener) /\ v.(vl_store) = v'.(vl_store) /\ v.(vl_execs) = v'.(vl_execs) /\
  v.(vl_reports) = v'.(vl_reports) /\ v.(vl_end) = v'.(vl_end).

#[export] Instance same_work_equiv : Equivalence same_work.
Proof.
  unfold same_work. split; [by intros v|intros v v' (-> & -> & -> & -> & ->); done|].
  intros v1 v2 v3 (-> & -> & -> & -> & ->). done.
Qed.

Lemma same_work_turn v v' t : same_work v v' -> same_work (turn v t) (turn v' t).
Proof.
  intros (Hl & Hh & Hx & Hr & He). unfold ven_turn_step. rewrite He. destruct (vl_end v') eqn:E; [|by split_and!; congruence..].
  destruct t as [|p]; [by split_and!|]. rewrite Hl, Hh, Hx, Hr. by destruct (poll_once _ _ _ _).
Qed.

Lemma same_work_fold ts : forall v v', same_work v v' -> same_work (fold_left turn ts v) (fold_left turn ts v').
Proof. induction ts as [|t ts IH]; intros v v' H; [done|]. by apply IH, same_work_turn. Qed.

Lemma poll_loads l h p s r :
  poll_once to_rfc3339 l h p = (s, r) -> r <> Panic -> s.(ps_l).(seen_loaded) = true.
Proof.
  intros Hp Hr. pose proof (load_seen_config l h p) as [= Hcfg _ _].
  destruct (poll_once_cases to_rfc3339 l h p s r Hp Hr)
    as [(m & -> & ->)|(es & s1 & cutoff & _ & Hpe & _ & _ & _ & _ & [= Hc _ _] & _)]; [done|].
  pose proof (poll_events_frame to_rfc3339 _ _ _ _ Hpe) as ([= Hld _ _] & _). cbn in Hld. congruence.
Qed.

(** The loop keeps the marks loaded as long as it polls. *)
Definition settled (v : ven_loop) : Prop := v.(vl_end) = PollsOn -> v.(vl_listener).(seen_loaded) = true.

Lemma settled_turn v t : settled v -> settled (turn v t).
Proof.
  unfold settled, ven_turn_step. intros Hs. destruct (vl_end v) eqn:He; [|by rewrite He..].
  destruct t as [|p]; [done|]. destruct (poll_once to_rfc3339 (vl_listener v) (vl_store v) p) as [s r] eqn:Hp. cbn.
  intros Hr. apply (poll_loads _ _ _ _ _ Hp). by destruct r.
Qed.

Lemma outage_turn v t : settled v -> outage t = true -> same_work (turn v t) v.
Proof.
  unfold settled, ven_turn_step. intros Hs Ho. destruct (vl_end v) eqn:He; [|done..].
  destruct t as [|p]; [done|]. unfold outage in Ho. unfold poll_once. destruct (pi_listing p) as [|m|]; [done| |done].
  unfold same_work. cbn. unfold load_seen. rewrite He, Hs, !app_nil_r by done. done.
Qed.

(** C22: polls that fail leave no trace: once the marks are loaded, the listener reaches
    the same marks, store, dispatches and reports, and ends the same way, as if the
    failed polls had never been made. *)
Theorem outage_leaves_no_trace v ts :
  v.(vl_listener).(seen_loaded) = true ->
  same_work (fold_left turn ts v) (fold_left turn (List.filter (fun t => negb (outage t)) ts) v).
Proof.
  intros Hl. assert (settled v) as Hs by (by intros _). clear Hl. revert v Hs.
  induction ts as [|t ts IH]; intros v Hs; [done|]. cbn [fold_left List.filter].
  destruct (outage t) eqn:Ho; cbn [negb].
  - etransitivity; [apply same_work_fold, outage_turn; done|by apply IH].
  - by apply IH, settled_turn.
Qed.

(** What the deployment keeps true of each poll: see [interval_at_most_once]. *)
Fixpoint sound_turns (v : ven_loop) (ts : list ven_turn) : Prop :=
  match ts with
  | [] => True
  | t :: ts =>
      match t with
      | VenShutdown => True
      | VenTick p => (forall es, p.(pi_listing) = Ok es -> Forall (fun e => event_ok e.1) es) /\
                     marks_loaded v.(vl_listener) p v.(vl_execs) /\ retained p v.(vl_execs)
      end /\ sound_turns (turn v t) ts
  end.

Lemma ended_stays ts : forall v, v.(vl_end) <> PollsOn -> fold_left turn ts v = v.
Proof.
  induction ts as [|t ts IH]; intros v Hv; [done|]. cbn [fold_left].
  assert (turn v t = v) as -> by (unfold ven_turn_step; by destruct (vl_end v) eqn:E). by apply IH.
Qed.

(** The whole task, from its start to its shutdown, never executes an interval of one
    event version twice. *)
Lemma task_at_most_once l h answers ts :
  fresh l -> sound_turns (ven_loop_start l h) ts ->
  (ven_run to_rfc3339 l h answers ts).2.(vl_end) <> Panicked ->
  StronglySorted newer (ven_run to_rfc3339 l h answers ts).2.(vl_execs).
Proof.
  intros (Hs & _ & Hl) Hsound Hend. cbn [ven_run snd] in *.
  enough (forall v, once_inv (v.(vl_listener), v.(vl_store), v.(vl_execs)) -> sound_turns v ts ->
            (fold_left turn ts v).(vl_end) <> Panicked ->
            StronglySorted newer (fold_left turn ts v).(vl_execs)) as Hgen.
  { apply Hgen; [|done|done]. split_and!; [constructor|set_solver|done]. }
  clear. induction ts as [|t ts IH]; intros v Hinv Hsound Hend; [by apply Hinv|].
  cbn [fold_left] in *. destruct Hsound as [Ht Hsound]. apply IH; [|done|done].
  unfold ven_turn_step in *. destruct (vl_end v); [|done..]. destruct t as [|p]; [done|].
  destruct (poll_once to_rfc3339 (vl_listener v) (vl_store v) p) as [s r] eqn:Hp.
  destruct Ht as (Hok & Hload & Hret). eapply once_inv_step; [exact Hinv|].
  eapply poll_step; [done..|exact Hp|]. intros ->. apply Hend. by rewrite ended_stays.
Qed.
End VenLoopProps.

Section FeedLoopProps.
Context {F : FeedDecoder} (canon : string -> string) (oc : OwnerReadModelConsumer).
#[local] Notation turn := (feed_turn_step canon oc).

(** The messages received before the shutdown. *)
Fixpoint received (ts : list feed_turn) : list (string * Z * io) :=
  match ts with
  | [] | FeedShutdown :: _ => []
  | FeedMessage (Some p) now o :: ts => (p, now, o) :: received ts
  | _ :: ts => received ts
  end.

Definition apply_received (rm : ReadModel) (l : list (string * Z * io)) : ReadModel :=
  fold_left (fun rm x => dispatch canon rm x.1.1 x.1.2 x.2) l rm.

Lemma stopped_stays ts : forall f, f.(fl_running) = false -> fold_left turn ts f = f.
Proof.
  induction ts as [|t ts IH]; intros f Hf; [done|]. cbn [fold_left].
  assert (turn f t = f) as -> by (unfold feed_turn_step; by rewrite Hf). by apply IH.
Qed.

(** The read model of the feed is the application of the received messages, each
    once and in order: failed receives, rebuilt clients and empty payloads do not
    touch it, and nothing is applied after the shutdown. *)
Theorem feed_applies_received rm ts :
  (feed_run canon oc rm ts).(fl_model) = apply_received rm (received ts).
Proof.
  unfold feed_run. generalize {| consecutive_errors := 0; generation := 0 |} as c. revert rm.
  induction ts as [|t ts IH]; intros rm c; [done|]. cbn [fold_left].
  destruct t as [[p|] now o|cr sb|]; unfold feed_turn_step; cbn; try apply IH. by rewrite stopped_stays.
Qed.

(** A failed receive at which the broker would let a new client connect. *)
Definition rebuilds (t : feed_turn) : bool :=
  match t with
  | FeedError cr sb => match feed_connect cr sb oc.(oc_brokers) oc.(oc_group_id) oc.(oc_topics) with Ok _ => true | _ => false end
  | _ => false
  end.

Lemma errors_climb ts : forall f, f.(fl_running) = true -> forallb rebuilds ts = true ->
  0 <= f.(fl_count).(consecutive_errors) < REBUILD_AFTER_CONSECUTIVE_ERRORS ->
  REBUILD_AFTER_CONSECUTIVE_ERRORS <= f.(fl_count).(consecutive_errors) + Z.of_nat (length ts) ->
  f.(fl_count).(generation) < (fold_left turn ts f).(fl_count).(generation).
Proof.
  assert (Hmono : forall ts f, f.(fl_count).(generation) <= (fold_left turn ts f).(fl_count).(generation)).
  { clear. induction ts as [|t ts IH]; intros f; [cbn; lia|]. cbn [fold_left]. etransitivity; [|apply IH].
    unfold feed_turn_step. destruct (fl_running f); cbn; [|lia].
    destruct t; cbn; [lia| |lia]. repeat case_match; cbn; lia. }
  unfold REBUILD_AFTER_CONSECUTIVE_ERRORS in *.
  induction ts as [|t ts IH]; intros f Hf Hok Hc Hn; cbn [length] in Hn; [lia|].
  cbn [forallb] in Hok. apply andb_true_iff in Hok as [Ht Hok]. cbn [fold_left].
  destruct t as [| cr sb |]; [done| |done]. cbn [rebuilds] in Ht. unfold feed_turn_step at 2. rewrite Hf. cbn [negb].
  destruct (feed_connect _ _ _ _ _) as [[]| |]; [|done..]. cbn [consumer_step].
  unfold REBUILD_AFTER_CONSECUTIVE_ERRORS. destruct (60 <=? _) eqn:E; breflect.
  - eapply Z.lt_le_trans; [|apply Hmono]. cbn. lia.
  - apply (IH {| fl_model := _; fl_count := {| consecutive_errors := _; generation := _ |}; fl_running := true |});
      cbn; [done|done|lia|lia].
Qed.

(** A consumer that the broker has fenced off is replaced: sixty failed receives in a
    row, at any point of a running feed, build a new client when the broker lets
    one connect. *)
Theorem fenced_consumer_rebuilt rm ts es :
  (feed_run canon oc rm ts).(fl_running) = true -> forallb rebuilds es = true ->
  REBUILD_AFTER_CONSECUTIVE_ERRORS <= Z.of_nat (length es) ->
  (feed_run canon oc rm ts).(fl_count).(generation) <
  (feed_run canon oc rm (ts ++ es)).(fl_count).(generation).
Proof.
  intros Hr He Hn. unfold feed_run in *. rewrite fold_left_app. set (f0 := Build_feed_loop _ _ _) in *.
  assert (Hb : 0 <= (fold_left turn ts f0).(fl_count).(consecutive_errors) < REBUILD_AFTER_CONSECUTIVE_ERRORS).
  { enough (forall f, 0 <= f.(fl_count).(consecutive_errors) < REBUILD_AFTER_CONSECUTIVE_ERRORS ->
       0 <= (fold_left turn ts f).(fl_count).(consecutive_errors) < REBUILD_AFTER_CONSECUTIVE_ERRORS) as H
      by (apply H; cbn; unfold REBUILD_AFTER_CONSECUTIVE_ERRORS; lia).
    clear. induction ts as [|t ts IH]; intros f Hf; [done|]. cbn [fold_left]. apply IH.
    unfold feed_turn_step. destruct (negb _); [done|].
    destruct t as [p now o|cr sb|]; cbn [fl_count]; [| |done];
      match goal with |- context [consumer_step ?c ?r] => exact (errors_bounded c [r] Hf) end. }
  apply errors_climb; [done|done|done|lia].
Qed.
End FeedLoopProps.

(** ** Concrete loops *)

Module LoopRun.
Import VenRun.
#[local] Existing Instances adr_ref chrono_text.

Definition vtn_down (m : Z) : poll_io := {|
  pi_connects := false; pi_reads := false; pi_listing := Err "503"; pi_now := mins m; pi_prune _ := up |}.

Definition one_poll_in : ven_loop := ven_turn_step show_Z (ven_loop_start (boot true) ∅) (VenTick (poll_at 10 [schedule])).
Definition with_outages : list ven_turn :=
  [VenTick (vtn_down 100); VenTick (poll_at 130 [schedule]); VenTick (vtn_down 131); VenShutdown].

Lemma outage_leaves_no_trace_witness :
  one_poll_in.(vl_listener).(seen_loaded) = true /\
  length (fold_left (ven_turn_step show_Z) with_outages one_poll_in).(vl_execs) = 2%nat /\
  same_work (fold_left (ven_turn_step show_Z) with_outages one_poll_in)
    (fold_left (ven_turn_step show_Z) [VenTick (poll_at 130 [schedule]); VenShutdown] one_poll_in).
Proof.
  split; [by vm_compute|]. split; [by vm_compute|].
  apply (outage_leaves_no_trace show_Z one_poll_in with_outages). by vm_compute.
Defined.

(** The registration asks first and creates only when asked in vain. *)
Example registers_once : ensure_registered (boot true) (fun _ => false) =
  [GetVenByName "gridtokenx-aggregator-bridge"; CreateVen "gridtokenx-aggregator-bridge"].
Proof. by vm_compute. Qed.

(** Messages whose text is the serial they register to user 1. *)
Definition register_decoder : FeedDecoder := {|
  FeedData := string;
  feed_event p := Some ("MeterRegistered", p);
  meter_data p := Some {| md_serial_number := p; md_user_id := 1%N; md_wallet_address := None |};
  user_data _ := None |}.
#[local] Existing Instance register_decoder.

Definition oc : OwnerReadModelConsumer := {| oc_brokers := "kafka:9092"; oc_group_id := "g"; oc_topics := ["meter_events"] |}.
Definition seeded : ReadModel := {| meter_owner := ∅; user_wallet := ∅ |}.
Definition fenced : list feed_turn := replicate 60 (FeedError (fun _ => true) (fun _ => true)).

Lemma fenced_consumer_rebuilt_witness :
  (feed_run id oc seeded [FeedMessage (Some "m1") 5 IoOk]).(fl_running) = true /\
  is_Some ((feed_run id oc seeded [FeedMessage (Some "m1") 5 IoOk]).(fl_model).(meter_owner) !! "m1") /\
  (feed_run id oc seeded [FeedMessage (Some "m1") 5 IoOk]).(fl_count).(generation) <
  (feed_run id oc seeded ([FeedMessage (Some "m1") 5 IoOk] ++ fenced)).(fl_count).(generation).
Proof.
  split; [by vm_compute|]. split; [vm_compute; by eexists|].
  apply (fenced_consumer_rebuilt id oc seeded [FeedMessage (Some "m1") 5 IoOk] fenced); by vm_compute.
Defined.
End LoopRun.
