(* ===== verification/Lifecycle.v ===== *)
(** * Lifetime of the ingester and of the process (zone_ingester.rs: run,
      run_redelivery_loop; batcher.rs: BatchHandle; main.rs: shutdown)

    The zone workers, the redelivery loop and the monitor of [run] as a step relation
    driven by the cancellation token, next to the process itself, which leaves when the
    HTTP server has drained.  What a worker does with the entries it reads is in
    Delivery; here only whether it is there to read them. *)

From Stdlib Require Import ZArith Lia Ascii String.
From stdpp Require Import base gmap strings list numbers relations.
From S2P Require Import Prelude RustStd External Models Aggregator Stores Settlement GridStatus Router ZoneIngester Delivery Batcher.

Open Scope Z_scope.
Open Scope bridge_scope.

(** ** The batch handle *)

Section Handle.
Context {MeterReading : Type}.

(** The channel to the worker: messages not yet received, and whether the worker
    still holds the receiving end. *)
Record channel : Type := { ch_queue : list (@BatchMessage MeterReading); ch_open : bool }.

(** [tx.send(m).await], once there is room. *)
Definition handle_send (c : channel) (m : BatchMessage) : channel * outcome string unit :=
  if c.(ch_open) then ({| ch_queue := c.(ch_queue) ++ [m]; ch_open := true |}, Ok ())
  else (c, Err "Batch worker channel closed"%string).

Definition handle_add (c : channel) (req : MeterReading) (stream id : string) : channel * outcome string unit :=
  handle_send c (Add {| request := req; stream_name := stream; entry_id := id |}).

Definition handle_flush (c : channel) : channel * outcome string unit := handle_send c Flush.

(** The send of [shutdown]; the call returns when the worker has answered or is gone. *)
Definition handle_shutdown (c : channel) : channel * outcome string unit := handle_send c Shutdown.

(** The worker receives what is queued, in order, with the environments of its
    flushes. *)
Definition worker_receives (w : BatchWorker) (c : channel) (envs : list flush_env) : BatchWorker :=
  run w (zip (Message <$> c.(ch_queue)) envs).
End Handle.

(** ** The ingester *)

Inductive worker : Type :=
| Connecting            (* its own Redis connection, five attempts *)
| Reading
| Stopped               (* cancelled *)
| GaveUp.               (* the connection could not be made *)

Inductive redelivery : Type :=
| BurnIn
| Looping (rounds : nat)
| Ended.

(** Where [run] is: joining its tasks, waiting for the final flush, or returned. *)
Inductive monitor : Type := Joining | Flushing | Returned.

Inductive process : Type := Serving | Draining | Gone.

Record life : Type := {
  lf_token : bool;
  lf_workers : list worker;
  lf_redelivery : redelivery;
  lf_monitor : monitor;
  lf_process : process
}.

Definition ended (wk : worker) : bool := match wk with Stopped | GaveUp => true | _ => false end.

(** [run], after the consumer groups are set up: one worker for each stream. *)
Definition life_start (streams : list string) : life := {|
  lf_token := false; lf_workers := (fun _ => Connecting) <$> streams; lf_redelivery := BurnIn;
  lf_monitor := Joining; lf_process := Serving |}.

Definition set_worker (l : life) (i : nat) (wk : worker) : life := {|
  lf_token := l.(lf_token); lf_workers := <[i := wk]> l.(lf_workers); lf_redelivery := l.(lf_redelivery);
  lf_monitor := l.(lf_monitor); lf_process := l.(lf_process) |}.

Definition set_redelivery (l : life) (r : redelivery) : life := {|
  lf_token := l.(lf_token); lf_workers := l.(lf_workers); lf_redelivery := r;
  lf_monitor := l.(lf_monitor); lf_process := l.(lf_process) |}.

Definition set_monitor (l : life) (m : monitor) : life := {|
  lf_token := l.(lf_token); lf_workers := l.(lf_workers); lf_redelivery := l.(lf_redelivery);
  lf_monitor := m; lf_process := l.(lf_process) |}.

Definition set_process (l : life) (token : bool) (p : process) : life := {|
  lf_token := token; lf_workers := l.(lf_workers); lf_redelivery := l.(lf_redelivery);
  lf_monitor := l.(lf_monitor); lf_process := p |}.

(** A step of the ingester's tasks. *)
Inductive ingester_step : life -> life -> Prop :=
| is_connect l i answers :
    l.(lf_workers) !! i = Some Connecting ->
    ingester_step l (set_worker l i (match (create_connection_manager answers).1 with Ok _ => Reading | _ => GaveUp end))
| is_cancelled l i wk :                (* select!: the token wins over the loop *)
    l.(lf_workers) !! i = Some wk -> ended wk = false -> l.(lf_token) = true ->
    ingester_step l (set_worker l i Stopped)
| is_burned_in l :                     (* 30 s *)
    l.(lf_redelivery) = BurnIn -> ingester_step l (set_redelivery l (Looping 0))
| is_round l n :                       (* every 60 s, all streams in turn *)
    l.(lf_redelivery) = Looping n -> ingester_step l (set_redelivery l (Looping (S n)))
| is_redelivery_ends l :
    l.(lf_redelivery) <> Ended -> l.(lf_token) = true -> ingester_step l (set_redelivery l Ended)
| is_joined l :                        (* join_next returns None *)
    l.(lf_monitor) = Joining -> forallb ended l.(lf_workers) = true -> l.(lf_redelivery) = Ended ->
    ingester_step l (set_monitor l Flushing)
| is_flushed l :                       (* the batch worker answers, or is gone *)
    l.(lf_monitor) = Flushing -> ingester_step l (set_monitor l Returned).

(** The tasks run only while the process does: [main] returns when the server has
    drained, without waiting for them, and the runtime drops them. *)
Inductive life_step : life -> life -> Prop :=
| ls_signal l : l.(lf_process) = Serving -> life_step l (set_process l true Draining)
| ls_drained l : l.(lf_process) = Draining -> life_step l (set_process l l.(lf_token) Gone)
| ls_task l l' : l.(lf_process) <> Gone -> ingester_step l l' -> life_step l l'.

(** ** Redelivery over all streams *)

Section Redelivery.
Context {J : SerdeJson} {K : Crypto} {SS : StreamSerde} {FT : F64Text} {C : Chrono} {D : RustDecimal} {U : UuidText}.

(** All zones of a bridge: the aggregator, the writer channel and the frequency window
    are shared; each stream has its own pending list. *)
Record zones : Type := { zn_shared : zone_state; zn_pels : list (list pending) }.

Definition with_pel (s : zone_state) (pel : list pending) : zone_state :=
  {| zs_agg := s.(zs_agg); zs_channel := s.(zs_channel); zs_freq := s.(zs_freq); zs_late := s.(zs_late); zs_pel := pel |}.

(** What a stream's turn meets: its environment and the idle times, or an error of
    [XPENDING] or [XCLAIM], which is logged. *)
Local Abbreviation turn_answer := (outcome redis_error (entry_env * (string -> Z))).

Definition redelivery_turn (cfg : zone_config) (s : zone_state) (a : turn_answer) : zone_state :=
  match a with
  | Ok (env, idle) => reclaim_stale_messages cfg env idle s
  | _ => s
  end.

Definition redelivery_stream (cfg : zone_config) (z : zones) (ia : nat * turn_answer) : zones :=
  match z.(zn_pels) !! ia.1 with
  | Some pel =>
      let s := redelivery_turn cfg (with_pel z.(zn_shared) pel) ia.2 in
      {| zn_shared := s; zn_pels := <[ia.1 := s.(zs_pel)]> z.(zn_pels) |}
  | None => z
  end.

(** One tick: every stream in turn. *)
Definition redelivery_round (cfg : zone_config) (answers : list turn_answer) (z : zones) : zones :=
  fold_left (redelivery_stream cfg) (imap pair answers) z.
End Redelivery.

(** ** Properties of the handle *)

Section HandleProps.
Context {MeterReading : Type}.

Lemma run_stopped (w : @BatchWorker MeterReading) ks : w.(bw_running) = false -> run w ks = w.
Proof.
  intros H. unfold run. induction ks as [|[k env] ks IH]; [done|]. cbn [fold_left fst snd].
  replace (run_turn w k env) with w; [done|]. unfold run_turn. by rewrite H.
Qed.

Lemma run_turn_running (w : @BatchWorker MeterReading) m env :
  m <> Shutdown -> w.(bw_running) = true -> (run_turn w (Message m) env).(bw_running) = true.
Proof.
  intros Hm Hr. unfold run_turn. rewrite Hr. cbn [negb]. destruct m as [e| |]; [| |done].
  - destruct (_ <=? _)%nat; [|done]. unfold flush. destruct (batch _); [done|]. by destruct (process_success _ _ _ _).
  - unfold flush. destruct (batch w); [done|]. by destruct (process_success _ _ _ _).
Qed.

(** [shutdown] leaves nothing behind: when the worker has answered it, its batch is
    empty and it has stopped, whatever was queued before. *)
Lemma shutdown_flushes (w : BatchWorker) (c c' : channel (MeterReading := MeterReading)) envs :
  w.(bw_running) = true -> handle_shutdown c = (c', Ok ()) -> length envs = length c'.(ch_queue) ->
  (worker_receives w c' envs).(batch) = [] /\ (worker_receives w c' envs).(bw_running) = false.
Proof.
  unfold handle_shutdown, handle_send, worker_receives. intros Hr Hs. destruct (ch_open c); [|done].
  injection Hs as <-. cbn [ch_queue]. revert w envs Hr. generalize (ch_queue c). clear c.
  intros q. induction q as [|m q IH]; intros w envs Hr Hl; destruct envs as [|env envs]; try done.
  - cbn in Hl. destruct envs; [|done]. unfold run, run_turn. cbn. rewrite Hr. cbn [negb].
    unfold flush. destruct (batch w) eqn:Eb; [by cbn|]. by destruct (process_success _ _ _ _).
  - cbn [app fmap list_fmap zip zip_with] in *. cbn [length] in Hl. injection Hl as Hl.
    change (run w (?k :: ?ks)) with (run (run_turn w k.1 k.2) ks).
    destruct (bw_running (run_turn w (Message m) env)) eqn:E; [by apply IH|].
    destruct m as [e| |]; [by rewrite run_turn_running in E..|]. cbn [run fold_left fst snd].
    pose proof (run_stopped _ (zip (Message <$> q ++ [Shutdown]) envs) E) as Hst. unfold run in Hst.
    unfold run. cbn [fold_left fst snd]. rewrite Hst. unfold run_turn in E |- *. rewrite Hr. cbn [negb].
    unfold flush. destruct (batch w) eqn:Eb; [by cbn|]. by destruct (process_success _ _ _ _).
Qed.
End HandleProps.

(** ** Properties of the lifetime *)

(** The final flush comes after the readers: [run] leaves its join loop only when the
    bridge has been told to stop and every task has ended. *)
Definition quiet (l : life) : Prop :=
  l.(lf_monitor) <> Joining ->
  l.(lf_token) = true /\ forallb ended l.(lf_workers) = true /\ l.(lf_redelivery) = Ended.

Definition token_inv (l : life) : Prop := l.(lf_process) <> Serving -> l.(lf_token) = true.

Definition redelivery_inv (l : life) : Prop := l.(lf_redelivery) = Ended -> l.(lf_token) = true.

Lemma ended_no_step (ws : list worker) i wk : forallb ended ws = true -> ws !! i = Some wk -> ended wk = true.
Proof. rewrite forallb_forall. intros H Hi. apply H. apply list_elem_of_In. by eapply list_elem_of_lookup_2. Qed.

Lemma ingester_step_inv l l' :
  ingester_step l l' -> quiet l -> redelivery_inv l -> quiet l' /\ redelivery_inv l' /\
  l'.(lf_token) = l.(lf_token) /\ l'.(lf_process) = l.(lf_process).
Proof.
  intros H Hq Hri. split; [|split].
  - intros Hm. destruct H as [l i a Hi|l i wk Hi He Ht|l Hr|l n Hr|l Hr Ht|l Hm' Hw Hr|l Hm'];
      cbn [set_worker set_redelivery set_monitor lf_token lf_workers lf_redelivery lf_monitor] in *;
      try (destruct (Hq Hm) as (Htok & Hall & Hend)); try congruence.
    + by pose proof (ended_no_step _ _ _ Hall Hi).
    + pose proof (ended_no_step _ _ _ Hall Hi). congruence.
    + auto.
    + apply Hq. by rewrite Hm'.
  - destruct H; unfold redelivery_inv in *;
      cbn [set_worker set_redelivery set_monitor lf_token lf_redelivery] in *; try done; auto.
  - by destruct H.
Qed.

Lemma life_step_inv l l' :
  life_step l l' -> quiet l /\ token_inv l /\ redelivery_inv l -> quiet l' /\ token_inv l' /\ redelivery_inv l'.
Proof.
  intros H (Hq & Ht & Hr). destruct H as [l Hp|l Hp|l l' Hp Hs].
  - split; [|done]. intros Hm. destruct (Hq Hm) as (_ & ? & ?). done.
  - split; [done|]. split; [|done]. intros _. apply Ht. by rewrite Hp.
  - destruct (ingester_step_inv l l' Hs Hq Hr) as (? & ? & Htok & Hpr). split; [done|]. split; [|done].
    intros Hp'. rewrite Htok. apply Ht. by rewrite <- Hpr.
Qed.

Lemma life_inv streams l :
  steps life_step (life_start streams) l -> quiet l /\ token_inv l /\ redelivery_inv l.
Proof.
  apply (steps_invariant _ (fun l => quiet l /\ token_inv l /\ redelivery_inv l)).
  - intros a b Ha Hab. by eapply life_step_inv.
  - unfold quiet, token_inv, redelivery_inv. cbn. by repeat split.
Qed.

(** Work left until [run] returns. *)
Definition worker_left (wk : worker) : nat := match wk with Connecting => 2 | Reading => 1 | _ => 0 end.
Definition workers_left (ws : list worker) : nat := foldr (fun wk n => worker_left wk + n)%nat 0%nat ws.
Definition redelivery_left (r : redelivery) : nat := match r with BurnIn => 2 | Looping _ => 1 | Ended => 0 end.
Definition monitor_left (m : monitor) : nat := match m with Joining => 2 | Flushing => 1 | Returned => 0 end.

Definition left (l : life) : nat :=
  (workers_left l.(lf_workers) + redelivery_left l.(lf_redelivery) + monitor_left l.(lf_monitor))%nat.

Lemma sum_insert (ws : list worker) i wk wk' :
  ws !! i = Some wk ->
  (workers_left (<[i := wk']> ws) + worker_left wk = workers_left ws + worker_left wk')%nat.
Proof.
  revert i. induction ws as [|v ws IH]; intros [|i] Hi; try done.
  - injection Hi as ->. cbn. lia.
  - specialize (IH i Hi). change (<[S i := wk']> (v :: ws)) with (v :: <[i := wk']> ws). unfold workers_left in *. cbn [foldr]. lia.
Qed.

Lemma workers_left_bound ws : (workers_left ws <= 2 * length ws)%nat.
Proof.
  unfold workers_left. induction ws as [|wk ws IH]; [done|]. cbn [foldr length]. destruct wk; cbn [worker_left]; lia.
Qed.

Definition round_of (l l' : life) : Prop :=
  exists n, l.(lf_redelivery) = Looping n /\ l' = set_redelivery l (Looping (S n)).

Lemma left_decreases l l' : ingester_step l l' -> (left l' < left l)%nat \/ round_of l l'.
Proof.
  unfold left. destruct 1 as [l i a Hi|l i wk Hi He Ht|l Hr|l n Hr|l Hr Ht|l Hm Hw Hr|l Hm];
    cbn [set_worker set_redelivery set_monitor lf_token lf_workers lf_redelivery lf_monitor lf_process].
  - left. pose proof (sum_insert _ _ _ (match (create_connection_manager a).1 with Ok _ => Reading | _ => GaveUp end) Hi) as H.
    destruct (create_connection_manager a).1; cbn in H |- *; lia.
  - left. pose proof (sum_insert _ _ _ Stopped Hi) as H. destruct wk; cbn in H |- *; try done; lia.
  - left. rewrite Hr. cbn. lia.
  - right. by exists n.
  - left. destruct (lf_redelivery l); cbn; [lia..|done].
  - left. rewrite Hm. cbn. lia.
  - left. rewrite Hm. cbn. lia.
Qed.

Lemma find_running (ws : list worker) :
  forallb ended ws = false -> exists i wk, ws !! i = Some wk /\ ended wk = false.
Proof.
  induction ws as [|v ws IH]; cbn; [done|]. destruct (ended v) eqn:E; cbn.
  - intros H. destruct (IH H) as (i & wk & ? & ?). by exists (S i), wk.
  - intros _. by exists 0%nat, v.
Qed.


(** A worker whose five connection attempts fail has left for good: nothing starts it
    again, so its zone is read by nobody until the process restarts. *)
Lemma gave_up_is_final l l' i :
  steps life_step l l' -> l.(lf_workers) !! i = Some GaveUp -> l'.(lf_workers) !! i = Some GaveUp.
Proof.
  intros Hs Hi. eapply (steps_invariant _ (fun l => l.(lf_workers) !! i = Some GaveUp)); [|exact Hi|exact Hs].
  clear. intros a b Ha Hab. destruct Hab as [l Hp|l Hp|l l' Hp Hst]; [done..|].
  destruct Hst as [l j an Hj|l j wk Hj He Ht| | | | |]; cbn [set_worker set_redelivery set_monitor lf_workers]; try done.
  - rewrite list_lookup_insert_ne; [done|]. intros ->. congruence.
  - rewrite list_lookup_insert_ne; [done|]. intros ->. simplify_eq.
Qed.

(** [main] announces that it waits for the background tasks and does not: the process
    can be gone with every reader running and the final flush not even requested. *)
Lemma process_leaves_early stream :
  exists l, steps life_step (life_start [stream]) l /\ l.(lf_process) = Gone /\
    l.(lf_monitor) = Joining /\ l.(lf_workers) = [Reading] /\ l.(lf_redelivery) = BurnIn.
Proof.
  pose (l1 := set_worker (life_start [stream]) 0 Reading). pose (l2 := set_process l1 true Draining).
  exists (set_process l2 true Gone). split; [|done].
  apply (steps_next _ _ l2); [|exact (ls_drained l2 eq_refl)].
  apply (steps_next _ _ l1); [|exact (ls_signal l1 eq_refl)].
  apply (steps_next _ _ (life_start [stream])); [apply steps_refl|]. apply ls_task; [done|].
  exact (is_connect (life_start [stream]) 0 (fun _ => Connected) eq_refl).
Qed.


Section RedeliveryProps.
Context {J : SerdeJson} {K : Crypto} {SS : StreamSerde} {FT : F64Text} {C : Chrono} {D : RustDecimal} {U : UuidText}.
Context (cfg : zone_config).

Lemma redelivery_stream_other z ia j :
  j <> ia.1 -> (redelivery_stream cfg z ia).(zn_pels) !! j = z.(zn_pels) !! j.
Proof.
  intros Hj. unfold redelivery_stream. destruct (zn_pels z !! ia.1); [|done]. cbn. by rewrite list_lookup_insert_ne.
Qed.

(** A stream whose turn fails keeps its pending entries, and the streams after it still
    have their turn: what becomes of a stream's pending list in a round is what its own
    turn does with it. *)
Lemma redelivery_isolated answers z i pel a :
  z.(zn_pels) !! i = Some pel -> answers !! i = Some a ->
  exists s, (redelivery_round cfg answers z).(zn_pels) !! i = Some (redelivery_turn cfg (with_pel s pel) a).(zs_pel).
Proof.
  unfold redelivery_round. intros Hp Ha.
  enough (forall off z k, z.(zn_pels) !! (off + k)%nat = Some pel -> answers !! k = Some a ->
    exists s, (fold_left (redelivery_stream cfg) (imap (fun j x => ((off + j)%nat, x)) answers) z).(zn_pels) !! (off + k)%nat
      = Some (redelivery_turn cfg (with_pel s pel) a).(zs_pel)) as H.
  { specialize (H 0%nat z i Hp Ha). exact H. }
  clear. induction answers as [|b answers IH]; intros off z k Hp Ha; [done|]. cbn [imap fold_left].
  assert (forall l z, Forall (fun ia : nat * _ => (off + k < ia.1)%nat) l ->
            (fold_left (redelivery_stream cfg) l z).(zn_pels) !! (off + k)%nat = z.(zn_pels) !! (off + k)%nat) as Hlater.
  { clear. induction l as [|ia l IHl]; intros z Hl; [done|]. apply Forall_cons_1 in Hl as [H1 Hl]. cbn [fold_left].
    rewrite IHl by done. apply redelivery_stream_other. lia. }
  destruct k as [|k].
  - injection Ha as ->. exists z.(zn_shared). rewrite Hlater.
    + unfold redelivery_stream. cbn [fst snd]. rewrite Hp. cbn. rewrite list_lookup_insert_eq; [done|].
      by eapply lookup_lt_Some.
    + rewrite Forall_lookup. intros j [n x] Hj. apply list_lookup_imap_Some in Hj as (y & _ & [= -> ->]). cbn. lia.
  - destruct (IH (S off) (redelivery_stream cfg z ((off + 0)%nat, b)) k) as [s Hs].
    + rewrite redelivery_stream_other by (cbn; lia). by replace (S off + k)%nat with (off + S k)%nat by lia.
    + done.
    + exists s. replace (off + S k)%nat with (S off + k)%nat by lia. rewrite <- Hs.
      erewrite imap_ext; [reflexivity|]. intros j x _. cbn. f_equal. lia.
Qed.
End RedeliveryProps.
