(* ===== verification/KeyRegistries.v ===== *)
(** * The two key registries (aggregator-persistence/src/infra/crypto.rs:
      SignatureVerifier and DeviceKeyRegistry)

    The registries as the bridge builds them: their Redis URL and connection, the
    lifetimes they take from the environment, the Redis keys they read, their caches
    and, for the AES keys, the Vault client and the cache of unwrapped versions.  The
    shared machinery is in DeviceKeys. *)

From Stdlib Require Import ZArith Lia Ascii String SpecFloat.
From stdpp Require Import base gmap strings list numbers.
From S2P Require Import Prelude RustStd External DeviceKeys StreamKey Dispatch Metrics.

Open Scope string_scope.
Open Scope list_scope.
Open Scope Z_scope.
Open Scope bridge_scope.

(** ** Redis keys *)

Definition device_key (id suffix : string) : string := "gridtokenx:devices:" +:+ (id +:+ suffix).

Definition pubkey_redis_key (id : string) : string := device_key id ":pubkey".
Definition enckey_redis_key (id : string) : string := device_key id ":enckey".
Definition versioned_redis_key (id : string) (kid : Z) : string := device_key id (":enckey:v" +:+ show_Z kid).

(** ** Lifetimes *)

Definition pubkey_positive_ttl (env : Env) : Z := ttl_env (env "PUBKEY_CACHE_TTL_SECS") PUBKEY_POSITIVE_TTL_SECS.
Definition pubkey_negative_ttl (env : Env) : Z := ttl_env (env "PUBKEY_NEG_CACHE_TTL_SECS") PUBKEY_NEGATIVE_TTL_SECS.
Definition enckey_positive_ttl (env : Env) : Z := ttl_env (env "DEVICE_ENCKEY_CACHE_TTL_SECS") ENCKEY_POSITIVE_TTL_SECS.
Definition enckey_negative_ttl (env : Env) : Z := ttl_env (env "DEVICE_ENCKEY_NEG_CACHE_TTL_SECS") ENCKEY_NEGATIVE_TTL_SECS.

Definition cache_new {V : Type} (now : Z) : PrunedCache V := {| pc_map := ∅; pc_last_pruned := now |}.

(** The Redis of one call: what it does for a command on a key, and for one on a list
    of keys. *)
Record key_store : Type := {
  ks_get : string -> redis_call (option string);
  ks_mget : list string -> redis_call (list (option string))
}.

(** ** The verifier *)

Section Verifier.
Context {K : Crypto} (env : Env).

Record SignatureVerifier : Type := { sv_redis_url : option string; sv_conn_up : bool; sv_pubkey_cache : PrunedCache VerifyingKey }.

Definition verifier_new (url : option string) (now : Z) : SignatureVerifier :=
  {| sv_redis_url := url; sv_conn_up := false; sv_pubkey_cache := cache_new now |}.

Definition verifier_from_manager (up : bool) (now : Z) : SignatureVerifier :=
  {| sv_redis_url := None; sv_conn_up := up; sv_pubkey_cache := cache_new now |}.

Definition verifier_registry (v : SignatureVerifier) : registry VerifyingKey :=
  {| rg_link := {| lk_url := is_someb v.(sv_redis_url); lk_conn := v.(sv_conn_up) |}; rg_cache := v.(sv_pubkey_cache) |}.

Definition verifier_of (v : SignatureVerifier) (g : registry VerifyingKey) : SignatureVerifier :=
  {| sv_redis_url := v.(sv_redis_url); sv_conn_up := g.(rg_link).(lk_conn); sv_pubkey_cache := g.(rg_cache) |}.

Definition pubkey_cache_get (v : SignatureVerifier) (id : string) (now : Z) : SignatureVerifier * option (option VerifyingKey) * list emission :=
  let '(c, out) := cache_get v.(sv_pubkey_cache) id now in
  ({| sv_redis_url := v.(sv_redis_url); sv_conn_up := v.(sv_conn_up); sv_pubkey_cache := c |}, out,
   record_cache_lookup "pubkey" (is_someb out)).

Definition resolve_pubkey (v : SignatureVerifier) (id : string) (clk : clock) (store : key_store)
    : SignatureVerifier * outcome key_error (option VerifyingKey) :=
  let '(g, res) := resolve_key parse_ed25519_pubkey (pubkey_positive_ttl env) (pubkey_negative_ttl env)
                     (verifier_registry v) id clk (store.(ks_get) (pubkey_redis_key id)) in
  (verifier_of v g, res).

Definition verifier_verify (v : SignatureVerifier) (id : string) (payload : list Z) (signature : string) (clk : clock) (store : key_store)
    : SignatureVerifier * outcome key_error bool :=
  let '(g, res) := verify_telemetry_signature (pubkey_positive_ttl env) (pubkey_negative_ttl env)
                     (verifier_registry v) id payload signature clk (store.(ks_get) (pubkey_redis_key id)) in
  (verifier_of v g, res).
End Verifier.

(** ** The AES keys *)

Section Registry.
Context {K : Crypto} (env : Env).

Record DeviceKeyRegistry : Type := {
  dk_redis_url : option string;
  dk_conn_up : bool;
  dk_vault : option VaultTransitClient;
  dk_versioned : versioned_cache;
  dk_key_cache : PrunedCache (list Z)
}.

Definition dk_new (url : option string) (now : Z) : DeviceKeyRegistry :=
  {| dk_redis_url := url; dk_conn_up := false; dk_vault := None; dk_versioned := ∅; dk_key_cache := cache_new now |}.

Definition dk_from_manager (up : bool) (now : Z) : DeviceKeyRegistry :=
  {| dk_redis_url := None; dk_conn_up := up; dk_vault := None; dk_versioned := ∅; dk_key_cache := cache_new now |}.

Definition dk_with_vault (r : DeviceKeyRegistry) (v : option VaultTransitClient) : DeviceKeyRegistry :=
  {| dk_redis_url := r.(dk_redis_url); dk_conn_up := r.(dk_conn_up); dk_vault := v; dk_versioned := r.(dk_versioned); dk_key_cache := r.(dk_key_cache) |}.

Definition dk_as_link (r : DeviceKeyRegistry) : link := {| lk_url := is_someb r.(dk_redis_url); lk_conn := r.(dk_conn_up) |}.

Definition dk_with_link (r : DeviceKeyRegistry) (l : link) : DeviceKeyRegistry :=
  {| dk_redis_url := r.(dk_redis_url); dk_conn_up := l.(lk_conn); dk_vault := r.(dk_vault); dk_versioned := r.(dk_versioned);
     dk_key_cache := r.(dk_key_cache) |}.

Definition dk_set_cache (r : DeviceKeyRegistry) (c : PrunedCache (list Z)) : DeviceKeyRegistry :=
  {| dk_redis_url := r.(dk_redis_url); dk_conn_up := r.(dk_conn_up); dk_vault := r.(dk_vault); dk_versioned := r.(dk_versioned); dk_key_cache := c |}.

Definition dk_conn (r : DeviceKeyRegistry) (connected : bool) : DeviceKeyRegistry * outcome key_error unit :=
  let '(l, res) := DeviceKeys.conn (dk_as_link r) connected in (dk_with_link r l, res).

Definition dk_invalidate (r : DeviceKeyRegistry) : DeviceKeyRegistry := dk_with_link r (DeviceKeys.invalidate (dk_as_link r)).

Definition dk_get_with_retry (r : DeviceKeyRegistry) (key : string) (store : key_store) : DeviceKeyRegistry * outcome key_error (option string) :=
  let '(l, res) := with_retry (dk_as_link r) (store.(ks_get) key) in (dk_with_link r l, res).

Definition dk_mget_with_retry (r : DeviceKeyRegistry) (keys : list string) (store : key_store)
    : DeviceKeyRegistry * outcome key_error (list (option string)) :=
  let '(l, res) := with_retry (dk_as_link r) (store.(ks_mget) keys) in (dk_with_link r l, res).

Definition key_cache_get (r : DeviceKeyRegistry) (id : string) (now : Z) : DeviceKeyRegistry * option (option (list Z)) * list emission :=
  let '(c, out) := cache_get r.(dk_key_cache) id now in
  (dk_set_cache r c, out, record_cache_lookup "enckey" (is_someb out)).

Definition key_cache_put (r : DeviceKeyRegistry) (id : string) (key : option (list Z)) (now now' : Z) : DeviceKeyRegistry :=
  dk_set_cache r (cache_put (enckey_positive_ttl env) (enckey_negative_ttl env) r.(dk_key_cache) id key now now').

(** The verdict is cached only after a round trip that returned and parsed. *)
Definition dk_get_device_aes_key (r : DeviceKeyRegistry) (id : string) (clk : clock) (store : key_store)
    : DeviceKeyRegistry * outcome key_error (option (list Z)) :=
  match key_cache_get r id clk.(ck_get) with
  | (r, Some verdict, _) => (r, Ok verdict)
  | (r, None, _) =>
      let '(r, res) := dk_get_with_retry r (enckey_redis_key id) store in
      match (let? raw := res in
             match raw with
             | Some hex_str => let? k := decode_aes_key_hex hex_str in Ok (Some k)
             | None => Ok None
             end) with
      | Ok resolved => (key_cache_put r id resolved clk.(ck_put) clk.(ck_prune), Ok resolved)
      | Err e => (r, Err e)
      | Panic => (r, Panic)
      end
  end.

(** [unwrap]: the Transit call of a client. *)
Definition dk_get_device_aes_key_versioned (unwrap : VaultTransitClient -> string -> option (list Z)) (r : DeviceKeyRegistry) (id : string)
    (kid : Z) (store : key_store) : DeviceKeyRegistry * outcome key_error (option (list Z)) :=
  let '(l, vc, res) :=
    DeviceKeys.get_device_aes_key_versioned (unwrap <$> r.(dk_vault)) (dk_as_link r) r.(dk_versioned) id kid
      (store.(ks_get) (versioned_redis_key id kid)) in
  ({| dk_redis_url := r.(dk_redis_url); dk_conn_up := l.(lk_conn); dk_vault := r.(dk_vault); dk_versioned := vc; dk_key_cache := r.(dk_key_cache) |},
   res).
End Registry.

(** ** Properties *)

(** *** One machinery *)

Section Refines.
Context {K : Crypto} (env : Env).

Definition aes_registry (r : DeviceKeyRegistry) : registry (list Z) :=
  {| rg_link := dk_as_link r; rg_cache := r.(dk_key_cache) |}.

Lemma as_link_with_link r l :
  lk_url l = lk_url (dk_as_link r) -> dk_as_link (dk_with_link r l) = l.
Proof. destruct l. cbn. by intros ->. Qed.

Lemma conn_url l b : lk_url (DeviceKeys.conn l b).1 = lk_url l.
Proof. unfold DeviceKeys.conn. destruct (lk_conn l); [done|]. destruct (lk_url l) eqn:E; cbn; [|by rewrite E]. by destruct b. Qed.

Lemma invalidate_url l : lk_url (DeviceKeys.invalidate l) = lk_url l.
Proof. unfold DeviceKeys.invalidate. by destruct (lk_url l) eqn:E. Qed.

Lemma with_retry_url {A} l (c : redis_call A) : lk_url (with_retry l c).1 = lk_url l.
Proof.
  unfold with_retry. pose proof (conn_url l (rc_connect1 c)) as H1.
  destruct (DeviceKeys.conn l (rc_connect1 c)) as [l1 [[]| |]]; [|done..]. cbn in H1.
  destruct (rc_answer1 c); [done|]. pose proof (conn_url (DeviceKeys.invalidate l1) (rc_connect2 c)) as H2.
  rewrite invalidate_url in H2. destruct (DeviceKeys.conn (DeviceKeys.invalidate l1) (rc_connect2 c)) as [l2 [[]| |]];
    cbn in *; congruence.
Qed.

(** The registry the bridge builds behaves, lookup by lookup,
    as the shared cache-then-Redis resolution with its own parser, lifetimes and Redis
    key: what is proved of that resolution holds of it. *)
Theorem aes_lookup_refines r id clk store :
  let '(r', res) := dk_get_device_aes_key env r id clk store in
  resolve_key decode_aes_key_hex (enckey_positive_ttl env) (enckey_negative_ttl env) (aes_registry r) id clk
    (store.(ks_get) (enckey_redis_key id)) = (aes_registry r', res) /\
  r'.(dk_versioned) = r.(dk_versioned) /\
  r'.(dk_vault) = r.(dk_vault).
Proof.
  unfold dk_get_device_aes_key, key_cache_get, resolve_key, aes_registry.
  cbn [rg_cache rg_link]. destruct (cache_get _ id _) as [c [v|]]; [done|].
  unfold dk_get_with_retry.
  change (dk_as_link (dk_set_cache r c)) with (dk_as_link r).
  pose proof (with_retry_url (dk_as_link r) (ks_get store (enckey_redis_key id))) as Hu.
  destruct (with_retry _ _) as [l res]. cbn [fst] in Hu.
  destruct res as [[s|]|e|]; cbn [obind]; [destruct (decode_aes_key_hex s); cbn [obind]|..];
    (split; [|done]); unfold key_cache_put, dk_set_cache, dk_with_link,
      dk_as_link in *; cbn in *; destruct l; cbn in *; by subst.
Qed.

(** An unwrapped version is kept for the life of the process: a version that has been
    removed from Redis keeps decrypting, although the registry is documented to answer
    absent for it. *)
Lemma pruned_version_still_served unwrap r id kid k store :
  r.(dk_versioned) !! (id, kid) = Some k ->
  (dk_get_device_aes_key_versioned unwrap r id kid store).2 = Ok (Some k).
Proof.
  intros H. unfold dk_get_device_aes_key_versioned, DeviceKeys.get_device_aes_key_versioned. by rewrite H.
Qed.

(** Nothing ever leaves that cache. *)
Lemma versions_never_leave unwrap r id kid store :
  r.(dk_versioned) ⊆
  (dk_get_device_aes_key_versioned unwrap r id kid store).1.(dk_versioned).
Proof.
  unfold dk_get_device_aes_key_versioned, DeviceKeys.get_device_aes_key_versioned.
  destruct (dk_versioned r !! (id, kid)) eqn:E; [done|].
  destruct (with_retry _ _) as [l [[w|]| |]]; try done. destruct (unwrap <$> _) as [u|]; [|done].
  destruct (u (trim w)); [|done]. cbn. by apply insert_subseteq.
Qed.
End Refines.

(** *** Which Redis keys a device can name *)

Lemma append_list a b : String.list_ascii_of_string (a +:+ b) =
  (String.list_ascii_of_string a ++ String.list_ascii_of_string b)%list.
Proof. induction a as [|c a IH]; [done|]. change (String c a +:+ b) with (String c (a +:+ b)). cbn. by f_equal. Qed.

Lemma list_ascii_inj a b : String.list_ascii_of_string a = String.list_ascii_of_string b -> a = b.
Proof.
  intros H. rewrite <- (String.string_of_list_ascii_of_string a), <- (String.string_of_list_ascii_of_string b). by rewrite H.
Qed.

Lemma length_list_ascii s : length (String.list_ascii_of_string s) = String.length s.
Proof. induction s as [|c s IH]; [done|]. cbn. by f_equal. Qed.

(** Equal keys end alike. *)
Lemma device_key_suffix a s b u :
  device_key a s = device_key b u ->
  (String.list_ascii_of_string a ++ String.list_ascii_of_string s =
   String.list_ascii_of_string b ++ String.list_ascii_of_string u)%list.
Proof.
  unfold device_key. intros H. apply (f_equal String.list_ascii_of_string) in H. rewrite !append_list in H.
  by apply app_inv_head in H.
Qed.

Lemma device_key_same_length a s b u :
  String.length s = String.length u -> device_key a s = device_key b u -> a = b /\ s = u.
Proof.
  intros Hl H%device_key_suffix. apply app_inj_2 in H as [H1 H2].
  - split; by apply list_ascii_inj.
  - by rewrite !length_list_ascii.
Qed.

(** The last character of a text that is not empty. *)
Fixpoint last_char (s : string) : option ascii :=
  match s with
  | EmptyString => None
  | String c EmptyString => Some c
  | String _ s => last_char s
  end.

Lemma last_char_append a s c : last_char s = Some c -> last_char (a +:+ s) = Some c.
Proof.
  intros H. induction a as [|x a IH]; [done|]. change (String x a +:+ s) with (String x (a +:+ s)).
  destruct (a +:+ s) as [|d t]; [done|]. exact IH.
Qed.

Lemma device_key_last a s b u c d :
  last_char s = Some c -> last_char u = Some d -> c <> d -> device_key a s <> device_key b u.
Proof.
  intros Hs Hu Hne H. unfold device_key in H. apply (f_equal last_char) in H.
  rewrite !(last_char_append _ _ c) in H by (by repeat apply last_char_append).
  rewrite !(last_char_append _ _ d) in H by (by repeat apply last_char_append). congruence.
Qed.

Lemma last_char_contained s c : last_char s = Some c -> contains_char c s = true.
Proof.
  induction s as [|d s IH]; [done|]. cbn [contains_char]. destruct s as [|e s].
  - cbn. intros [= ->]. by rewrite Ascii.eqb_refl.
  - intros H. rewrite IH by exact H. by rewrite orb_true_r.
Qed.

Lemma last_char_Some s : s <> EmptyString -> exists c, last_char s = Some c.
Proof. induction s as [|c s IH]; [done|]. intros _. destruct s as [|d s]; [by exists c|]. by apply IH. Qed.

Lemma versioned_last kid : exists c, last_char (":enckey:v" +:+ show_Z kid) = Some c /\ c <> "y"%char /\ c <> "c"%char.
Proof.
  destruct (last_char_Some (show_Z kid)) as [c Hc].
  { unfold show_Z. destruct (kid <? 0); [done|]. by destruct (show_nonneg_head kid) as (c & s & _ & ->). }
  exists c. split; [by apply last_char_append|]. apply last_char_contained in Hc.
  split; intros ->; by rewrite show_Z_no_char in Hc.
Qed.

Lemma versioned_split a n :
  device_key a (":enckey:v" +:+ n) = ("gridtokenx:devices:" +:+ (a +:+ ":enckey:")) +:+ String "v" n.
Proof. unfold device_key. apply list_ascii_inj. rewrite !append_list, <- !app_assoc. reflexivity. Qed.

(** Whatever identifiers devices choose (they are not validated),
    the signing key, the AES key, its versions and the replay counter of all devices
    live under different Redis keys: no device can name itself so that one of its
    entries is another entry, its own or another device's. *)
Theorem device_entries_disjoint a b i j :
  in_i64 i = true -> in_i64 j = true ->
  (pubkey_redis_key a = pubkey_redis_key b -> a = b) /\
  (enckey_redis_key a = enckey_redis_key b -> a = b) /\
  (ic_key a = ic_key b -> a = b) /\
  (versioned_redis_key a i = versioned_redis_key b j -> a = b /\ i = j) /\
  pubkey_redis_key a <> enckey_redis_key b /\ pubkey_redis_key a <> ic_key b /\ enckey_redis_key a <> ic_key b /\
  versioned_redis_key a i <> pubkey_redis_key b /\ versioned_redis_key a i <> enckey_redis_key b /\
  versioned_redis_key a i <> ic_key b.
Proof.
  intros Hi Hj. change (ic_key a) with (device_key a ":ic"). change (ic_key b) with (device_key b ":ic").
  unfold pubkey_redis_key, enckey_redis_key, versioned_redis_key.
  destruct (versioned_last i) as (c & Hc & Hy & Hx).
  do 3 (split; [by intros [-> _]%(device_key_same_length _ _ _ _ eq_refl)|]).
  split; [|split; [|split; [|split; [|split; [|split]]]]].
  - rewrite !versioned_split. intros H.
    apply (f_equal (rsplit_once "v"%char)) in H. rewrite !rsplit_once_app in H by (by apply show_Z_no_char).
    injection H as H Hs. split; [|by apply show_Z_inj].
    apply (f_equal String.list_ascii_of_string) in H. rewrite !append_list in H.
    apply app_inv_head, app_inv_tail in H. by apply list_ascii_inj.
  - intros H. by apply device_key_same_length in H as [_ ?].
  - by eapply (device_key_last _ _ _ _ "y" "c").
  - by eapply (device_key_last _ _ _ _ "y" "c").
  - by eapply (device_key_last _ _ _ _ c "y").
  - by eapply (device_key_last _ _ _ _ c "y").
  - by eapply (device_key_last _ _ _ _ c "c").
Qed.

Lemma device_entries_disjoint_witness :
  versioned_redis_key "M1" 1 <> enckey_redis_key "M1:enckey:v1" /\
  (versioned_redis_key "M1" 1 = versioned_redis_key "M1" 1 -> "M1" = "M1" /\ 1 = 1).
Proof.
  destruct (device_entries_disjoint "M1" "M1:enckey:v1" 1 1 eq_refl eq_refl) as (_ & _ & _ & _ & _ & _ & _ & _ & H & _).
  split; [exact H|].
  exact (proj1 (proj2 (proj2 (proj2 (device_entries_disjoint "M1" "M1" 1 1 eq_refl eq_refl))))).
Defined.
