(* ===== verification/Clients.v ===== *)
(** * Outgoing clients (platform/client.rs, db.rs, influxdb.rs: record, batcher.rs: forward)

    The platform client that would forward verified readings, the batch worker's flush
    around it, with the branch for a failed forward and the metrics it reports, the pool
    of the metering database and the entry point of the InfluxDB writer.  HTTP/2, the
    Connect protocol and the Postgres driver are parameters. *)

From Stdlib Require Import ZArith Lia Ascii String.
From stdpp Require Import base gmap strings list numbers.
From S2P Require Import Prelude RustStd External Models Stores Settlement Sinks Batcher Delivery Metrics Boot.

Open Scope Z_scope.
Open Scope bridge_scope.

(** ** The platform client *)

(** The transport: parsing an address, opening a plaintext HTTP/2 connection, and the
    protobuf message of a reading. *)
Class OracleService := {
  Uri : Type;
  parse_uri : string -> option Uri;
  Http2Connection : Type;
  connect_plaintext : Uri -> option Http2Connection;
  ReadingMsg : Type
}.

Record MeterReadingBatchResponse : Type := { accepted_count : Z; rejected_count : Z }.

(** The answer of one [IngestBatch] call. *)
Inductive rpc : Type :=
| RpcReply (r : MeterReadingBatchResponse)
| RpcFailed (status : string).

Inductive platform_error : Type :=
| BadUri
| ConnectRefused
| RpcError (status : string).

Section Platform.
Context {O : OracleService}.

Record PlatformClient : Type := { pc_conn : Http2Connection; pc_limit : Z; pc_uri : Uri }.

Definition platform_new (base_url : string) : outcome platform_error PlatformClient :=
  match parse_uri base_url with
  | Some uri =>
      match connect_plaintext uri with
      | Some conn => Ok {| pc_conn := conn; pc_limit := 1024; pc_uri := uri |}
      | None => Err ConnectRefused
      end
  | None => Err BadUri
  end.

(** One call with the whole batch; [sent] is what went over the connection. *)
Definition submit_meter_reading_batch (answer : list ReadingMsg -> rpc) (sent : list (list ReadingMsg))
    (requests : list ReadingMsg) : list (list ReadingMsg) * outcome platform_error MeterReadingBatchResponse :=
  (sent ++ [requests],
   match answer requests with
   | RpcReply r => Ok {| accepted_count := r.(accepted_count); rejected_count := r.(rejected_count) |}
   | RpcFailed status => Err (RpcError status)
   end).

(** In [ZoneEventIngester::new]: best effort. *)
Definition ingester_platform (api_services_url : string) : option PlatformClient :=
  match platform_new api_services_url with Ok c => Some c | _ => None end.

(** ** The flush of the batch worker *)

(** [count as i32], and back to [usize]. *)
Definition as_i32 (z : Z) : Z := let r := wrap 32 z in if r <? 2 ^ 31 then r else r - 2 ^ 32.

Definition bypass (count : nat) : outcome platform_error MeterReadingBatchResponse :=
  Ok {| accepted_count := as_i32 (Z.of_nat count); rejected_count := 0 |}.

(** The metrics of a forwarded batch are recorded after every stream's XACK. *)
Definition success_metrics (entries : list (BatchEntry ReadingMsg)) (response : MeterReadingBatchResponse)
    (acks : outcome redis_error unit) (duration_ms : f64) : list emission :=
  match acks with
  | Ok _ => record_batch_forward (Z.of_nat (length entries)) (wrap 64 response.(accepted_count))
              (wrap 64 response.(rejected_count)) duration_ms
  | _ => []
  end.

(** [flush] for any [result] of the forward: a failed one keeps the batch. *)
Definition flush_forwarded (w : BatchWorker (MeterReading := ReadingMsg)) (env : flush_env) (duration_ms : f64)
    (result : outcome platform_error MeterReadingBatchResponse)
    : BatchWorker * outcome redis_error unit * list emission :=
  match w.(batch) with
  | [] => (w, Ok (), [])
  | entries =>
      match result with
      | Ok response =>
          let '(a, r) := process_success w.(acked) entries env.(fe_order) env.(fe_fate) in
          ({| batch := []; batch_size := w.(batch_size); bw_running := w.(bw_running); acked := a |}, r,
           success_metrics entries response r duration_ms)
      | _ => (w, Ok (), record_batch_failure "grpc_error")
      end
  end.

(** ** Lemmas *)

Lemma as_i32_id z : 0 <= z < 2 ^ 31 -> as_i32 z = z.
Proof. intros H. unfold as_i32. rewrite wrap_small by lia. by destruct (z <? 2 ^ 31) eqn:E; breflect; [|lia]. Qed.

(** The worker's flush is this flush on the bypassed forward. *)
Lemma flush_is_bypass w env ms :
  (flush_forwarded w env ms (bypass (length w.(batch)))).1 = flush w env.
Proof.
  unfold flush_forwarded, flush, bypass. destruct (batch w); [done|]. by destruct (process_success _ _ _ _).
Qed.

(** A flush through the platform: nothing is acknowledged and nothing leaves the batch
    unless the platform answered, and the platform sees the whole batch in one call. *)
Lemma forward_failure_keeps w env ms answer sent status :
  answer (request <$> w.(batch)) = RpcFailed status -> w.(batch) <> [] ->
  let '(sent', result) := submit_meter_reading_batch answer sent (request <$> w.(batch)) in
  sent' = sent ++ [request <$> w.(batch)] /\
  flush_forwarded w env ms result = (w, Ok (), record_batch_failure "grpc_error").
Proof.
  intros Ha Hb. unfold submit_meter_reading_batch. rewrite Ha. split; [done|].
  unfold flush_forwarded. by destruct (batch w).
Qed.

(** Once every stream is acknowledged, the bypass counts each entry of the batch as
    accepted, for batches below [2^31] entries. *)
Lemma bypass_counts w env ms a r :
  w.(batch) <> [] -> Z.of_nat (length w.(batch)) < 2 ^ 31 ->
  process_success w.(acked) w.(batch) env.(fe_order) env.(fe_fate) = (a, Ok r) ->
  (flush_forwarded w env ms (bypass (length w.(batch)))).2 =
    record_batch_forward (Z.of_nat (length w.(batch))) (Z.of_nat (length w.(batch))) 0 ms.
Proof.
  intros Hb Hl Hp. unfold flush_forwarded, bypass. destruct (batch w) as [|e es] eqn:E; [done|]. rewrite Hp. cbn [snd].
  unfold success_metrics. cbn [accepted_count rejected_count]. rewrite as_i32_id by lia.
  by rewrite !wrap_small by lia.
Qed.

(** An unreachable platform does not keep the ingester from starting, and what it does
    then is the same. *)
Lemma platform_optional url url_ok answers n uuid cfg z :
  ingester_new url_ok answers true n uuid cfg = Ok z ->
  ingester_new url_ok answers (is_someb (ingester_platform url)) n uuid cfg =
    Ok {| zi_streams := z.(zi_streams); zi_group := z.(zi_group); zi_consumer := z.(zi_consumer);
          zi_platform := is_someb (ingester_platform url); zi_config := z.(zi_config) |}.
Proof.
  unfold ingester_new. destruct (ensure url_ok RedisError); [cbn [mbind]|done..].
  destruct (create_connection_manager answers) as [[[]| |] k]; cbn [fst mbind]; [|done..]. by intros [= <-].
Qed.
End Platform.

(** ** The metering pool *)

Record PgPoolOptions : Type := { max_connections : Z; acquire_timeout_secs : Z }.

(** [dial]: the driver opens a pool with these options at a URL, or fails. *)
Definition connect_pool {Pool E : Type} (dial : PgPoolOptions -> string -> outcome E Pool) (url : string) : outcome E Pool :=
  dial {| max_connections := 4; acquire_timeout_secs := 3 |} url.

(** ** The InfluxDB writer *)

(** [InfluxWriter::record]: a refused point is dropped with a warning. *)
Definition influx_record {I : InfluxClient} (w : writer TelemetryPoint (list DataPoint)) (p : TelemetryPoint)
    : writer TelemetryPoint (list DataPoint) :=
  (record CHANNEL_CAPACITY w p).1.

(** Recording never grows the queue past its capacity and never touches what was
    queued, batched or written. *)
Lemma influx_record_bounded {I : InfluxClient} (w : writer TelemetryPoint (list DataPoint)) p :
  (length w.(w_queue) <= CHANNEL_CAPACITY)%nat ->
  (length (influx_record w p).(w_queue) <= CHANNEL_CAPACITY)%nat /\
  w.(w_queue) `prefix_of` (influx_record w p).(w_queue) /\
  (influx_record w p).(w_batch) = w.(w_batch) /\ (influx_record w p).(w_sink) = w.(w_sink).
Proof.
  intros H. unfold influx_record, record. destruct (_ && _) eqn:E; cbn [fst w_queue w_batch w_sink].
  - breflect. rewrite length_app. cbn [length]. split_and!; [lia|by apply prefix_app_r|done|done].
  - done.
Qed.
